(* ===== verification/_CoqProject ===== *)
-Q . S2P
Prelude.v
Netip.v
Sha256.v
Users.v
Keys.v
NetipText.v
AddrText.v
Addr6Text.v
GoText.v
GoFlag.v
IPPool.v
RateLimit.v
Config.v
YamlConfig.v
Nft.v
NftStats.v
Metrics.v
MultiAccept.v
Tproxy.v
Relay.v
SpoofMain.v
Netstack.v
NetstackSetup.v
Congestion.v
TproxyUdp.v
TproxyRun.v
GoIO.v
Obfs.v
LaneCrypto.v
Lane.v
Tun.v
Handshake.v
MultiClient.v
Supervisor.v
ServerPool.v
Server.v
Tunnel.v
MultiRun.v
ServerRun.v
Cli.v
SockTune.v
CliMain.v
