(* ===== verification/Prelude.v ===== *)
(** * packethose: a verification development

    packethose is a layer-3 VPN: a client and a server exchange IP packets over
    several TCP connections ("lanes").  A client opens its lanes under supervision,
    each lane starts with a Noise IK handshake hidden in an obfuscation envelope,
    and then carries framed, sealed packets between a TUN device and the socket.
    The server runs either for one client on preconfigured queues, or for many
    clients that share one TUN device, each authorized by its static key and given
    an address from a pool.

    ** The program's parts and the files that model them

    - [Prelude]: results of Go calls (value, error, panic), bytes, integers at
      their width, slices, tactics and hint databases.
    - [Netip], [NetipText], [AddrText], [Addr6Text], [GoText], [GoFlag], [Sha256], [GoIO]:
      what the program uses of Go's standard library: net/netip addresses, prefixes and
      endpoints with their text, which is proved to be read back for both families, white
      space of package strings, the parsing of package flag, crypto/sha256 (used to derive client
      ids and IPv6 candidates), and a connection with its randomness and the caller's
      state in a state and error monad ([M], [World]).
    - [Users] (users.go): the database of authorized clients, [UserDB], with
      [NewUserDB], key lookup, session slots and address reservations.
    - [Keys] (users.go): [ParseKey] and [FormatKey], over base64 and hex.
    - [IPPool] (ippool.go): [ipPool] with [newIPPool], [AllocateFor], [Claim] and
      [Release], for both address families.
    - [RateLimit] (ratelimit.go): [connLimiter] with [allowIP], [acquireSlot] and the
      release closures.
    - [Config] (config.go, packetio.go): configurations, [Validate], cipher names, the
      offload agreement of the queues.
    - [YamlConfig] (yaml_config.go): the configuration document, [ToUsers] and the
      overlay [ApplyServer].
    - [Nft] (nft_linux.go): [NewNFTInstaller], the script of [buildScript], and
      [Install], [Remove] and [Reconcile] over commands; [NftStats]
      (nft_stats_linux.go): [parseNFTSetCounters] and [Stats].
    - [Metrics] (metrics.go): the counters, [WritePrometheus] and [serveMetrics].
    - [Tproxy] (tproxy_listen_linux.go): isolation, original destinations, and the
      table of UDP flows with its reply pumps.
    - [Relay] (tproxy_listen_linux.go, tproxy-spoof/main.go): the TCP relay, and the
      helper that dials from the client's address; [SpoofMain]: that helper's [main].
    - [TproxyUdp] (tproxy_listen_linux.go, tproxy_udp_batch_linux.go): control functions
      of the sockets, the sockets of a UDP flow, the receive buffers and loop; [TproxyRun]:
      the accept loops beside the reply pumps, with the clock the pumps read.
    - [Netstack] (netstack/netstack.go): the link endpoint and dialing addresses;
      [NetstackSetup]: [NewStack], [AddAddress] and [Close].
    - [Congestion] (bbr_linux.go, brutal_linux.go): the socket tuners.
    - [Tun] (tun_linux.go): opening the queues of a device, and [ReadBatch].
    - [Obfs] (obfs.go): the envelope, [writeObfMsg] and [readObfMsg].
    - [LaneCrypto] (lane_crypto.go): [frameAEAD] with its counter nonces, key
      lengths, client ids.
    - [Lane] (lane.go): [tunToSock], [tunToSockBatch], [sockToTun] and [runLane].
    - [Handshake] (handshake.go): payloads, [serverAuthorizer], [initiateHandshake]
      and [acceptHandshake].
    - [MultiClient] (multiclient_linux.go, sessionpio.go): the session table, dispatch
      of packets, collection and tear-down, and [handleConn]; [MultiRun]: the collector
      with its ticks in time, and [multiClientLoop] from the shared device to its deferred
      functions.
    - [MultiAccept] (multiclient_linux.go): the accept loop of many clients, with the
      handshakes in flight, and the set-up of the shared device.
    - [Supervisor] (supervisor.go, client.go): [NewClient], [runSupervised], backoff, the client's
      connection source, and the single-client accept loop.
    - [ServerPool] (supervisor.go): the single-client accept loop and its lanes around
      the pool's channel.
    - [Server] (server.go): [NewServer], [ReloadUsers] and the mode set-up of [Run];
      [ServerRun]: [Run] as a whole, with what it starts and its deferred functions.
    - [Tunnel]: the components together, a client's lane and a server's over one
      connection, for the single-client server and for the multi-client one.
    - [Cli] (cmd/packethose/main.go): the configurations assembled from flags, key
      files and the YAML file, reload, and the commands run on an assignment; [CliMain]:
      both flag sets and [main] with its commands.
    - [SockTune] (lane.go, tproxy_listen_linux.go): the options of lane sockets and of
      relayed ones.

    Records have the fields of the Go structs that the modelled operations read or
    write; loggers, mutexes and callbacks that only report are left out.  A function
    that mutates an object returns the new object.  Where several objects are reached
    through pointers that other goroutines share, the state is explicit: sessions live
    in a heap and the tables of [MultiClient.mcState] hold positions in it, and so do
    the UDP flows of [Tproxy.udpState].  Commands and system calls are recorded in the
    order they are issued, so that what is left behind can be stated.

    ** What the theorems show

    - Data path.  What a lane's sender takes from its TUN, in single frames or in
      batches, in the clear or sealed, is what the other side's receiver writes to its
      TUN, in order; the receiver stops on every input, and on an encrypted lane it writes
      only packets of frames that opened, in order, under the lane's successive nonces
      (frame types, which are not authenticated, apart); each frame is sealed under a nonce
      of its own.  End to end, from the client's
      dial to the packets on the other side's device, a lane of a configured client and
      server delivers both ways; with many clients, a packet dispatched to a session
      reaches that session's client.
    - Handshake.  Two honest parties agree on keys, identity and addresses; a lane is
      admitted only for the key message 1 proved and the authorizer accepts, and nothing is
      assigned before;
      payloads and envelope messages survive the round trip and malformed ones are
      refused, within the length bound.
    - Addresses.  Pools keep one owner per address in every sequence of operations,
      respect reservations and the server's own address, are complete for IPv4, and
      produce valid IPv6 candidates.
    - Sessions.  Over every interleaving of the goroutines, as a step relation: live
      sessions own their addresses, a queue only ever holds packets for its own session
      (which may have been collected since the lookup), queues and quotas are bounded, a rejected connection leaves no
      address behind; an idle session is collected in time, and when the loop returns its
      sessions are closed and its devices released.  Where an interleaving breaks a promise (a reconnection between
      collection and tear-down) a theorem exhibits it.
    - Admission.  The limiter's table and permits are bounded, one address' traffic
      does not affect another's bucket, permits come back exactly once; the accept
      loops' gates hold, and the counters account for every connection; [Validate] accepts
      exactly the consistent configurations, and startup from one succeeds except for too
      small subnets.
    - Configuration.  Key text is read back; the file overlay yields well-formed
      configurations, with the precedence of each setting; the command line's
      configuration is validated except for named omissions.  Flags survive the round
      trip through the command line, and generated keys, given to a server and a client,
      make them accept each other.
    - Forwarding.  The nftables script is the rendering of an abstract ruleset; the
      commands of install, remove and reconcile are determined on every branch; the
      counters read back are exactly those of the active sets; the UDP proxy sends a
      datagram only on a flow of its own client and destination, and not into the pools
      under isolation, its receive loop forwards exactly the admitted datagrams in
      order, and flows leave the table once they carried nothing for the timeout; relayed
      TCP connections carry every byte in order, pass half-closes on, and end when their
      peers do.
    - Devices and resources.  Opening a device leaks no descriptor; batched reads lose
      and reorder nothing; the endpoint's queue is first in, first out; [Run] takes down
      what it brought up on every return, but for the TCP connections the proxy is relaying
      and the metrics server, which the caller's context stops; the congestion control and the options of a
      lane's socket are determined.
    - Supervision.  In the single-client server every connection is in one place, at
      most twice the lanes and one are open, and they reach lanes in order.  The retry
      waits follow the doubling schedule within their jitter, and the address callback runs
      once.

    ** Parameters

    Code outside the repository is a class or section variable, with laws that its
    documentation states: [Obfs.ObfsCrypto] (ChaCha20 and HKDF), [LaneCrypto.AEADs]
    (the AEAD constructors; [aead_ok] says that opening inverts sealing),
    [Handshake.NoiseIK] (flynn/noise: completeness of the IK pattern, and HKDF output
    lengths), [NetstackSetup.Gvisor] (the gVisor stack with its NICs, addresses and
    routes), and the token bucket of x/time/rate in [RateLimit].  Each has a concrete
    instance that the witnesses use.  Time, random bytes, the orders in which Go ranges
    over maps, device reads and select choices are arguments.  So are running a command
    ([exec] in [Nft] and [ServerRun]), the system calls of [Tun], the kernel's answer to
    a socket option in [Congestion], [SockTune] and [TproxyUdp], reading a file and decoding YAML in [Cli], the
    control messages of a datagram in [Tproxy], and the listing's JSON value in
    [NftStats]; [quote] is strconv.Quote.

    ** Fuel

    [IPPool.walk4] takes one unit per address of the subnet, enough because the walk
    leaves the subnet after that many steps; [Lane.sockToTun_fuel] takes one unit per
    unread byte, enough because each iteration consumes a header; [Lane.unbatch] takes
    one unit per byte of the frame.  Totality is proved: the out-of-fuel results are
    unreachable.  [NetipText.parse6_loop] takes nine units for at most eight groups;
    [GoText] one per byte; [Tun.drive] one per read, each call consuming one.

    ** Not modelled

    The usage text, delivery of signals, logging, the choice of a dialer, the stubs for
    systems other than Linux, the sockets of the gVisor stack once they are dialed, and the
    wrappers of single system calls (recvmmsg, and Write and Close of a TUN queue): calls
    into the operating system or a library with no decision of the program's own. *)

From Stdlib Require Export Init.Byte.
From Stdlib Require Import Strings.Byte.
From stdpp Require Export base list list_numbers strings gmap vector.

#[global] Open Scope Z_scope.

Abbreviation byte := Init.Byte.byte.

(** ** Outcomes of Go calls

    [Ok a] is a normal return, [Err e] a return with a non-nil error, and
    [Panic] a run-time panic (a failed [As4], an index out of range). *)
Inductive result (E A : Type) : Type :=
| Ok (a : A)
| Err (e : E)
| Panic.
Arguments Ok {E A} a.
Arguments Err {E A} e.
Arguments Panic {E A}.

Declare Scope go_scope.
Delimit Scope go_scope with go.

Definition rbind {E A B : Type} (m : result E A) (k : A → result E B) : result E B :=
  match m with
  | Ok a => k a
  | Err e => Err e
  | Panic => Panic
  end.

Notation "'let?' x := m 'in' k" := (rbind m (λ x, k))
  (at level 10, x pattern, m at level 200, k at level 200) : go_scope.
#[global] Open Scope go_scope.

(** The value of a call that returned normally. *)
Definition ok {E A : Type} (m : result E A) : option A :=
  match m with Ok a => Some a | _ => None end.

Definition is_ok {E A : Type} (m : result E A) : bool :=
  match m with Ok _ => true | _ => false end.

(** A computed success, without normalising the value it returns. *)
Lemma ok_default {E A : Type} (m : result E A) (d : A) :
  is_ok m = true → m = Ok (default d (ok m)).
Proof. by destruct m. Qed.

(** ** Bytes as 8-bit integers *)

Definition b2z (b : byte) : Z := Z.of_N (Byte.to_N b).

(** Go's conversion [byte(z)]: truncation to eight bits. *)
Definition z2b (z : Z) : byte :=
  match Byte.of_N (Z.to_N (z mod 256)) with Some b => b | None => x00 end.

#[global] Instance byte_eq_dec : EqDecision byte := Byte.byte_eq_dec.
#[global] Program Instance byte_countable : Countable byte :=
  inj_countable Byte.to_N Byte.of_N _.
Next Obligation. apply Byte.of_to_N. Qed.
#[global] Instance byte_inhabited : Inhabited byte := populate x00.

(** ** Machine integers *)

(** [wrap w z] is [z] stored in an unsigned [w]-bit variable. *)
Definition wrap (w z : Z) : Z := z mod 2 ^ w.

(** [swrap w z] is [z] stored in a signed [w]-bit variable. *)
Definition swrap (w z : Z) : Z := (z + 2 ^ (w - 1)) mod 2 ^ w - 2 ^ (w - 1).

(** encoding/binary: [BigEndian.PutUint16] / [AppendUint16] of [uint16(n)]. *)
Definition be16 (n : Z) : list byte := [z2b (Z.shiftr (wrap 16 n) 8); z2b (wrap 16 n)].

(** [BigEndian.Uint16] of two bytes. *)
Definition u16 (b0 b1 : byte) : Z := Z.lor (b2z b1) (Z.shiftl (b2z b0) 8).

(** [LittleEndian.PutUint64] of a [uint64]: eight bytes, low byte first. *)
Fixpoint le_bytes (n : nat) (z : Z) : list byte :=
  match n with
  | O => []
  | S n' => z2b z :: le_bytes n' (Z.shiftr z 8)
  end.

(** A byte string read as a big-endian number. *)
Fixpoint be_Z (l : list byte) : Z :=
  match l with
  | [] => 0
  | b :: l' => b2z b * 2 ^ (8 * Z.of_nat (length l')) + be_Z l'
  end.

(** ** Go arrays and slices *)

(** [l[i:j]] of a slice, for [i <= j <= len(l)]. *)
Definition slice {A : Type} (l : list A) (i j : nat) : list A := take (j - i) (drop i l).

(** [var a [n]byte; copy(a[:], l)]: missing bytes stay zero, extra bytes are dropped. *)
Definition array_of (n : nat) (l : list byte) : vec byte n :=
  fun_to_vec (λ i : fin n, default x00 (l !! fin_to_nat i)).

(** [[]byte(s)] of a string. *)
Definition bytes_of (s : string) : list byte := String.list_byte_of_string s.

(** [string(l)] of a byte slice. *)
Definition string_of (l : list byte) : string := String.string_of_list_byte l.

Definition zeros (n : nat) : list byte := replicate n x00.

#[global] Arguments array_of : simpl never.
#[global] Arguments z2b : simpl never.
#[global] Arguments b2z : simpl never.
#[global] Arguments wrap : simpl never.
#[global] Arguments swrap : simpl never.
#[global] Arguments u16 : simpl never.
#[global] Arguments slice : simpl never.

(** ** Tactics and hint databases *)

Create HintDb phose discriminated.
Create Rewrite HintDb phose_len.

(** Case analysis on every [if] and [match] of a hypothesis or the goal. *)
Ltac split_match :=
  repeat (first [ progress simplify_eq/= | case_match; simplify_eq/= ]).

(** Decides a closed proposition by evaluation. *)
Ltac vm_decide :=
  match goal with |- ?P => apply (bool_decide_unpack P); vm_compute; exact I end.

(** Turns the boolean tests of the code into propositions. *)
Ltac bool_to_prop :=
  repeat match goal with
  | H : andb _ _ = true |- _ => apply andb_true_iff in H; destruct H
  | H : andb _ _ = false |- _ => apply andb_false_iff in H
  | H : orb _ _ = false |- _ => apply orb_false_iff in H; destruct H
  | H : orb _ _ = true |- _ => apply orb_true_iff in H
  | H : negb _ = true |- _ => apply negb_true_iff in H
  | H : negb _ = false |- _ => apply negb_false_iff in H
  | H : bool_decide _ = true |- _ => apply bool_decide_eq_true in H
  | H : bool_decide _ = false |- _ => apply bool_decide_eq_false in H
  | H : (_ <? _)%Z = true |- _ => apply Z.ltb_lt in H
  | H : (_ <? _)%Z = false |- _ => apply Z.ltb_ge in H
  | H : (_ <=? _)%Z = true |- _ => apply Z.leb_le in H
  | H : (_ <=? _)%Z = false |- _ => apply Z.leb_gt in H
  | H : (_ =? _)%Z = true |- _ => apply Z.eqb_eq in H
  | H : (_ =? _)%Z = false |- _ => apply Z.eqb_neq in H
  | H : (_ <? _)%nat = true |- _ => apply Nat.ltb_lt in H
  | H : (_ <? _)%nat = false |- _ => apply Nat.ltb_ge in H
  | H : (_ <=? _)%nat = true |- _ => apply Nat.leb_le in H
  | H : (_ <=? _)%nat = false |- _ => apply Nat.leb_gt in H
  | H : (_ =? _)%nat = true |- _ => apply Nat.eqb_eq in H
  | H : (_ =? _)%nat = false |- _ => apply Nat.eqb_neq in H
  end.

(** ** Lemmas on bytes and machine integers *)

Lemma b2z_range b : 0 <= b2z b < 256.
Proof.
  unfold b2z. pose proof (Byte.to_N_bounded b). lia.
Qed.

Lemma b2z_z2b z : b2z (z2b z) = z mod 256.
Proof.
  unfold b2z, z2b. pose proof (Z.mod_pos_bound z 256 eq_refl).
  destruct (Byte.of_N (Z.to_N (z mod 256))) eqn:E.
  - apply Byte.to_of_N in E. rewrite E. lia.
  - apply Byte.of_N_None_iff in E. lia.
Qed.

Lemma z2b_b2z b : z2b (b2z b) = b.
Proof.
  unfold z2b. rewrite Z.mod_small by apply b2z_range.
  unfold b2z. by rewrite N2Z.id, Byte.of_to_N.
Qed.

#[global] Instance b2z_inj : Inj (=) (=) b2z.
Proof. intros a b H. by rewrite <-(z2b_b2z a), H, z2b_b2z. Qed.

Lemma b2z_z2b_small z : 0 <= z < 256 → b2z (z2b z) = z.
Proof. intros. rewrite b2z_z2b. by apply Z.mod_small. Qed.

Lemma wrap_small w z : 0 <= z < 2 ^ w → wrap w z = z.
Proof. apply Z.mod_small. Qed.

Lemma swrap_small w z : 0 < w → - 2 ^ (w - 1) <= z < 2 ^ (w - 1) → swrap w z = z.
Proof.
  intros Hw Hz. unfold swrap. assert (2 ^ w = 2 * 2 ^ (w - 1)) by (rewrite <-Z.pow_succ_r by lia; f_equal; lia).
  rewrite Z.mod_small; lia.
Qed.

Lemma wrap_range w z : 0 <= w → 0 <= wrap w z < 2 ^ w.
Proof. intros. apply Z.mod_pos_bound. lia. Qed.

(** Disjoint bits: an [or] with a shifted value is a sum. *)
Lemma lor_shiftl_add a b k : 0 <= k → 0 <= b < 2 ^ k → Z.lor (Z.shiftl a k) b = a * 2 ^ k + b.
Proof.
  intros Hk Hb. rewrite Z.shiftl_mul_pow2 by lia.
  rewrite <-Z.lxor_lor, <-Z.add_nocarry_lxor; [done| |];
    apply Z.bits_inj'; intros n Hn; rewrite Z.land_spec, Z.bits_0; destruct (Z.ltb_spec n k).
  1,3: by rewrite (Z.mul_pow2_bits_low _ k) by lia.
  all: assert (Z.testbit b n = false) as ->; [|by rewrite andb_false_r].
  all: rewrite Z.testbit_false, Z.div_small by (pose proof (Z.pow_le_mono_r 2 k n); lia); done.
Qed.

Lemma u16_eq b0 b1 : u16 b0 b1 = 256 * b2z b0 + b2z b1.
Proof.
  unfold u16. pose proof (b2z_range b1). rewrite Z.lor_comm, lor_shiftl_add by lia. lia.
Qed.

Lemma u16_range b0 b1 : 0 <= u16 b0 b1 < 2 ^ 16.
Proof. rewrite u16_eq. pose proof (b2z_range b0). pose proof (b2z_range b1). lia. Qed.

Lemma u16_bytes b0 b1 : z2b (Z.shiftr (u16 b0 b1) 8) = b0 ∧ z2b (u16 b0 b1) = b1.
Proof.
  rewrite u16_eq. pose proof (b2z_range b0). pose proof (b2z_range b1).
  rewrite Z.shiftr_div_pow2 by lia. change (2 ^ 8) with 256.
  replace ((256 * b2z b0 + b2z b1) / 256) with (b2z b0) by (apply (Z.div_unique _ _ _ (b2z b1)); lia).
  split; [apply z2b_b2z|]. apply (inj b2z).
  rewrite b2z_z2b, Z.mul_comm, Z.add_comm, Z_mod_plus_full. by apply Z.mod_small.
Qed.

Lemma be16_u16 b0 b1 : be16 (u16 b0 b1) = [b0; b1].
Proof.
  unfold be16. rewrite wrap_small by apply u16_range. destruct (u16_bytes b0 b1) as [-> ->]. done.
Qed.

Lemma length_be16 n : length (be16 n) = 2%nat.
Proof. done. Qed.

(** Writing a 16-bit field and reading it back gives the value modulo [2^16]. *)
Lemma u16_be16 n :
  u16 (z2b (Z.shiftr (wrap 16 n) 8)) (z2b (wrap 16 n)) = wrap 16 n.
Proof.
  rewrite u16_eq, !b2z_z2b, Z.shiftr_div_pow2 by lia.
  pose proof (wrap_range 16 n ltac:(lia)) as Hw.
  change (2 ^ 8) with 256. change (2 ^ 16) with 65536 in Hw.
  rewrite (Z.mod_small (wrap 16 n / 256)) by
    (split; [apply Z.div_pos; lia | apply Z.div_lt_upper_bound; lia]).
  pose proof (Z.div_mod (wrap 16 n) 256). lia.
Qed.

Lemma length_le_bytes n z : length (le_bytes n z) = n.
Proof. revert z; induction n; intros; simpl; auto. Qed.

(** The little-endian rendering of a counter is injective below its width. *)
Lemma le_bytes_inj n x y :
  0 <= x < 2 ^ (8 * Z.of_nat n) → 0 <= y < 2 ^ (8 * Z.of_nat n) →
  le_bytes n x = le_bytes n y → x = y.
Proof.
  revert x y. induction n as [|n IH]; intros x y Hx Hy; [simpl in *; lia|].
  cbn [le_bytes]. intros [= Hb Hr].
  apply (f_equal b2z) in Hb. rewrite !b2z_z2b in Hb.
  rewrite !Z.shiftr_div_pow2 in Hr by lia. change (2 ^ 8) with 256 in Hr.
  assert (2 ^ (8 * Z.of_nat (S n)) = 256 * 2 ^ (8 * Z.of_nat n)) as Hp.
  { replace (8 * Z.of_nat (S n)) with (8 + 8 * Z.of_nat n) by lia.
    by rewrite Z.pow_add_r by lia. }
  rewrite Hp in Hx, Hy.
  apply IH in Hr;
    [|split; [apply Z.div_pos; lia|apply Z.div_lt_upper_bound; lia]..].
  pose proof (Z.div_mod x 256). pose proof (Z.div_mod y 256). lia.
Qed.

Lemma be_Z_range l : 0 <= be_Z l < 2 ^ (8 * Z.of_nat (length l)).
Proof.
  induction l as [|b l IH]; cbn [be_Z length]; [done|].
  pose proof (b2z_range b).
  replace (8 * Z.of_nat (S (length l))) with (8 + 8 * Z.of_nat (length l)) by lia.
  rewrite Z.pow_add_r by lia. nia.
Qed.

Lemma be_Z_app l k : be_Z (l ++ k) = be_Z l * 2 ^ (8 * Z.of_nat (length k)) + be_Z k.
Proof.
  induction l as [|b l IH]; cbn [be_Z app]; [lia|].
  rewrite IH, length_app, Nat2Z.inj_add, Z.mul_add_distr_l, Z.pow_add_r by lia. lia.
Qed.

Lemma be_Z_inj l k : length l = length k → be_Z l = be_Z k → l = k.
Proof.
  revert k. induction l as [|b l IH]; intros [|c k] Hl H; try done.
  cbn [be_Z] in H. simpl in Hl. injection Hl as Hl. rewrite Hl in H.
  pose proof (be_Z_range l) as Rl. pose proof (be_Z_range k) as Rk. rewrite Hl in Rl.
  assert (b2z b = b2z c) as Hb by nia.
  apply (inj b2z) in Hb as ->. f_equal. apply IH; [done|lia].
Qed.

(** The big-endian rendering of a number on [n] bytes. *)
Definition be_bytes (n : nat) (z : Z) : list byte := reverse (le_bytes n z).
#[global] Arguments be_bytes : simpl never.

Lemma length_be_bytes n z : length (be_bytes n z) = n.
Proof. unfold be_bytes. by rewrite length_reverse, length_le_bytes. Qed.

Lemma be_Z_be_bytes n z : be_Z (be_bytes n z) = z mod 2 ^ (8 * Z.of_nat n).
Proof.
  revert z. induction n as [|n IH]; intros z; [by rewrite Z.mod_1_r|].
  unfold be_bytes in *. cbn [le_bytes]. rewrite reverse_cons, be_Z_app, IH.
  cbn [length be_Z]. rewrite b2z_z2b, Z.shiftr_div_pow2 by lia.
  replace (8 * Z.of_nat (S n)) with (8 + 8 * Z.of_nat n) by lia.
  rewrite Z.pow_add_r by lia. change (2 ^ 8) with 256.
  rewrite (Z.rem_mul_r z 256) by lia.
  change (8 * Z.of_nat 1) with 8. change (2 ^ (8 * Z.of_nat 0)) with 1.
  change (2 ^ 8) with 256. lia.
Qed.

(** ** Lemmas on arrays and slices *)

Lemma length_slice {A} (l : list A) i j : (i <= j <= length l)%nat → length (slice l i j) = (j - i)%nat.
Proof. intros. unfold slice. rewrite length_take, length_drop. lia. Qed.

Lemma slice_app_l {A} (l k : list A) j : (j <= length l)%nat → slice (l ++ k) 0 j = slice l 0 j.
Proof. intros. unfold slice. rewrite !drop_0, take_app_le by lia. done. Qed.

(** The slice that starts where a prefix of known length ends. *)
Lemma slice_app_r {A} (l k : list A) i j :
  (length l <= i)%nat → slice (l ++ k) i j = slice k (i - length l) (j - length l).
Proof.
  intros. unfold slice. rewrite drop_app_ge by lia. f_equal. lia.
Qed.

Lemma slice_app_mid {A} (l m k : list A) i j :
  length l = i → (i + length m)%nat = j → slice (l ++ m ++ k) i j = m.
Proof.
  intros. rewrite slice_app_r by lia. unfold slice.
  replace (i - length l)%nat with 0%nat by lia. rewrite drop_0, take_app_le by lia.
  apply take_ge. lia.
Qed.

Lemma vec_to_list_array_of n l :
  length l = n → vec_to_list (array_of n l) = l.
Proof.
  intros Hl. apply list_eq. intros i.
  destruct (decide (i < n)%nat) as [Hi|Hi].
  - destruct (lookup_lt_is_Some_2 l i) as [x Hx]; [lia|]. rewrite Hx.
    apply vlookup_lookup'. exists Hi. unfold array_of.
    rewrite lookup_fun_to_vec, fin_to_nat_to_fin, Hx. done.
  - rewrite !lookup_ge_None_2; [done|lia|]. rewrite length_vec_to_list. lia.
Qed.

Lemma array_of_vec_to_list n (v : vec byte n) : array_of n (vec_to_list v) = v.
Proof.
  apply vec_to_list_inj2. apply vec_to_list_array_of, length_vec_to_list.
Qed.

(** Byte arrays as map keys, by an encoding that computes. *)
#[global] Instance array_countable n : Countable (vec byte n) | 0 :=
  inj_countable' vec_to_list (array_of n) (array_of_vec_to_list n).

#[export] Hint Rewrite length_le_bytes length_be_bytes @length_vec_to_list
  @length_app @length_cons @length_replicate length_be16 : phose_len.

Ltac len := autorewrite with phose_len in *; simpl in *; try lia.

#[export] Hint Resolve b2z_range be_Z_range wrap_range : phose.

(** ** Shift and mask arithmetic *)

Lemma shiftr_lxor_0 a b k :
  (Z.shiftr (Z.lxor a b) k =? 0) = true ↔ Z.shiftr a k = Z.shiftr b k.
Proof. rewrite Z.eqb_eq, Z.shiftr_lxor. apply Z.lxor_eq_0_iff. Qed.

(** ** Runs of a step relation *)

(** What every step keeps, every run keeps. *)
Lemma rtc_invariant {A : Type} (R : A → A → Prop) (P : A → Prop) x y :
  (∀ a b, P a → R a b → P b) → rtc R x y → P x → P y.
Proof. intros HP Hr. induction Hr; eauto. Qed.

(** ** Properties of all bytes, by cases *)
Lemma byte_forall (p : byte → bool) :
  forallb p (z2b ∘ Z.of_nat <$> seq 0 256) = true → ∀ b, p b = true.
Proof.
  intros H b. rewrite forallb_forall in H. apply H, list_elem_of_In, list_elem_of_fmap.
  pose proof (b2z_range b). exists (Z.to_nat (b2z b)). unfold compose. rewrite Z2Nat.id, z2b_b2z by lia.
  split; [done|]. apply elem_of_seq. lia.
Qed.
