(* ===== verification/Netip.v ===== *)
(** * net/netip: the part of Go's address library the program uses

    [Addr] and [Prefix] with the methods the tunnel calls.  An address is the
    zero [Addr], four bytes, or sixteen bytes with a zone; the constructors make
    ill-formed addresses unrepresentable, so [=] is Go's [==]. *)

From S2P Require Import Prelude.

Inductive Addr : Type :=
| AddrZero
| Addr4 (b : vec byte 4)
| Addr6 (b : vec byte 16) (zone : string).

#[global] Instance addr_eq_dec : EqDecision Addr.
Proof. solve_decision. Defined.
#[global] Program Instance addr_countable : Countable Addr :=
  inj_countable'
    (λ a, match a with
          | AddrZero => inl (inl tt)
          | Addr4 b => inl (inr b)
          | Addr6 b z => inr (b, z)
          end)
    (λ s, match s with
          | inl (inl _) => AddrZero
          | inl (inr b) => Addr4 b
          | inr (b, z) => Addr6 b z
          end) _.
Next Obligation. by intros []. Qed.
#[global] Instance addr_inhabited : Inhabited Addr := populate AddrZero.

(** ** Addresses *)

Definition IsValid (a : Addr) : bool := match a with AddrZero => false | _ => true end.
Definition Is4 (a : Addr) : bool := match a with Addr4 _ => true | _ => false end.
Definition Is6 (a : Addr) : bool := match a with Addr6 _ _ => true | _ => false end.
Definition hasZone (a : Addr) : bool :=
  match a with Addr6 _ z => negb (bool_decide (z = EmptyString)) | _ => false end.

Definition BitLen (a : Addr) : Z :=
  match a with AddrZero => 0 | Addr4 _ => 32 | Addr6 _ _ => 128 end.

Definition AddrFrom4 (b : vec byte 4) : Addr := Addr4 b.
Definition AddrFrom16 (b : vec byte 16) : Addr := Addr6 b EmptyString.

Definition IPv4Unspecified : Addr := Addr4 (vreplicate 4 x00).
Definition IPv6Unspecified : Addr := Addr6 (vreplicate 16 x00) EmptyString.
Definition IsUnspecified (a : Addr) : bool :=
  bool_decide (a = IPv4Unspecified) || bool_decide (a = IPv6Unspecified).

Definition AsSlice (a : Addr) : list byte :=
  match a with
  | AddrZero => []
  | Addr4 b => vec_to_list b
  | Addr6 b _ => vec_to_list b
  end.

(** The ten zero bytes and two [0xff] bytes of an IPv4-mapped IPv6 address. *)
Definition v4InV6Prefix : list byte := zeros 10 ++ [xff; xff].

Definition Is4In6 (a : Addr) : bool :=
  match a with
  | Addr6 b _ => bool_decide (take 12 (vec_to_list b) = v4InV6Prefix)
  | _ => false
  end.

(** [As4] panics on the zero [Addr] and on an IPv6 address that is not IPv4-mapped. *)
Definition As4 (a : Addr) : option (vec byte 4) :=
  match a with
  | Addr4 b => Some b
  | Addr6 b _ => if Is4In6 a then Some (array_of 4 (drop 12 (vec_to_list b))) else None
  | AddrZero => None
  end.

Definition As16 (a : Addr) : vec byte 16 :=
  match a with
  | AddrZero => vreplicate 16 x00
  | Addr4 b => array_of 16 (v4InV6Prefix ++ vec_to_list b)
  | Addr6 b _ => b
  end.

(** The address read as a big-endian number of [BitLen] bits. *)
Definition addr_Z (a : Addr) : Z := be_Z (AsSlice a).

(** The address of the same family with another value. *)
Definition addr_with (a : Addr) (z : Z) : Addr :=
  match a with
  | AddrZero => AddrZero
  | Addr4 _ => Addr4 (array_of 4 (be_bytes 4 z))
  | Addr6 _ zn => Addr6 (array_of 16 (be_bytes 16 z)) zn
  end.

(** ** Prefixes *)

(** [bits] is [-1] for an invalid prefix, as [Prefix.Bits] reports it. *)
Record Prefix : Type := mkPrefix { pfx_addr : Addr; pfx_bits : Z }.

#[global] Instance prefix_eq_dec : EqDecision Prefix.
Proof. solve_decision. Defined.

Definition PrefixZero : Prefix := mkPrefix AddrZero (-1).
Definition pfx_IsValid (p : Prefix) : bool := 0 <=? pfx_bits p.

Definition withoutZone (a : Addr) : Addr :=
  match a with Addr6 b _ => Addr6 b EmptyString | _ => a end.

Definition PrefixFrom (a : Addr) (bits : Z) : Prefix :=
  mkPrefix (withoutZone a)
    (if IsValid a && (0 <=? bits) && (bits <=? BitLen a) then bits else -1).

(** [Addr.Prefix]: the host bits cleared. *)
Definition addr_mask (a : Addr) (bits : Z) : Addr :=
  addr_with a (Z.shiftl (Z.shiftr (addr_Z a) (BitLen a - bits)) (BitLen a - bits)).

Definition Masked (p : Prefix) : Prefix :=
  if pfx_IsValid p then PrefixFrom (addr_mask (pfx_addr p) (pfx_bits p)) (pfx_bits p)
  else PrefixZero.

Definition Contains (p : Prefix) (a : Addr) : bool :=
  if negb (pfx_IsValid p) || hasZone a then false
  else if (BitLen (pfx_addr p) =? 0) || (BitLen a =? 0)
          || negb (BitLen (pfx_addr p) =? BitLen a) then false
  else Z.shiftr (Z.lxor (addr_Z a) (addr_Z (pfx_addr p))) (BitLen a - pfx_bits p) =? 0.

(** What every [Prefix] the program holds satisfies: it is the zero value or was
    built by [PrefixFrom] (that is, by [ParsePrefix] or [Masked]). *)
Definition prefix_wf (p : Prefix) : Prop :=
  pfx_IsValid p = true →
  IsValid (pfx_addr p) = true ∧ hasZone (pfx_addr p) = false ∧ pfx_bits p <= BitLen (pfx_addr p).

(** ** Lemmas *)

Lemma length_AsSlice a : 8 * Z.of_nat (length (AsSlice a)) = BitLen a.
Proof. destruct a; simpl; rewrite ?length_vec_to_list; done. Qed.

Lemma addr_Z_range a : 0 <= addr_Z a < 2 ^ BitLen a.
Proof. unfold addr_Z. rewrite <-length_AsSlice. apply be_Z_range. Qed.

(** Two addresses without zone of one family are equal when their values are. *)
Lemma addr_Z_inj a b :
  hasZone a = false → hasZone b = false → BitLen a = BitLen b →
  addr_Z a = addr_Z b → a = b.
Proof.
  destruct a, b; simpl; intros Ha Hb HB H; try done; bool_to_prop; subst;
    f_equal; apply vec_to_list_inj2, be_Z_inj; rewrite ?length_vec_to_list; done.
Qed.

Lemma BitLen_addr_with a z : BitLen (addr_with a z) = BitLen a.
Proof. by destruct a. Qed.

Lemma hasZone_addr_with a z : hasZone (addr_with a z) = hasZone a.
Proof. by destruct a. Qed.

Lemma addr_Z_addr_with a z : addr_Z (addr_with a z) = z mod 2 ^ BitLen a.
Proof.
  unfold addr_Z. destruct a; cbn [addr_with AsSlice BitLen]; [by rewrite Z.mod_1_r|..];
    rewrite vec_to_list_array_of, be_Z_be_bytes by apply length_be_bytes; done.
Qed.

Lemma IsValid_BitLen a : IsValid a = negb (BitLen a =? 0).
Proof. by destruct a. Qed.

Lemma PrefixFrom_wf a bits : prefix_wf (PrefixFrom a bits).
Proof.
  unfold prefix_wf, PrefixFrom, pfx_IsValid; simpl.
  destruct (IsValid a && (0 <=? bits) && (bits <=? BitLen a)) eqn:E; [|done].
  bool_to_prop. destruct a; simpl in *; try done; intros _; repeat split; auto.
Qed.

(** [Contains] is equality of the network bits. *)
Lemma Contains_spec p a :
  prefix_wf p →
  Contains p a = true ↔
    pfx_IsValid p = true ∧ hasZone a = false ∧ BitLen a = BitLen (pfx_addr p) ∧
    addr_Z a / 2 ^ (BitLen a - pfx_bits p) = addr_Z (pfx_addr p) / 2 ^ (BitLen a - pfx_bits p).
Proof.
  intros Hwf. unfold Contains.
  destruct (pfx_IsValid p) eqn:Hv; simpl; [|naive_solver].
  destruct (Hwf Hv) as (Hva & Hz & Hb). rewrite IsValid_BitLen in Hva.
  destruct (hasZone a) eqn:Ha; simpl; [naive_solver|].
  destruct (BitLen (pfx_addr p) =? 0) eqn:H0; [done|]. simpl.
  destruct (BitLen a =? 0) eqn:H1; simpl.
  { split; [done|]. intros (_ & _ & HB & _). bool_to_prop. lia. }
  destruct (Z.eqb_spec (BitLen (pfx_addr p)) (BitLen a)) as [E|E]; simpl; [|naive_solver].
  rewrite shiftr_lxor_0, !Z.shiftr_div_pow2 by lia. naive_solver.
Qed.

(** The network address of a prefix: its host bits are zero. *)
Lemma Masked_addr_Z p :
  prefix_wf p → pfx_IsValid p = true →
  addr_Z (pfx_addr (Masked p)) =
    addr_Z (pfx_addr p) / 2 ^ (BitLen (pfx_addr p) - pfx_bits p)
      * 2 ^ (BitLen (pfx_addr p) - pfx_bits p).
Proof.
  intros Hwf Hv. destruct (Hwf Hv) as (Hva & Hz & Hb).
  unfold Masked. rewrite Hv. simpl.
  assert (∀ x, addr_Z (withoutZone x) = addr_Z x) as -> by (by intros []).
  unfold addr_mask. rewrite addr_Z_addr_with, Z.shiftr_div_pow2, Z.shiftl_mul_pow2 by lia.
  apply Z.mod_small. pose proof (addr_Z_range (pfx_addr p)).
  pose proof (Z.mul_div_le (addr_Z (pfx_addr p)) (2 ^ (BitLen (pfx_addr p) - pfx_bits p))).
  split; [|lia]. apply Z.mul_nonneg_nonneg; [apply Z.div_pos; lia|lia].
Qed.

Lemma Masked_fields p :
  prefix_wf p → pfx_IsValid p = true →
  pfx_bits (Masked p) = pfx_bits p ∧ BitLen (pfx_addr (Masked p)) = BitLen (pfx_addr p) ∧
  hasZone (pfx_addr (Masked p)) = false ∧ Is4 (pfx_addr (Masked p)) = Is4 (pfx_addr p) ∧
  prefix_wf (Masked p).
Proof.
  intros Hwf Hv. destruct (Hwf Hv) as (Hva & Hz & Hb). unfold Masked. rewrite Hv.
  split; [|split; [|split; [|split; [|apply PrefixFrom_wf]]]].
  2-4: by destruct (pfx_addr p).
  unfold PrefixFrom, addr_mask. simpl. rewrite BitLen_addr_with.
  rewrite !IsValid_BitLen in *. rewrite BitLen_addr_with, Hva. simpl.
  unfold pfx_IsValid in Hv. rewrite Hv. simpl. by rewrite (proj2 (Z.leb_le _ _) Hb).
Qed.
