(* ===== verification/Sha256.v ===== *)
(** * crypto/sha256: the hash the program derives identifiers with

    SHA-256 (FIPS 180-4) on byte strings, executable, so that session ids and
    hash-derived addresses can be computed on concrete keys. *)

From S2P Require Import Prelude.

Module SHA.

(** The constants are derived as FIPS 180-4 defines them: 32 fractional bits of
    the square roots (initial state) and the cube roots (round constants) of
    the first primes. *)
Definition is_prime (n : nat) : bool :=
  forallb (λ d, negb (n mod d =? 0)%nat) (seq 2 (n - 2)).
Definition primes : list nat := Eval vm_compute in filter is_prime (seq 2 310).

Definition frac_sqrt (p : nat) : Z := wrap 32 (Z.sqrt (Z.of_nat p * 2 ^ 64)).

(** The integer cube root of [x], one bit of the root at a time. *)
Fixpoint cbrt (bit : nat) (r x : Z) : Z :=
  let r' := r + 2 ^ Z.of_nat bit in
  let r'' := if r' ^ 3 <=? x then r' else r in
  match bit with O => r'' | S b => cbrt b r'' x end.
Definition frac_cbrt (p : nat) : Z := wrap 32 (cbrt 36 0 (Z.of_nat p * 2 ^ 96)).

Definition K : list Z := Eval vm_compute in (frac_cbrt <$> primes).

(** The eight working variables. *)
Record st : Type := mkSt { sa : Z; sb : Z; sc : Z; sd : Z; se : Z; sf : Z; sg : Z; sh : Z }.

Definition H0 : st :=
  Eval vm_compute in
    match frac_sqrt <$> primes with
    | a :: b :: c :: d :: e :: f :: g :: h :: _ => mkSt a b c d e f g h
    | _ => mkSt 0 0 0 0 0 0 0 0
    end.

Definition rotr (x n : Z) : Z := Z.lor (Z.shiftr x n) (wrap 32 (Z.shiftl x (32 - n))).
Definition xor3 (x y z : Z) : Z := Z.lxor x (Z.lxor y z).
Definition s0 (x : Z) : Z := xor3 (rotr x 7) (rotr x 18) (Z.shiftr x 3).
Definition s1 (x : Z) : Z := xor3 (rotr x 17) (rotr x 19) (Z.shiftr x 10).
Definition S0 (x : Z) : Z := xor3 (rotr x 2) (rotr x 13) (rotr x 22).
Definition S1 (x : Z) : Z := xor3 (rotr x 6) (rotr x 11) (rotr x 25).
Definition ch (x y z : Z) : Z := Z.lxor (Z.land x y) (Z.land (Z.lxor x 0xffffffff) z).
Definition maj (x y z : Z) : Z := xor3 (Z.land x y) (Z.land x z) (Z.land y z).

(** The message schedule, most recent word first. *)
Fixpoint extend (n : nat) (w : list Z) : list Z :=
  match n with
  | O => w
  | S n' =>
      extend n' (wrap 32 (s1 (nth 1 w 0) + nth 6 w 0 + s0 (nth 14 w 0) + nth 15 w 0) :: w)
  end.

Definition round (s : st) (kw : Z * Z) : st :=
  let t1 := sh s + S1 (se s) + ch (se s) (sf s) (sg s) + kw.1 + kw.2 in
  let t2 := S0 (sa s) + maj (sa s) (sb s) (sc s) in
  mkSt (wrap 32 (t1 + t2)) (sa s) (sb s) (sc s) (wrap 32 (sd s + t1)) (se s) (sf s) (sg s).

Definition block (s : st) (ws : list Z) : st :=
  let r := fold_left round (zip K (reverse (extend 48 (reverse ws)))) s in
  mkSt (wrap 32 (sa s + sa r)) (wrap 32 (sb s + sb r)) (wrap 32 (sc s + sc r))
       (wrap 32 (sd s + sd r)) (wrap 32 (se s + se r)) (wrap 32 (sf s + sf r))
       (wrap 32 (sg s + sg r)) (wrap 32 (sh s + sh r)).

Definition pad (m : list byte) : list byte :=
  let n := Z.of_nat (length m) in
  m ++ [x80] ++ zeros (Z.to_nat ((55 - n) mod 64)) ++ be_bytes 8 (8 * n).

Fixpoint words (n : nat) (l : list byte) : list Z :=
  match n with
  | O => []
  | S n' => be_Z (take 4 l) :: words n' (drop 4 l)
  end.

Fixpoint blocks (n : nat) (s : st) (l : list byte) : st :=
  match n with
  | O => s
  | S n' => blocks n' (block s (words 16 l)) (drop 64 l)
  end.

End SHA.

Definition sha256 (m : list byte) : list byte :=
  let p := SHA.pad m in
  let s := SHA.blocks (length p / 64) SHA.H0 p in
  concat (be_bytes 4 <$>
    [SHA.sa s; SHA.sb s; SHA.sc s; SHA.sd s; SHA.se s; SHA.sf s; SHA.sg s; SHA.sh s]).

Lemma length_sha256 m : length (sha256 m) = 32%nat.
Proof. reflexivity. Qed.

(** The FIPS 180-4 test vector for the message "abc". *)
Example sha256_abc :
  be_Z (sha256 [x61; x62; x63]) =
  0xba7816bf8f01cfea414140de5dae2223b00361a396177a9cb410ff61f20015ad.
Proof. vm_compute. reflexivity. Qed.

(** A message of two blocks. *)
Example sha256_two_blocks :
  be_Z (sha256 (replicate 64 x61)) =
  0xffe054fe7ae0cb6dc65c3af9b61d5209f439851db43d0ba5997337df154668eb.
Proof. vm_compute. reflexivity. Qed.

#[global] Opaque sha256.
