(* ===== verification/Users.v ===== *)
(** * users.go: the authorized-client database

    [UserDB] keeps two maps to the same heap entries ([byKey] and [byName]
    hold pointers to one [userEntry]), the reservations per family, and the
    concurrent-session count of each user.  The entries are a heap indexed by
    allocation order, so the aliasing of the two maps is explicit.  Every method
    runs under [db.mu]; a method is one atomic function here.  A [*UserDB] that
    may be nil is an [option UserDB]. *)

From S2P Require Import Prelude Netip.

Definition pubKeyLen : nat := 32.

Record User : Type := mkUser {
  Name : string;
  PublicKey : list byte;
  MaxConcurrent : Z;
  Reserved : list Addr
}.

Record userEntry : Type := mkEntry { e_u : User; e_active : Z }.

Record UserDB : Type := mkUserDB {
  entries : list userEntry;            (* the heap the two maps point into *)
  byKey : gmap (list byte) nat;
  byName : gmap string nat;
  resV4 : gmap Addr string;
  resV6 : gmap Addr string
}.

Inductive userError : Type :=
| EName (i : nat)                      (* user index i: name is required *)
| EKeyLen (name : string)
| ENegQuota (name : string)
| EDupName (name : string)
| EDupKey (name : string)
| EBadReserved (name : string)
| EConflict (a : Addr) (other name : string)
| ErrUnknownUser
| ErrQuotaExceeded.

(** ** NewUserDB *)

(** The reservation loop of one user (lines 88-103). *)
Fixpoint reserve_all (name : string) (rs : list Addr) (m4 m6 : gmap Addr string)
    : result userError (gmap Addr string * gmap Addr string) :=
  match rs with
  | [] => Ok (m4, m6)
  | r :: rs' =>
      if negb (IsValid r) then Err (EBadReserved name)
      else if Is4 r then
        match m4 !! r with
        | Some other =>
            if negb (bool_decide (other = name)) then Err (EConflict r other name)
            else reserve_all name rs' (<[r := name]> m4) m6
        | None => reserve_all name rs' (<[r := name]> m4) m6
        end
      else
        match m6 !! r with
        | Some other =>
            if negb (bool_decide (other = name)) then Err (EConflict r other name)
            else reserve_all name rs' m4 (<[r := name]> m6)
        | None => reserve_all name rs' m4 (<[r := name]> m6)
        end
  end.

(** One iteration of the constructor's loop. *)
Definition add_user (i : nat) (db : UserDB) (u : User) : result userError UserDB :=
  if bool_decide (Name u = EmptyString) then Err (EName i)
  else if negb (length (PublicKey u) =? pubKeyLen)%nat then Err (EKeyLen (Name u))
  else if MaxConcurrent u <? 0 then Err (ENegQuota (Name u))
  else if bool_decide (is_Some (byName db !! Name u)) then Err (EDupName (Name u))
  else if bool_decide (is_Some (byKey db !! PublicKey u)) then Err (EDupKey (Name u))
  else
    let? (m4, m6) := reserve_all (Name u) (Reserved u) (resV4 db) (resV6 db) in
    let e := length (entries db) in
    Ok (mkUserDB (entries db ++ [mkEntry u 0])
          (<[PublicKey u := e]> (byKey db)) (<[Name u := e]> (byName db)) m4 m6).

Fixpoint add_users (i : nat) (db : UserDB) (us : list User) : result userError UserDB :=
  match us with
  | [] => Ok db
  | u :: us' => let? db' := add_user i db u in add_users (S i) db' us'
  end.

Definition emptyDB : UserDB := mkUserDB [] ∅ ∅ ∅ ∅.

Definition NewUserDB (users : list User) : result userError UserDB := add_users 0 emptyDB users.

(** ** Methods *)

(** [len(db.byKey) == 0]; the receiver is never nil where it is called. *)
Definition Empty (db : UserDB) : bool := (size (byKey db) =? 0)%nat.

Definition LookupByKey (db : option UserDB) (pub : list byte) : option User :=
  match db with
  | None => None
  | Some db =>
      match byKey db !! pub with
      | None => None
      | Some p => e_u <$> entries db !! p
      end
  end.

(** [e.active += d] through the pointer [p]. *)
Definition bump_active (db : UserDB) (p : nat) (d : Z) : UserDB :=
  mkUserDB (alter (λ e, mkEntry (e_u e) (e_active e + d)) p (entries db))
    (byKey db) (byName db) (resV4 db) (resV6 db).

Definition AcquireSlot (db : option UserDB) (name : string) : option userError * option UserDB :=
  match db with
  | None => (Some ErrUnknownUser, None)
  | Some d =>
      match byName d !! name with
      | None => (Some ErrUnknownUser, db)
      | Some p =>
          match entries d !! p with
          | None => (Some ErrUnknownUser, db)
          | Some e =>
              if (0 <? MaxConcurrent (e_u e)) && (MaxConcurrent (e_u e) <=? e_active e)
              then (Some ErrQuotaExceeded, db)
              else (None, Some (bump_active d p 1))
          end
      end
  end.

Definition ReleaseSlot (db : option UserDB) (name : string) : option UserDB :=
  match db with
  | None => None
  | Some d =>
      match byName d !! name with
      | None => db
      | Some p =>
          match entries d !! p with
          | None => db
          | Some e => if 0 <? e_active e then Some (bump_active d p (-1)) else db
          end
      end
  end.

Definition ReservationOwner (db : option UserDB) (a : Addr) : string :=
  match db with
  | None => EmptyString
  | Some d =>
      if negb (IsValid a) then EmptyString
      else if Is4 a then default EmptyString (resV4 d !! a)
      else default EmptyString (resV6 d !! a)
  end.

Definition ReservedFor (db : option UserDB) (name : string) : list Addr :=
  match db with
  | None => []
  | Some d =>
      match byName d !! name with
      | Some p => match entries d !! p with Some e => Reserved (e_u e) | None => [] end
      | None => []
      end
  end.

(** The map ranges of [AllReservations] visit the keys in some order; the
    caller only stores them in a set, so the model returns the key sets. *)
Definition AllReservations (db : option UserDB) : gset Addr * gset Addr :=
  match db with
  | None => (∅, ∅)
  | Some d => (dom (resV4 d), dom (resV6 d))
  end.

Definition userCount (db : option UserDB) : nat :=
  match db with None => 0 | Some d => size (byName d) end.

(** ** Specification of a valid user list *)

(** What the constructor checks of one user on its own. *)
Definition user_ok (u : User) : Prop :=
  Name u ≠ EmptyString ∧ length (PublicKey u) = pubKeyLen ∧ 0 <= MaxConcurrent u ∧
  Forall (λ r, IsValid r = true) (Reserved u).

(** ... and of the list as a whole: names and keys are identities, and no
    address is reserved by two users. *)
Definition users_valid (us : list User) : Prop :=
  Forall user_ok us ∧ NoDup (Name <$> us) ∧ NoDup (PublicKey <$> us) ∧
  ∀ u1 u2 a, u1 ∈ us → u2 ∈ us → a ∈ Reserved u1 → a ∈ Reserved u2 → Name u1 = Name u2.

(** The database represents the list [us]: what each map contains. *)
Record represents (db : UserDB) (us : list User) : Prop := {
  rep_entries : e_u <$> entries db = us;
  rep_name n p : byName db !! n = Some p ↔ ∃ u, us !! p = Some u ∧ Name u = n;
  rep_key k p : byKey db !! k = Some p ↔ ∃ u, us !! p = Some u ∧ PublicKey u = k;
  rep_res4 a n : resV4 db !! a = Some n ↔
    Is4 a = true ∧ ∃ u, u ∈ us ∧ Name u = n ∧ a ∈ Reserved u;
  rep_res6 a n : resV6 db !! a = Some n ↔
    Is4 a = false ∧ ∃ u, u ∈ us ∧ Name u = n ∧ a ∈ Reserved u
}.

(** The quota invariant: counts are never negative nor above a set maximum. *)
Definition quota_ok (db : UserDB) : Prop :=
  Forall (λ e, 0 <= e_active e ∧ (0 < MaxConcurrent (e_u e) → e_active e <= MaxConcurrent (e_u e)))
    (entries db).

(** The number of live slots of a user. *)
Definition active_of (db : UserDB) (name : string) : option Z :=
  p ← byName db !! name; e_active <$> entries db !! p.

(** ** The reservation loop *)

Definition res_lookup (m4 m6 : gmap Addr string) (a : Addr) : option string :=
  if Is4 a then m4 !! a else m6 !! a.

(** No address of [rs] is invalid or held by a user other than [name]. *)
Definition reservable (name : string) (rs : list Addr) (m4 m6 : gmap Addr string) : Prop :=
  Forall (λ r, IsValid r = true) rs ∧
  ∀ a o, a ∈ rs → res_lookup m4 m6 a = Some o → o = name.

Lemma res_lookup_insert name r m4 m6 a :
  res_lookup (if Is4 r then <[r := name]> m4 else m4) (if Is4 r then m6 else <[r := name]> m6) a
  = if decide (r = a) then Some name else res_lookup m4 m6 a.
Proof.
  unfold res_lookup. destruct (Is4 r) eqn:Er, (Is4 a) eqn:Ea;
    rewrite ?lookup_insert; repeat case_decide; congruence.
Qed.

(** One iteration of the loop, both families at once. *)
Lemma reserve_all_cons name r rs m4 m6 :
  reserve_all name (r :: rs) m4 m6 =
  if negb (IsValid r) then Err (EBadReserved name)
  else match res_lookup m4 m6 r with
       | Some other => if negb (bool_decide (other = name)) then Err (EConflict r other name)
                       else reserve_all name rs (if Is4 r then <[r := name]> m4 else m4)
                              (if Is4 r then m6 else <[r := name]> m6)
       | None => reserve_all name rs (if Is4 r then <[r := name]> m4 else m4)
                   (if Is4 r then m6 else <[r := name]> m6)
       end.
Proof. unfold res_lookup. simpl. by destruct (IsValid r), (Is4 r). Qed.

Lemma reservable_step name r rs m4 m6 :
  reservable name (r :: rs) m4 m6 ↔
  IsValid r = true ∧ (∀ o, res_lookup m4 m6 r = Some o → o = name) ∧
  reservable name rs (if Is4 r then <[r := name]> m4 else m4)
    (if Is4 r then m6 else <[r := name]> m6).
Proof.
  unfold reservable. rewrite Forall_cons. setoid_rewrite res_lookup_insert.
  split.
  - intros [[Hr Hrs] H]. repeat split; auto.
    + intros o. apply H. set_solver.
    + intros a o Ha. case_decide; [congruence|]. apply H. set_solver.
  - intros (Hr & Hr' & Hrs & H). repeat split; auto.
    intros a o [->|Ha]%elem_of_cons Ho; [auto|].
    destruct (decide (r = a)) as [->|Hn]; [auto|].
    apply (H a); [done|]. by rewrite decide_False by done.
Qed.

(** The loop succeeds exactly on reservable lists and then records [name]
    for every listed address, in the map of its family. *)
Lemma reserve_all_spec name rs m4 m6 :
  match reserve_all name rs m4 m6 with
  | Ok (m4', m6') =>
      reservable name rs m4 m6 ∧
      (∀ a, m4' !! a = if decide (Is4 a = true ∧ a ∈ rs) then Some name else m4 !! a) ∧
      (∀ a, m6' !! a = if decide (Is4 a = false ∧ a ∈ rs) then Some name else m6 !! a)
  | Err _ => ¬ reservable name rs m4 m6
  | Panic => False
  end.
Proof.
  revert m4 m6. induction rs as [|r rs IH]; intros m4 m6.
  { simpl. split; [split; [done|set_solver]|].
    split; intros a; rewrite decide_False; set_solver. }
  rewrite reserve_all_cons. pose proof (reservable_step name r rs m4 m6) as Hrs.
  destruct (IsValid r) eqn:Hv; simpl; [|intros [[=] _]%Hrs].
  specialize (IH (if Is4 r then <[r:=name]> m4 else m4) (if Is4 r then m6 else <[r:=name]> m6)).
  assert (∀ (f : bool) (m : gmap Addr string) a,
    (if decide (Is4 a = f ∧ a ∈ rs) then Some name
     else (if decide (Is4 r = f) then <[r:=name]> m else m) !! a) =
    if decide (Is4 a = f ∧ a ∈ r :: rs) then Some name else m !! a) as Hstep.
  { intros f m a. destruct (decide (r = a)) as [<-|Hn].
    - repeat case_decide; rewrite ?lookup_insert_eq; set_solver.
    - repeat case_decide; rewrite ?lookup_insert_ne by done; set_solver. }
  assert (∀ o, res_lookup m4 m6 r = Some o → o ≠ name → ¬ reservable name (r :: rs) m4 m6) as Hbad.
  { intros o Ho Hne (_ & Hr & _)%Hrs. auto. }
  assert ((∀ o, res_lookup m4 m6 r = Some o → o = name) →
    match reserve_all name rs (if Is4 r then <[r:=name]> m4 else m4)
                              (if Is4 r then m6 else <[r:=name]> m6) with
    | Ok (m4', m6') => reservable name (r :: rs) m4 m6 ∧
      (∀ a, m4' !! a = if decide (Is4 a = true ∧ a ∈ r :: rs) then Some name else m4 !! a) ∧
      (∀ a, m6' !! a = if decide (Is4 a = false ∧ a ∈ r :: rs) then Some name else m6 !! a)
    | Err _ => ¬ reservable name (r :: rs) m4 m6
    | Panic => False
    end) as Hgo.
  { intros Hr. destruct (reserve_all name rs _ _) as [[m4' m6']|e|]; [|tauto|done].
    destruct IH as (HR & H4 & H6). split; [tauto|].
    split; intros a; rewrite ?H4, ?H6, <-Hstep; by destruct (Is4 r). }
  destruct (res_lookup m4 m6 r) as [o|] eqn:Hl; [case_bool_decide; simpl|];
    [apply Hgo|by eapply Hbad|apply Hgo]; congruence.
Qed.

(** ** The constructor accepts exactly the valid lists *)

Lemma users_valid_snoc us u :
  users_valid (us ++ [u]) ↔
  users_valid us ∧ user_ok u ∧ Name u ∉ (Name <$> us) ∧ PublicKey u ∉ (PublicKey <$> us) ∧
  ∀ u' a, u' ∈ us → a ∈ Reserved u' → a ∈ Reserved u → Name u' = Name u.
Proof.
  unfold users_valid. rewrite Forall_app, Forall_singleton, !fmap_app, !NoDup_app. simpl.
  setoid_rewrite list_elem_of_singleton. setoid_rewrite elem_of_app.
  setoid_rewrite list_elem_of_singleton.
  pose proof (NoDup_singleton (Name u)). pose proof (NoDup_singleton (PublicKey u)).
  split.
  - intros ((?&?) & (?&Hn&_) & (?&Hk&_) & Hr). split_and!; eauto; naive_solver.
  - intros ((?&?&?&Hr) & ? & Hn & Hk & Hu). split_and!; auto; try (intros x Hx ->; auto).
    intros u1 u2 a [Hi1 | ->] [Hi2 | ->] Ha Hb; eauto using eq_sym.
Qed.

Section represents.
Context (db : UserDB) (us : list User) (Hrep : represents db us).

Lemma rep_lookup a n :
  res_lookup (resV4 db) (resV6 db) a = Some n ↔
  ∃ u, u ∈ us ∧ Name u = n ∧ a ∈ Reserved u.
Proof.
  unfold res_lookup. destruct (Is4 a) eqn:E;
    rewrite ?(rep_res4 _ _ Hrep), ?(rep_res6 _ _ Hrep); naive_solver.
Qed.

Lemma rep_name_None n : byName db !! n = None ↔ n ∉ (Name <$> us).
Proof.
  rewrite eq_None_not_Some, list_elem_of_fmap. unfold is_Some.
  setoid_rewrite (rep_name _ _ Hrep). setoid_rewrite list_elem_of_lookup. naive_solver.
Qed.

Lemma rep_key_None k : byKey db !! k = None ↔ k ∉ (PublicKey <$> us).
Proof.
  rewrite eq_None_not_Some, list_elem_of_fmap. unfold is_Some.
  setoid_rewrite (rep_key _ _ Hrep). setoid_rewrite list_elem_of_lookup. naive_solver.
Qed.

Lemma rep_length : length (entries db) = length us.
Proof. by rewrite <-(rep_entries _ _ Hrep), length_fmap. Qed.

Lemma rep_reservable u :
  reservable (Name u) (Reserved u) (resV4 db) (resV6 db) ↔
  Forall (λ r, IsValid r = true) (Reserved u) ∧
  ∀ u' a, u' ∈ us → a ∈ Reserved u' → a ∈ Reserved u → Name u' = Name u.
Proof. unfold reservable. setoid_rewrite rep_lookup. naive_solver. Qed.

End represents.

Lemma represents_empty : represents emptyDB [].
Proof.
  constructor; try done; intros; simpl; rewrite lookup_empty; set_solver.
Qed.

(** Lookups in a list extended at its end, with the new element's index. *)
Lemma snoc_lookup {A} (l : list A) x p y :
  (l ++ [x]) !! p = Some y ↔ l !! p = Some y ∨ p = length l ∧ y = x.
Proof. rewrite lookup_app_Some, list_lookup_singleton_Some. naive_solver lia. Qed.

Lemma index_insert {A B} `{Countable B} (f : A → B) (m : gmap B nat) (l : list A) x k p :
  (∀ k p, m !! k = Some p ↔ ∃ y, l !! p = Some y ∧ f y = k) → f x ∉ (f <$> l) →
  <[f x := length l]> m !! k = Some p ↔ ∃ y, (l ++ [x]) !! p = Some y ∧ f y = k.
Proof.
  intros Hm Hx. setoid_rewrite snoc_lookup. rewrite lookup_insert_Some, Hm. split.
  - intros [[<- <-]|[Hne (y & Hy & <-)]]; eauto.
  - intros (y & [Hy|[-> ->]] & <-); [right|left; done].
    split; [|eauto]. intros E. apply Hx. rewrite E. apply list_elem_of_fmap.
    exists y. split; [done|]. by eapply list_elem_of_lookup_2.
Qed.

(** Who reserves [a] once [u] is added to users that do not conflict with it. *)
Lemma res_add (us : list User) u a n :
  (∀ u' a, u' ∈ us → a ∈ Reserved u' → a ∈ Reserved u → Name u' = Name u) →
  (a ∈ Reserved u ∧ n = Name u ∨
   a ∉ Reserved u ∧ ∃ u', u' ∈ us ∧ Name u' = n ∧ a ∈ Reserved u') ↔
  ∃ u', u' ∈ us ++ [u] ∧ Name u' = n ∧ a ∈ Reserved u'.
Proof.
  intros Hu. setoid_rewrite elem_of_app. setoid_rewrite list_elem_of_singleton. split.
  - intros [[Ha ->]|[Ha (u' & ? & ? & ?)]]; eauto 6.
  - intros (u' & [Hi | ->] & <- & Ha); [|by left].
    destruct (decide (a ∈ Reserved u)); [left|right]; eauto.
Qed.

Lemma represents_add db us u m4 m6 :
  represents db us → Name u ∉ (Name <$> us) → PublicKey u ∉ (PublicKey <$> us) →
  (∀ u' a, u' ∈ us → a ∈ Reserved u' → a ∈ Reserved u → Name u' = Name u) →
  (∀ a, m4 !! a = if decide (Is4 a = true ∧ a ∈ Reserved u) then Some (Name u) else resV4 db !! a) →
  (∀ a, m6 !! a = if decide (Is4 a = false ∧ a ∈ Reserved u) then Some (Name u) else resV6 db !! a) →
  represents (mkUserDB (entries db ++ [mkEntry u 0])
    (<[PublicKey u := length (entries db)]> (byKey db))
    (<[Name u := length (entries db)]> (byName db)) m4 m6) (us ++ [u]).
Proof.
  intros Hrep Hn Hk Hu H4 H6. rewrite (rep_length _ _ Hrep). constructor; simpl.
  - by rewrite fmap_app, (rep_entries _ _ Hrep).
  - intros n p. apply index_insert; [apply Hrep|done].
  - intros k p. apply index_insert; [apply Hrep|done].
  - intros a n. rewrite H4, <-(res_add us u a n Hu). pose proof (rep_res4 _ _ Hrep a n) as Hr.
    case_decide; rewrite ?Hr; naive_solver.
  - intros a n. rewrite H6, <-(res_add us u a n Hu). pose proof (rep_res6 _ _ Hrep a n) as Hr.
    case_decide; rewrite ?Hr; naive_solver.
Qed.

Lemma add_user_spec i db us u :
  represents db us → users_valid us →
  match add_user i db u with
  | Ok db' => users_valid (us ++ [u]) ∧ represents db' (us ++ [u]) ∧
              entries db' = entries db ++ [mkEntry u 0]
  | Err _ => ¬ users_valid (us ++ [u])
  | Panic => False
  end.
Proof.
  intros Hrep Hval. pose proof (users_valid_snoc us u) as Hs.
  unfold add_user, user_ok in *.
  destruct (bool_decide _) eqn:E1; bool_to_prop; [tauto|].
  destruct (length (PublicKey u) =? pubKeyLen)%nat eqn:E2; bool_to_prop; simpl; [|tauto].
  destruct (MaxConcurrent u <? 0) eqn:E3; bool_to_prop; [intros (_&(_&_&?&_)&_)%Hs; lia|].
  destruct (bool_decide (is_Some (byName db !! _))) eqn:E4; bool_to_prop.
  { rewrite <-not_eq_None_Some, (rep_name_None _ _ Hrep) in E4. tauto. }
  destruct (bool_decide (is_Some (byKey db !! _))) eqn:E5; bool_to_prop.
  { rewrite <-not_eq_None_Some, (rep_key_None _ _ Hrep) in E5. tauto. }
  rewrite <-eq_None_not_Some in E4, E5.
  rewrite (rep_name_None _ _ Hrep) in E4. rewrite (rep_key_None _ _ Hrep) in E5.
  pose proof (rep_reservable _ _ Hrep u) as Hr.
  pose proof (reserve_all_spec (Name u) (Reserved u) (resV4 db) (resV6 db)) as Hspec.
  destruct (reserve_all _ _ _ _) as [[m4 m6]|e|]; simpl; [|tauto|done].
  destruct Hspec as (HR & H4 & H6). split_and!; [tauto| |done].
  apply represents_add; tauto.
Qed.

Lemma users_valid_app_l us vs : users_valid (us ++ vs) → users_valid us.
Proof.
  unfold users_valid. rewrite Forall_app, !fmap_app, !NoDup_app.
  setoid_rewrite elem_of_app. intros (?&?&?&Hr). naive_solver.
Qed.

Lemma users_valid_nil : users_valid [].
Proof. repeat split; [done|constructor|constructor|set_solver]. Qed.

Lemma add_users_spec i db us vs :
  represents db us → users_valid us → entries db = (λ u, mkEntry u 0) <$> us →
  match add_users i db vs with
  | Ok db' => users_valid (us ++ vs) ∧ represents db' (us ++ vs) ∧
              entries db' = (λ u, mkEntry u 0) <$> (us ++ vs)
  | Err _ => ¬ users_valid (us ++ vs)
  | Panic => False
  end.
Proof.
  revert i db us. induction vs as [|u vs IH]; intros i db us Hrep Hval He; simpl.
  { by rewrite app_nil_r. }
  pose proof (add_user_spec i db us u Hrep Hval) as Hu.
  replace (us ++ u :: vs) with ((us ++ [u]) ++ vs) by by rewrite <-app_assoc.
  destruct (add_user i db u) as [db'|e|]; simpl; [|by intros ?%users_valid_app_l|done].
  destruct Hu as (Hv & Hr & He'). apply IH; [done..|]. by rewrite He', He, fmap_app.
Qed.

(** What a successful construction gives: the list was valid, every map
    represents it, and no slot is taken. *)
Lemma NewUserDB_Ok us db :
  NewUserDB us = Ok db →
  users_valid us ∧ represents db us ∧ entries db = (λ u, mkEntry u 0) <$> us.
Proof.
  intros H. pose proof (add_users_spec 0 emptyDB [] us represents_empty users_valid_nil eq_refl) as Hs.
  unfold NewUserDB in H. by rewrite H in Hs.
Qed.

(** ** Slots *)

Lemma bump_active_rep db us p d : represents db us → represents (bump_active db p d) us.
Proof.
  intros Hrep. constructor; simpl; try apply Hrep.
  rewrite <-(rep_entries _ _ Hrep). apply list_eq. intros i.
  rewrite !list_lookup_fmap. destruct (decide (i = p)) as [->|].
  - rewrite list_lookup_alter_eq. by destruct (entries db !! p).
  - by rewrite list_lookup_alter_ne.
Qed.

Lemma active_of_bump db us name n p d :
  represents db us → byName db !! name = Some p →
  active_of (bump_active db p d) n =
  if decide (n = name) then (λ a, a + d) <$> active_of db n else active_of db n.
Proof.
  intros Hrep Hp. unfold active_of. simpl. case_decide as Hn.
  - subst. rewrite Hp. simpl. rewrite list_lookup_alter_eq. by destruct (entries db !! p).
  - destruct (byName db !! n) as [q|] eqn:Hq; [simpl|done].
    rewrite list_lookup_alter_ne; [done|]. intros ->.
    apply (rep_name _ _ Hrep) in Hp as (? & ? & ?), Hq as (? & ? & ?). naive_solver.
Qed.

Lemma quota_ok_bump db p d e :
  quota_ok db → entries db !! p = Some e →
  0 <= e_active e + d → (0 < MaxConcurrent (e_u e) → e_active e + d <= MaxConcurrent (e_u e)) →
  quota_ok (bump_active db p d).
Proof.
  unfold quota_ok. rewrite !Forall_lookup. intros Hq He H0 HM i x. simpl.
  destruct (decide (i = p)) as [->|].
  - rewrite list_lookup_alter_eq, He. intros [= <-]. auto.
  - rewrite list_lookup_alter_ne by done. apply Hq.
Qed.

(** ** Properties *)

(** the constructor accepts a user list exactly when it is valid (non-empty
    names, 32-byte keys, no negative quota, valid reservations, no duplicate
    name or key, no address reserved by two users); on success the maps
    represent the list and every slot count is zero, and it never panics. *)
Theorem NewUserDB_correct us :
  match NewUserDB us with
  | Ok db => users_valid us ∧ represents db us ∧ entries db = (λ u, mkEntry u 0) <$> us
  | Err _ => ¬ users_valid us
  | Panic => False
  end.
Proof. exact (add_users_spec 0 emptyDB [] us represents_empty users_valid_nil eq_refl). Qed.

(** Authorization looks a key up in the configured list. *)
Lemma LookupByKey_spec us db pub u :
  represents db us →
  LookupByKey (Some db) pub = Some u ↔ u ∈ us ∧ PublicKey u = pub.
Proof.
  intros Hrep. simpl. rewrite list_elem_of_lookup. split.
  - destruct (byKey db !! pub) as [p|] eqn:E; [|done].
    apply (rep_key _ _ Hrep) in E as (u' & Hu' & <-).
    rewrite <-list_lookup_fmap, (rep_entries _ _ Hrep). naive_solver.
  - intros [[p Hp] <-]. pose proof (proj2 (rep_key _ _ Hrep _ _) (ex_intro _ u (conj Hp eq_refl))) as ->.
    by rewrite <-list_lookup_fmap, (rep_entries _ _ Hrep).
Qed.

Lemma Empty_spec us db : represents db us → Empty db = true ↔ us = [].
Proof.
  intros Hrep. unfold Empty. rewrite Nat.eqb_eq, map_size_empty_iff. split.
  - intros He. destruct us as [|u us]; [done|].
    assert (byKey db !! PublicKey u = Some 0%nat) as Hk by (apply (rep_key _ _ Hrep); eauto).
    by rewrite He, lookup_empty in Hk.
  - intros ->. apply map_empty. intros k. apply (rep_key_None _ _ Hrep). apply not_elem_of_nil.
Qed.

(** The owner of an address is the user that reserves it. *)
Lemma owner_spec us db a :
  users_valid us → represents db us →
  (∀ n, n ≠ EmptyString →
     ReservationOwner (Some db) a = n ↔ ∃ u, u ∈ us ∧ Name u = n ∧ a ∈ Reserved u) ∧
  (ReservationOwner (Some db) a = EmptyString ↔ ∀ u, u ∈ us → a ∉ Reserved u).
Proof.
  intros Hv Hrep. pose proof (rep_lookup _ _ Hrep a) as Hl.
  assert (ReservationOwner (Some db) a =
          default EmptyString (res_lookup (resV4 db) (resV6 db) a)) as ->.
  { destruct (IsValid a) eqn:E; simpl; rewrite E; simpl;
      [unfold res_lookup; by destruct (Is4 a)|].
    destruct (res_lookup (resV4 db) (resV6 db) a) as [n|] eqn:E'; [|done].
    destruct (proj1 (Hl n) eq_refl) as (u & Hu & _ & Ha). destruct Hv as (Hok & _).
    rewrite Forall_forall in Hok. destruct (Hok u Hu) as (_ & _ & _ & Hr).
    rewrite Forall_forall in Hr. by rewrite (Hr a Ha) in E. }
  assert (∀ u, u ∈ us → Name u ≠ EmptyString) as Hne.
  { destruct Hv as (Hok & _). rewrite Forall_forall in Hok. intros u Hu. by apply Hok. }
  destruct (res_lookup (resV4 db) (resV6 db) a) as [n|]; simpl; split.
  - intros n' Hn'. rewrite <-Hl. naive_solver.
  - destruct (proj1 (Hl n) eq_refl) as (u & Hu & <- & Ha). naive_solver.
  - intros n' Hn'. rewrite <-Hl. naive_solver.
  - split; [|done]. intros _ u Hu Ha. assert (None = Some (Name u)); [apply Hl; eauto|done].
Qed.

Lemma ReservedFor_spec us db name a :
  represents db us →
  a ∈ ReservedFor (Some db) name → ∃ u, u ∈ us ∧ Name u = name ∧ a ∈ Reserved u.
Proof.
  intros Hrep. simpl. destruct (byName db !! name) as [p|] eqn:Hp; [|set_solver].
  apply (rep_name _ _ Hrep) in Hp as (u & Hu & <-).
  destruct (entries db !! p) as [e|] eqn:He; [|set_solver].
  rewrite <-(rep_entries _ _ Hrep), list_lookup_fmap, He in Hu. simplify_eq/=.
  intros Ha. exists (e_u e). split_and!; [|done..].
  rewrite <-(rep_entries _ _ Hrep). apply list_elem_of_fmap. exists e.
  split; [done|]. by eapply list_elem_of_lookup_2.
Qed.

(** on a constructed database the owner of an address is exactly the one
    user that lists it among its reservations, and an address nobody lists has
    no owner. *)
Theorem ReservationOwner_correct us db a :
  NewUserDB us = Ok db →
  (∀ n, n ≠ EmptyString →
     ReservationOwner (Some db) a = n ↔ ∃ u, u ∈ us ∧ Name u = n ∧ a ∈ Reserved u) ∧
  (ReservationOwner (Some db) a = EmptyString ↔ ∀ u, u ∈ us → a ∉ Reserved u).
Proof. intros (Hv & Hrep & _)%NewUserDB_Ok. by apply owner_spec. Qed.

(** A user of one test list, and the database of two such users. *)
Definition alice : User := mkUser "alice" (replicate 32 xaa) 2 [Addr4 [# x0a; x42; x00; x05]].
Definition bob : User := mkUser "bob" (replicate 32 xbb) 0 [].
Definition demo_db : UserDB :=
  default emptyDB (ok (NewUserDB [alice; bob])).

Lemma ReservationOwner_correct_witness :
  NewUserDB [alice; bob] = Ok demo_db ∧
  (ReservationOwner (Some demo_db) (Addr4 [# x0a; x42; x00; x05]) = "alice" ↔
   ∃ u, u ∈ [alice; bob] ∧ Name u = "alice"%string ∧ Addr4 [# x0a; x42; x00; x05] ∈ Reserved u).
Proof.
  assert (NewUserDB [alice; bob] = Ok demo_db) as H by (apply ok_default; vm_compute; reflexivity).
  split; [exact H|]. by apply (ReservationOwner_correct _ _ _ H).
Defined.

(** [AcquireSlot] and [ReleaseSlot] move the count of one user by one. *)
Lemma slots_spec us db u a :
  represents db us → u ∈ us → active_of db (Name u) = Some a →
  (∃ d, AcquireSlot (Some db) (Name u) =
     (if (0 <? MaxConcurrent u) && (MaxConcurrent u <=? a)
      then (Some ErrQuotaExceeded, Some db) else (None, Some d)) ∧
     represents d us ∧
     ∀ n, active_of d n = if decide (n = Name u) then Some (a + 1) else active_of db n) ∧
  (∃ d, ReleaseSlot (Some db) (Name u) = (if 0 <? a then Some d else Some db) ∧
     represents d us ∧
     ∀ n, active_of d n = if decide (n = Name u) then Some (a - 1) else active_of db n) ∧
  (∀ n, n ∉ (Name <$> us) → AcquireSlot (Some db) n = (Some ErrUnknownUser, Some db)).
Proof.
  intros Hrep [p0 Hp0]%list_elem_of_lookup Ha.
  assert (byName db !! Name u = Some p0) as Hp by (apply (rep_name _ _ Hrep); eauto).
  pose proof Ha as Ha'. unfold active_of in Ha. rewrite Hp in Ha. simpl in Ha.
  destruct (entries db !! p0) as [e|] eqn:He; [|done]. simplify_eq/=.
  assert (e_u e = u) as Hu.
  { rewrite <-(rep_entries _ _ Hrep), list_lookup_fmap, He in Hp0. by simplify_eq/=. }
  pose proof (active_of_bump db us (Name u)) as Hb.
  split_and!.
  - exists (bump_active db p0 1). simpl. rewrite Hp, He, Hu. split; [by case_match|].
    split; [by apply bump_active_rep|]. intros n. rewrite (Hb n p0 1 Hrep Hp).
    case_decide; [|done]. subst n. by rewrite Ha'.
  - exists (bump_active db p0 (-1)). simpl. rewrite Hp, He. split; [done|].
    split; [by apply bump_active_rep|]. intros n. rewrite (Hb n p0 (-1) Hrep Hp).
    case_decide; [|done]. subst n. by rewrite Ha'.
  - intros n Hn. simpl. by rewrite (proj2 (rep_name_None _ _ Hrep n) Hn).
Qed.

(** for a known user with [a] slots taken, [AcquireSlot] refuses with
    [ErrQuotaExceeded] and changes nothing when a maximum is set and reached,
    and otherwise adds one to the count of that user alone; an unknown name is
    refused; [ReleaseSlot] takes one away from that user alone, never below zero. *)
Theorem slots_correct us db u a :
  represents db us → u ∈ us → active_of db (Name u) = Some a →
  (∃ d, AcquireSlot (Some db) (Name u) =
     (if (0 <? MaxConcurrent u) && (MaxConcurrent u <=? a)
      then (Some ErrQuotaExceeded, Some db) else (None, Some d)) ∧
     represents d us ∧
     ∀ n, active_of d n = if decide (n = Name u) then Some (a + 1) else active_of db n) ∧
  (∃ d, ReleaseSlot (Some db) (Name u) = (if 0 <? a then Some d else Some db) ∧
     represents d us ∧
     ∀ n, active_of d n = if decide (n = Name u) then Some (a - 1) else active_of db n) ∧
  (∀ n, n ∉ (Name <$> us) → AcquireSlot (Some db) n = (Some ErrUnknownUser, Some db)).
Proof. apply slots_spec. Qed.

Lemma slots_correct_witness :
  active_of demo_db "alice" = Some 0 ∧
  ∃ d, AcquireSlot (Some demo_db) "alice" = (None, Some d) ∧ active_of d "alice" = Some 1.
Proof.
  split; [vm_compute; reflexivity|].
  destruct (NewUserDB_Ok [alice; bob] demo_db) as (_ & Hrep & _);
    [apply ok_default; vm_compute; reflexivity|].
  destruct (slots_correct [alice; bob] demo_db alice 0 Hrep) as [(d & H1 & _ & H3) _];
    [left|vm_compute; reflexivity|].
  exists d. split; [exact H1|]. by rewrite (H3 "alice"%string).
Defined.

(** The operations on slot counts, as the server issues them. *)
Inductive slot_op : Type := OpAcquire (n : string) | OpRelease (n : string).

Definition slot_step (db : UserDB) (op : slot_op) : UserDB :=
  default db (match op with
              | OpAcquire n => (AcquireSlot (Some db) n).2
              | OpRelease n => ReleaseSlot (Some db) n
              end).

Lemma slot_step_inv db us op :
  represents db us → quota_ok db →
  represents (slot_step db op) us ∧ quota_ok (slot_step db op).
Proof.
  intros Hrep Hq. unfold slot_step.
  assert (∀ p e, entries db !! p = Some e → 0 <= e_active e ∧
    (0 < MaxConcurrent (e_u e) → e_active e <= MaxConcurrent (e_u e))) as Hq'.
  { intros p e He. by eapply (proj1 (Forall_lookup _ _) Hq). }
  destruct op as [n|n]; simpl; destruct (byName db !! n) as [p|]; simpl; auto;
    destruct (entries db !! p) as [e|] eqn:He; simpl; auto; specialize (Hq' p e He).
  - destruct ((0 <? _) && _) eqn:Ht; simpl; [done|].
    split; [by apply bump_active_rep|]. eapply quota_ok_bump; [done..|lia|].
    intros HM. bool_to_prop. destruct Ht; bool_to_prop; lia.
  - destruct (0 <? e_active e) eqn:Ht; simpl; [|done]. bool_to_prop.
    split; [by apply bump_active_rep|]. eapply quota_ok_bump; [done..|lia|]. intros; lia.
Qed.

(** quota safety.  Whatever sequence of [AcquireSlot] and [ReleaseSlot]
    calls a constructed database goes through, no user's live-slot count is
    negative or above its configured maximum, and the users are unchanged. *)
Theorem slots_quota us db ops :
  NewUserDB us = Ok db →
  quota_ok (foldl slot_step db ops) ∧ represents (foldl slot_step db ops) us.
Proof.
  intros (Hv & Hrep & He)%NewUserDB_Ok.
  assert (quota_ok db) as Hq.
  { unfold quota_ok. rewrite He, Forall_fmap. apply Forall_true. intros u; simpl. lia. }
  clear He. revert db Hrep Hq. induction ops as [|op ops IH]; intros db Hrep Hq; [done|].
  simpl. destruct (slot_step_inv db us op Hrep Hq). by apply IH.
Qed.

Lemma slots_quota_witness :
  NewUserDB [alice; bob] = Ok demo_db ∧
  quota_ok (foldl slot_step demo_db
    [OpAcquire "alice"; OpAcquire "alice"; OpAcquire "alice"; OpRelease "bob"]).
Proof.
  assert (NewUserDB [alice; bob] = Ok demo_db) as H by (apply ok_default; vm_compute; reflexivity).
  split; [exact H|]. exact (proj1 (slots_quota _ _ _ H)).
Defined.
