(* ===== verification/Keys.v ===== *)
(** * users.go: keys as text

    [ParseKey] and [FormatKey], over the decoders of encoding/base64 (StdEncoding:
    padded, not strict, line breaks ignored) and encoding/hex. *)

From Stdlib Require Import Strings.Byte.
From S2P Require Import Prelude Users.

(** ** encoding/hex *)

Definition between (lo hi c : byte) : bool := (b2z lo <=? b2z c) && (b2z c <=? b2z hi).

Definition hex_val (c : byte) : option Z :=
  if between "0" "9" c then Some (b2z c - b2z "0")
  else if between "a" "f" c then Some (b2z c - b2z "a" + 10)
  else if between "A" "F" c then Some (b2z c - b2z "A" + 10)
  else None.

Fixpoint hex_decode (l : list byte) : option (list byte) :=
  match l with
  | [] => Some []
  | a :: b :: l' =>
      match hex_val a, hex_val b, hex_decode l' with
      | Some x, Some y, Some r => Some (z2b (Z.lor (Z.shiftl x 4) y) :: r)
      | _, _, _ => None
      end
  | [_] => None
  end.

(** ** encoding/base64 *)

Definition b64_alphabet : list byte :=
  bytes_of "ABCDEFGHIJKLMNOPQRSTUVWXYZabcdefghijklmnopqrstuvwxyz0123456789+/".

Definition b64_char (v : Z) : byte := default x00 (b64_alphabet !! Z.to_nat v).

Definition b64_val (c : byte) : option Z :=
  if between "A" "Z" c then Some (b2z c - b2z "A")
  else if between "a" "z" c then Some (b2z c - b2z "a" + 26)
  else if between "0" "9" c then Some (b2z c - b2z "0" + 52)
  else if bool_decide (c = "+"%byte) then Some 62
  else if bool_decide (c = "/"%byte) then Some 63
  else None.

(** The low six bits of [val >> k]. *)
Definition sextet (val k : Z) : byte := b64_char (Z.land (Z.shiftr val k) 63).

Fixpoint b64_encode (l : list byte) : list byte :=
  match l with
  | [] => []
  | [a] =>
      let val := Z.shiftl (b2z a) 16 in
      [sextet val 18; sextet val 12; "="%byte; "="%byte]
  | [a; b] =>
      let val := Z.lor (Z.shiftl (b2z a) 16) (Z.shiftl (b2z b) 8) in
      [sextet val 18; sextet val 12; sextet val 6; "="%byte]
  | a :: b :: c :: l' =>
      let val := Z.lor (Z.lor (Z.shiftl (b2z a) 16) (Z.shiftl (b2z b) 8)) (b2z c) in
      sextet val 18 :: sextet val 12 :: sextet val 6 :: sextet val 0 :: b64_encode l'
  end.

(** Four characters at a time; padding only in the last group. *)
Definition quantum (x y z w : Z) : Z :=
  Z.lor (Z.lor (Z.lor (Z.shiftl x 18) (Z.shiftl y 12)) (Z.shiftl z 6)) w.

Fixpoint b64_groups (l : list byte) : option (list byte) :=
  match l with
  | [] => Some []
  | a :: b :: c :: d :: l' =>
      match b64_val a, b64_val b with
      | Some x, Some y =>
          if bool_decide (c = "="%byte) then
            if bool_decide (d = "="%byte) && bool_decide (l' = [])
            then Some [z2b (Z.shiftr (quantum x y 0 0) 16)] else None
          else
            match b64_val c with
            | None => None
            | Some z =>
                if bool_decide (d = "="%byte) then
                  if bool_decide (l' = [])
                  then let val := quantum x y z 0 in Some [z2b (Z.shiftr val 16); z2b (Z.shiftr val 8)]
                  else None
                else
                  match b64_val d, b64_groups l' with
                  | Some w, Some r =>
                      let val := quantum x y z w in
                      Some (z2b (Z.shiftr val 16) :: z2b (Z.shiftr val 8) :: z2b val :: r)
                  | _, _ => None
                  end
            end
      | _, _ => None
      end
  | _ => None
  end.

Definition newline (c : byte) : bool := bool_decide (c = x0a) || bool_decide (c = x0d).

Definition b64_decode (l : list byte) : option (list byte) :=
  b64_groups (filter (λ c, newline c = false) l).

(** ** The program *)

Inductive keyError : Type := ENotText | EKeyLen (n : nat).

Definition ParseKey (s : string) : result keyError (list byte) :=
  let via_hex :=
    match hex_decode (bytes_of s) with
    | None => Err ENotText
    | Some b => if negb (length b =? pubKeyLen)%nat then Err (EKeyLen (length b)) else Ok b
    end in
  if bool_decide (s = EmptyString) then Ok []
  else match b64_decode (bytes_of s) with
       | Some b => if (length b =? pubKeyLen)%nat then Ok b else via_hex
       | None => via_hex
       end.

Definition FormatKey (b : list byte) : string := string_of (b64_encode b).

(** ** The alphabet *)

Definition sextets_ok : bool :=
  forallb (λ v, bool_decide (b64_val (b64_char v) = Some v) && negb (newline (b64_char v))
                && negb (bool_decide (b64_char v = "="%byte))) (seqZ 0 64).

Lemma b64_char_spec v : 0 <= v < 64 →
  b64_val (b64_char v) = Some v ∧ newline (b64_char v) = false ∧ b64_char v ≠ "="%byte.
Proof.
  intros Hv. assert (sextets_ok = true) as H by (vm_compute; reflexivity).
  unfold sextets_ok in H. rewrite forallb_forall in H.
  specialize (H v ltac:(apply list_elem_of_In, elem_of_seqZ; lia)). bool_to_prop. done.
Qed.

Lemma land63 v : Z.land v 63 = v mod 64.
Proof. change 63 with (Z.ones 6). by rewrite Z.land_ones. Qed.

(** The [k]-th sextet of [val], read back. *)
Lemma sextet_spec val k : 0 <= k → b64_val (sextet val k) = Some ((val / 2 ^ k) mod 64) ∧
  newline (sextet val k) = false ∧ sextet val k ≠ "="%byte.
Proof.
  intros Hk. unfold sextet. rewrite land63, Z.shiftr_div_pow2 by done. apply b64_char_spec.
  apply Z.mod_pos_bound. lia.
Qed.

(** The four sextets of a 24-bit value make the value again. *)
Lemma quantum_spec x y z w : 0 <= y < 64 → 0 <= z < 64 → 0 <= w < 64 →
  quantum x y z w = x * 2 ^ 18 + y * 2 ^ 12 + z * 2 ^ 6 + w.
Proof.
  intros Hy Hz Hw. unfold quantum.
  assert (∀ u v k j, 0 <= k → 0 <= j → 0 <= v < 2 ^ j → Z.lor (Z.shiftl u (k + j)) (Z.shiftl v k) = Z.shiftl (u * 2 ^ j + v) k)
    as Hs.
  { intros u v k j Hk Hj Hv.
    rewrite Z.add_comm, <-Z.shiftl_shiftl, <-Z.shiftl_lor, lor_shiftl_add by lia. done. }
  change (Z.shiftl x 18) with (Z.shiftl x (12 + 6)). rewrite (Hs x y 12 6) by lia.
  change (Z.shiftl (x * 2 ^ 6 + y) 12) with (Z.shiftl (x * 2 ^ 6 + y) (6 + 6)).
  rewrite (Hs (x * 2 ^ 6 + y) z 6 6), lor_shiftl_add by lia. lia.
Qed.

Lemma val24_spec a b c :
  Z.lor (Z.lor (Z.shiftl (b2z a) 16) (Z.shiftl (b2z b) 8)) (b2z c) = b2z a * 65536 + b2z b * 256 + b2z c.
Proof.
  pose proof (b2z_range b). pose proof (b2z_range c).
  rewrite (lor_shiftl_add (b2z a) (Z.shiftl (b2z b) 8) 16) by (rewrite ?Z.shiftl_mul_pow2 by lia; lia).
  rewrite Z.shiftl_mul_pow2 by lia.
  replace (b2z a * 2 ^ 16 + b2z b * 2 ^ 8) with (Z.shiftl (b2z a * 256 + b2z b) 8)
    by (rewrite Z.shiftl_mul_pow2 by lia; lia).
  rewrite lor_shiftl_add by lia. lia.
Qed.

(** The bytes of a value of 24 bits, from its sextets. *)
Lemma regroup val : 0 <= val < 2 ^ 24 →
  quantum ((val / 2 ^ 18) mod 64) ((val / 2 ^ 12) mod 64) ((val / 2 ^ 6) mod 64) ((val / 2 ^ 0) mod 64) = val.
Proof.
  intros Hv. rewrite quantum_spec by (apply Z.mod_pos_bound; lia).
  change (2 ^ 18) with 262144. change (2 ^ 12) with 4096. change (2 ^ 6) with 64. change (2 ^ 0) with 1.
  Z.to_euclidean_division_equations. lia.
Qed.

Lemma byte_of_val a b c val : val = b2z a * 65536 + b2z b * 256 + b2z c →
  z2b (Z.shiftr val 16) = a ∧ z2b (Z.shiftr val 8) = b ∧ z2b val = c.
Proof.
  intros ->. pose proof (b2z_range a). pose proof (b2z_range b). pose proof (b2z_range c).
  rewrite !Z.shiftr_div_pow2 by lia. split_and!; apply b2z_inj; rewrite b2z_z2b.
  all: change (2 ^ 16) with 65536; change (2 ^ 8) with 256; Z.to_euclidean_division_equations; lia.
Qed.

(** ** Base64 text is read back *)

Lemma b64_full a b c l r :
  b64_groups l = Some r →
  let val := Z.lor (Z.lor (Z.shiftl (b2z a) 16) (Z.shiftl (b2z b) 8)) (b2z c) in
  b64_groups (sextet val 18 :: sextet val 12 :: sextet val 6 :: sextet val 0 :: l) = Some (a :: b :: c :: r).
Proof.
  intros Hl val. unfold val. rewrite val24_spec. clear val. set (val := _ + b2z c).
  assert (0 <= val < 2 ^ 24) as Hr
    by (unfold val; pose proof (b2z_range a); pose proof (b2z_range b); pose proof (b2z_range c); lia).
  destruct (sextet_spec val 18) as (Hx & _ & _), (sextet_spec val 12) as (Hy & _ & _); [lia..|].
  destruct (sextet_spec val 6) as (Hz & _ & Nz), (sextet_spec val 0) as (Hw & _ & Nw); [lia..|].
  cbn [b64_groups]. rewrite Hx, Hy, Hz, Hw, Hl, !bool_decide_eq_false_2, regroup by done.
  by destruct (byte_of_val a b c val eq_refl) as (-> & -> & ->).
Qed.

Lemma b64_two a b :
  let val := Z.lor (Z.shiftl (b2z a) 16) (Z.shiftl (b2z b) 8) in
  b64_groups [sextet val 18; sextet val 12; sextet val 6; "="%byte] = Some [a; b].
Proof.
  intros val. assert (val = b2z a * 65536 + b2z b * 256 + b2z x00) as E
    by (unfold val; rewrite <-val24_spec; change (b2z x00) with 0; by rewrite Z.lor_0_r).
  pose proof (byte_of_val a b x00 val E) as (Ha & Hb & _). change (b2z x00) with 0 in E.
  pose proof (b2z_range a). pose proof (b2z_range b).
  destruct (sextet_spec val 18) as (Hx & _ & _), (sextet_spec val 12) as (Hy & _ & _); [lia..|].
  destruct (sextet_spec val 6) as (Hz & _ & Nz); [lia|].
  cbn [b64_groups]. rewrite Hx, Hy, Hz, (bool_decide_eq_false_2 (_ = "="%byte)) by done.
  rewrite !bool_decide_eq_true_2 by done.
  replace 0 with ((val / 2 ^ 0) mod 64) at 1 2 by (rewrite E; change (2 ^ 0) with 1; Z.to_euclidean_division_equations; lia).
  rewrite regroup by lia. by rewrite Ha, Hb.
Qed.

Lemma b64_one a :
  let val := Z.shiftl (b2z a) 16 in b64_groups [sextet val 18; sextet val 12; "="%byte; "="%byte] = Some [a].
Proof.
  intros val. assert (val = b2z a * 65536 + b2z x00 * 256 + b2z x00) as E
    by (unfold val; rewrite Z.shiftl_mul_pow2 by lia; change (b2z x00) with 0; lia).
  pose proof (byte_of_val a x00 x00 val E) as (Ha & _ & _). change (b2z x00) with 0 in E.
  pose proof (b2z_range a).
  destruct (sextet_spec val 18) as (Hx & _ & _), (sextet_spec val 12) as (Hy & _ & _); [lia..|].
  cbn [b64_groups]. rewrite Hx, Hy, !bool_decide_eq_true_2 by done. cbn [andb].
  replace (quantum _ _ 0 0) with val; [by rewrite Ha|].
  rewrite <-(regroup val) at 1 by lia. f_equal; rewrite E;
    change (2 ^ 0) with 1; change (2 ^ 6) with 64; Z.to_euclidean_division_equations; lia.
Qed.

Lemma b64_encode_spec l : b64_groups (b64_encode l) = Some l ∧ Forall (λ c, newline c = false) (b64_encode l).
Proof.
  revert l. fix IH 1. intros [|a [|b [|c l]]].
  - split; [reflexivity|constructor].
  - split; [apply b64_one|]. cbn [b64_encode]. repeat (constructor; [apply sextet_spec || reflexivity; lia|]). constructor.
  - split; [apply b64_two|]. cbn [b64_encode]. repeat (constructor; [apply sextet_spec || reflexivity; lia|]). constructor.
  - destruct (IH l) as [Hl Hn]. split; [by apply b64_full|].
    cbn [b64_encode]. repeat (constructor; [apply sextet_spec; lia|]). exact Hn.
Qed.

(** What a key's text is made of. *)
Lemma b64_val_text c v : b64_val c = Some v → between "!" "~" c = true ∧ c ≠ "@"%byte.
Proof.
  intros Hc. assert (match b64_val c with Some _ => between "!" "~" c && negb (bool_decide (c = "@"%byte)) | None => true end = true) as H.
  { clear Hc v. revert c. apply byte_forall. vm_compute. reflexivity. }
  rewrite Hc in H. bool_to_prop. done.
Qed.

Lemma b64_encode_text l : Forall (λ c, between "!" "~" c = true) (b64_encode l) ∧
  (l ≠ [] → ∃ c r, b64_encode l = c :: r ∧ c ≠ "@"%byte).
Proof.
  assert (∀ val k, 0 <= k → between "!" "~" (sextet val k) = true ∧ sextet val k ≠ "@"%byte) as Hs.
  { intros val k Hk. destruct (sextet_spec val k Hk) as (H & _). by eapply b64_val_text. }
  revert l. fix IH 1. intros [|a [|b [|c l]]]; cbn [b64_encode].
  - split; [constructor|done].
  - split; [|intros _; eexists _, _; split; [done|by apply Hs]]. repeat (constructor; [apply Hs || reflexivity; lia|]). constructor.
  - split; [|intros _; eexists _, _; split; [done|by apply Hs]]. repeat (constructor; [apply Hs || reflexivity; lia|]). constructor.
  - split; [|intros _; eexists _, _; split; [done|by apply Hs]]. repeat (constructor; [apply Hs; lia|]). apply (IH l).
Qed.

(** ** Hex text is never mistaken for base64 *)

Lemma hex_digit c x : hex_val c = Some x → newline c = false ∧ c ≠ "="%byte.
Proof.
  intros Hc. assert (match hex_val c with Some _ => negb (newline c) && negb (bool_decide (c = "="%byte)) | None => true end = true)
    as H.
  { clear Hc x. revert c. apply byte_forall. vm_compute. reflexivity. }
  rewrite Hc in H. bool_to_prop. done.
Qed.

Lemma hex_decode_spec l b : hex_decode l = Some b →
  length l = (2 * length b)%nat ∧ Forall (λ c, newline c = false ∧ c ≠ "="%byte) l.
Proof.
  revert l b. fix IH 1. intros [|c [|d l]] b; cbn [hex_decode].
  - intros [= <-]. split; [reflexivity|constructor].
  - done.
  - destruct (hex_val c) as [x|] eqn:Hc; [|done]. destruct (hex_val d) as [y|] eqn:Hd; [|done].
    destruct (hex_decode l) as [r|] eqn:Hl; [|done]. intros [= <-]. destruct (IH l r Hl) as [Hlen Hf].
    split; [cbn [length]; lia|]. constructor; [by eapply hex_digit|]. constructor; [by eapply hex_digit|done].
Qed.

(** Without padding, four characters make three bytes. *)
Lemma b64_groups_length l b : b64_groups l = Some b → Forall (λ c, c ≠ "="%byte) l →
  (3 * length l = 4 * length b)%nat.
Proof.
  revert l b. fix IH 1. intros [|c1 [|c2 [|c3 [|c4 l]]]] b; cbn [b64_groups]; try done; [by intros [= <-]|].
  intros H Hf. do 4 (apply Forall_cons in Hf as [? Hf]).
  destruct (b64_val c1); [|done]. destruct (b64_val c2); [|done].
  rewrite (bool_decide_eq_false_2 (c3 = _)), (bool_decide_eq_false_2 (c4 = _)) in H by done.
  destruct (b64_val c3); [|done]. destruct (b64_val c4); [|done].
  destruct (b64_groups l) as [r|] eqn:Hl; [|done]. injection H as <-.
  specialize (IH l r Hl Hf). cbn [length]. lia.
Qed.

Lemma filter_all {A} (P : A → Prop) `{∀ x, Decision (P x)} (l : list A) : Forall P l → filter P l = l.
Proof. induction 1; [done|]. rewrite filter_cons_True by done. by f_equal. Qed.

Lemma b64_decode_hex l b : hex_decode l = Some b → length b = pubKeyLen →
  ∀ r, b64_decode l = Some r → (length r =? pubKeyLen)%nat = false.
Proof.
  intros Hd Hlen r Hr. destruct (hex_decode_spec l b Hd) as [Hl Hf]. unfold b64_decode in Hr.
  rewrite filter_all in Hr by (eapply Forall_impl; [done|by intros ? [? _]]).
  apply b64_groups_length in Hr; [|eapply Forall_impl; [done|by intros ? [_ ?]]].
  apply Nat.eqb_neq. unfold pubKeyLen in *. lia.
Qed.

Lemma bytes_of_string_of l : bytes_of (string_of l) = l.
Proof. apply String.list_byte_of_string_of_list_byte. Qed.

Lemma ParseKey_spec s :
  match ParseKey s with
  | Ok b => if bool_decide (s = EmptyString) then b = [] else length b = pubKeyLen
  | Err _ => s ≠ EmptyString
  | Panic => False
  end.
Proof.
  unfold ParseKey. case_bool_decide as Hs; [done|].
  destruct (b64_decode _) as [r|]; [destruct (length r =? pubKeyLen)%nat eqn:E; [by apply Nat.eqb_eq|]|].
  all: destruct (hex_decode _) as [h|]; [|done].
  all: destruct (length h =? pubKeyLen)%nat eqn:E'; [by apply Nat.eqb_eq|done].
Qed.

(** A key's text is read back. *)
Lemma ParseKey_Format b : length b = pubKeyLen → ParseKey (FormatKey b) = Ok b.
Proof.
  intros Hb. unfold ParseKey, FormatKey. rewrite bool_decide_eq_false_2.
  - destruct (b64_encode_spec b) as [Hg Hn]. rewrite bytes_of_string_of. unfold b64_decode.
    rewrite filter_all by done. rewrite Hg. by rewrite Hb.
  - intros E. apply (f_equal bytes_of) in E. rewrite bytes_of_string_of in E.
    by destruct b as [|? [|? [|]]].
Qed.

(** Key text.  [ParseKey] inverts [FormatKey] on every 32-byte key, and reads a
    key in hex in either case, although such text is also valid base64; whatever
    it accepts is a 32-byte key, or no key for the empty string; it never panics. *)
Theorem ParseKey_FormatKey :
  (∀ b, length b = pubKeyLen → ParseKey (FormatKey b) = Ok b) ∧
  (∀ s b, hex_decode (bytes_of s) = Some b → length b = pubKeyLen → ParseKey s = Ok b) ∧
  (∀ s, match ParseKey s with
        | Ok b => if bool_decide (s = EmptyString) then b = [] else length b = pubKeyLen
        | Err _ => s ≠ EmptyString
        | Panic => False
        end).
Proof.
  split_and!.
  - apply ParseKey_Format.
  - intros s b Hd Hb. unfold ParseKey. rewrite bool_decide_eq_false_2.
    + rewrite Hd, Hb. cbn [Nat.eqb pubKeyLen negb].
      destruct (b64_decode (bytes_of s)) as [r|] eqn:Hr; [|done]. by rewrite (b64_decode_hex _ _ Hd Hb r Hr).
    + intros ->. cbn in Hd. by injection Hd as <-.
  - apply ParseKey_spec.
Qed.
