(* ===== verification/NetipText.v ===== *)
(** * net/netip: addresses and prefixes from text

    [ParseAddr] and [ParsePrefix] as the library computes them: dotted IPv4
    without leading zeros, IPv6 with one ellipsis, an embedded IPv4 tail and a zone;
    prefixes without zone or sign.  Errors carry no payload. *)

From Stdlib Require Import Strings.Byte.
From stdpp Require Import pretty.
From S2P Require Import Prelude Netip Users Keys.

Definition is_digit (c : byte) : bool := between "0" "9" c.
Definition digit_val (c : byte) : Z := b2z c - b2z "0".

(** ** IPv4 *)

(** [parseIPv4Fields]: [prev] is the character before, [digLen] the digits of the
    current field, [fields] those completed. *)
Fixpoint parse4_loop (s : list byte) (prev : option byte) (val : Z) (digLen : nat) (fields : list byte)
    : option (list byte) :=
  match s with
  | [] => if (length fields <? 3)%nat then None else Some (fields ++ [z2b val])
  | c :: s' =>
      if is_digit c then
        if (digLen =? 1)%nat && (val =? 0) then None
        else
          let val := val * 10 + digit_val c in
          if 255 <? val then None else parse4_loop s' (Some c) val (S digLen) fields
      else if bool_decide (c = "."%byte) then
        if bool_decide (prev = None) || bool_decide (s' = []) || bool_decide (prev = Some "."%byte) then None
        else if (length fields =? 3)%nat then None
        else parse4_loop s' (Some c) 0 0 (fields ++ [z2b val])
      else None
  end.

Definition parse4_fields (s : list byte) : option (list byte) := parse4_loop s None 0 0 [].

Definition parseIPv4 (s : list byte) : option Addr :=
  (λ f, AddrFrom4 (array_of 4 f)) <$> parse4_fields s.

(** ** IPv6 *)

(** The leading hex digits of [s]: the value and the rest; more than four digits
    fail (four digits never exceed 16 bits). *)
Fixpoint hex_group (s : list byte) (off : nat) (acc : Z) : option (Z * nat * list byte) :=
  match s with
  | c :: s' =>
      match hex_val c with
      | Some d => if (3 <? off)%nat then None else hex_group s' (S off) (Z.shiftl acc 4 + d)
      | None => Some (acc, off, s)
      end
  | [] => Some (acc, off, [])
  end.

(** The loop over the groups.  [ip] are the bytes so far, [ell] the position of the
    ellipsis; it returns them and the text left over. *)
Fixpoint parse6_loop (fuel : nat) (s : list byte) (ip : list byte) (ell : option nat)
    : option (list byte * list byte * option nat) :=
  match fuel with
  | O => Some (s, ip, ell)
  | S fuel' =>
      if (16 <=? length ip)%nat then Some (s, ip, ell)
      else
        match hex_group s 0 0 with
        | None => None
        | Some (acc, off, rest) =>
            if (off =? 0)%nat then None
            else
              match rest with
              | c :: rest' =>
                  if bool_decide (c = "."%byte) then
                    if bool_decide (ell = None) && negb (length ip =? 12)%nat then None
                    else if (16 <? length ip + 4)%nat then None
                    else match parse4_fields s with
                         | None => None
                         | Some f => Some ([], ip ++ f, ell)
                         end
                  else
                    let ip := ip ++ [z2b (Z.shiftr acc 8); z2b acc] in
                    if negb (bool_decide (c = ":"%byte)) then None
                    else
                      match rest' with
                      | [] => None
                      | c' :: rest'' =>
                          if bool_decide (c' = ":"%byte) then
                            if bool_decide (is_Some ell) then None
                            else if bool_decide (rest'' = []) then Some ([], ip, Some (length ip))
                            else parse6_loop fuel' rest'' ip (Some (length ip))
                          else parse6_loop fuel' rest' ip ell
                      end
              | [] => Some ([], ip ++ [z2b (Z.shiftr acc 8); z2b acc], ell)
              end
        end
  end.

(** The zone after the first percent sign; an empty zone fails. *)
Definition split_zone (s : list byte) : option (list byte * list byte) :=
  match list_find (λ c, c = "%"%byte) s with
  | None => Some (s, [])
  | Some (i, _) => let zone := drop (S i) s in if bool_decide (zone = []) then None else Some (take i s, zone)
  end.

(** Eight groups at most: the ninth iteration of the loop would start with a full
    address. *)
Definition parseIPv6 (s : list byte) : option Addr :=
  match split_zone s with
  | None => None
  | Some (s, zone) =>
      let finish ip := Some (Addr6 (array_of 16 ip) (string_of zone)) in
      let run s ell :=
        match parse6_loop 9 s [] ell with
        | None => None
        | Some (rest, ip, ell) =>
            if negb (bool_decide (rest = [])) then None
            else if (length ip <? 16)%nat then
              match ell with
              | None => None
              | Some e => finish (take e ip ++ zeros (16 - length ip) ++ drop e ip)
              end
            else if bool_decide (is_Some ell) then None
            else finish ip
        end in
      match s with
      | c1 :: c2 :: s' =>
          if bool_decide (c1 = ":"%byte) && bool_decide (c2 = ":"%byte) then
            if bool_decide (s' = []) then finish (zeros 16) else run s' (Some 0%nat)
          else run s None
      | _ => run s None
      end
  end.

Definition ParseAddr (s : string) : option Addr :=
  let l := bytes_of s in
  match list_find (λ c, c = "."%byte ∨ c = ":"%byte ∨ c = "%"%byte) l with
  | None => None
  | Some (_, c) =>
      if bool_decide (c = "."%byte) then parseIPv4 l
      else if bool_decide (c = ":"%byte) then parseIPv6 l
      else None
  end.

(** ** Prefixes *)

(** [strconv.Atoi] on text without a sign; three digits decide every prefix length,
    and the value of longer text is out of range or an error alike. *)
Fixpoint digits_Z (l : list byte) (acc : Z) : option Z :=
  match l with
  | [] => Some acc
  | c :: l' => if is_digit c then digits_Z l' (acc * 10 + digit_val c) else None
  end.

(** The text before and after the last slash. *)
Definition split_slash (l : list byte) : option (list byte * list byte) :=
  match list_find (λ c, c = "/"%byte) (reverse l) with
  | None => None
  | Some (i, _) => Some (take (length l - S i) l, drop (length l - i) l)
  end.

Definition ParsePrefix (s : string) : option Prefix :=
  match split_slash (bytes_of s) with
  | None => None
  | Some (a, bs) =>
      match ParseAddr (string_of a) with
      | None => None
      | Some ip =>
          if hasZone ip then None
          else
            let bad :=
              match bs with
              | c :: _ :: _ => negb (between "1" "9" c)
              | _ => bool_decide (bs = [])
              end in
            if bad then None
            else match digits_Z bs 0 with
                 | None => None
                 | Some bits => if (bits <? 0) || (BitLen ip <? bits) then None else Some (PrefixFrom ip bits)
                 end
      end
  end.

(** ** Rendering *)

(** [%d] of an integer. *)
Definition dec (z : Z) : string := pretty z.

Fixpoint hex_digits (fuel : nat) (z : Z) (acc : string) : string :=
  match fuel with
  | O => acc
  | S fuel' =>
      let d := string_of [default x00 (bytes_of "0123456789abcdef" !! Z.to_nat (z mod 16))] in
      if z / 16 =? 0 then d +:+ acc else hex_digits fuel' (z / 16) (d +:+ acc)
  end.

(** [%x] of an unsigned integer of at most 64 bits. *)
Definition hex (z : Z) : string := hex_digits 16 z EmptyString.

Definition v6u16 (b : vec byte 16) (i : nat) : Z :=
  u16 (default x00 (vec_to_list b !! (2 * i)%nat)) (default x00 (vec_to_list b !! (2 * i + 1)%nat)).

(** The length of the run of zero groups from [i], and the first longest run of at
    least two. *)
Fixpoint zero_run (fuel : nat) (b : vec byte 16) (i : nat) : nat :=
  match fuel with
  | O => 0
  | S fuel' => if (i <? 8)%nat && (v6u16 b i =? 0) then S (zero_run fuel' b (S i)) else 0
  end.

Definition longest_zeros (b : vec byte 16) : nat * nat :=
  fold_left (λ best i, let l := zero_run 8 b i in
    if (2 <=? l)%nat && (best.2 <? l)%nat then (i, l) else best) (seq 0 8) (8%nat, 0%nat).

Fixpoint groups6 (fuel : nat) (b : vec byte 16) (z : nat * nat) (i : nat) : string :=
  match fuel with
  | O => EmptyString
  | S fuel' =>
      if (8 <=? i)%nat then EmptyString
      else if (i =? z.1)%nat then
        let j := (i + z.2)%nat in
        "::" +:+ (if (8 <=? j)%nat then EmptyString else hex (v6u16 b j) +:+ groups6 fuel' b z (S j))
      else (if (0 <? i)%nat then ":" else EmptyString) +:+ hex (v6u16 b i) +:+ groups6 fuel' b z (S i)
  end.

Definition dotted (l : list byte) : string :=
  match l with
  | [a; b; c; d] => dec (b2z a) +:+ "." +:+ dec (b2z b) +:+ "." +:+ dec (b2z c) +:+ "." +:+ dec (b2z d)
  | _ => EmptyString
  end.

Definition Addr_String (a : Addr) : string :=
  match a with
  | AddrZero => "invalid IP"
  | Addr4 b => dotted (vec_to_list b)
  | Addr6 b z =>
      (if Is4In6 a then "::ffff:" +:+ dotted (drop 12 (vec_to_list b))
       else groups6 9 b (longest_zeros b) 0)
      +:+ (if bool_decide (z = EmptyString) then EmptyString else "%" +:+ z)
  end.

Definition Prefix_String (p : Prefix) : string :=
  if pfx_IsValid p then Addr_String (pfx_addr p) +:+ "/" +:+ dec (pfx_bits p) else "invalid Prefix".

(** ** What the callers rely on *)

Lemma ParseAddr_valid s a : ParseAddr s = Some a → IsValid a = true.
Proof.
  unfold ParseAddr. case_match; [|done]. case_match. destruct (bool_decide _).
  { unfold parseIPv4. by destruct (parse4_fields _); intros [= <-]. }
  destruct (bool_decide _); [|done]. unfold parseIPv6. intros Hp. repeat case_match; by simplify_eq.
Qed.

Lemma PrefixFrom_valid a bits : IsValid a = true → 0 <= bits <= BitLen a → pfx_IsValid (PrefixFrom a bits) = true.
Proof.
  intros Ha Hb. unfold PrefixFrom, pfx_IsValid. cbn [pfx_bits]. rewrite Ha.
  rewrite (proj2 (Z.leb_le 0 bits)), (proj2 (Z.leb_le bits (BitLen a))) by lia. cbn [andb]. apply Z.leb_le. lia.
Qed.

Lemma ParsePrefix_valid s p : ParsePrefix s = Some p → pfx_IsValid p = true ∧ prefix_wf p.
Proof.
  unfold ParsePrefix. destruct (split_slash _) as [[a bs]|]; [|done].
  destruct (ParseAddr _) as [ip|] eqn:Ha; [|done]. destruct (hasZone ip); [done|].
  match goal with |- (if ?b then _ else _) = _ → _ => destruct b; [done|] end.
  destruct (digits_Z bs 0) as [bits|]; [|done]. destruct (_ || _) eqn:Hb; [done|]. intros [= <-].
  apply orb_false_iff in Hb as [H1%Z.ltb_ge H2%Z.ltb_ge].
  split; [|apply PrefixFrom_wf]. apply PrefixFrom_valid; [by eapply ParseAddr_valid|lia].
Qed.

(** Samples of the library's own tests. *)
Example ParseAddr_v4 : ParseAddr "10.66.0.5" = Some (Addr4 [# x0a; x42; x00; x05]).
Proof. reflexivity. Qed.
Example ParseAddr_v4_zero : ParseAddr "10.066.0.5" = None ∧ ParseAddr "1.2.3" = None ∧ ParseAddr "1.2.3.256" = None
  ∧ ParseAddr "1..2.3" = None ∧ ParseAddr "1.2.3.4.5" = None.
Proof. repeat split. Qed.
Example ParseAddr_v6 :
  ParseAddr "fd00:66::1" = Some (Addr6 (array_of 16 ([xfd; x00; x00; x66] ++ zeros 11 ++ [x01])) "")
  ∧ ParseAddr "::" = Some (Addr6 (array_of 16 (zeros 16)) "")
  ∧ ParseAddr "::ffff:1.2.3.4" = Some (Addr6 (array_of 16 (zeros 10 ++ [xff; xff; x01; x02; x03; x04])) "")
  ∧ ParseAddr "fe80::1%eth0" = Some (Addr6 (array_of 16 ([xfe; x80] ++ zeros 13 ++ [x01])) "eth0").
Proof. repeat split; vm_compute; reflexivity. Qed.
Example ParseAddr_v6_bad :
  ParseAddr "1:2:3:4:5:6:7" = None ∧ ParseAddr "1::2::3" = None ∧ ParseAddr "12345::" = None
  ∧ ParseAddr "1:2:3:4:5:6:7::8" = None ∧ ParseAddr "fe80::1%" = None ∧ ParseAddr "1:2:3:4:5:6:7:" = None.
Proof. repeat split; vm_compute; reflexivity. Qed.
Example ParsePrefix_samples :
  ParsePrefix "10.66.0.0/24" = Some (PrefixFrom (Addr4 [# x0a; x42; x00; x00]) 24)
  ∧ ParsePrefix "10.66.0.0/33" = None ∧ ParsePrefix "10.66.0.0/024" = None ∧ ParsePrefix "10.66.0.0" = None
  ∧ ParsePrefix "10.66.0.0/" = None.
Proof. repeat split; vm_compute; reflexivity. Qed.

Example String_samples :
  Addr_String (Addr4 [# x0a; x42; x00; x05]) = "10.66.0.5"%string
  ∧ option_map Addr_String (ParseAddr "fd00:66:0:0:0::1") = Some "fd00:66::1"%string
  ∧ option_map Addr_String (ParseAddr "1:0:0:2:0:0:0:3") = Some "1:0:0:2::3"%string
  ∧ option_map Addr_String (ParseAddr "::") = Some "::"%string
  ∧ option_map Addr_String (ParseAddr "1::") = Some "1::"%string
  ∧ option_map Addr_String (ParseAddr "0:1:0:2:3:4:5:ff") = Some "0:1:0:2:3:4:5:ff"%string
  ∧ option_map Addr_String (ParseAddr "::ffff:1.2.3.4") = Some "::ffff:1.2.3.4"%string
  ∧ option_map Prefix_String (ParsePrefix "fd00:66::/64") = Some "fd00:66::/64"%string
  ∧ hex 0 = "0"%string ∧ hex 4096 = "1000"%string ∧ dec 13338 = "13338"%string.
Proof. repeat split; vm_compute; reflexivity. Qed.
