(* ===== verification/AddrText.v ===== *)
(** * net and net/netip: endpoints as text

    [AddrPort] with its [String] and [ParseAddrPort], and [SplitHostPort] and
    [JoinHostPort] of package net, on bytes as the library computes them.  The lemmas
    show that IPv4 text is read back: [ParseAddr] inverts [String], and the texts of
    distinct endpoints differ; [Addr6Text] goes on to both families. *)

From Stdlib Require Import Strings.Byte.
From stdpp Require Import pretty.
From S2P Require Import Prelude Netip Users Keys NetipText.

Record AddrPort : Type := mkAP { ap_addr : Addr; ap_port : Z }.
#[global] Instance addrport_eq_dec : EqDecision AddrPort.
Proof. solve_decision. Defined.

(** [AddrPort.String]. *)
Definition AddrPort_String (p : AddrPort) : string :=
  match ap_addr p with
  | AddrZero => "invalid AddrPort"
  | Addr4 _ => Addr_String (ap_addr p) +:+ ":" +:+ dec (ap_port p)
  | Addr6 _ _ => "[" +:+ Addr_String (ap_addr p) +:+ "]:" +:+ dec (ap_port p)
  end.

(** ** Parsing *)

(** [strconv.ParseUint] in base 10, of a value up to [max]. *)
Definition ParseUint (max : Z) (l : list byte) : option Z :=
  if bool_decide (l = []) then None
  else match digits_Z l 0 with
       | None => None
       | Some v => if max <? v then None else Some v
       end.

(** The text before and after the last occurrence of [c]. *)
Definition cut_last (c : byte) (l : list byte) : option (list byte * list byte) :=
  match list_find (λ x, x = c) (reverse l) with
  | None => None
  | Some (i, _) => Some (take (length l - S i) l, drop (length l - i) l)
  end.

Definition is_mem (c : byte) (l : list byte) : bool := bool_decide (c ∈ l).

(** [net.JoinHostPort]. *)
Definition JoinHostPort (host port : list byte) : list byte :=
  if is_mem ":" host then "["%byte :: host ++ "]"%byte :: ":"%byte :: port else host ++ ":"%byte :: port.

(** [netip.ParseAddrPort]. *)
Definition ParseAddrPort (l : list byte) : option AddrPort :=
  match cut_last ":" l with
  | None => None
  | Some (ip, port) =>
      if bool_decide (ip = []) then None
      else
        let bracketed := bool_decide (head ip = Some "["%byte) in
        if bracketed && negb ((2 <=? length ip)%nat && bool_decide (last ip = Some "]"%byte)) then None
        else
          let ip' := if bracketed then slice ip 1 (length ip - 1) else ip in
          match ParseUint 65535 port, ParseAddr (string_of ip') with
          | Some p, Some a =>
              if (if bracketed then Is4 a else Is6 a) then None else Some (mkAP a p)
          | _, _ => None
          end
  end.

(** [net.SplitHostPort]. *)
Definition SplitHostPort (l : list byte) : option (list byte * list byte) :=
  match cut_last ":" l with
  | None => None
  | Some (before, port) =>
      if bool_decide (head l = Some "["%byte) then
        match list_find (λ x, x = "]"%byte) l with
        | None => None
        | Some (e, _) =>
            if negb (S e =? length before)%nat then None
            else if is_mem "[" (drop 1 l) || is_mem "]" (drop (S e) l) then None
            else Some (slice l 1 e, port)
        end
      else if is_mem ":" before || is_mem "[" l || is_mem "]" l then None
      else Some (before, port)
  end.

(** ** The text of endpoints *)

Lemma bytes_of_app a b : bytes_of (a +:+ b) = bytes_of a ++ bytes_of b.
Proof. unfold bytes_of. induction a as [|c a IH]; [done|]. change (String c a +:+ b) with (String c (a +:+ b)).
  unfold String.list_byte_of_string in *. cbn [String.list_ascii_of_string map]. by rewrite IH. Qed.

Lemma bytes_of_inj a b : bytes_of a = bytes_of b → a = b.
Proof.
  intros H. rewrite <-(String.string_of_list_byte_of_string a), <-(String.string_of_list_byte_of_string b).
  unfold bytes_of in H. by rewrite H.
Qed.

(** A text is cut at its first separator in one way. *)
Lemma cut_unique (P : byte → Prop) (c : byte) a b r s :
  Forall P a → Forall P b → ¬ P c → a ++ c :: r = b ++ c :: s → a = b ∧ r = s.
Proof.
  revert b. induction a as [|x a IH]; intros [|y b] Ha Hb Hc Heq; cbn in Heq; simplify_eq/=; try done.
  - by apply Forall_inv in Hb.
  - by apply Forall_inv in Ha.
  - apply Forall_inv_tail in Ha. apply Forall_inv_tail in Hb. by edestruct (IH b) as [-> ->].
Qed.

(** The text of a number is a non-empty run of digits. *)
Definition digits (l : list byte) : Prop := Forall (λ c, is_digit c = true) l.

Lemma pretty_char_digit n : is_digit (Ascii.byte_of_ascii (pretty_N_char n)) = true.
Proof. unfold pretty_N_char. by repeat case_match. Qed.

Lemma bytes_of_cons c s : bytes_of (String c s) = Ascii.byte_of_ascii c :: bytes_of s.
Proof. done. Qed.

Lemma pretty_go_digits n s : digits (bytes_of s) → digits (bytes_of (pretty_N_go n s)).
Proof.
  revert s. induction (N.lt_wf_0 n) as [n _ IH]; intros s Hs.
  destruct (decide (n = 0)%N) as [->|]; [done|]. rewrite pretty_N_go_step by lia.
  apply IH; [apply N.div_lt; lia|]. rewrite bytes_of_cons. constructor; [apply pretty_char_digit|done].
Qed.

Lemma dec_digits z : 0 <= z → digits (bytes_of (dec z)).
Proof.
  intros Hz. unfold dec, pretty, pretty_Z. destruct z as [|p|p]; [by apply Forall_singleton| |lia].
  unfold pretty, pretty_positive, pretty, pretty_N. case_decide; [done|]. apply pretty_go_digits. constructor.
Qed.

Lemma dec_inj a b : dec a = dec b → a = b.
Proof. apply (inj pretty). Qed.

(** ** IPv4 endpoints are told apart by the key *)

Definition dotted_bytes (v : vec byte 4) : list byte := bytes_of (dotted (vec_to_list v)).

Lemma dotted_shape v : ∃ a b c d, vec_to_list v = [a; b; c; d]
  ∧ dotted_bytes v = bytes_of (dec (b2z a)) ++ "."%byte :: bytes_of (dec (b2z b)) ++ "."%byte ::
      bytes_of (dec (b2z c)) ++ "."%byte :: bytes_of (dec (b2z d)).
Proof.
  unfold dotted_bytes. pose proof (length_vec_to_list v) as Hl.
  destruct (vec_to_list v) as [|a [|b [|c [|d [|]]]]]; try done.
  exists a, b, c, d. split; [done|]. cbn [dotted]. by rewrite !bytes_of_app.
Qed.

Lemma b2z_dec_digits x : digits (bytes_of (dec (b2z x))).
Proof. apply dec_digits. pose proof (b2z_range x). lia. Qed.

Lemma dec_bytes_inj x y : bytes_of (dec (b2z x)) = bytes_of (dec (b2z y)) → x = y.
Proof. intros H. by apply b2z_inj, dec_inj, bytes_of_inj. Qed.

(** Digits and dots. *)
Lemma dotted_text v : Forall (λ c, is_digit c = true ∨ c = "."%byte) (dotted_bytes v).
Proof.
  destruct (dotted_shape v) as (a & b & c & d & _ & ->).
  assert (∀ x, Forall (λ c, is_digit c = true ∨ c = "."%byte) (bytes_of (dec (b2z x)))) as H.
  { intros x. eapply Forall_impl; [apply b2z_dec_digits|]. auto. }
  rewrite !Forall_app, !Forall_cons, !Forall_app, !Forall_cons, !Forall_app, !Forall_cons. auto 10.
Qed.

Lemma dotted_inj v w : dotted_bytes v = dotted_bytes w → v = w.
Proof.
  intros H. apply vec_to_list_inj2.
  destruct (dotted_shape v) as (a & b & c & d & Hv & Hv').
  destruct (dotted_shape w) as (a' & b' & c' & d' & Hw & Hw'). rewrite Hv, Hw. rewrite Hv', Hw' in H.
  apply (cut_unique (λ c, is_digit c = true)) in H as [->%dec_bytes_inj H]; [|apply b2z_dec_digits..|done].
  apply (cut_unique (λ c, is_digit c = true)) in H as [->%dec_bytes_inj H]; [|apply b2z_dec_digits..|done].
  apply (cut_unique (λ c, is_digit c = true)) in H as [->%dec_bytes_inj H]; [|apply b2z_dec_digits..|done].
  by apply dec_bytes_inj in H as ->.
Qed.

Lemma AddrPort_String_inj4 v w p q :
  0 <= p → 0 <= q → AddrPort_String (mkAP (Addr4 v) p) = AddrPort_String (mkAP (Addr4 w) q) → v = w ∧ p = q.
Proof.
  intros Hp Hq H%(f_equal bytes_of). unfold AddrPort_String in H. cbn [ap_addr ap_port Addr_String] in H.
  rewrite !bytes_of_app in H.
  apply (cut_unique (λ c, is_digit c = true ∨ c = "."%byte) ":"%byte) in H as [Hd H];
    [|apply dotted_text..|by intros [|]].
  split; [by apply dotted_inj|]. by apply dec_inj, bytes_of_inj.
Qed.

(** An IPv4 endpoint's text starts with a digit or a dot, the others' does not. *)
Lemma text4_head v p : ∃ x l, bytes_of (AddrPort_String (mkAP (Addr4 v) p)) = x :: l ∧ (is_digit x = true ∨ x = "."%byte).
Proof.
  unfold AddrPort_String. cbn [ap_addr ap_port Addr_String]. rewrite !bytes_of_app. fold (dotted_bytes v).
  pose proof (dotted_text v) as Ht. destruct (dotted_shape v) as (a & b & c & d & _ & Heq). rewrite Heq in *.
  destruct (bytes_of (dec (b2z a))) as [|x l]; [eexists _, _; split; [reflexivity|by right]|].
  exists x. eexists. split; [reflexivity|]. by apply Forall_inv in Ht.
Qed.

Lemma textn_head q : Is4 (ap_addr q) = false →
  ∃ x l, bytes_of (AddrPort_String q) = x :: l ∧ (x = "i"%byte ∨ x = "["%byte).
Proof.
  intros Hq. destruct q as [[|w|w z] q]; [|done|].
  - eexists _, _. split; [reflexivity|by left].
  - unfold AddrPort_String. cbn [ap_addr]. generalize (Addr_String (Addr6 w z) +:+ "]:" +:+ dec (ap_port (mkAP (Addr6 w z) q))).
    intros r. rewrite bytes_of_app. eexists _, _. split; [reflexivity|by right].
Qed.

Lemma AddrPort_String_4 v p q :
  0 <= p → 0 <= ap_port q → AddrPort_String (mkAP (Addr4 v) p) = AddrPort_String q → q = mkAP (Addr4 v) p.
Proof.
  intros Hp Hq H. destruct (Is4 (ap_addr q)) eqn:H4.
  - destruct q as [[|w|] q]; try done. apply AddrPort_String_inj4 in H as [-> ->]; done.
  - destruct (text4_head v p) as (x & l & Hx & Hc), (textn_head q H4) as (y & r & Hy & Hd).
    rewrite H, Hy in Hx. injection Hx as -> _. destruct Hc, Hd; by subst.
Qed.


(** ** IPv4 text is read back *)

Definition text_val (v : Z) (l : list byte) : Z := foldl (λ v c, v * 10 + digit_val c) v l.

Lemma digit_val_range c : is_digit c = true → 0 <= digit_val c <= 9.
Proof. unfold is_digit, between, digit_val. intros H. bool_to_prop. change (b2z "0") with 48 in *. change (b2z "9") with 57 in *. lia. Qed.

Lemma text_val_mono l v : digits l → 0 <= v → v <= text_val v l.
Proof.
  intros Hl. revert v. induction Hl as [|c l Hc Hl IH]; intros v Hv; cbn; [lia|].
  pose proof (digit_val_range c Hc). specialize (IH (v * 10 + digit_val c)). unfold text_val in IH. lia.
Qed.

Lemma digits_Z_val l v : digits l → digits_Z l v = Some (text_val v l).
Proof. intros Hl. revert v. induction Hl as [|c l Hc Hl IH]; intros v; cbn; [done|]. by rewrite Hc. Qed.

(** One field of a dotted address, without leading zeros. *)
Lemma parse4_field l rest prev val n fields :
  digits l → 0 <= val → text_val val l <= 255 →
  (n ≠ 1%nat ∨ val ≠ 0) → (∀ c l', l = c :: l' → l' ≠ [] → val ≠ 0 ∨ digit_val c ≠ 0) →
  parse4_loop (l ++ rest) prev val n fields
  = parse4_loop rest (match last l with Some c => Some c | None => prev end) (text_val val l) (length l + n) fields.
Proof.
  intros Hl. revert prev val n. induction Hl as [|c l Hc Hl IH]; intros prev val n Hv Hmax Hn Hz; [done|].
  cbn [app parse4_loop]. rewrite Hc. pose proof (digit_val_range c Hc).
  replace ((n =? 1)%nat && (val =? 0)) with false by (symmetry; apply andb_false_iff; rewrite Nat.eqb_neq, Z.eqb_neq; tauto).
  change (text_val val (c :: l)) with (text_val (val * 10 + digit_val c) l) in *.
  pose proof (text_val_mono l (val * 10 + digit_val c) Hl ltac:(lia)).
  rewrite (proj2 (Z.ltb_ge _ _)) by lia.
  destruct l as [|c' l']; [done|]. specialize (Hz c (c' :: l') eq_refl ltac:(done)).
  rewrite IH; [|lia..| |]; [|right; lia|intros; left; lia].
  rewrite last_cons_cons. destruct (last (c' :: l')) eqn:E; [|by apply last_None in E].
  f_equal. cbn. lia.
Qed.

Definition octet_text_ok (b : byte) : bool :=
  let l := bytes_of (dec (b2z b)) in
  (text_val 0 l =? b2z b) && match l with
  | [] => false | [_] => true | c :: _ => negb (digit_val c =? 0) end.

Lemma octet_text b :
  text_val 0 (bytes_of (dec (b2z b))) = b2z b ∧ bytes_of (dec (b2z b)) ≠ [] ∧
  (∀ c l', bytes_of (dec (b2z b)) = c :: l' → l' ≠ [] → 0 ≠ 0 ∨ digit_val c ≠ 0).
Proof.
  assert (octet_text_ok b = true) as H by (revert b; apply byte_forall; vm_compute; reflexivity).
  unfold octet_text_ok in H. apply andb_true_iff in H as [H1 H2]. apply Z.eqb_eq in H1. split; [done|].
  destruct (bytes_of (dec (b2z b))) as [|c [|c' l]]; [done| |]; (split; [done|]).
  - intros ? ? [= <- <-]. done.
  - intros ? ? [= <- <-] _. right. by apply negb_true_iff, Z.eqb_neq in H2.
Qed.

Lemma parse4_octet b rest prev fields :
  ∃ c n, is_digit c = true ∧
    parse4_loop (bytes_of (dec (b2z b)) ++ rest) prev 0 0 fields = parse4_loop rest (Some c) (b2z b) n fields.
Proof.
  destruct (octet_text b) as (Hv & Hne & Hz). pose proof (b2z_range b).
  rewrite parse4_field; [|apply b2z_dec_digits|lia|rewrite Hv; lia|by left|done]. rewrite Hv.
  pose proof (b2z_dec_digits b) as Hd. destruct (last (bytes_of (dec (b2z b)))) as [c|] eqn:E; [|by apply last_None in E].
  exists c. eexists. split; [|done]. apply last_Some in E as [l' E]. rewrite E in Hd.
  apply Forall_app in Hd as [_ Hd]. by apply Forall_inv in Hd.
Qed.

(** A dot between two fields. *)
Lemma parse4_dot l c v n fields :
  l ≠ [] → is_digit c = true → (length fields < 3)%nat →
  parse4_loop ("."%byte :: l) (Some c) v n fields = parse4_loop l (Some "."%byte) 0 0 (fields ++ [z2b v]).
Proof.
  intros Hl Hc Hf. cbn [parse4_loop]. change (is_digit ".") with false. cbn match.
  rewrite (bool_decide_eq_true_2 ("."%byte = "."%byte)) by done.
  rewrite !bool_decide_eq_false_2; [|by intros [= ->]|done|done]. cbn [orb].
  by rewrite (proj2 (Nat.eqb_neq _ _)) by lia.
Qed.

Lemma parse4_dotted v : parse4_fields (dotted_bytes v) = Some (vec_to_list v).
Proof.
  destruct (dotted_shape v) as (a & b & c & d & Hv & ->). unfold parse4_fields.
  assert (∀ x l, bytes_of (dec (b2z x)) ++ l ≠ []) as Hne.
  { intros x l. destruct (octet_text x) as (_ & Hn & _). by destruct (bytes_of (dec (b2z x))). }
  destruct (parse4_octet a ("."%byte :: bytes_of (dec (b2z b)) ++ "."%byte :: bytes_of (dec (b2z c)) ++ "."%byte :: bytes_of (dec (b2z d))) None [])
    as (x1 & n1 & Hx1 & ->). rewrite parse4_dot by (done || cbn; lia || apply Hne).
  edestruct (parse4_octet b) as (x2 & n2 & Hx2 & ->). rewrite parse4_dot by (done || cbn; lia || apply Hne).
  edestruct (parse4_octet c) as (x3 & n3 & Hx3 & ->).
  rewrite parse4_dot; [| |done|cbn; lia]; [|rewrite <-(app_nil_r (bytes_of _)); apply Hne].
  rewrite <-(app_nil_r (bytes_of (dec (b2z d)))). edestruct (parse4_octet d) as (x4 & n4 & Hx4 & ->).
  cbn [parse4_loop app length Nat.ltb Nat.leb]. by rewrite !z2b_b2z, Hv.
Qed.

Lemma find_first {A} (P : A → Prop) `{!∀ x, Decision (P x)} l c r :
  Forall (λ x, ¬ P x) l → P c → list_find P (l ++ c :: r) = Some (length l, c).
Proof.
  intros Hl Hc. induction Hl as [|x l Hx Hl IH]; cbn [app list_find]; [by rewrite decide_True|].
  rewrite decide_False by done. by rewrite IH.
Qed.

(** [ParseAddr] inverts [String] on IPv4 addresses. *)
Lemma ParseAddr_String4 v : ParseAddr (Addr_String (Addr4 v)) = Some (Addr4 v).
Proof.
  unfold ParseAddr. cbn [Addr_String]. fold (dotted_bytes v).
  destruct (dotted_shape v) as (a & b & c & d & _ & Hd). rewrite Hd at 1. rewrite find_first; [| |by left].
  - rewrite bool_decide_eq_true_2 by done. unfold parseIPv4. rewrite parse4_dotted. cbn. by rewrite array_of_vec_to_list.
  - eapply Forall_impl; [apply b2z_dec_digits|]. cbn. by intros x Hx [->|[-> | ->]].
Qed.

(** Decimal text is read back. *)
Lemma pretty_char_val n : (n < 10)%N → digit_val (Ascii.byte_of_ascii (pretty_N_char n)) = Z.of_N n.
Proof.
  intros Hn. assert (n = 0 ∨ n = 1 ∨ n = 2 ∨ n = 3 ∨ n = 4 ∨ n = 5 ∨ n = 6 ∨ n = 7 ∨ n = 8 ∨ n = 9)%N as H by lia.
  repeat destruct H as [->|H]; try reflexivity. by rewrite H.
Qed.

Lemma pretty_go_val n s : text_val 0 (bytes_of (pretty_N_go n s)) = text_val (Z.of_N n) (bytes_of s).
Proof.
  revert s. induction (N.lt_wf_0 n) as [n _ IH]; intros s.
  destruct (decide (n = 0)%N) as [->|]; [done|]. rewrite pretty_N_go_step by lia.
  rewrite IH by (apply N.div_lt; lia). rewrite bytes_of_cons. cbn [text_val foldl].
  rewrite pretty_char_val by (apply N.mod_lt; lia). f_equal. rewrite N2Z.inj_div, N2Z.inj_mod.
  pose proof (Z.div_mod (Z.of_N n) 10 ltac:(lia)). change (Z.of_N 10) with 10. lia.
Qed.

Lemma dec_val z : 0 <= z → text_val 0 (bytes_of (dec z)) = z ∧ bytes_of (dec z) ≠ [].
Proof.
  intros Hz. assert (text_val 0 (bytes_of (dec z)) = z) as H.
  { unfold dec, pretty, pretty_Z. destruct z as [|p|p]; [done| |lia].
    unfold pretty, pretty_positive, pretty, pretty_N. case_decide; [done|]. by rewrite pretty_go_val. }
  split; [done|]. intros E. rewrite E in H. cbn in H. subst z. by vm_compute in E.
Qed.

Lemma ParseUint_dec max z : 0 <= z → ParseUint max (bytes_of (dec z)) = if max <? z then None else Some z.
Proof.
  intros Hz. destruct (dec_val z Hz) as [Hv Hne]. unfold ParseUint. rewrite bool_decide_eq_false_2 by done.
  by rewrite (digits_Z_val _ _ (dec_digits z Hz)), Hv.
Qed.

Lemma cut_last_app c l r : c ∉ r → cut_last c (l ++ c :: r) = Some (l, r).
Proof.
  intros Hr. unfold cut_last. rewrite reverse_app, reverse_cons, <-(assoc_L (++)). cbn [app].
  rewrite find_first; [| |done].
  - rewrite length_reverse, length_app. cbn [length].
    replace (length l + S (length r) - S (length r))%nat with (length l) by lia.
    replace (length l + S (length r) - length r)%nat with (S (length l)) by lia.
    rewrite take_app_length. change (l ++ c :: r) with (l ++ [c] ++ r). rewrite (assoc_L (++)), drop_app_length'; [done|].
    rewrite length_app. cbn. lia.
  - apply Forall_forall. intros x Hx ->. apply Hr. by apply elem_of_reverse.
Qed.

Lemma text4_no c v : is_digit c = false → c ≠ "."%byte → c ∉ bytes_of (Addr_String (Addr4 v)).
Proof.
  intros Hc Hd Hin. pose proof (dotted_text v) as H. rewrite Forall_forall in H. unfold dotted_bytes in H.
  cbn [Addr_String] in Hin. destruct (H c Hin) as [H'| ->]; congruence.
Qed.

Lemma dec_no c z : 0 <= z → is_digit c = false → c ∉ bytes_of (dec z).
Proof. intros Hz Hc Hin. pose proof (dec_digits z Hz) as H. unfold digits in H. rewrite Forall_forall in H. specialize (H c Hin). congruence. Qed.

Lemma string_of_bytes_of s : string_of (bytes_of s) = s.
Proof. apply String.string_of_list_byte_of_string. Qed.

(** An IPv4 endpoint's text splits into its address and its port. *)
Lemma AddrPort_bytes4 v p :
  bytes_of (AddrPort_String (mkAP (Addr4 v) p)) = bytes_of (Addr_String (Addr4 v)) ++ ":"%byte :: bytes_of (dec p).
Proof. unfold AddrPort_String. cbn [ap_addr ap_port]. by rewrite !bytes_of_app. Qed.

Lemma Addr4_bytes_head v : ∃ x l, bytes_of (Addr_String (Addr4 v)) = x :: l ∧ x ≠ "["%byte.
Proof.
  pose proof (text4_no "[" v eq_refl ltac:(done)) as H. cbn [Addr_String] in *.
  destruct (dotted_shape v) as (a & b & c & d & _ & Hd). unfold dotted_bytes in Hd.
  destruct (bytes_of (dotted v)) as [|x l] eqn:E; [by destruct (bytes_of (dec (b2z a)))|].
  exists x, l. split; [done|]. intros ->. apply H. left.
Qed.

Lemma SplitHostPort_4 v p : 0 <= p →
  SplitHostPort (bytes_of (AddrPort_String (mkAP (Addr4 v) p))) = Some (bytes_of (Addr_String (Addr4 v)), bytes_of (dec p)).
Proof.
  intros Hp. rewrite AddrPort_bytes4. unfold SplitHostPort, is_mem.
  rewrite cut_last_app by by apply dec_no. destruct (Addr4_bytes_head v) as (x & l & Hx & Hne).
  rewrite (bool_decide_eq_false_2 (head _ = _)) by (rewrite Hx; by intros [= ->]).
  rewrite !bool_decide_eq_false_2; [done|..].
  1,2: rewrite elem_of_app, elem_of_cons; intros [H|[H|H]]; [by apply text4_no in H|done|by apply dec_no in H].
  by apply text4_no.
Qed.

Lemma ParseAddrPort_4 v port :
  ":"%byte ∉ port →
  ParseAddrPort (JoinHostPort (bytes_of (Addr_String (Addr4 v))) port) = (λ p, mkAP (Addr4 v) p) <$> ParseUint 65535 port.
Proof.
  intros Hp. unfold JoinHostPort, is_mem. rewrite bool_decide_eq_false_2 by by apply text4_no.
  unfold ParseAddrPort. rewrite cut_last_app by done. destruct (Addr4_bytes_head v) as (x & l & Hx & Hne).
  rewrite (bool_decide_eq_false_2 (_ = [])) by by rewrite Hx.
  rewrite (bool_decide_eq_false_2 (head _ = _)) by (rewrite Hx; by intros [= ->]).
  cbn [andb]. rewrite string_of_bytes_of, ParseAddr_String4. by destruct (ParseUint 65535 port).
Qed.
