(* ===== verification/Addr6Text.v ===== *)
(** * net/netip: IPv6 text is read back

    [ParseAddr] inverts [Addr.String] on every valid address: the groups in hex without
    leading zeros, the longest run of zero groups as an ellipsis, the dotted tail of an
    IPv4-mapped address, and the zone.  So the texts of distinct addresses and endpoints
    differ. *)

From Stdlib Require Import Strings.Byte.
From S2P Require Import Prelude Netip Users Keys NetipText AddrText.

(** ** One group *)

Definition is_hex (c : byte) : bool := bool_decide (is_Some (hex_val c)).
Definition hex_text (l : list byte) : Prop := Forall (λ c, is_hex c = true) l.
Definition hex_fold (a : Z) (l : list byte) : Z := foldl (λ a c, a * 16 + default 0 (hex_val c)) a l.

(** Text that no group can extend into. *)
Definition ends_group (l : list byte) : Prop := match l with [] => True | c :: _ => is_hex c = false end.

Lemma hex_group_text ds rest off acc :
  hex_text ds → (off + length ds <= 4)%nat → ends_group rest →
  hex_group (ds ++ rest) off acc = Some (hex_fold acc ds, (off + length ds)%nat, rest).
Proof.
  intros Hd. revert off acc. induction Hd as [|c ds Hc _ IH]; intros off acc Hl Hr; cbn [app length] in *.
  - rewrite Nat.add_0_r. destruct rest as [|c rest]; [done|]. cbn in Hr |- *. apply bool_decide_eq_false in Hr.
    destruct (hex_val c); [by destruct Hr|done].
  - cbn [hex_group]. apply bool_decide_eq_true in Hc as [d Hd']. rewrite Hd', (proj2 (Nat.ltb_ge _ _)) by lia.
    rewrite Z.shiftl_mul_pow2, IH by (done || lia). unfold hex_fold. cbn [foldl]. rewrite Hd'.
    by rewrite <-Nat.add_succ_comm.
Qed.

Lemma hex_digit_val d : 0 <= d < 16 →
  hex_val (default x00 (bytes_of "0123456789abcdef" !! Z.to_nat d)) = Some d.
Proof.
  intros Hd. assert (∃ n, d = Z.of_nat n ∧ (n < 16)%nat) as (n & -> & Hn) by (exists (Z.to_nat d); lia).
  rewrite Nat2Z.id. do 16 (destruct n as [|n]; [reflexivity|]). lia.
Qed.

Lemma hex_digits_text fuel k z acc :
  (S k <= fuel)%nat → 0 <= z < 16 ^ Z.of_nat (S k) →
  ∃ ds, bytes_of (hex_digits fuel z acc) = ds ++ bytes_of acc ∧ ds ≠ [] ∧ (length ds <= S k)%nat ∧ hex_text ds ∧ hex_fold 0 ds = z.
Proof.
  revert fuel z acc. induction k as [|k IH]; intros [|fuel] z acc Hf Hz; try lia; cbn [hex_digits].
  all: set (c := default x00 (bytes_of "0123456789abcdef" !! Z.to_nat (z mod 16))).
  all: assert (hex_val c = Some (z mod 16)) as Hc by (apply hex_digit_val, Z.mod_pos_bound; lia).
  all: assert (is_hex c = true) as Hi by (apply bool_decide_eq_true; eauto).
  all: assert (∀ s, bytes_of (string_of [c] +:+ s) = c :: bytes_of s) as Happ
    by (intros s; rewrite bytes_of_app; unfold bytes_of, string_of; by rewrite String.list_byte_of_string_of_list_byte).
  all: destruct (Z.eqb_spec (z / 16) 0) as [H0|H0].
  1,3: exists [c]; rewrite Happ; split_and!; [done|done|cbn; lia|by constructor|];
    cbn [hex_fold foldl]; rewrite Hc; cbn; pose proof (Z.div_mod z 16); lia.
  - exfalso. apply H0. apply Z.div_small. change (16 ^ Z.of_nat 1) with 16 in Hz. lia.
  - destruct (IH fuel (z / 16) (string_of [c] +:+ acc)) as (ds & Hd & Hne & Hl & Ht & Hv); [lia| |].
    { split; [apply Z.div_pos; lia|]. apply Z.div_lt_upper_bound; [lia|].
      rewrite (Nat2Z.inj_succ (S k)), Z.pow_succ_r in Hz by lia. lia. }
    exists (ds ++ [c]). rewrite Hd, Happ, <-(assoc_L (++)). split_and!; [done|by destruct ds|rewrite length_app; cbn; lia| |].
    + apply Forall_app. split; [done|by constructor].
    + unfold hex_fold in *. rewrite foldl_app, Hv. cbn [foldl]. rewrite Hc. cbn. pose proof (Z.div_mod z 16). lia.
Qed.

Lemma hex_shape z : 0 <= z < 2 ^ 16 →
  bytes_of (hex z) ≠ [] ∧ (length (bytes_of (hex z)) <= 4)%nat ∧ hex_text (bytes_of (hex z)) ∧ hex_fold 0 (bytes_of (hex z)) = z.
Proof.
  intros Hz. destruct (hex_digits_text 16 3 z EmptyString) as (ds & Hd & H); [lia|done|].
  unfold hex. rewrite Hd. change (bytes_of EmptyString) with (@nil byte). rewrite app_nil_r. done.
Qed.

Lemma hex_group_hex z rest : 0 <= z < 2 ^ 16 → ends_group rest →
  ∃ n, hex_group (bytes_of (hex z) ++ rest) 0 0 = Some (z, S n, rest).
Proof.
  intros Hz Hr. destruct (hex_shape z Hz) as (Hne & Hl & Ht & Hv). rewrite hex_group_text, Hv by done.
  destruct (bytes_of (hex z)) as [|c l]; [done|]. by exists (length l).
Qed.

(** ** The text of the groups *)

Definition groups (b : vec byte 16) (i n : nat) : list Z := v6u16 b <$> seq i n.
Definition sep6 (vs : list Z) : list byte := concat ((λ v, ":"%byte :: bytes_of (hex v)) <$> vs).
Definition join6 (vs : list Z) : list byte := match vs with [] => [] | v :: vs' => bytes_of (hex v) ++ sep6 vs' end.

Lemma groups_range b i n : Forall (λ v, 0 <= v < 2 ^ 16) (groups b i n).
Proof. apply Forall_fmap, Forall_true. intros. apply u16_range. Qed.

Lemma groups6_S fuel b z i :
  groups6 (S fuel) b z i =
    if (8 <=? i)%nat then EmptyString
    else if (i =? z.1)%nat then
      let j := (i + z.2)%nat in
      "::" +:+ (if (8 <=? j)%nat then EmptyString else hex (v6u16 b j) +:+ groups6 fuel b z (S j))
    else (if (0 <? i)%nat then ":" else EmptyString) +:+ hex (v6u16 b i) +:+ groups6 fuel b z (S i).
Proof. reflexivity. Qed.

Lemma groups6_after fuel b z i n :
  (i + n = 8)%nat → (n <= fuel)%nat → (0 < i)%nat → (z.1 < i ∨ z.1 = 8)%nat →
  bytes_of (groups6 fuel b z i) = sep6 (groups b i n).
Proof.
  revert fuel i. induction n as [|n IH]; intros fuel i Hn Hf Hi Hz.
  - destruct fuel; [done|]. rewrite groups6_S. by rewrite (proj2 (Nat.leb_le _ _)) by lia.
  - destruct fuel as [|fuel]; [lia|]. rewrite groups6_S. rewrite (proj2 (Nat.leb_gt _ _)), (proj2 (Nat.eqb_neq _ _)) by lia.
    rewrite (proj2 (Nat.ltb_lt _ _)) by lia. rewrite !bytes_of_app, IH by lia. done.
Qed.

Lemma groups6_upto fuel b zs zl i n m :
  (i + n = zs)%nat → (zs + zl + m = 8)%nat → (0 < zl)%nat → (0 < i)%nat → (n + m < fuel)%nat →
  bytes_of (groups6 fuel b (zs, zl) i) = sep6 (groups b i n) ++ bytes_of "::" ++ join6 (groups b (zs + zl) m).
Proof.
  revert fuel i. induction n as [|n IH]; intros fuel i Hn Hm Hl Hi Hf; (destruct fuel as [|fuel]; [lia|]); rewrite groups6_S; cbv zeta; cbn [fst snd].
  - rewrite (proj2 (Nat.leb_gt _ _)), (proj2 (Nat.eqb_eq _ _)), bytes_of_app by lia.
    change (sep6 (groups b i 0)) with (@nil byte). rewrite app_nil_l. f_equal.
    replace (i + zl)%nat with (zs + zl)%nat by lia.
    destruct m as [|m]; [by rewrite (proj2 (Nat.leb_le _ _)) by lia|].
    rewrite (proj2 (Nat.leb_gt _ _)), !bytes_of_app by lia. cbn [groups seq fmap list_fmap join6]. f_equal.
    apply groups6_after; cbn; lia.
  - rewrite (proj2 (Nat.leb_gt _ _)), (proj2 (Nat.eqb_neq _ _)), (proj2 (Nat.ltb_lt _ _)) by lia.
    rewrite !bytes_of_app, IH by lia. cbn [groups seq fmap list_fmap sep6 concat]. by rewrite <-!(assoc_L (++)).
Qed.

(** The rendering, without and with an ellipsis. *)
Lemma groups6_plain b n : bytes_of (groups6 9 b (8%nat, n) 0) = join6 (groups b 0 8).
Proof.
  change (groups6 9 b (8%nat, n) 0) with (EmptyString +:+ hex (v6u16 b 0) +:+ groups6 8 b (8%nat, n) 1).
  rewrite !bytes_of_app, (groups6_after 8 b _ 1 7) by (cbn; lia). done.
Qed.

Lemma groups6_ellipsis b zs zl m : (zs + zl + m = 8)%nat → (0 < zl)%nat →
  bytes_of (groups6 9 b (zs, zl) 0) = join6 (groups b 0 zs) ++ bytes_of "::" ++ join6 (groups b (zs + zl) m).
Proof.
  intros Hm Hl. destruct zs as [|zs].
  - change (groups6 9 b (0%nat, zl) 0) with
      ("::" +:+ (if (8 <=? zl)%nat then EmptyString else hex (v6u16 b zl) +:+ groups6 8 b (0%nat, zl) (S zl))).
    change (join6 (groups b 0 0)) with (@nil byte). rewrite bytes_of_app, app_nil_l. f_equal. destruct m as [|m]; [by rewrite (proj2 (Nat.leb_le _ _)) by lia|].
    rewrite (proj2 (Nat.leb_gt _ _)), bytes_of_app by lia. cbn [groups Nat.add seq fmap list_fmap join6]. f_equal.
    apply groups6_after; cbn; lia.
  - change (groups6 9 b (S zs, zl) 0) with (EmptyString +:+ hex (v6u16 b 0) +:+ groups6 8 b (S zs, zl) 1).
    rewrite !bytes_of_app, (groups6_upto 8 b (S zs) zl 1 zs m) by lia.
    cbn [groups seq fmap list_fmap join6]. by rewrite <-!(assoc_L (++)).
Qed.

(** *** The run of zeros *)

Lemma zero_run_spec fuel b i : (i <= 8)%nat →
  (i + zero_run fuel b i <= 8)%nat ∧ Forall (λ v, v = 0) (groups b i (zero_run fuel b i)).
Proof.
  revert i. induction fuel as [|fuel IH]; intros i Hi; cbn [zero_run]; [split; [lia|constructor]|].
  destruct (_ && _) eqn:E; [|split; [lia|constructor]].
  apply andb_true_iff in E as [E1%Nat.ltb_lt E2%Z.eqb_eq]. destruct (IH (S i)) as [H1 H2]; [lia|]. split; [lia|].
  by constructor.
Qed.

Definition zeros_ok (b : vec byte 16) (z : nat * nat) : Prop :=
  z.1 = 8%nat ∨ (0 < z.2 ∧ z.1 + z.2 <= 8)%nat ∧ Forall (λ v, v = 0) (groups b z.1 z.2).

Lemma longest_zeros_ok b : zeros_ok b (longest_zeros b).
Proof.
  unfold longest_zeros. assert (Forall (λ i, i <= 8)%nat (seq 0 8)) as Hs by (repeat constructor).
  assert (zeros_ok b (8, 0)%nat) as Hz by by left. revert Hz. generalize (8, 0)%nat.
  induction Hs as [|i l Hi _ IH]; intros z Hz; [done|]. cbn [fold_left]. apply IH.
  destruct (_ && _) eqn:E; [|done]. apply andb_true_iff in E as [E%Nat.leb_le _]. right. cbn [fst snd].
  destruct (zero_run_spec 8 b i Hi) as [H1 H2]. split; [lia|done].
Qed.

(** ** The groups are parsed back *)

Definition group_bytes (v : Z) : list byte := [z2b (Z.shiftr v 8); z2b v].
Definition flat (vs : list Z) : list byte := concat (group_bytes <$> vs).

Lemma length_flat vs : length (flat vs) = (2 * length vs)%nat.
Proof. unfold flat. induction vs as [|v vs IH]; [done|]. cbn [fmap list_fmap concat length app]. cbn. lia. Qed.

Lemma flat_app vs ws : flat (vs ++ ws) = flat vs ++ flat ws.
Proof. unfold flat. by rewrite fmap_app, concat_app. Qed.

Lemma is_hex_not c : is_hex c = true → c ≠ ":"%byte ∧ c ≠ "."%byte ∧ c ≠ "%"%byte ∧ c ≠ "]"%byte ∧ c ≠ "["%byte ∧ c ≠ "|"%byte.
Proof. intros Hc. split_and!; intros ->; by vm_compute in Hc. Qed.

Lemma hex_head v : 0 <= v < 2 ^ 16 → ∃ c l, bytes_of (hex v) = c :: l ∧ is_hex c = true.
Proof.
  intros Hv. destruct (hex_shape v Hv) as (Hne & _ & Ht & _). destruct (bytes_of (hex v)) as [|c l]; [done|].
  exists c, l. split; [done|]. by apply Forall_inv in Ht.
Qed.

(** One group and the colon after it. *)
Lemma parse6_colon fuel v c r ip ell : 0 <= v < 2 ^ 16 → (length ip < 16)%nat →
  parse6_loop (S fuel) (bytes_of (hex v) ++ ":"%byte :: c :: r) ip ell =
    if bool_decide (c = ":"%byte) then
      if bool_decide (is_Some ell) then None
      else if bool_decide (r = []) then Some ([], ip ++ group_bytes v, Some (length (ip ++ group_bytes v)))
      else parse6_loop fuel r (ip ++ group_bytes v) (Some (length (ip ++ group_bytes v)))
    else parse6_loop fuel (c :: r) (ip ++ group_bytes v) ell.
Proof.
  intros Hv Hip. destruct (hex_group_hex v (":"%byte :: c :: r) Hv ltac:(done)) as [n Hn].
  cbn [parse6_loop]. by rewrite (proj2 (Nat.leb_gt 16 _)), Hn by lia.
Qed.

Lemma parse6_last fuel v ip ell : 0 <= v < 2 ^ 16 → (length ip < 16)%nat →
  parse6_loop (S fuel) (bytes_of (hex v)) ip ell = Some ([], ip ++ group_bytes v, ell).
Proof.
  intros Hv Hip. destruct (hex_group_hex v [] Hv ltac:(done)) as [n Hn]. rewrite app_nil_r in Hn.
  cbn [parse6_loop]. by rewrite (proj2 (Nat.leb_gt 16 _)), Hn by lia.
Qed.

Lemma parse6_next fuel v w vs rest ip ell : 0 <= v < 2 ^ 16 → 0 <= w < 2 ^ 16 → (length ip < 16)%nat →
  parse6_loop (S fuel) (join6 (v :: w :: vs) ++ rest) ip ell = parse6_loop fuel (join6 (w :: vs) ++ rest) (ip ++ group_bytes v) ell.
Proof.
  intros Hv Hw Hip. cbn [join6 sep6 fmap list_fmap concat]. rewrite <-!(assoc_L (++)). cbn [app].
  destruct (hex_head w Hw) as (c & l & Hc & Hh). rewrite Hc. cbn [app]. rewrite parse6_colon by done.
  rewrite bool_decide_eq_false_2 by by apply is_hex_not. done.
Qed.

Lemma parse6_plain fuel v vs ip ell :
  Forall (λ v, 0 <= v < 2 ^ 16) (v :: vs) → (length ip + 2 * S (length vs) <= 16)%nat → (length vs < fuel)%nat →
  parse6_loop fuel (join6 (v :: vs)) ip ell = Some ([], ip ++ flat (v :: vs), ell).
Proof.
  revert fuel v ip. induction vs as [|w vs IH]; intros [|fuel] v ip Hr Hl Hf; try lia; cbn [length] in *.
  - cbn [join6]. change (sep6 []) with (@nil byte). rewrite app_nil_r. apply Forall_inv in Hr.
    rewrite parse6_last by (done || lia). done.
  - apply Forall_cons in Hr as [Hv Hr]. pose proof (parse6_next fuel v w vs [] ip ell Hv (Forall_inv Hr) ltac:(lia)) as H.
    rewrite !app_nil_r in H. rewrite H, IH by (done || (rewrite ?length_app; cbn; lia)). by rewrite <-(assoc_L (++)).
Qed.

Lemma parse6_ellipsis fuel v vs ip tail :
  Forall (λ v, 0 <= v < 2 ^ 16) (v :: vs) → (length ip + 2 * S (length vs) <= 16)%nat →
  let ip' := ip ++ flat (v :: vs) in
  parse6_loop (fuel + S (length vs)) (join6 (v :: vs) ++ bytes_of "::" ++ tail) ip None =
    if bool_decide (tail = []) then Some ([], ip', Some (length ip')) else parse6_loop fuel tail ip' (Some (length ip')).
Proof.
  revert v ip. induction vs as [|w vs IH]; intros v ip Hr Hl ip'; rewrite Nat.add_succ_r; cbn [length] in *.
  - cbn [join6]. change (sep6 []) with (@nil byte). rewrite app_nil_r, Nat.add_0_r. apply Forall_inv in Hr.
    change (bytes_of "::" ++ tail) with (":"%byte :: ":"%byte :: tail). rewrite parse6_colon by (done || lia). done.
  - apply Forall_cons in Hr as [Hv Hr]. rewrite parse6_next by (done || lia || by apply Forall_inv in Hr).
    rewrite IH by (done || (rewrite ?length_app; cbn; lia)). unfold ip'.
    change (flat (v :: w :: vs)) with (group_bytes v ++ flat (w :: vs)). by rewrite (assoc_L (++)).
Qed.

(** ** Addresses *)

(** [parseIPv6] without the zone. *)
Definition fill6 (r : option (list byte * list byte * option nat)) : option (list byte) :=
  match r with
  | None => None
  | Some (rest, ip, ell) =>
      if negb (bool_decide (rest = [])) then None
      else if (length ip <? 16)%nat then
        match ell with None => None | Some e => Some (take e ip ++ zeros (16 - length ip) ++ drop e ip) end
      else if bool_decide (is_Some ell) then None else Some ip
  end.

Definition body6 (s : list byte) : option (list byte) :=
  match s with
  | c1 :: c2 :: s' =>
      if bool_decide (c1 = ":"%byte) && bool_decide (c2 = ":"%byte) then
        if bool_decide (s' = []) then Some (zeros 16) else fill6 (parse6_loop 9 s' [] (Some 0%nat))
      else fill6 (parse6_loop 9 s [] None)
  | _ => fill6 (parse6_loop 9 s [] None)
  end.

Lemma parseIPv6_body s :
  parseIPv6 s = match split_zone s with
                | None => None
                | Some (t, zone) => (λ ip, Addr6 (array_of 16 ip) (string_of zone)) <$> body6 t
                end.
Proof.
  unfold parseIPv6. destruct (split_zone s) as [[t zone]|]; [|done].
  assert (∀ s ell, match parse6_loop 9 s [] ell with
    | None => None
    | Some (rest, ip, ell) =>
        if negb (bool_decide (rest = [])) then None
        else if (length ip <? 16)%nat then
          match ell with
          | None => None
          | Some e => Some (Addr6 (array_of 16 (take e ip ++ zeros (16 - length ip) ++ drop e ip)) (string_of zone))
          end
        else if bool_decide (is_Some ell) then None else Some (Addr6 (array_of 16 ip) (string_of zone))
    end = (λ ip, Addr6 (array_of 16 ip) (string_of zone)) <$> fill6 (parse6_loop 9 s [] ell)) as Hrun.
  { intros s' ell. destruct (parse6_loop 9 s' [] ell) as [[[rest ip] ell']|]; [|done]. cbn [fill6].
    destruct (negb _); [done|]. destruct (_ <? _)%nat; [by destruct ell'|]. by destruct (bool_decide _). }
  unfold body6. destruct t as [|c1 [|c2 t]]; [apply Hrun..|].
  destruct (_ && _); [|apply Hrun]. destruct (bool_decide _); [done|apply Hrun].
Qed.

Lemma vec_groups b : vec_to_list b = flat (groups b 0 8).
Proof.
  assert (∀ x y, group_bytes (u16 x y) = [x; y]) as Hg.
  { intros x y. unfold group_bytes. destruct (u16_bytes x y) as [-> ->]. done. }
  unfold flat, groups, v6u16. pose proof (length_vec_to_list b) as Hl.
  destruct (vec_to_list b) as [|? [|? [|? [|? [|? [|? [|? [|? [|? [|? [|? [|? [|? [|? [|? [|? [|]]]]]]]]]]]]]]]]]; try done.
  cbn [seq fmap list_fmap Nat.mul Nat.add lookup list_lookup default from_option id concat app].
  by rewrite !Hg.
Qed.

Lemma flat_zeros vs : Forall (λ v, v = 0) vs → flat vs = zeros (2 * length vs).
Proof.
  induction 1 as [|v vs -> _ IH]; [done|]. change (flat (0 :: vs)) with ([x00; x00] ++ flat vs). rewrite IH.
  cbn [length]. replace (2 * S (length vs))%nat with (2 + 2 * length vs)%nat by lia. done.
Qed.

Lemma length_groups b i n : length (groups b i n) = n.
Proof. unfold groups. by rewrite length_fmap, length_seq. Qed.

Lemma groups_split b i n m : groups b i (n + m) = groups b i n ++ groups b (i + n) m.
Proof. unfold groups. by rewrite seq_app, fmap_app. Qed.

(** The zeros of an ellipsis are put back. *)
Lemma fill6_ellipsis pre zs post :
  Forall (λ v, v = 0) zs → zs ≠ [] → (length pre + length zs + length post = 8)%nat →
  fill6 (Some ([], flat pre ++ flat post, Some (length (flat pre)))) = Some (flat (pre ++ zs ++ post)).
Proof.
  intros Hz Hne Hl. destruct zs as [|z zs]; [done|]. cbn [fill6]. rewrite bool_decide_eq_true_2 by done. cbn [negb length] in *.
  rewrite length_app, !length_flat, (proj2 (Nat.ltb_lt _ _)) by lia.
  rewrite <-length_flat, take_app_length, drop_app_length, !flat_app, (flat_zeros (z :: zs)) by done. cbn [length].
  do 2 f_equal. f_equal. f_equal. rewrite ?length_flat. lia.
Qed.

Lemma body6_hex c t : is_hex c = true → body6 (c :: t) = fill6 (parse6_loop 9 (c :: t) [] None).
Proof.
  intros Hc. unfold body6. destruct t; [done|]. rewrite (bool_decide_eq_false_2 (c = _)) by by apply is_hex_not. done.
Qed.

Lemma join6_head b i n : ∃ c t, join6 (groups b i (S n)) = c :: t ∧ is_hex c = true.
Proof.
  cbn [groups seq fmap list_fmap join6]. destruct (hex_head (v6u16 b i) (u16_range _ _)) as (c & l & -> & Hc).
  by exists c, (l ++ sep6 (v6u16 b <$> seq (S i) n)).
Qed.

Lemma groups_S b i n : groups b i (S n) = v6u16 b i :: groups b (S i) n.
Proof. done. Qed.

Lemma parse6_groups fuel b i n ip ell : (length ip + 2 * S n <= 16)%nat → (n < fuel)%nat →
  parse6_loop fuel (join6 (groups b i (S n))) ip ell = Some ([], ip ++ flat (groups b i (S n)), ell).
Proof.
  intros Hl Hf. pose proof (groups_range b i (S n)) as Hr. rewrite groups_S in *.
  apply parse6_plain; [done|by rewrite length_groups..].
Qed.

Lemma body6_plain b : body6 (join6 (groups b 0 8)) = Some (flat (groups b 0 8)).
Proof.
  destruct (join6_head b 0 7) as (c & t & Ht & Hc). rewrite Ht, body6_hex, <-Ht by done.
  rewrite parse6_groups by (cbn; lia). cbn [fill6 app]. rewrite bool_decide_eq_true_2 by done. cbn [negb].
  by rewrite length_flat, length_groups.
Qed.

Lemma body6_ellipsis b zs zl m :
  (zs + S zl + m = 8)%nat → Forall (λ v, v = 0) (groups b zs (S zl)) →
  body6 (join6 (groups b 0 zs) ++ bytes_of "::" ++ join6 (groups b (zs + S zl) m)) = Some (flat (groups b 0 8)).
Proof.
  intros Hm Hz. replace (groups b 0 8) with (groups b 0 zs ++ groups b zs (S zl) ++ groups b (zs + S zl) m)
    by (rewrite <-groups_split; change zs with (0 + zs)%nat at 2; rewrite <-groups_split; f_equal; lia).
  assert (∀ l, l = groups b 0 zs → fill6 (Some ([], flat l ++ flat (groups b (zs + S zl) m), Some (length (flat l))))
    = Some (flat (l ++ groups b zs (S zl) ++ groups b (zs + S zl) m))) as Hfill.
  { intros l ->. apply fill6_ellipsis; [done|done|]. by rewrite !length_groups. }
  specialize (Hfill _ eq_refl). destruct zs as [|zs].
  - change (join6 (groups b 0 0)) with (@nil byte). rewrite app_nil_l.
    change (bytes_of "::" ++ join6 (groups b (0 + S zl) m)) with (":"%byte :: ":"%byte :: join6 (groups b (0 + S zl) m)).
    cbn [body6]. rewrite !bool_decide_eq_true_2 by done. cbn [andb]. destruct m as [|m].
    + rewrite bool_decide_eq_true_2 by done. by rewrite <-Hfill.
    + destruct (join6_head b (0 + S zl) m) as (c & t & Ht & Hc). rewrite bool_decide_eq_false_2 by by rewrite Ht.
      rewrite parse6_groups by (cbn; lia). done.
  - destruct (join6_head b 0 zs) as (c & t & Ht & Hc). rewrite Ht at 1. cbn [app]. rewrite body6_hex by done.
    change (c :: t ++ ?r) with ((c :: t) ++ r). rewrite <-Ht. pose proof (groups_range b 0 (S zs)) as Hr.
    rewrite <-Hfill. rewrite (groups_S b 0 zs) in Hr |- *.
    replace 9%nat with ((8 - zs) + S (length (groups b 1 zs)))%nat by (rewrite length_groups; lia).
    rewrite parse6_ellipsis by (done || (rewrite length_groups; cbn; lia)). cbn [app]. destruct m as [|m].
    + rewrite bool_decide_eq_true_2 by done. change (flat (groups b _ 0)) with (@nil byte). by rewrite app_nil_r.
    + destruct (join6_head b (S zs + S zl) m) as (c' & t' & Ht' & Hc'). rewrite bool_decide_eq_false_2 by by rewrite Ht'.
      by rewrite parse6_groups by (rewrite ?length_flat; cbn [length]; rewrite ?length_groups; lia).
Qed.

Lemma body6_groups b : body6 (bytes_of (groups6 9 b (longest_zeros b) 0)) = Some (vec_to_list b).
Proof.
  rewrite vec_groups. destruct (longest_zeros_ok b) as [H|[[Hl Hle] Hz]]; destruct (longest_zeros b) as [zs zl]; cbn [fst snd] in *.
  - subst zs. by rewrite groups6_plain, body6_plain.
  - destruct zl as [|zl]; [lia|]. rewrite (groups6_ellipsis b zs (S zl) (8 - (zs + S zl))) by lia.
    apply body6_ellipsis; [lia|done].
Qed.

(** The dotted tail of an IPv4-mapped address. *)
Lemma digit_hex c : is_digit c = true → is_hex c = true.
Proof. unfold is_hex, is_digit, hex_val. intros ->. by apply bool_decide_eq_true_2. Qed.

Lemma octet_length x : bytes_of (dec (b2z x)) ≠ [] ∧ (length (bytes_of (dec (b2z x))) <= 3)%nat.
Proof.
  assert ((negb (bool_decide (bytes_of (dec (b2z x)) = [])) && (length (bytes_of (dec (b2z x))) <=? 3)%nat) = true) as H
    by (revert x; apply byte_forall; vm_compute; reflexivity).
  apply andb_true_iff in H as [H1 H2%Nat.leb_le]. split; [|done]. intros E. by rewrite bool_decide_eq_true_2 in H1.
Qed.

Lemma parse6_dotted fuel v :
  parse6_loop (S fuel) (dotted_bytes v) [xff; xff] (Some 0%nat) = Some ([], [xff; xff] ++ vec_to_list v, Some 0%nat).
Proof.
  destruct (dotted_shape v) as (a & b & c & d & _ & Hv).
  destruct (octet_length a) as [Hne Hl]. pose proof (b2z_dec_digits a) as Hd.
  pose proof (parse4_dotted v) as Hp. rewrite Hv in *. set (l := bytes_of (dec (b2z a))) in *.
  set (r := bytes_of (dec (b2z b)) ++ _) in *.
  assert (hex_group (l ++ "."%byte :: r) 0 0 = Some (hex_fold 0 l, length l, "."%byte :: r)) as Hg.
  { apply (hex_group_text l ("."%byte :: r) 0 0); [|lia|done]. eapply Forall_impl; [apply Hd|]. cbn. by apply digit_hex. }
  cbn [parse6_loop length Nat.leb]. rewrite Hg. rewrite (proj2 (Nat.eqb_neq _ _)) by (destruct l; [done|cbn; lia]).
  rewrite bool_decide_eq_true_2 by done. rewrite (bool_decide_eq_false_2 (Some 0%nat = None)) by done. cbn [andb].
  by rewrite Hp.
Qed.

Lemma mapped_bytes (b : vec byte 16) : take 12 (vec_to_list b) = v4InV6Prefix → vec_to_list b = zeros 10 ++ [xff; xff] ++ drop 12 (vec_to_list b).
Proof. intros H. rewrite <-(take_drop 12 (vec_to_list b)) at 1. by rewrite H. Qed.

Lemma body6_mapped (b : vec byte 16) : take 12 (vec_to_list b) = v4InV6Prefix →
  body6 (bytes_of ("::ffff:" +:+ dotted (drop 12 (vec_to_list b)))) = Some (vec_to_list b).
Proof.
  intros Hb. set (t := drop 12 (vec_to_list b)).
  assert (vec_to_list (array_of 4 t) = t) as Ht
    by (apply vec_to_list_array_of; unfold t; by rewrite length_drop, length_vec_to_list).
  rewrite <-Ht. rewrite bytes_of_app. fold (dotted_bytes (array_of 4 t)).
  assert (∃ c l, dotted_bytes (array_of 4 t) = c :: l ∧ is_hex c = true) as (c & l & Hc & Hh).
  { destruct (dotted_shape (array_of 4 t)) as (x & ? & ? & ? & _ & ->). pose proof (b2z_dec_digits x) as Hd.
    destruct (octet_length x) as [Hne _]. destruct (bytes_of (dec (b2z x))) as [|y r]; [done|]. eexists _, _. split; [reflexivity|].
    by apply digit_hex, (Forall_inv Hd). }
  change (bytes_of "::ffff:" ++ ?d) with (":"%byte :: ":"%byte :: bytes_of (hex 65535) ++ ":"%byte :: d).
  cbn [body6]. rewrite !(bool_decide_eq_true_2 (_ = ":"%byte)) by done. cbn [andb].
  rewrite bool_decide_eq_false_2 by by intros [=].
  rewrite Hc, (parse6_colon 8 65535) by (done || cbn; lia).
  rewrite bool_decide_eq_false_2 by by apply is_hex_not. rewrite <-Hc. change ([] ++ group_bytes 65535) with [xff; xff].
  rewrite parse6_dotted, Ht. cbn [fill6]. rewrite bool_decide_eq_true_2 by done. cbn [negb].
  rewrite length_app. unfold t at 1. rewrite length_drop, length_vec_to_list. cbn [length Nat.ltb Nat.leb Nat.add Nat.sub].
  f_equal. symmetry. rewrite (mapped_bytes b Hb).
  by replace (length t) with 4%nat by (unfold t; by rewrite length_drop, length_vec_to_list).
Qed.

(** *** The characters of the text *)

Definition addr_char (c : byte) : Prop := is_hex c = true ∨ c = ":"%byte ∨ c = "."%byte.

Lemma join6_chars b i n : Forall addr_char (sep6 (groups b i n)) ∧ Forall addr_char (join6 (groups b i n)).
Proof.
  revert i. induction n as [|n IH]; intros i; [split; constructor|]. rewrite groups_S. destruct (IH (S i)) as [Hs _].
  assert (Forall addr_char (bytes_of (hex (v6u16 b i)))) as Hh.
  { destruct (hex_shape (v6u16 b i) (u16_range _ _)) as (_ & _ & Ht & _). eapply Forall_impl; [apply Ht|]. by left. }
  cbn [sep6 join6 fmap list_fmap concat app]. split; [constructor; [by right; left|]|]; by apply Forall_app.
Qed.

Lemma addr_chars b z : z = EmptyString → Forall addr_char (bytes_of (Addr_String (Addr6 b z))).
Proof.
  intros ->. cbn [Addr_String]. rewrite bytes_of_app. apply Forall_app. split; [|constructor].
  destruct (Is4In6 (Addr6 b "")).
  - rewrite bytes_of_app. apply Forall_app. split.
    { change (bytes_of "::ffff:") with [":"; ":"; "f"; "f"; "f"; "f"; ":"]%byte.
      repeat (apply Forall_cons; split; [first [by left|by right; left]|]). constructor. }
    pose proof (dotted_text (array_of 4 (drop 12 (vec_to_list b)))) as Ht. unfold dotted_bytes in Ht.
    rewrite vec_to_list_array_of in Ht by by rewrite length_drop, length_vec_to_list.
    eapply Forall_impl; [apply Ht|]. intros c [Hc| ->]; [by left; apply digit_hex|by right; right].
  - destruct (longest_zeros_ok b) as [H|[[Hl Hle] Hz]]; destruct (longest_zeros b) as [zs zl]; cbn [fst snd] in *.
    + subst zs. rewrite groups6_plain. apply join6_chars.
    + rewrite (groups6_ellipsis b zs zl (8 - (zs + zl))) by lia. rewrite !Forall_app.
      split_and!; [apply join6_chars| |apply join6_chars]. repeat constructor; by right; left.
Qed.

(** The first special character is a colon. *)
Lemma addr_colon b : ∃ h r, bytes_of (Addr_String (Addr6 b "")) = h ++ ":"%byte :: r ∧ hex_text h.
Proof.
  cbn [Addr_String]. rewrite bytes_of_app. change (bytes_of (if bool_decide _ then _ else _)) with (@nil byte). rewrite app_nil_r.
  assert (∀ i, hex_text (bytes_of (hex (v6u16 b i)))) as Hh by (intros i; by apply (hex_shape (v6u16 b i) (u16_range _ _))).
  destruct (Is4In6 (Addr6 b "")); [rewrite bytes_of_app; eexists [], _; split; [reflexivity|constructor]|].
  destruct (longest_zeros_ok b) as [H|[[Hl Hle] Hz]]; destruct (longest_zeros b) as [zs zl]; cbn [fst snd] in *.
  - subst zs. rewrite groups6_plain, (groups_S b 0 7), (groups_S b 1 6). eexists _, _. split; [reflexivity|apply Hh].
  - rewrite (groups6_ellipsis b zs zl (8 - (zs + zl))) by lia. destruct zs as [|zs].
    + eexists [], _. split; [reflexivity|constructor].
    + rewrite groups_S. cbn [join6]. rewrite <-(assoc_L (++)). destruct zs as [|zs].
      * eexists _, _. split; [reflexivity|apply Hh].
      * rewrite groups_S. eexists _, _. split; [reflexivity|apply Hh].
Qed.

Lemma Addr6_bytes b z :
  bytes_of (Addr_String (Addr6 b z)) =
  bytes_of (Addr_String (Addr6 b "")) ++ if bool_decide (z = EmptyString) then [] else "%"%byte :: bytes_of z.
Proof.
  cbn [Addr_String]. rewrite !bytes_of_app. change (bytes_of (if bool_decide ("" = _) then _ else _)) with (@nil byte).
  rewrite app_nil_r. change (Is4In6 (Addr6 b z)) with (Is4In6 (Addr6 b "")). f_equal. by case_bool_decide.
Qed.

Lemma split_zone_none t : Forall (λ c, c ≠ "%"%byte) t → split_zone t = Some (t, []).
Proof.
  intros Ht. unfold split_zone. destruct (list_find _ t) as [[i c]|] eqn:E; [|done].
  apply list_find_Some in E as (E & -> & _). by apply (Forall_lookup_1 _ _ _ _ Ht) in E.
Qed.

Lemma split_zone_some t zs : Forall (λ c, c ≠ "%"%byte) t → zs ≠ [] → split_zone (t ++ "%"%byte :: zs) = Some (t, zs).
Proof.
  intros Ht Hz. unfold split_zone. rewrite find_first by done.
  assert (drop (S (length t)) (t ++ "%"%byte :: zs) = zs) as ->.
  { change (t ++ "%"%byte :: zs) with (t ++ ["%"%byte] ++ zs). rewrite (assoc_L (++)). apply drop_app_length'.
    rewrite length_app. cbn. lia. }
  rewrite take_app_length. by rewrite bool_decide_eq_false_2.
Qed.

Lemma split_zone_text b z : split_zone (bytes_of (Addr_String (Addr6 b z))) = Some (bytes_of (Addr_String (Addr6 b "")), bytes_of z).
Proof.
  assert (Forall (λ c, c ≠ "%"%byte) (bytes_of (Addr_String (Addr6 b "")))) as Ht.
  { eapply Forall_impl; [by apply addr_chars|]. intros c [Hc|[->| ->]]; [|done..]. by apply is_hex_not. }
  rewrite Addr6_bytes. case_bool_decide as Hz.
  - subst z. rewrite app_nil_r. by apply split_zone_none.
  - apply split_zone_some; [done|]. intros E. apply Hz. by apply bytes_of_inj.
Qed.

(** [ParseAddr] inverts [String] on every valid address, with any zone. *)
Lemma ParseAddr_String a : IsValid a = true → ParseAddr (Addr_String a) = Some a.
Proof.
  destruct a as [|v|b z]; [done|intros _; apply ParseAddr_String4|intros _]. unfold ParseAddr.
  destruct (addr_colon b) as (h & r & Hh & Hx).
  assert (list_find (λ c, c = "."%byte ∨ c = ":"%byte ∨ c = "%"%byte) (bytes_of (Addr_String (Addr6 b z)))
    = Some (length h, ":"%byte)) as ->.
  { rewrite Addr6_bytes, Hh, <-(assoc_L (++)). cbn [app]. apply find_first; [|by right; left].
    eapply Forall_impl; [apply Hx|]. cbn. intros c (? & ? & ? & _)%is_hex_not [|[|]]; done. }
  rewrite bool_decide_eq_false_2, bool_decide_eq_true_2 by done.
  rewrite parseIPv6_body, split_zone_text. cbn [Addr_String].
  rewrite bytes_of_app. change (bytes_of (if bool_decide ("" = _) then _ else _)) with (@nil byte). rewrite app_nil_r.
  assert (body6 (bytes_of (if Is4In6 (Addr6 b "") then "::ffff:" +:+ dotted (drop 12 b) else groups6 9 b (longest_zeros b) 0))
    = Some (vec_to_list b)) as ->.
  { destruct (Is4In6 (Addr6 b "")) eqn:E; [|apply body6_groups]. apply body6_mapped. by apply bool_decide_eq_true in E. }
  cbn [fmap option_fmap option_map]. by rewrite array_of_vec_to_list, string_of_bytes_of.
Qed.

Lemma Addr_String_inj a a' : IsValid a = true → IsValid a' = true → Addr_String a = Addr_String a' → a = a'.
Proof. intros Ha Ha' H. pose proof (ParseAddr_String a Ha) as E. rewrite H, ParseAddr_String in E by done. by injection E. Qed.

(** ** Endpoints *)

(** An endpoint the sockets use: a valid address and a 16-bit port. *)
Definition ep_wf (p : AddrPort) : Prop := IsValid (ap_addr p) = true ∧ 0 <= ap_port p < 65536.

Lemma AddrPort_bytes6 b z p :
  bytes_of (AddrPort_String (mkAP (Addr6 b z) p)) =
  ("["%byte :: bytes_of (Addr_String (Addr6 b z)) ++ ["]"%byte]) ++ ":"%byte :: bytes_of (dec p).
Proof.
  unfold AddrPort_String. cbn [ap_addr ap_port]. generalize (Addr_String (Addr6 b z)). intros s. rewrite !bytes_of_app.
  change (bytes_of "[") with ["["%byte]. change (bytes_of "]:") with ["]"; ":"]%byte. cbn [app]. by rewrite <-(assoc_L (++)).
Qed.

Lemma is_mem_colon6 b z : is_mem ":" (bytes_of (Addr_String (Addr6 b z))) = true.
Proof.
  apply bool_decide_eq_true_2. destruct (addr_colon b) as (h & r & Hh & _). rewrite Addr6_bytes, Hh.
  apply elem_of_app; left. apply elem_of_app; right. by left.
Qed.

(** [JoinHostPort] of an address and a port is the endpoint's text. *)
Lemma JoinHostPort_String p : IsValid (ap_addr p) = true →
  JoinHostPort (bytes_of (Addr_String (ap_addr p))) (bytes_of (dec (ap_port p))) = bytes_of (AddrPort_String p).
Proof.
  destruct p as [[|v|b z] p]; [done|intros _..]; cbn [ap_addr ap_port]; unfold JoinHostPort.
  - rewrite AddrPort_bytes4. unfold is_mem. by rewrite bool_decide_eq_false_2 by by apply text4_no.
  - rewrite is_mem_colon6, AddrPort_bytes6. cbn [app]. by rewrite <-(assoc_L (++)).
Qed.

(** [ParseAddrPort] of an address that was printed and any port text. *)
Lemma ParseAddrPort_Join a port : IsValid a = true → ":"%byte ∉ port →
  ParseAddrPort (JoinHostPort (bytes_of (Addr_String a)) port) = (λ p, mkAP a p) <$> ParseUint 65535 port.
Proof.
  destruct a as [|v|b z]; [done|intros _; apply ParseAddrPort_4|intros _ Hp].
  unfold JoinHostPort. rewrite is_mem_colon6. set (t := bytes_of (Addr_String (Addr6 b z))).
  assert ("["%byte :: t ++ "]"%byte :: ":"%byte :: port = ("["%byte :: t ++ ["]"%byte]) ++ ":"%byte :: port) as ->
    by (cbn [app]; by rewrite <-(assoc_L (++))).
  unfold ParseAddrPort. rewrite cut_last_app by done. rewrite bool_decide_eq_false_2 by done. cbn [head].
  rewrite bool_decide_eq_true_2 by done. rewrite app_comm_cons, last_snoc, (bool_decide_eq_true_2 (Some _ = Some _)) by done.
  cbn [app length]. rewrite length_app. cbn [length]. rewrite (proj2 (Nat.leb_le _ _)) by lia. cbn [andb negb].
  assert (slice ("["%byte :: t ++ ["]"%byte]) 1 (S (length t + 1) - 1) = t) as ->.
  { unfold slice. cbn [Nat.add Nat.sub]. rewrite Nat.sub_0_r. replace (length t + 1 - 1)%nat with (length t) by lia.
    by rewrite skipn_cons, drop_0, take_app_length. }
  unfold t. rewrite string_of_bytes_of, ParseAddr_String by done. by destruct (ParseUint 65535 port).
Qed.

Lemma ParseAddrPort_String p : ep_wf p → ParseAddrPort (bytes_of (AddrPort_String p)) = Some p.
Proof.
  intros [Hv [H0 Hlt]]. rewrite <-JoinHostPort_String, ParseAddrPort_Join, ParseUint_dec by (done || by apply dec_no).
  rewrite (proj2 (Z.ltb_ge _ _)) by lia. by destruct p.
Qed.

(** Distinct endpoints have distinct texts. *)
Lemma AddrPort_String_inj p q : ep_wf p → ep_wf q → AddrPort_String p = AddrPort_String q → p = q.
Proof. intros Hp Hq H. pose proof (ParseAddrPort_String p Hp) as E. rewrite H, ParseAddrPort_String in E by done. by injection E. Qed.

(** An endpoint's text without a zone splits into its address and its port. *)
Lemma SplitHostPort_String p : IsValid (ap_addr p) = true → hasZone (ap_addr p) = false → 0 <= ap_port p →
  SplitHostPort (bytes_of (AddrPort_String p)) = Some (bytes_of (Addr_String (ap_addr p)), bytes_of (dec (ap_port p))).
Proof.
  destruct p as [[|v|b z] p]; [done|intros _ _; apply SplitHostPort_4|]. cbn [ap_addr ap_port hasZone]. intros _ Hz Hp.
  assert (z = EmptyString) as -> by (by destruct z). rewrite AddrPort_bytes6.
  pose proof (addr_chars b _ eq_refl) as Ht. revert Ht. generalize (bytes_of (Addr_String (Addr6 b ""))). intros t Ht.
  assert (∀ c, is_hex c = false → c ≠ ":"%byte → c ≠ "."%byte → c ∉ t) as Hno.
  { intros c Hc H1 H2 Hin. rewrite Forall_forall in Ht. destruct (Ht c Hin) as [|[|]]; congruence. }
  pose proof (λ c, dec_no c p Hp) as Hd. revert Hd. generalize (bytes_of (dec p)). intros d Hd.
  unfold SplitHostPort. rewrite cut_last_app by by apply Hd. rewrite (bool_decide_eq_true_2 (head _ = _)) by done.
  assert (("["%byte :: t ++ ["]"%byte]) ++ ":"%byte :: d = ("["%byte :: t) ++ "]"%byte :: ":"%byte :: d) as ->
    by (cbn [app]; by rewrite <-(assoc_L (++))).
  rewrite find_first; [|constructor; [done|]; apply Forall_forall; intros c Hc ->; by apply (Hno "]"%byte)|done].
  cbn [length app]. rewrite length_app, (proj2 (Nat.eqb_eq _ _)) by (cbn; lia). cbn [negb].
  change (drop 1 ("["%byte :: ?l)) with l. unfold is_mem. rewrite !bool_decide_eq_false_2; cbn [orb].
  - unfold slice. rewrite skipn_cons, drop_0. replace (S (length t) - 1)%nat with (length t) by lia. by rewrite take_app_length.
  - rewrite skipn_cons. change (t ++ "]"%byte :: ":"%byte :: d) with (t ++ ["]"%byte] ++ ":"%byte :: d).
    rewrite (assoc_L (++)), drop_app_length' by (rewrite length_app; cbn; lia).
    rewrite elem_of_cons. intros [H|H]; [done|by apply Hd in H].
  - rewrite elem_of_app, !elem_of_cons. intros [H|[H|[H|H]]]; [by apply (Hno "["%byte) in H|done..|by apply Hd in H].
Qed.
