(* ===== verification/GoText.v ===== *)
(** * strings: white space

    [TrimSpace] and [Fields] of package strings on the bytes of a string, with the
    white space of package unicode in its UTF-8 encoding. *)

From Stdlib Require Import Strings.Byte.
From S2P Require Import Prelude Netip Users Keys.

(** The length of the white-space character at the start of a text, 0 if there is none. *)
Definition space_len (l : list byte) : nat :=
  match l with
  | x20 :: _ | x09 :: _ | x0a :: _ | x0b :: _ | x0c :: _ | x0d :: _ => 1
  | xc2 :: x85 :: _ | xc2 :: xa0 :: _ => 2
  | xe1 :: x9a :: x80 :: _ | xe2 :: x80 :: xa8 :: _ | xe2 :: x80 :: xa9 :: _
  | xe2 :: x80 :: xaf :: _ | xe2 :: x81 :: x9f :: _ | xe3 :: x80 :: x80 :: _ => 3
  | xe2 :: x80 :: c :: _ => if between x80 x8a c then 3 else 0
  | _ => 0
  end%nat.

(** The same at the end of a text, given reversed. *)
Definition space_len_rev (l : list byte) : nat :=
  if (space_len (reverse (take 1 l)) =? 1)%nat then 1
  else if (space_len (reverse (take 2 l)) =? 2)%nat then 2
  else if (space_len (reverse (take 3 l)) =? 3)%nat then 3
  else 0%nat.

Fixpoint trim_with (len : list byte → nat) (fuel : nat) (l : list byte) : list byte :=
  match fuel with
  | O => l
  | S fuel' => match len l with O => l | n => trim_with len fuel' (drop n l) end
  end.

Definition TrimSpace (l : list byte) : list byte :=
  let l := trim_with space_len (length l) l in
  reverse (trim_with space_len_rev (length l) (reverse l)).

(** The fields; [acc] is the field being read, reversed. *)
Fixpoint fields_loop (fuel : nat) (l acc : list byte) : list (list byte) :=
  let done := if bool_decide (acc = []) then [] else [reverse acc] in
  match fuel, l with
  | S fuel', c :: l' =>
      match space_len l with
      | O => fields_loop fuel' l' (c :: acc)
      | n => done ++ fields_loop fuel' (drop n l) []
      end
  | _, _ => done
  end.

Definition Fields (l : list byte) : list (list byte) := fields_loop (S (length l)) l [].

Definition is_blank_text (l : list byte) : Prop := Forall (λ c, c ∈ [x20; x09; x0a; x0b; x0c; x0d]) l.

(** Text of ASCII white space is trimmed to nothing. *)
Lemma TrimSpace_blank l : is_blank_text l → TrimSpace l = [].
Proof.
  intros H. unfold TrimSpace. assert (trim_with space_len (length l) l = []) as ->; [|done].
  induction H as [|c l Hc Hl IH]; [done|]. cbn [length trim_with].
  assert (space_len (c :: l) = 1%nat) as ->; [|done].
  rewrite !elem_of_cons, elem_of_nil in Hc. by destruct_or?; subst.
Qed.

(** Visible ASCII. *)
Definition graphic (c : byte) : bool := between "!" "~" c.

Lemma space_len_graphic c l : graphic c = true → space_len (c :: l) = 0%nat.
Proof. by destruct c. Qed.

Lemma space_len_rev_graphic l : Forall (λ c, graphic c = true) l → space_len_rev l = 0%nat.
Proof.
  intros Hl. assert (∀ n, space_len (reverse (take n l)) = 0%nat) as H; [|unfold space_len_rev; by rewrite !H].
  intros n. pose proof (Forall_take _ n _ Hl) as Ht. apply Forall_reverse in Ht.
  destruct (reverse (take n l)) as [|c r]; [done|]. apply Forall_cons in Ht as [Hc _]. by apply space_len_graphic.
Qed.

Lemma trim_with_zero len n l : len l = 0%nat → trim_with len n l = l.
Proof. intros H. destruct n; [done|]. cbn [trim_with]. by rewrite H. Qed.

(** A line of visible text is trimmed to the text. *)
Lemma TrimSpace_line l nl : Forall (λ c, graphic c = true) l → l ≠ [] → is_blank_text nl → TrimSpace (l ++ nl) = l.
Proof.
  intros Hl Hne Hn. unfold TrimSpace.
  rewrite (trim_with_zero space_len) by (destruct Hl; [done|by apply space_len_graphic]). rewrite reverse_app, length_app.
  assert (∀ k, (length nl <= k)%nat → trim_with space_len_rev k (reverse nl ++ reverse l) = reverse l) as H.
  { apply Forall_reverse in Hl, Hn. fold (is_blank_text (reverse nl)) in Hn. rewrite <-(length_reverse nl).
    induction Hn as [|c nl' Hc Hn IH]; intros k Hk; cbn [app]; [by apply trim_with_zero, space_len_rev_graphic|].
    cbn [length] in Hk. destruct k as [|k]; [lia|]. cbn [trim_with].
    assert (space_len_rev (c :: nl' ++ reverse l) = 1%nat) as ->; [|apply IH; lia].
    unfold space_len_rev. rewrite !elem_of_cons, elem_of_nil in Hc. by destruct_or?; subst. }
  rewrite H by lia. apply reverse_involutive.
Qed.

Example text_samples :
  TrimSpace (bytes_of "  a b" ++ [x0a]) = bytes_of "a b" ∧ Fields (bytes_of "reno cubic bbr" ++ [x0a]) = [bytes_of "reno"; bytes_of "cubic"; bytes_of "bbr"]
  ∧ TrimSpace (bytes_of "k" ++ [xc2; xa0]) = bytes_of "k".
Proof. vm_compute. done. Qed.
