(* ===== verification/GoFlag.v ===== *)
(** * flag and strconv: the command line's values

    Package flag's parsing of an argument list into a set of defined flags, with
    [strconv.ParseBool] and [strconv.ParseInt] in base 0, as the library computes them.
    A flag set over a configuration is a list of definitions, each with the field it
    writes. *)

From Stdlib Require Import Strings.Byte.
From stdpp Require Import pretty.
From S2P Require Import Prelude Netip Users Keys NetipText AddrText.

(** ** Integers *)

(** [c | ('x' - 'X')] *)
Definition lower (c : byte) : Z := Z.lor (b2z c) 32.

Definition digit_in (base : Z) (c : byte) : option Z :=
  let d := if is_digit c then Some (digit_val c)
           else if (b2z "a" <=? lower c) && (lower c <=? b2z "z") then Some (lower c - b2z "a" + 10)
           else None in
  match d with Some d => if base <=? d then None else Some d | None => None end.

(** The digits, underscores skipped; the value, and whether an underscore was seen. *)
Fixpoint uint_loop (base : Z) (l : list byte) (n : Z) (und : bool) : option (Z * bool) :=
  match l with
  | [] => Some (n, und)
  | c :: l' =>
      if bool_decide (c = "_"%byte) then uint_loop base l' n true
      else match digit_in base c with
           | None => None
           | Some d => if 2 ^ 64 - 1 <? n * base + d then None else uint_loop base l' (n * base + d) und
           end
  end.

Definition base_of (c : byte) : option Z :=
  if lower c =? b2z "b" then Some 2 else if lower c =? b2z "o" then Some 8
  else if lower c =? b2z "x" then Some 16 else None.

(** The base a literal's prefix selects, and the rest. *)
Definition base_prefix (l : list byte) : Z * list byte :=
  match l with
  | c :: l' =>
      if bool_decide (c = "0"%byte) then
        match l' with
        | x :: ((_ :: _) as r) => match base_of x with Some b => (b, r) | None => (8, l') end
        | _ => (8, l')
        end
      else (10, l)
  | [] => (10, l)
  end.

(** [underscoreOK]: an underscore only between digits, a base prefix counting as one.
    [saw]: [Some true] after a digit, [Some false] after an underscore, [None] after
    anything else. *)
Fixpoint underscore_loop (hex : bool) (l : list byte) (saw : option bool) : bool :=
  match l with
  | [] => negb (bool_decide (saw = Some false))
  | c :: l' =>
      if is_digit c || (hex && (b2z "a" <=? lower c) && (lower c <=? b2z "f")) then underscore_loop hex l' (Some true)
      else if bool_decide (c = "_"%byte) then
        if bool_decide (saw = Some true) then underscore_loop hex l' (Some false) else false
      else if bool_decide (saw = Some false) then false
      else underscore_loop hex l' None
  end.

Definition strip_sign (l : list byte) : bool * list byte :=
  match l with
  | c :: l' => if bool_decide (c = "-"%byte) then (true, l') else if bool_decide (c = "+"%byte) then (false, l') else (false, l)
  | [] => (false, l)
  end.

Definition underscoreOK (l : list byte) : bool :=
  let l := (strip_sign l).2 in
  match l with
  | c :: x :: l' =>
      if bool_decide (c = "0"%byte) && bool_decide (is_Some (base_of x))
      then underscore_loop (bool_decide (base_of x = Some 16)) l' (Some true)
      else underscore_loop false l None
  | _ => underscore_loop false l None
  end.

Definition ParseUint0 (l : list byte) : option Z :=
  if bool_decide (l = []) then None
  else
    let '(base, digits) := base_prefix l in
    match uint_loop base digits 0 false with
    | None => None
    | Some (n, und) => if und && negb (underscoreOK l) then None else Some n
    end.

(** [strconv.ParseInt(s, 0, 64)]. *)
Definition ParseInt0 (l : list byte) : option Z :=
  if bool_decide (l = []) then None
  else
    let '(neg, l') := strip_sign l in
    match ParseUint0 l' with
    | None => None
    | Some un =>
        if negb neg && (2 ^ 63 <=? un) then None
        else if neg && (2 ^ 63 <? un) then None
        else Some (if neg then - un else un)
    end.

Definition ParseBool (s : string) : option bool :=
  if bool_decide (s ∈ ["1"; "t"; "T"; "true"; "TRUE"; "True"]%string) then Some true
  else if bool_decide (s ∈ ["0"; "f"; "F"; "false"; "FALSE"; "False"]%string) then Some false
  else None.

(** ** Flag sets *)

Inductive flagError : Type :=
| EBadSyntax (arg : string)
| EUndefined (name : string)
| EHelp
| EBoolValue (value name : string)
| ENeedsArg (name : string)
| EValue (value name : string).

(** [StringVar], [IntVar] and [BoolVar]: a name and the field that is set. *)
Inductive flagDef (C : Type) : Type :=
| StringVar (name : string) (set : string → C → C)
| IntVar (name : string) (set : Z → C → C)
| BoolVar (name : string) (set : bool → C → C).
Arguments StringVar {C} name set.
Arguments IntVar {C} name set.
Arguments BoolVar {C} name set.

Definition flag_name {C} (d : flagDef C) : string :=
  match d with StringVar n _ | IntVar n _ | BoolVar n _ => n end.

Definition is_bool {C} (d : flagDef C) : bool := match d with BoolVar _ _ => true | _ => false end.

(** [Value.Set]; [None] for a value that does not parse. *)
Definition flag_set {C} (d : flagDef C) (v : string) (c : C) : option C :=
  match d with
  | StringVar _ set => Some (set v c)
  | IntVar _ set => (λ z, set z c) <$> ParseInt0 (bytes_of v)
  | BoolVar _ set => (λ b, set b c) <$> ParseBool v
  end.

(** The name and the value after the first equals sign that is not the first byte. *)
Definition cut_eq (name : list byte) : list byte * option (list byte) :=
  match list_find (λ c, c = "="%byte) (drop 1 name) with
  | Some (i, _) => (take (S i) name, Some (drop (S (S i)) name))
  | None => (name, None)
  end.

(** What [parseOne] makes of an argument: the end of the flags (with or without taking
    the argument), an error, or a flag. *)
Inductive argForm : Type :=
| NotFlag
| Terminator
| BadSyntax
| FlagArg (name : list byte) (value : option (list byte)).

Definition arg_form (s : list byte) : argForm :=
  match s with
  | d :: c :: r =>
      if negb (bool_decide (d = "-"%byte)) then NotFlag
      else
        let two := bool_decide (c = "-"%byte) in
        if two && bool_decide (r = []) then Terminator
        else
          let name := if two then r else c :: r in
          match name with
          | x :: _ =>
              if bool_decide (x = "-"%byte) || bool_decide (x = "="%byte) then BadSyntax
              else let '(n, v) := cut_eq name in FlagArg n v
          | [] => BadSyntax
          end
  | _ => NotFlag
  end.

Definition lookup_flag {C} (fs : list (flagDef C)) (name : string) : option (flagDef C) :=
  snd <$> list_find (λ d, flag_name d = name) fs.

(** [FlagSet.Parse]: the configuration with the flags set, and the arguments left. *)
Fixpoint Parse {C} (fs : list (flagDef C)) (args : list string) (c : C) : result flagError (C * list string) :=
  match args with
  | [] => Ok (c, [])
  | s :: args' =>
      match arg_form (bytes_of s) with
      | NotFlag => Ok (c, args)
      | Terminator => Ok (c, args')
      | BadSyntax => Err (EBadSyntax s)
      | FlagArg n v =>
          let name := string_of n in
          match lookup_flag fs name with
          | None => Err (if bool_decide (name = "help") || bool_decide (name = "h") then EHelp else EUndefined name)
          | Some d =>
              if is_bool d then
                let v := match v with Some v => string_of v | None => "true"%string end in
                match flag_set d v c with
                | None => Err (EBoolValue v name)
                | Some c' => Parse fs args' c'
                end
              else
                match v, args' with
                | Some v, _ =>
                    match flag_set d (string_of v) c with
                    | None => Err (EValue (string_of v) name)
                    | Some c' => Parse fs args' c'
                    end
                | None, v :: args'' =>
                    match flag_set d v c with
                    | None => Err (EValue v name)
                    | Some c' => Parse fs args'' c'
                    end
                | None, [] => Err (ENeedsArg name)
                end
          end
      end
  end.

(** ** Values are read back *)

Lemma pretty_go_head n s : n ≠ 0%N → ∃ c r, bytes_of (pretty_N_go n s) = c :: r ∧ is_digit c = true ∧ c ≠ "0"%byte.
Proof.
  revert s. induction (N.lt_wf_0 n) as [n _ IH]; intros s Hn. rewrite pretty_N_go_step by lia.
  destruct (decide (n / 10 = 0)%N) as [E|E].
  - rewrite E, pretty_N_go_0, bytes_of_cons. eexists _, _. split; [done|]. split; [apply pretty_char_digit|].
    assert (n < 10)%N as Hlt by (pose proof (N.div_mod n 10 ltac:(done)); pose proof (N.mod_lt n 10 ltac:(done)); lia).
    intros E0. apply (f_equal digit_val) in E0. rewrite N.mod_small, pretty_char_val in E0 by done.
    change (digit_val "0"%byte) with 0 in E0. lia.
  - apply IH; [apply N.div_lt; lia|done].
Qed.

Lemma dec_head z : 0 < z → ∃ c r, bytes_of (dec z) = c :: r ∧ is_digit c = true ∧ c ≠ "0"%byte.
Proof.
  destruct z as [|p|p]; [lia| |lia]. intros _. unfold dec, pretty, pretty_Z, pretty, pretty_positive, pretty, pretty_N.
  rewrite decide_False by done. by apply pretty_go_head.
Qed.

Lemma digit_in_10 c : is_digit c = true → digit_in 10 c = Some (digit_val c) ∧ c ≠ "_"%byte ∧ c ≠ "-"%byte ∧ c ≠ "+"%byte.
Proof.
  intros Hc. pose proof (digit_val_range c Hc). unfold digit_in. rewrite Hc. rewrite (proj2 (Z.leb_gt _ _)) by lia.
  split; [done|]. split_and!; intros ->; discriminate Hc.
Qed.

Lemma uint_loop_digits l n : digits l → 0 <= n → text_val n l <= 2 ^ 64 - 1 → uint_loop 10 l n false = Some (text_val n l, false).
Proof.
  intros Hl. revert n. induction Hl as [|c l Hc Hl IH]; intros n Hn Hmax; [done|]. cbn [uint_loop text_val foldl] in *.
  destruct (digit_in_10 c Hc) as (-> & Hu & _). rewrite bool_decide_eq_false_2 by done.
  pose proof (digit_val_range c Hc). pose proof (text_val_mono l (n * 10 + digit_val c) Hl ltac:(lia)) as Hm.
  fold (text_val (n * 10 + digit_val c) l) in *. rewrite (proj2 (Z.ltb_ge _ _)) by lia. apply IH; lia.
Qed.

Lemma ParseUint0_dec z : 0 <= z <= 2 ^ 64 - 1 → ParseUint0 (bytes_of (dec z)) = Some z.
Proof.
  intros Hz. destruct (dec_val z (proj1 Hz)) as [Hv Hne]. unfold ParseUint0. rewrite bool_decide_eq_false_2 by done.
  destruct (decide (z = 0)) as [->|H0]; [vm_compute; reflexivity|].
  destruct (dec_head z) as (c & r & Hd & Hc & Hc0); [lia|].
  assert (base_prefix (bytes_of (dec z)) = (10, bytes_of (dec z))) as -> by (rewrite Hd; cbn; by rewrite bool_decide_eq_false_2).
  rewrite uint_loop_digits; [by rewrite Hv|apply dec_digits; lia|lia|lia].
Qed.

Lemma dec_neg z : z < 0 → dec z = "-" +:+ dec (- z).
Proof. by destruct z. Qed.

(** [ParseInt] reads back the decimal text of every int64. *)
Lemma ParseInt0_dec z : - 2 ^ 63 <= z < 2 ^ 63 → ParseInt0 (bytes_of (dec z)) = Some z.
Proof.
  intros Hz. unfold ParseInt0. destruct (Z.neg_nonneg_cases z) as [Hneg|Hpos].
  - rewrite (dec_neg z Hneg). change (bytes_of ("-" +:+ dec (- z))) with ("-"%byte :: bytes_of (dec (- z))).
    rewrite bool_decide_eq_false_2 by done. cbn [strip_sign]. rewrite bool_decide_eq_true_2 by done.
    rewrite ParseUint0_dec by lia. cbn [negb andb]. rewrite (proj2 (Z.ltb_ge _ _)) by lia. f_equal. lia.
  - destruct (dec_val z Hpos) as [_ Hne]. rewrite bool_decide_eq_false_2 by done.
    assert (strip_sign (bytes_of (dec z)) = (false, bytes_of (dec z))) as ->.
    { pose proof (dec_digits z Hpos) as Hd. destruct (bytes_of (dec z)) as [|c r]; [done|]. cbn [strip_sign].
      apply Forall_cons in Hd as [Hc _]. destruct (digit_in_10 c Hc) as (_ & _ & H1 & H2). by rewrite !bool_decide_eq_false_2. }
    rewrite ParseUint0_dec by lia. cbn [negb andb]. by rewrite (proj2 (Z.leb_gt _ _)) by lia.
Qed.

(** ** Arguments are read back *)

(** A name a flag can be given by. *)
Definition name_ok (n : string) : Prop :=
  ∃ c l, bytes_of n = c :: l ∧ c ≠ "-"%byte ∧ c ≠ "="%byte ∧ "="%byte ∉ l.

Definition dashes (two : bool) (n : string) : string := (if two then "--" else "-") +:+ n.

Definition dash_bytes (two : bool) : list byte := if two then ["-"%byte; "-"%byte] else ["-"%byte].

(** The forms of a flag with a value: one argument with an equals sign, or two. *)
Definition render_flag (two eq : bool) (n v : string) : list string :=
  if eq then [dashes two n +:+ "=" +:+ v] else [dashes two n; v].

Lemma cut_eq_some c l v : "="%byte ∉ l → cut_eq (c :: l ++ "="%byte :: v) = (c :: l, Some v).
Proof.
  intros Hl. unfold cut_eq. change (drop 1 (c :: l ++ "="%byte :: v)) with (l ++ "="%byte :: v).
  rewrite (find_first (λ x, x = "="%byte)); [| |done].
  - f_equal; [by rewrite firstn_cons, take_app_length|]. f_equal. rewrite skipn_cons.
    change (l ++ "="%byte :: v) with (l ++ ["="%byte] ++ v). rewrite (assoc_L (++)), drop_app_length'; [done|].
    rewrite length_app. cbn. lia.
  - apply Forall_forall. by intros x Hx ->.
Qed.

Lemma cut_eq_none c l : "="%byte ∉ l → cut_eq (c :: l) = (c :: l, None).
Proof.
  intros Hl. unfold cut_eq. change (drop 1 (c :: l)) with l. destruct (list_find _ l) as [[i x]|] eqn:E; [|done].
  apply list_find_Some in E as (Hx & -> & _). destruct Hl. by eapply list_elem_of_lookup_2.
Qed.

Lemma bytes_of_dashes two n : bytes_of (dashes two n) = dash_bytes two ++ bytes_of n.
Proof. unfold dashes. rewrite bytes_of_app. by destruct two. Qed.

Lemma arg_form_name two c l : c ≠ "-"%byte → c ≠ "="%byte →
  arg_form (dash_bytes two ++ c :: l) = FlagArg (cut_eq (c :: l)).1 (cut_eq (c :: l)).2.
Proof.
  intros H1 H2. destruct two; cbn [dash_bytes app arg_form]; rewrite (bool_decide_eq_true_2 ("-"%byte = _)) by done; cbn [negb].
  - rewrite (bool_decide_eq_false_2 (c :: l = [])), !(bool_decide_eq_false_2 (c = _)) by done. by destruct (cut_eq (c :: l)).
  - rewrite !(bool_decide_eq_false_2 (c = _)) by done. by destruct (cut_eq (c :: l)).
Qed.

Lemma arg_form_plain two n : name_ok n → arg_form (bytes_of (dashes two n)) = FlagArg (bytes_of n) None.
Proof.
  intros (c & l & E & H1 & H2 & Hl). rewrite bytes_of_dashes, E, arg_form_name by done. by rewrite cut_eq_none.
Qed.

Lemma arg_form_eq two n v : name_ok n →
  arg_form (bytes_of (dashes two n +:+ "=" +:+ v)) = FlagArg (bytes_of n) (Some (bytes_of v)).
Proof.
  intros (c & l & E & H1 & H2 & Hl). rewrite !bytes_of_app, bytes_of_dashes, E. change (bytes_of "=") with ["="%byte].
  rewrite <-(assoc_L (++)). cbn [app]. rewrite arg_form_name by done. by rewrite cut_eq_some.
Qed.

(** A defined flag with a value that parses is set, in any of its forms; a boolean flag
    takes its value only after an equals sign. *)
Lemma Parse_flag {C} (fs : list (flagDef C)) two eq n v args c d c' :
  name_ok n → lookup_flag fs n = Some d → flag_set d v c = Some c' → is_bool d = false ∨ eq = true →
  Parse fs (render_flag two eq n v ++ args) c = Parse fs args c'.
Proof.
  intros Hn Hd Hs Hb. destruct eq; cbn [render_flag app Parse].
  - rewrite arg_form_eq by done. rewrite !string_of_bytes_of, Hd. destruct (is_bool d); by rewrite Hs.
  - destruct Hb as [Hb|[=]]. rewrite arg_form_plain by done. by rewrite string_of_bytes_of, Hd, Hb, Hs.
Qed.

(** A boolean flag alone is true. *)
Lemma Parse_switch {C} (fs : list (flagDef C)) two n args c set :
  name_ok n → lookup_flag fs n = Some (BoolVar n set) → Parse fs (dashes two n :: args) c = Parse fs args (set true c).
Proof. intros Hn Hd. cbn [Parse]. rewrite arg_form_plain by done. by rewrite string_of_bytes_of, Hd. Qed.

(** Parsing stops at the first argument that is not a flag, whatever follows. *)
Lemma Parse_stops {C} (fs : list (flagDef C)) x rest c : arg_form (bytes_of x) = NotFlag → Parse fs (x :: rest) c = Ok (c, x :: rest).
Proof. intros H. cbn [Parse]. by rewrite H. Qed.

Example int_samples :
  ParseInt0 (bytes_of "0x_1F") = Some 31 ∧ ParseInt0 (bytes_of "-0b101") = Some (-5) ∧ ParseInt0 (bytes_of "017") = Some 15
  ∧ ParseInt0 (bytes_of "1__0") = None ∧ ParseInt0 (bytes_of "9223372036854775808") = None ∧ ParseInt0 (bytes_of "1_000") = Some 1000
  ∧ ParseInt0 (bytes_of "0x") = None ∧ ParseInt0 (bytes_of "08") = None.
Proof. vm_compute. done. Qed.
