(* ===== verification/IPPool.v ===== *)
(** * ippool.go: the per-client address pool

    [ipPool] hands out host addresses of one subnet: sticky by client id, then
    the preferred address, then the user's own reservations, then a walk of the
    subnet (IPv4) or hash-derived candidates (IPv6).  Each method holds [p.mu]
    throughout, so a method is one atomic function on the pool.  The two
    [map[netip.Addr]bool] fields only ever store [true], so they are sets. *)

From S2P Require Import Prelude Netip Sha256 Users.

Definition clientIDLen : nat := 16.
Abbreviation clientID := (vec byte 16).

Inductive poolError : Type :=
| EInvalidSubnet
| ETooSmall4 (bits : Z)
| ETooSmall6 (bits : Z)
| EExhausted
| ECollision
| OutOfFuel.             (* not a Go error: the bounded walk did not return *)

Record ipPool : Type := mkPool {
  subnet : Prefix;
  reserved : gset Addr;
  isV4 : bool;
  used : gset Addr;
  byClient : gmap clientID Addr
}.

(** ** Address arithmetic *)

(** The carry loop of [nextAddr], from the last byte to the first. *)
Fixpoint inc_bytes (l : list byte) : list byte :=
  match l with
  | [] => []
  | b :: l' =>
      let b' := z2b (b2z b + 1) in
      if negb (bool_decide (b' = x00)) then b' :: l' else b' :: inc_bytes l'
  end.

Definition nextAddr (a : Addr) : option Addr :=
  b ← As4 a;
  Some (AddrFrom4 (array_of 4 (reverse (inc_bytes (reverse (vec_to_list b)))))).

Definition broadcast4 (p : Prefix) : option Addr :=
  a ← As4 (pfx_addr p);
  let mask := Z.shiftr 0xFFFFFFFF (pfx_bits p) in
  let v := Z.lor (be_Z (vec_to_list a)) mask in
  Some (AddrFrom4 (array_of 4 [z2b (Z.shiftr v 24); z2b (Z.shiftr v 16); z2b (Z.shiftr v 8); z2b v])).

(** [out[15-i] = digest[i]] for [i] below [n]. *)
Fixpoint set_host_bytes (n : nat) (out digest : list byte) : list byte :=
  match n with
  | O => out
  | S i => <[(15 - i)%nat := default x00 (digest !! i)]> (set_host_bytes i out digest)
  end.

(** The sixteen bytes with the host bits taken from the digest (lines 211-224). *)
Definition v6_host_bytes (netBytes digest : list byte) (bits : Z) : list byte :=
  let fullHostBytes := Z.to_nat ((128 - bits) / 8) in
  let remainderBits := (128 - bits) mod 8 in
  let out := set_host_bytes fullHostBytes netBytes digest in
  if 0 <? remainderBits then
    let boundary := (15 - fullHostBytes)%nat in
    let hostMask := Z.shiftr 0xFF (8 - remainderBits) in
    <[boundary := z2b (Z.lor (Z.ldiff (b2z (default x00 (netBytes !! boundary))) hostMask)
                             (Z.land (b2z (default x00 (digest !! fullHostBytes))) hostMask))]> out
  else out.

Definition v6FromClientID (sn : Prefix) (id : clientID) (round : Z) : Addr :=
  let digest := sha256 (z2b round :: vec_to_list id) in
  let out := v6_host_bytes (vec_to_list (As16 (pfx_addr sn))) digest (pfx_bits sn) in
  let addr := AddrFrom16 (array_of 16 out) in
  if bool_decide (addr = pfx_addr sn)
  then AddrFrom16 (array_of 16 (<[15%nat := z2b (Z.lor (b2z (default x00 (out !! 15%nat))) 1)]> out))
  else addr.

(** ** Operations *)

Definition newIPPool (sn : Prefix) (res : list Addr) : result poolError ipPool :=
  if negb (pfx_IsValid sn) then Err EInvalidSubnet
  else
    let sn := Masked sn in
    let v4 := Is4 (pfx_addr sn) in
    if v4 && (30 <? pfx_bits sn) then Err (ETooSmall4 (pfx_bits sn))
    else if negb v4 && (126 <? pfx_bits sn) then Err (ETooSmall6 (pfx_bits sn))
    else
      let r0 : gset Addr := {[ pfx_addr sn ]} in
      let r1 := if v4 then match broadcast4 sn with Some b => Ok ({[b]} ∪ r0) | None => Panic end
                else Ok r0 in
      let? r1 := r1 in
      Ok (mkPool sn (r1 ∪ list_to_set (filter (λ r, IsValid r = true) res)) v4 ∅ ∅).

Definition familyMatch (p : ipPool) (a : Addr) : bool :=
  if negb (IsValid a) then false else if isV4 p then Is4 a else Is6 a.

(** [p.used[a] = true; p.byClient[clientID] = a]. *)
Definition take_addr (p : ipPool) (id : clientID) (a : Addr) : ipPool :=
  mkPool (subnet p) (reserved p) (isV4 p) ({[a]} ∪ used p) (<[id := a]> (byClient p)).

Definition otherUserReserved (db : option UserDB) (userName : string) (a : Addr) : bool :=
  match db with
  | None => false
  | Some _ =>
      let owner := ReservationOwner db a in
      negb (bool_decide (owner = EmptyString)) && negb (bool_decide (owner = userName))
  end.

(** The test of step 2 (lines 107-110). *)
Definition preferredOK (p : ipPool) (userName : string) (preferred : Addr) (db : option UserDB) : bool :=
  IsValid preferred && negb (IsUnspecified preferred) && familyMatch p preferred
  && Contains (subnet p) preferred && negb (bool_decide (preferred ∈ used p))
  && negb (otherUserReserved db userName preferred)
  && (negb (bool_decide (preferred ∈ reserved p))
      || match db with
         | None => false
         | Some _ => bool_decide (ReservationOwner db preferred = userName)
         end).

(** Step 3: the first free reservation of the user. *)
Definition own_reservation (p : ipPool) (rs : list Addr) : option Addr :=
  snd <$> list_find (λ r, familyMatch p r && Contains (subnet p) r
                          && negb (bool_decide (r ∈ used p)) = true) rs.

(** Step 4, IPv4: walk the subnet from the address after the network address. *)
Fixpoint walk4 (fuel : nat) (p : ipPool) (addr : option Addr) : result poolError Addr :=
  match fuel with
  | O => Err OutOfFuel
  | S fuel' =>
      match addr with
      | None => Panic
      | Some a =>
          if negb (Contains (subnet p) a) then Err EExhausted
          else if bool_decide (a ∈ reserved p) || bool_decide (a ∈ used p)
          then walk4 fuel' p (nextAddr a)
          else Ok a
      end
  end.

(** One step per address of the subnet: the walk leaves a subnet of [2^(32-bits)]
    addresses after that many steps. *)
Definition walk_fuel (p : ipPool) : nat := Z.to_nat (2 ^ (32 - pfx_bits (subnet p))).

(** Step 4, IPv6: at most [n] hash rounds starting at [round]. *)
Fixpoint hash6 (n : nat) (p : ipPool) (id : clientID) (round : Z) : result poolError Addr :=
  match n with
  | O => Err ECollision
  | S n' =>
      let candidate := v6FromClientID (subnet p) id round in
      if bool_decide (candidate ∈ reserved p) || bool_decide (candidate ∈ used p)
      then hash6 n' p id (round + 1)
      else Ok candidate
  end.

Definition pool_search (p : ipPool) (id : clientID) : result poolError Addr :=
  if isV4 p then walk4 (walk_fuel p) p (nextAddr (pfx_addr (subnet p)))
  else hash6 8 p id 0.

Definition AllocateFor (p : ipPool) (userName : string) (id : clientID) (preferred : Addr)
    (db : option UserDB) : result poolError (Addr * ipPool) :=
  match byClient p !! id with
  | Some cur => Ok (cur, p)
  | None =>
      if preferredOK p userName preferred db then Ok (preferred, take_addr p id preferred)
      else
        let own := match db with
                   | Some _ => if bool_decide (userName = EmptyString) then None
                               else own_reservation p (ReservedFor db userName)
                   | None => None
                   end in
        match own with
        | Some r => Ok (r, take_addr p id r)
        | None => let? a := pool_search p id in Ok (a, take_addr p id a)
        end
  end.

Definition Allocate (p : ipPool) (id : clientID) (preferred : Addr) : result poolError (Addr * ipPool) :=
  AllocateFor p EmptyString id preferred None.

Definition Claim (p : ipPool) (id : clientID) (a : Addr) : ipPool :=
  if negb (IsValid a) then p
  else if isV4 p && negb (Is4 a) then p
  else if negb (isV4 p) && negb (Is6 a) then p
  else take_addr p id a.

Definition Release (p : ipPool) (id : clientID) : ipPool :=
  match byClient p !! id with
  | Some a => mkPool (subnet p) (reserved p) (isV4 p) (used p ∖ {[a]}) (delete id (byClient p))
  | None => p
  end.

(** ** Well-formed pools *)

(** The subnet is a masked prefix of the pool's family, large enough, with its
    network and broadcast addresses reserved. *)
Record subnet_wf (p : ipPool) : Prop := {
  sw_prefix : prefix_wf (subnet p);
  sw_valid : pfx_IsValid (subnet p) = true;
  sw_masked : addr_Z (pfx_addr (subnet p)) mod 2 ^ (BitLen (pfx_addr (subnet p)) - pfx_bits (subnet p)) = 0;
  sw_v4 : isV4 p = Is4 (pfx_addr (subnet p));
  sw_bits : pfx_bits (subnet p) <= BitLen (pfx_addr (subnet p)) - 2;
  sw_net : pfx_addr (subnet p) ∈ reserved p;
  sw_bcast b : isV4 p = true → broadcast4 (subnet p) = Some b → b ∈ reserved p
}.

(** Ownership: every client's address is in use and in the subnet, no address
    has two owners, and every address in use has an owner. *)
Record owners_wf (p : ipPool) : Prop := {
  ow_used c a : byClient p !! c = Some a → a ∈ used p ∧ Contains (subnet p) a = true;
  ow_inj c c' a : byClient p !! c = Some a → byClient p !! c' = Some a → c = c';
  ow_owned a : a ∈ used p → ∃ c, byClient p !! c = Some a
}.

Definition pool_wf (p : ipPool) : Prop := subnet_wf p ∧ owners_wf p.

(** ** [nextAddr] adds one *)

Lemma length_inc_bytes l : length (inc_bytes l) = length l.
Proof. induction l as [|b l IH]; [done|]. simpl. by case_match; simpl; rewrite ?IH. Qed.

Lemma be_Z_reverse_cons b l : be_Z (reverse (b :: l)) = be_Z (reverse l) * 256 + b2z b.
Proof. rewrite reverse_cons, be_Z_app. simpl. lia. Qed.

Lemma inc_bytes_spec l :
  be_Z (reverse (inc_bytes l)) = (be_Z (reverse l) + 1) mod 2 ^ (8 * Z.of_nat (length l)).
Proof.
  induction l as [|b l IH]; [done|]. cbn [inc_bytes length].
  replace (8 * Z.of_nat (S (length l))) with (8 * Z.of_nat (length l) + 8) by lia.
  rewrite Z.pow_add_r by lia. change (2 ^ 8) with 256.
  pose proof (b2z_range b). pose proof (be_Z_range (reverse l)) as Hr.
  rewrite length_reverse in Hr.
  destruct (decide (b2z b = 255)) as [E|E].
  - assert (z2b (b2z b + 1) = x00) as -> by (rewrite E; done).
    rewrite bool_decide_eq_true_2 by done. cbn [negb].
    rewrite !be_Z_reverse_cons, IH, E. change (b2z x00) with 0.
    rewrite <-Z.mul_mod_distr_r by lia. rewrite Z.add_0_r. f_equal. lia.
  - assert (b2z (z2b (b2z b + 1)) = b2z b + 1) as Hb by (apply b2z_z2b_small; lia).
    rewrite bool_decide_eq_false_2 by (intros E'; rewrite E' in Hb; change (b2z x00) with 0 in Hb; lia).
    cbn [negb]. rewrite !be_Z_reverse_cons, Hb, Z.mod_small; nia.
Qed.

(** [nextAddr] of an IPv4 address is the next address, wrapping at the top. *)
Lemma nextAddr_spec b :
  ∃ b', nextAddr (Addr4 b) = Some (Addr4 b') ∧
        addr_Z (Addr4 b') = (addr_Z (Addr4 b) + 1) mod 2 ^ 32.
Proof.
  eexists. split; [reflexivity|]. unfold addr_Z, AsSlice.
  rewrite vec_to_list_array_of, inc_bytes_spec by
    (by rewrite length_reverse, length_inc_bytes, length_reverse, length_vec_to_list).
  by rewrite reverse_involutive, length_reverse, length_vec_to_list.
Qed.

(** ** The hash-derived candidate stays in the subnet *)

Lemma set_host_bytes_spec n out digest :
  length out = 16%nat → (n <= 16)%nat → (n <= length digest)%nat →
  set_host_bytes n out digest = take (16 - n) out ++ reverse (take n digest).
Proof.
  intros Hout. induction n as [|n IH]; intros Hn Hd; cbn [set_host_bytes].
  { rewrite take_ge by lia. cbn. by rewrite app_nil_r. }
  rewrite IH by lia. destruct (lookup_lt_is_Some_2 digest n) as [d Hd']; [lia|]. rewrite Hd'.
  destruct (lookup_lt_is_Some_2 out (15 - n)) as [o Ho]; [lia|].
  replace (16 - n)%nat with (S (15 - n)) by lia. rewrite (take_S_r out _ o Ho).
  rewrite (take_S_r digest _ d Hd'), reverse_app. cbn [reverse rev_append default from_option].
  replace (16 - S n)%nat with (15 - n)%nat by lia.
  rewrite <-app_assoc. rewrite insert_app_r_alt by (rewrite length_take; lia).
  rewrite length_take, Nat.min_l, Nat.sub_diag by lia. done.
Qed.

(** Replacing the low [r] bits of a byte keeps the high ones. *)
Lemma mask_byte_div n d r :
  0 <= r <= 8 →
  Z.lor (Z.ldiff n (Z.shiftr 0xFF (8 - r))) (Z.land d (Z.shiftr 0xFF (8 - r))) / 2 ^ r = n / 2 ^ r.
Proof.
  intros Hr. assert (Z.shiftr 0xFF (8 - r) = Z.ones r) as ->.
  { assert (r = 0 ∨ r = 1 ∨ r = 2 ∨ r = 3 ∨ r = 4 ∨ r = 5 ∨ r = 6 ∨ r = 7 ∨ r = 8) as Hc by lia.
    destruct_or!; subst; reflexivity. }
  rewrite <-!Z.shiftr_div_pow2 by lia. apply Z.bits_inj'. intros i Hi.
  rewrite !Z.shiftr_spec, Z.lor_spec, Z.ldiff_spec, Z.land_spec, Z.ones_spec_high by lia.
  simpl. by rewrite andb_true_r, andb_false_r, orb_false_r.
Qed.

Lemma mask_byte_range n d r :
  0 <= n < 256 → 0 <= d < 256 → 0 <= r <= 8 →
  0 <= Z.lor (Z.ldiff n (Z.shiftr 0xFF (8 - r))) (Z.land d (Z.shiftr 0xFF (8 - r))) < 256.
Proof.
  intros Hn Hd Hr.
  pose proof (mask_byte_div n d r Hr) as Hdiv.
  assert (∀ x, 0 <= x → x / 2 ^ 8 = 0 → 0 <= x < 256) as Hx.
  { intros x H0 H1. split; [done|]. apply Z.div_small_iff in H1; lia. }
  apply Hx.
  - apply Z.lor_nonneg. split; [apply Z.ldiff_nonneg|apply Z.land_nonneg]; lia.
  - replace 8 with (r + (8 - r)) at 3 by lia. rewrite Z.pow_add_r by lia.
    rewrite <-Z.div_div, Hdiv, Z.div_div, <-Z.pow_add_r by lia.
    apply Z.div_small. replace (r + (8 - r)) with 8 by lia. lia.
Qed.

Section host_bytes.
Context (net digest : list byte) (bits : Z).
Context (Hnet : length net = 16%nat) (Hdig : length digest = 32%nat) (Hbits : 0 <= bits <= 128).

Let full : nat := Z.to_nat ((128 - bits) / 8).
Let r : Z := (128 - bits) mod 8.

Lemma host_split : 128 - bits = 8 * Z.of_nat full + r ∧ 0 <= r < 8 ∧ (full <= 16)%nat.
Proof.
  unfold full, r. pose proof (Z.div_mod (128 - bits) 8). pose proof (Z.mod_pos_bound (128 - bits) 8).
  pose proof (Z.div_pos (128 - bits) 8). lia.
Qed.

(** The network part, split around the byte the prefix ends in. *)
Lemma net_split : (full <= 15)%nat →
  ∃ b, net !! (15 - full)%nat = Some b ∧
       net = take (15 - full) net ++ b :: drop (16 - full) net.
Proof.
  intros Hf. destruct (lookup_lt_is_Some_2 net (15 - full)) as [b Hb]; [lia|].
  exists b. split; [done|]. rewrite <-(take_drop_middle _ _ _ Hb) at 1.
  by replace (S (15 - full)) with (16 - full)%nat by lia.
Qed.

Lemma v6_host_bytes_eq :
  v6_host_bytes net digest bits =
  if 0 <? r then
    take (15 - full) net ++
    z2b (Z.lor (Z.ldiff (b2z (default x00 (net !! (15 - full)%nat))) (Z.shiftr 0xFF (8 - r)))
               (Z.land (b2z (default x00 (digest !! full))) (Z.shiftr 0xFF (8 - r))))
      :: reverse (take full digest)
  else take (16 - full) net ++ reverse (take full digest).
Proof.
  destruct host_split as (Hh & Hr & Hf).
  unfold v6_host_bytes. fold full r. rewrite set_host_bytes_spec by lia.
  destruct (0 <? r) eqn:Er; [|done]. bool_to_prop.
  destruct (net_split ltac:(lia)) as (b & Hb & _).
  replace (16 - full)%nat with (S (15 - full)) by lia. rewrite (take_S_r net _ b Hb), <-app_assoc.
  rewrite insert_app_r_alt by (rewrite length_take; lia).
  rewrite length_take, Nat.min_l, Nat.sub_diag by lia. done.
Qed.

Lemma length_v6_host_bytes : length (v6_host_bytes net digest bits) = 16%nat.
Proof.
  destruct host_split as (Hh & Hr & Hf). rewrite v6_host_bytes_eq.
  destruct (0 <? r) eqn:Er; bool_to_prop; rewrite length_app; simpl;
    rewrite length_reverse, !length_take; lia.
Qed.

(** The network bits are those of the subnet. *)
Lemma v6_host_bytes_net :
  be_Z (v6_host_bytes net digest bits) / 2 ^ (128 - bits) = be_Z net / 2 ^ (128 - bits).
Proof.
  destruct host_split as (Hh & Hr & Hf).
  rewrite v6_host_bytes_eq, Hh, Z.pow_add_r, <-!Z.div_div by lia.
  assert (∀ hi lo, length lo = full →
    be_Z (hi ++ lo) / 2 ^ (8 * Z.of_nat full) = be_Z hi) as Hdiv.
  { intros hi lo Hl. rewrite be_Z_app, Hl. pose proof (be_Z_range lo) as Hlo. rewrite Hl in Hlo.
    rewrite Z.div_add_l, Z.div_small by lia. lia. }
  destruct (0 <? r) eqn:Er; bool_to_prop.
  - destruct (net_split ltac:(lia)) as (b & Hb & Hnet').
    rewrite Hnet' at 3. rewrite Hb. cbn [default from_option].
    rewrite !(cons_middle _ (take (15 - full) net)), !(app_assoc (take (15 - full) net)).
    rewrite !Hdiv by (rewrite ?length_reverse, ?length_take, ?length_drop; lia).
    rewrite !be_Z_app. cbn [length be_Z]. change (2 ^ (8 * Z.of_nat 0)) with 1.
    change (2 ^ (8 * Z.of_nat 1)) with (2 ^ 8). rewrite !Z.mul_1_r, !Z.add_0_r.
    rewrite b2z_z2b_small by (apply mask_byte_range; [apply b2z_range..|lia]).
    assert (2 ^ 8 = 2 ^ (8 - r) * 2 ^ r) as -> by (rewrite <-Z.pow_add_r by lia; f_equal; lia).
    rewrite !Z.mul_assoc, !Z.div_add_l by lia.
    by rewrite mask_byte_div by lia.
  - rewrite <-(take_drop (16 - full) net) at 2.
    rewrite !Hdiv by (rewrite ?length_reverse, ?length_take, ?length_drop; lia). done.
Qed.
End host_bytes.

Lemma or_one_even b : Z.even (b2z b) = true → b2z (z2b (Z.lor (b2z b) 1)) = b2z b + 1.
Proof. destruct b; vm_compute; congruence. Qed.

(** Setting the last bit of an even sixteen-byte number adds one. *)
Lemma set_last_bit net :
  length net = 16%nat → be_Z net mod 2 = 0 →
  let out := <[15%nat := z2b (Z.lor (b2z (default x00 (net !! 15%nat))) 1)]> net in
  length out = 16%nat ∧ be_Z out = be_Z net + 1.
Proof.
  intros Hl He out. split; [subst out; by rewrite length_insert|].
  destruct (lookup_lt_is_Some_2 net 15) as [b Hb]; [lia|].
  pose proof (take_drop_middle _ _ _ Hb) as Hn. rewrite (drop_ge net 16) in Hn by lia.
  subst out. rewrite Hb. cbn [default from_option].
  assert (∀ c, <[15%nat := c]> net = take 15 net ++ [c]) as Hi.
  { intros c. rewrite <-Hn at 1. rewrite insert_app_r_alt by (rewrite length_take; lia).
    rewrite length_take, Nat.min_l, Nat.sub_diag by lia. done. }
  rewrite Hi. rewrite <-Hn in He |- * at 2. rewrite !be_Z_app in *. simpl in *.
  change (2 ^ (8 * Z.of_nat 1)) with 256 in *. change (2 ^ (8 * Z.of_nat 0)) with 1 in *.
  rewrite or_one_even; [lia|]. rewrite Zeven_mod.
  apply Z.eqb_eq.
  rewrite <-He. replace (be_Z (take 15 net) * 256 + (b2z b * 1 + 0))
    with (b2z b + be_Z (take 15 net) * 128 * 2) by lia. by rewrite Z.mod_add by lia.
Qed.

Lemma v6FromClientID_spec sn id round :
  prefix_wf sn → pfx_IsValid sn = true → Is6 (pfx_addr sn) = true → pfx_bits sn <= 126 →
  addr_Z (pfx_addr sn) mod 2 ^ (128 - pfx_bits sn) = 0 →
  Contains sn (v6FromClientID sn id round) = true ∧ v6FromClientID sn id round ≠ pfx_addr sn.
Proof.
  intros Hwf Hv H6 Hb Hm. pose proof (Hwf Hv) as (_ & Hz & _).
  rewrite (Contains_spec _ _ Hwf). assert (0 <= pfx_bits sn) as Hv0 by by apply Z.leb_le.
  destruct (pfx_addr sn) as [| |nb z] eqn:Ha; try done. simpl in Hz. bool_to_prop. subst z.
  unfold v6FromClientID. rewrite Ha. cbn [As16].
  set (dig := sha256 _). assert (length dig = 32%nat) as Hd by apply length_sha256.
  pose proof (length_vec_to_list nb) as Hn.
  pose proof (length_v6_host_bytes _ dig (pfx_bits sn) Hn Hd ltac:(lia)) as Hl.
  pose proof (v6_host_bytes_net _ dig (pfx_bits sn) Hn Hd ltac:(lia)) as Hq.
  set (out := v6_host_bytes _ _ _) in *. unfold addr_Z in Hm. cbn [AsSlice] in Hm.
  case_bool_decide as Heq.
  - assert (out = vec_to_list nb) as Ho.
    { injection Heq as Heq. rewrite <-Heq. by rewrite vec_to_list_array_of. }
    rewrite Ho. clear Heq Ho Hl Hq.
    assert (be_Z (vec_to_list nb) mod 2 = 0) as Hev.
    { replace (128 - pfx_bits sn) with (1 + (127 - pfx_bits sn)) in Hm by lia.
      rewrite Z.pow_add_r in Hm by lia. rewrite Z.rem_mul_r in Hm by lia.
      pose proof (Z.mod_pos_bound (be_Z (vec_to_list nb)) 2).
      pose proof (Z.mod_pos_bound (be_Z (vec_to_list nb) / 2 ^ 1) (2 ^ (127 - pfx_bits sn))).
      change (2 ^ 1) with 2 in *. nia. }
    destruct (set_last_bit _ Hn Hev) as [Hl' Hval]. set (out' := <[15%nat := _]> _) in *.
    assert (addr_Z (AddrFrom16 (array_of 16 out')) = be_Z (vec_to_list nb) + 1) as HZ.
    { unfold addr_Z. cbn [AsSlice AddrFrom16]. by rewrite vec_to_list_array_of. }
    split; [split_and!; [done..|]|intros E; rewrite E in HZ; unfold addr_Z in HZ; cbn [AsSlice] in HZ; lia].
    rewrite HZ. cbn [BitLen AddrFrom16]. unfold addr_Z. cbn [AsSlice].
    pose proof (Z.pow_le_mono_r 2 2 (128 - pfx_bits sn)).
    pose proof (Z.div_mod (be_Z (vec_to_list nb)) (2 ^ (128 - pfx_bits sn))).
    symmetry. apply Z.div_unique with 1; lia.
  - split; [|done]. split_and!; [done..|]. unfold addr_Z. cbn [AsSlice AddrFrom16 BitLen].
    by rewrite vec_to_list_array_of.
Qed.

(** ** The IPv4 walk *)

(** An address the general pool may hand out. *)
Definition free (p : ipPool) (a : Addr) : Prop :=
  Contains (subnet p) a = true ∧ a ∉ reserved p ∧ a ∉ used p.

Section walk.
Context (p : ipPool) (Hwf : subnet_wf p) (Hv4 : isV4 p = true).

Let N : Z := addr_Z (pfx_addr (subnet p)).
Let h : Z := 32 - pfx_bits (subnet p).

Lemma subnet_v4 : ∃ b, pfx_addr (subnet p) = Addr4 b.
Proof.
  pose proof (sw_v4 _ Hwf) as H. rewrite Hv4 in H.
  destruct (pfx_addr (subnet p)); try done. eauto.
Qed.

Lemma subnet_bounds : 0 <= pfx_bits (subnet p) ∧ 2 <= h ∧ 0 <= N ∧ N mod 2 ^ h = 0 ∧ N + 2 ^ h <= 2 ^ 32.
Proof.
  destruct subnet_v4 as [b Hb].
  pose proof (sw_masked _ Hwf) as Hm. pose proof (sw_bits _ Hwf) as Hbits.
  pose proof (sw_valid _ Hwf) as Hv. apply Z.leb_le in Hv.
  pose proof (addr_Z_range (pfx_addr (subnet p))) as Hr. fold N in Hm, Hr.
  rewrite Hb in Hm, Hbits, Hr. cbn [BitLen] in *. fold h in Hm.
  split_and!; [done|unfold h; lia|lia|done|].
  pose proof (Z.div_mod N (2 ^ h)). assert (0 < 2 ^ h) by (apply Z.pow_pos_nonneg; unfold h; lia).
  assert (2 ^ 32 = 2 ^ (32 - h) * 2 ^ h) as Hp by (rewrite <-Z.pow_add_r by (unfold h; lia); f_equal; lia).
  assert (N / 2 ^ h < 2 ^ (32 - h)) by (apply Z.div_lt_upper_bound; lia). nia.
Qed.

Lemma contains4 b :
  Contains (subnet p) (Addr4 b) = true ↔ N <= addr_Z (Addr4 b) < N + 2 ^ h.
Proof.
  destruct subnet_v4 as [nb Hnb]. destruct subnet_bounds as (_ & Hh & HN & Hm & Htop).
  rewrite (Contains_spec _ _ (sw_prefix _ Hwf)), Hnb. cbn [BitLen hasZone]. rewrite <-Hnb.
  fold N h. assert (0 < 2 ^ h) by (apply Z.pow_pos_nonneg; lia).
  pose proof (Z.div_mod N (2 ^ h) ltac:(lia)) as Hd.
  pose proof (Z.div_mod (addr_Z (Addr4 b)) (2 ^ h) ltac:(lia)) as Hd'.
  pose proof (Z.mod_pos_bound (addr_Z (Addr4 b)) (2 ^ h) ltac:(lia)). split.
  - intros (_ & _ & _ & E). rewrite E in Hd'. lia.
  - intros Hr. split_and!; [by apply (sw_valid _ Hwf)|done|done|].
    symmetry. apply Z.div_unique with (addr_Z (Addr4 b) - N); [lia|].
    lia.
Qed.

Lemma contains_v4 a : Contains (subnet p) a = true → ∃ b, a = Addr4 b.
Proof.
  intros (_ & _ & HB & _)%(Contains_spec _ _ (sw_prefix _ Hwf)).
  destruct subnet_v4 as [nb Hnb]. rewrite Hnb in HB. destruct a; simpl in HB; try done. eauto.
Qed.

Context (Hbits : 1 <= pfx_bits (subnet p)).

(** The walk returns the lowest free address from [v] on, or reports
    exhaustion when there is none; the fuel covers the rest of the subnet. *)
Lemma walk4_spec fuel b v :
  addr_Z (Addr4 b) = v mod 2 ^ 32 → N < v <= N + 2 ^ h → N + 2 ^ h - v < Z.of_nat fuel →
  (∃ a, walk4 fuel p (Some (Addr4 b)) = Ok a ∧ free p a ∧ v <= addr_Z a ∧
        ∀ a', free p a' → v <= addr_Z a' → addr_Z a <= addr_Z a') ∨
  (walk4 fuel p (Some (Addr4 b)) = Err EExhausted ∧ ∀ a', free p a' → addr_Z a' < v).
Proof.
  destruct subnet_bounds as (Hb0 & Hh & HN & Hm & Htop).
  revert b v. induction fuel as [|fuel IH]; intros b v Hv Hr Hf; [lia|]. cbn [walk4].
  destruct (decide (v = N + 2 ^ h)) as [->|Hne].
  - right. destruct (Contains (subnet p) (Addr4 b)) eqn:Hc; cbn [negb].
    + apply contains4 in Hc. rewrite Hv in Hc.
      destruct (decide (N + 2 ^ h = 2 ^ 32)) as [E|E].
      * rewrite E, Z.mod_same in Hc by lia. assert (N = 0) as E0 by lia.
        assert (2 ^ h < 2 ^ 32) by (apply Z.pow_lt_mono_r; unfold h; lia). lia.
      * rewrite Z.mod_small in Hc by lia. lia.
    + split; [done|]. intros a' (Hc' & _ & _). destruct (contains_v4 _ Hc') as [b' ->].
      apply contains4 in Hc'. lia.
  - assert (addr_Z (Addr4 b) = v) as Hv' by (rewrite Hv; apply Z.mod_small; lia).
    assert (Contains (subnet p) (Addr4 b) = true) as Hc by (apply contains4; lia).
    rewrite Hc. cbn [negb].
    destruct (bool_decide (Addr4 b ∈ reserved p) || bool_decide (Addr4 b ∈ used p)) eqn:Hres.
    + assert (∀ a', free p a' → v <= addr_Z a' → v + 1 <= addr_Z a') as Hnext.
      { intros a' Hfa Hle. destruct (decide (addr_Z a' = v)) as [E|]; [|lia].
        destruct Hfa as (Hc' & Hnr & Hnu). destruct (contains_v4 _ Hc') as [b' ->].
        assert (Addr4 b' = Addr4 b) as Heq by (apply addr_Z_inj; [done..|congruence]).
        rewrite Heq in *. apply orb_true_iff in Hres as [?|?]; bool_to_prop; done. }
      destruct (nextAddr_spec b) as (b' & -> & Hb'). rewrite Hv' in Hb'.
      destruct (IH b' (v + 1) Hb' ltac:(lia) ltac:(lia)) as [(a & -> & Hfa & Hle & Hmin)|[-> Hno]].
      * left. exists a. split_and!; [done..|lia|]. intros a' Hfa' Hle'. apply Hmin; auto.
      * right. split; [done|]. intros a' Hfa'. specialize (Hno a' Hfa').
        destruct (Z.lt_ge_cases (addr_Z a') v); [done|]. specialize (Hnext a' Hfa'). lia.
    + left. exists (Addr4 b). bool_to_prop.
      split; [done|]. split; [done|]. split; [lia|]. intros a' _ ?. lia.
Qed.

(** The whole search: the lowest free address, or none is free. *)
Lemma pool_search4_spec id :
  (∃ a, pool_search p id = Ok a ∧ free p a ∧ ∀ a', free p a' → addr_Z a <= addr_Z a') ∨
  (pool_search p id = Err EExhausted ∧ ∀ a', ¬ free p a').
Proof.
  destruct subnet_bounds as (Hb0 & Hh & HN & Hm & Htop). destruct subnet_v4 as [b Hb].
  assert (∀ a', free p a' → N + 1 <= addr_Z a') as Hge.
  { intros a' (Hc & Hnr & _). destruct (contains_v4 _ Hc) as [b' ->].
    apply contains4 in Hc. destruct (decide (addr_Z (Addr4 b') = N)) as [E|]; [|lia].
    destruct Hnr. assert (Addr4 b' = pfx_addr (subnet p)) as ->; [|apply (sw_net _ Hwf)].
    rewrite Hb. apply addr_Z_inj; [done..|]. unfold N in E. by rewrite Hb in E. }
  unfold pool_search. rewrite Hv4, Hb. destruct (nextAddr_spec b) as (b' & -> & Hb').
  unfold walk_fuel. fold h.
  assert (addr_Z (Addr4 b') = (N + 1) mod 2 ^ 32) as Hb'' by (unfold N; by rewrite Hb).
  assert (2 ^ 2 <= 2 ^ h) by (apply Z.pow_le_mono_r; lia).
  destruct (walk4_spec (Z.to_nat (2 ^ h)) b' (N + 1) Hb'' ltac:(lia) ltac:(lia))
    as [(a & -> & Hfa & _ & Hmin)|[-> Hno]]; [left|right].
  - exists a. split_and!; auto.
  - split; [done|]. intros a' Hfa. specialize (Hno a' Hfa). specialize (Hge a' Hfa). lia.
Qed.
End walk.

(** ** What the operations return *)

Lemma walk4_free fuel p addr a : walk4 fuel p addr = Ok a → free p a.
Proof.
  revert addr. induction fuel as [|fuel IH]; intros addr; [done|]. simpl.
  destruct addr as [b|]; [|done].
  destruct (Contains (subnet p) b) eqn:Hc; [|done]. simpl.
  destruct (bool_decide (b ∈ reserved p) || bool_decide (b ∈ used p)) eqn:E; [apply IH|].
  intros [= <-]. bool_to_prop. by split_and!.
Qed.

Lemma subnet_v6 p :
  subnet_wf p → isV4 p = false →
  Is6 (pfx_addr (subnet p)) = true ∧ BitLen (pfx_addr (subnet p)) = 128.
Proof.
  intros Hwf H4. rewrite (sw_v4 _ Hwf) in H4.
  destruct (sw_prefix _ Hwf (sw_valid _ Hwf)) as (Hv & _ & _).
  by destruct (pfx_addr (subnet p)).
Qed.

Lemma hash6_spec n p id round :
  subnet_wf p → isV4 p = false →
  match hash6 n p id round with
  | Ok a => free p a
  | Err e => e = ECollision
  | Panic => False
  end.
Proof.
  intros Hwf H4. destruct (subnet_v6 p Hwf H4) as [H6 HB].
  revert round. induction n as [|n IH]; intros round; simpl; [done|].
  destruct (bool_decide _ || bool_decide _) eqn:E; [apply IH|]. bool_to_prop.
  split; [|by split].
  pose proof (sw_masked _ Hwf) as Hm. pose proof (sw_bits _ Hwf) as Hb. rewrite HB in Hm, Hb.
  apply v6FromClientID_spec; [apply Hwf|apply Hwf|done|lia|done].
Qed.

Lemma pool_search_free p id a : subnet_wf p → pool_search p id = Ok a → free p a.
Proof.
  intros Hwf. unfold pool_search. destruct (isV4 p) eqn:H4; [apply walk4_free|].
  intros H. pose proof (hash6_spec 8 p id 0 Hwf H4) as Hs. by rewrite H in Hs.
Qed.

Lemma own_reservation_spec p rs r :
  own_reservation p rs = Some r → r ∈ rs ∧ Contains (subnet p) r = true ∧ r ∉ used p.
Proof.
  unfold own_reservation. rewrite fmap_Some. intros ([i x] & Hf & ->).
  apply list_find_Some in Hf as (Hx & Ht & _). bool_to_prop.
  split_and!; [by eapply list_elem_of_lookup_2|done..].
Qed.

Lemma preferredOK_spec p user a db :
  preferredOK p user a db = true →
  Contains (subnet p) a = true ∧ a ∉ used p ∧ otherUserReserved db user a = false ∧
  (a ∈ reserved p → ∃ d, db = Some d ∧ ReservationOwner db a = user).
Proof.
  unfold preferredOK. intros H. bool_to_prop. split_and!; [done..|].
  intros Hr. destruct_or!; bool_to_prop; [done|]. destruct db; [|done]. bool_to_prop. eauto.
Qed.

(** How a granted address was chosen. *)
Inductive granted (p : ipPool) (user : string) (id : clientID) (preferred : Addr)
    (db : option UserDB) : Addr → Prop :=
| by_preference : preferredOK p user preferred db = true → granted p user id preferred db preferred
| by_reservation a : is_Some db → user ≠ EmptyString → a ∈ ReservedFor db user →
    Contains (subnet p) a = true → a ∉ used p → granted p user id preferred db a
| by_search a : pool_search p id = Ok a → free p a → granted p user id preferred db a.

(** The shape of every successful allocation: the sticky address and an
    unchanged pool, or a fresh address of the subnet recorded for the client. *)
Lemma AllocateFor_Ok p user id pref db a p' :
  subnet_wf p → AllocateFor p user id pref db = Ok (a, p') →
  (byClient p !! id = Some a ∧ p' = p) ∨
  (byClient p !! id = None ∧ p' = take_addr p id a ∧ granted p user id pref db a ∧
   Contains (subnet p) a = true ∧ a ∉ used p).
Proof.
  intros Hwf. unfold AllocateFor. destruct (byClient p !! id) as [cur|] eqn:Hcur.
  { intros [= <- <-]. by left. }
  destruct (preferredOK p user pref db) eqn:Hp.
  { intros [= <- <-]. right. destruct (preferredOK_spec _ _ _ _ Hp) as (? & ? & _).
    split_and!; try done; by constructor. }
  destruct (match db with Some _ => _ | None => None end) as [r|] eqn:Hown.
  { intros [= <- <-]. right. destruct db as [d|]; [|done].
    case_bool_decide as Hu; [done|]. apply own_reservation_spec in Hown as (? & ? & ?).
    split_and!; try done; by apply by_reservation. }
  destruct (pool_search p id) as [b| |] eqn:Hs; simpl; [|done..]. intros [= <- <-].
  pose proof (pool_search_free p id b Hwf Hs) as Hf. right.
  split_and!; try done; [by apply by_search|apply Hf..].
Qed.

(** ** Preservation of the ownership invariant *)

Lemma subnet_wf_same p q :
  subnet q = subnet p → reserved q = reserved p → isV4 q = isV4 p → subnet_wf p → subnet_wf q.
Proof.
  intros E1 E2 E3 H. destruct H. split; rewrite ?E1, ?E2, ?E3; auto.
Qed.

Lemma take_addr_wf p id a :
  pool_wf p → byClient p !! id = None → Contains (subnet p) a = true → a ∉ used p →
  pool_wf (take_addr p id a).
Proof.
  intros [Hs Ho] Hid Hc Hu. split; [by apply (subnet_wf_same p)|].
  assert (∀ c, byClient p !! c ≠ Some a) as Hna by (intros c [? _]%(ow_used _ Ho); done).
  split; simpl.
  - intros c b [[_ <-]|[_ Hb]]%lookup_insert_Some; [set_solver|].
    apply (ow_used _ Ho) in Hb as [? ?]. set_solver.
  - intros c c' b [[<- <-]|[Hn Hb]]%lookup_insert_Some [[<- E]|[Hn' Hb']]%lookup_insert_Some;
      [done| | |by eapply (ow_inj _ Ho)]; [by destruct (Hna c')|subst b; by destruct (Hna c)].
  - intros b [->%elem_of_singleton|Hb]%elem_of_union; [exists id; by rewrite lookup_insert_eq|].
    destruct (ow_owned _ Ho b Hb) as [c Hc']. exists c. rewrite lookup_insert_ne; [done|]. congruence.
Qed.

Lemma Release_wf p id : pool_wf p → pool_wf (Release p id).
Proof.
  intros [Hs Ho]. unfold Release. destruct (byClient p !! id) as [a|] eqn:Ha; [|by split].
  split; [by apply (subnet_wf_same p)|]. split; simpl.
  - intros c b [Hn Hb]%lookup_delete_Some. destruct (ow_used _ Ho _ _ Hb). split; [|done].
    apply elem_of_difference. split; [done|]. intros ->%elem_of_singleton.
    by destruct Hn; eapply (ow_inj _ Ho).
  - intros c c' b [_ Hb]%lookup_delete_Some [_ Hb']%lookup_delete_Some. by eapply (ow_inj _ Ho).
  - intros b [Hb Hn]%elem_of_difference. destruct (ow_owned _ Ho b Hb) as [c Hc].
    exists c. apply lookup_delete_Some. set_solver.
Qed.

Lemma AllocateFor_wf p user id pref db a p' :
  pool_wf p → AllocateFor p user id pref db = Ok (a, p') → pool_wf p'.
Proof.
  intros Hwf H. destruct (AllocateFor_Ok _ _ _ _ _ _ _ (proj1 Hwf) H)
    as [[_ ->]|(Hid & -> & _ & Hc & Hu)]; [done|]. by apply take_addr_wf.
Qed.

Lemma take_addr_own p id a :
  owners_wf p → byClient p !! id = Some a → take_addr p id a = p.
Proof.
  intros Ho Ha. destruct p as [sn r v u m]; simpl in *. unfold take_addr; simpl. f_equal.
  - destruct (ow_used _ Ho _ _ Ha) as [Hu _]. simpl in Hu. set_solver.
  - by apply insert_id.
Qed.

(** Claiming an address one already owns changes nothing. *)
Lemma Claim_own p id a : owners_wf p → byClient p !! id = Some a → Claim p id a = p.
Proof.
  intros Ho Ha. unfold Claim. repeat case_match; try done. by apply take_addr_own.
Qed.

Lemma familyMatch_Contains p a : subnet_wf p → Contains (subnet p) a = true → familyMatch p a = true.
Proof.
  intros Hwf (_ & _ & HB & _)%(Contains_spec _ _ (sw_prefix _ Hwf)).
  destruct (sw_prefix _ Hwf (sw_valid _ Hwf)) as (Hv & _ & _). pose proof (sw_v4 _ Hwf) as H4.
  unfold familyMatch. rewrite H4. destruct (pfx_addr (subnet p)), a; done.
Qed.

(** [Claim] of an address of the subnet records it. *)
Lemma Claim_take p id a : subnet_wf p → Contains (subnet p) a = true → Claim p id a = take_addr p id a.
Proof.
  intros Hwf Hc. pose proof (familyMatch_Contains p a Hwf Hc) as Hf. revert Hf.
  unfold familyMatch, Claim. destruct a; simpl; try done; destruct (isV4 p); done.
Qed.

Lemma Masked_host_zero sn :
  prefix_wf sn → pfx_IsValid sn = true →
  addr_Z (pfx_addr (Masked sn)) mod
    2 ^ (BitLen (pfx_addr (Masked sn)) - pfx_bits (Masked sn)) = 0.
Proof.
  intros Hwf Hv. destruct (Masked_fields sn Hwf Hv) as (Hb & HB & _).
  destruct (Hwf Hv) as (_ & _ & Hle).
  rewrite Hb, HB, (Masked_addr_Z sn Hwf Hv). apply Z.mod_mul.
  assert (0 < 2 ^ (BitLen (pfx_addr sn) - pfx_bits sn)); [apply Z.pow_pos_nonneg|]; lia.
Qed.


(** The constructor, branch by branch. *)
Lemma newIPPool_spec sn res :
  prefix_wf sn →
  match newIPPool sn res with
  | Ok p => pool_wf p ∧ subnet p = Masked sn ∧ used p = ∅ ∧ byClient p = ∅ ∧
            ∀ r, r ∈ res → IsValid r = true → r ∈ reserved p
  | Err e => pfx_IsValid sn = false ∨ BitLen (pfx_addr sn) - pfx_bits sn < 2
  | Panic => False
  end.
Proof.
  intros Hwf. unfold newIPPool. destruct (pfx_IsValid sn) eqn:Hv; simpl; [|by left].
  destruct (Masked_fields sn Hwf Hv) as (Hb & HB & Hz & H4 & Hwf').
  pose proof (Masked_host_zero sn Hwf Hv) as Hm.
  assert (pfx_IsValid (Masked sn) = true) as Hv' by (unfold pfx_IsValid in *; by rewrite Hb).
  assert (∀ r1 : gset Addr, pfx_addr (Masked sn) ∈ r1 →
     (Is4 (pfx_addr (Masked sn)) = true → ∀ b, broadcast4 (Masked sn) = Some b → b ∈ r1) →
     pfx_bits (Masked sn) <= BitLen (pfx_addr (Masked sn)) - 2 →
     let p := mkPool (Masked sn) (r1 ∪ list_to_set (filter (λ r, IsValid r = true) res))
                (Is4 (pfx_addr (Masked sn))) ∅ ∅ in
     pool_wf p ∧ subnet p = Masked sn ∧ used p = ∅ ∧ byClient p = ∅ ∧
     ∀ r, r ∈ res → IsValid r = true → r ∈ reserved p) as Hgo.
  { intros r1 Hr1 Hbc Hle p. split_and!; try done.
    - split; [split; simpl; try done|split; simpl].
      + set_solver.
      + intros b E Hbb. specialize (Hbc E b Hbb). set_solver.
      + intros c a. by rewrite lookup_empty.
      + intros c c' a. by rewrite lookup_empty.
      + set_solver.
    - intros r Hr Hvr. simpl. apply elem_of_union_r, elem_of_list_to_set, list_elem_of_filter. done. }
  destruct (Is4 (pfx_addr (Masked sn))) eqn:E4; simpl.
  - destruct (30 <? pfx_bits (Masked sn)) eqn:Hs; bool_to_prop.
    { right. rewrite <-HB, <-Hb. destruct (pfx_addr (Masked sn)); simpl in *; try done. lia. }
    destruct (pfx_addr (Masked sn)) as [|b4|] eqn:Ha; try done.
    unfold broadcast4 in *. rewrite Ha in *. simpl in *. apply Hgo; [set_solver| |lia].
    intros _ b [= <-]. set_solver.
  - destruct (126 <? pfx_bits (Masked sn)) eqn:Hs; bool_to_prop.
    { right. rewrite <-HB, <-Hb. destruct (pfx_addr (Masked sn)); simpl in *; try done; lia. }
    simpl. apply Hgo; [set_solver|done|].
    destruct (Hwf' Hv') as (Hva & _ & _).
    by destruct (pfx_addr (Masked sn)).
Qed.

(** The pool of 10.66.0.0/29 with the server at 10.66.0.1 and the address
    alice reserves, as [Server.Run] builds it. *)
Definition addr_10_66_0 (n : byte) : Addr := Addr4 [# x0a; x42; x00; n].
Definition demo_prefix : Prefix := PrefixFrom (addr_10_66_0 x00) 29.
Definition demo_pool : ipPool :=
  default (mkPool PrefixZero ∅ true ∅ ∅) (ok (newIPPool demo_prefix [addr_10_66_0 x01; addr_10_66_0 x05])).
Definition cid (n : Z) : clientID := array_of 16 [z2b n].

Lemma demo_pool_Ok :
  newIPPool demo_prefix [addr_10_66_0 x01; addr_10_66_0 x05] = Ok demo_pool.
Proof. apply ok_default. vm_compute. reflexivity. Qed.

Lemma newIPPool_wf sn res p : prefix_wf sn → newIPPool sn res = Ok p → pool_wf p.
Proof. intros Hwf H. pose proof (newIPPool_spec sn res Hwf) as Hc. rewrite H in Hc. apply Hc. Qed.

(** ** Properties *)

(** [newIPPool] on every branch, for a prefix as [ParsePrefix] builds it: an
    invalid subnet or one longer than /30 (IPv4) or /126 (IPv6) is refused, and
    otherwise the pool is well formed on the masked subnet, with no address in
    use and the network, broadcast and listed addresses reserved; no panic. *)
Theorem newIPPool_correct sn res :
  prefix_wf sn →
  match newIPPool sn res with
  | Ok p => pool_wf p ∧ subnet p = Masked sn ∧ used p = ∅ ∧ byClient p = ∅ ∧
            ∀ r, r ∈ res → IsValid r = true → r ∈ reserved p
  | Err e => pfx_IsValid sn = false ∨ BitLen (pfx_addr sn) - pfx_bits sn < 2
  | Panic => False
  end.
Proof. apply newIPPool_spec. Qed.

Lemma newIPPool_correct_witness :
  prefix_wf demo_prefix ∧
  match newIPPool demo_prefix [addr_10_66_0 x01; addr_10_66_0 x05] with
  | Ok p => pool_wf p ∧ addr_10_66_0 x05 ∈ reserved p
  | _ => False
  end.
Proof.
  split; [apply PrefixFrom_wf|].
  pose proof (newIPPool_correct demo_prefix [addr_10_66_0 x01; addr_10_66_0 x05]
                (PrefixFrom_wf _ _)) as H.
  rewrite demo_pool_Ok in *. destruct H as (Hwf & _ & _ & _ & Hr).
  split; [exact Hwf|]. apply Hr; [set_solver|reflexivity].
Defined.

(** The operations a server performs on a pool: allocations with any user
    database, and releases. *)
Inductive pool_op : Type :=
| OpAllocate (user : string) (id : clientID) (preferred : Addr) (db : option UserDB)
| OpFree (id : clientID).

Definition pool_step (p : ipPool) (op : pool_op) : ipPool :=
  match op with
  | OpAllocate user id pref db =>
      match AllocateFor p user id pref db with Ok (_, p') => p' | _ => p end
  | OpFree id => Release p id
  end.

Lemma pool_step_wf p op : pool_wf p → pool_wf (pool_step p op).
Proof.
  intros Hwf. destruct op as [user id pref db|id]; simpl; [|by apply Release_wf].
  destruct (AllocateFor p user id pref db) as [[a p']| |] eqn:E; [|done..].
  by eapply AllocateFor_wf.
Qed.

Lemma pool_run_wf p ops : pool_wf p → pool_wf (foldl pool_step p ops).
Proof. revert p. induction ops as [|op ops IH]; intros p Hwf; simpl; auto using pool_step_wf. Qed.

(** C7: unique ownership.  After any sequence of allocations and releases on a
    new pool, every client's address lies in the subnet, no two clients hold
    the same address, and the addresses marked used are exactly the held ones. *)
Theorem pool_unique_ownership sn res p ops :
  prefix_wf sn → newIPPool sn res = Ok p →
  let q := foldl pool_step p ops in
  (∀ c a, byClient q !! c = Some a → Contains (subnet q) a = true) ∧
  (∀ c c' a, byClient q !! c = Some a → byClient q !! c' = Some a → c = c') ∧
  (∀ a, a ∈ used q ↔ ∃ c, byClient q !! c = Some a).
Proof.
  intros Hsn Hp q. destruct (pool_run_wf p ops (newIPPool_wf _ _ _ Hsn Hp)) as [_ Ho]. fold q in Ho.
  split; [intros c a; apply (ow_used _ Ho)|]. split; [apply (ow_inj _ Ho)|].
  intros a. split; [apply (ow_owned _ Ho)|]. intros [c Hc]. by apply (ow_used _ Ho) in Hc as [? _].
Qed.

Lemma pool_unique_ownership_witness :
  prefix_wf demo_prefix ∧
  let q := foldl pool_step demo_pool
    [OpAllocate "bob" (cid 1) AddrZero (Some demo_db); OpAllocate "alice" (cid 2) AddrZero (Some demo_db)] in
  byClient q !! cid 1 = Some (addr_10_66_0 x02) ∧
  byClient q !! cid 2 = Some (addr_10_66_0 x05) ∧
  Contains (subnet q) (addr_10_66_0 x05) = true.
Proof.
  split; [apply PrefixFrom_wf|]. intros q.
  destruct (pool_unique_ownership demo_prefix _ demo_pool
    [OpAllocate "bob" (cid 1) AddrZero (Some demo_db); OpAllocate "alice" (cid 2) AddrZero (Some demo_db)]
    (PrefixFrom_wf _ _) demo_pool_Ok) as (H1 & _ & _).
  split; [vm_compute; reflexivity|]. split; [vm_compute; reflexivity|].
  apply (H1 (cid 2)). vm_compute. reflexivity.
Defined.

(** An operation that is not a release of [id] keeps the address [id] holds. *)
Lemma pool_step_keeps p op id a :
  pool_wf p → op ≠ OpFree id → byClient p !! id = Some a → byClient (pool_step p op) !! id = Some a.
Proof.
  intros Hwf Hop Ha. destruct op as [user c pref db|c]; simpl.
  - destruct (AllocateFor p user c pref db) as [[b p']| |] eqn:E; [|done..].
    destruct (AllocateFor_Ok _ _ _ _ _ _ _ (proj1 Hwf) E) as [[_ ->]|(Hc & -> & _)]; [done|].
    simpl. rewrite lookup_insert_ne; [done|congruence].
  - unfold Release. destruct (byClient p !! c) as [b|]; [simpl|done].
    rewrite lookup_delete_ne; [done|congruence].
Qed.

(** stickiness.  Once a client was allocated an address, every later
    allocation for it returns that same address and changes nothing, whatever
    other clients do in between and whatever user, preference or database the
    later call carries, until the client itself is released. *)
Theorem AllocateFor_sticky p user id pref db a p' ops user' pref' db' :
  pool_wf p → AllocateFor p user id pref db = Ok (a, p') → Forall (λ op, op ≠ OpFree id) ops →
  let q := foldl pool_step p' ops in
  AllocateFor q user' id pref' db' = Ok (a, q).
Proof.
  intros Hwf H Hops. assert (byClient p' !! id = Some a) as Ha.
  { destruct (AllocateFor_Ok _ _ _ _ _ _ _ (proj1 Hwf) H) as [[? ->]|(_ & -> & _)]; [done|].
    simpl. by rewrite lookup_insert_eq. }
  apply (AllocateFor_wf _ _ _ _ _ _ _ Hwf) in H. clear Hwf. revert p' H Ha.
  induction Hops as [|op ops Hop Hops IH]; intros p' Hwf Ha; simpl.
  - unfold AllocateFor. by rewrite Ha.
  - apply IH; [by apply pool_step_wf|by apply pool_step_keeps].
Qed.

Lemma demo_pool_wf : pool_wf demo_pool.
Proof. eapply newIPPool_wf; [apply PrefixFrom_wf|apply demo_pool_Ok]. Qed.

Lemma AllocateFor_sticky_witness :
  ∃ p', AllocateFor demo_pool "bob" (cid 1) (addr_10_66_0 x04) (Some demo_db) = Ok (addr_10_66_0 x04, p') ∧
    let q := foldl pool_step p' [OpAllocate "alice" (cid 2) AddrZero (Some demo_db); OpFree (cid 2)] in
    AllocateFor q "" (cid 1) AddrZero None = Ok (addr_10_66_0 x04, q).
Proof.
  exists (take_addr demo_pool (cid 1) (addr_10_66_0 x04)).
  assert (AllocateFor demo_pool "bob" (cid 1) (addr_10_66_0 x04) (Some demo_db) =
    Ok (addr_10_66_0 x04, take_addr demo_pool (cid 1) (addr_10_66_0 x04))) as H.
  { unfold AllocateFor.
    replace (byClient demo_pool !! cid 1) with (@None Addr) by (vm_compute; reflexivity).
    by replace (preferredOK demo_pool "bob" (addr_10_66_0 x04) (Some demo_db)) with true
      by (vm_compute; reflexivity). }
  split; [exact H|].
  apply (AllocateFor_sticky _ _ _ _ _ _ _ _ _ _ _ demo_pool_wf H).
  repeat constructor; [discriminate|]. injection. vm_compute. discriminate.
Defined.


Lemma demo_db_Ok : NewUserDB [alice; bob] = Ok demo_db.
Proof. apply ok_default. vm_compute. reflexivity. Qed.

(** An allocation on the demonstration pool, computed up to the new pool. *)
Definition demo_alloc (user : string) (id : clientID) (pref : Addr) : result poolError (Addr * ipPool) :=
  AllocateFor demo_pool user id pref (Some demo_db).


(** C18: the IPv4 pool is complete and never panics or loops.  For a well-formed
    IPv4 pool whose prefix has at least one bit, an allocation fails only with
    "exhausted" and only when no unreserved address of the subnet is free; and
    an allocation without preference or reservation gets the lowest free one. *)
Theorem AllocateFor_v4_complete p user id pref db :
  pool_wf p → isV4 p = true → 1 <= pfx_bits (subnet p) →
  match AllocateFor p user id pref db with
  | Ok (a, _) =>
      byClient p !! id = None → db = None → preferredOK p user pref db = false →
      free p a ∧ ∀ a', free p a' → addr_Z a <= addr_Z a'
  | Err e => e = EExhausted ∧ byClient p !! id = None ∧ ∀ a, ¬ free p a
  | Panic => False
  end.
Proof.
  intros [Hs _] H4 Hb. unfold AllocateFor.
  destruct (byClient p !! id) as [cur|] eqn:Hc; [done|].
  destruct (preferredOK p user pref db) eqn:Hp; [done|].
  destruct (match db with Some _ => _ | None => None end) as [r|] eqn:Ho; [by intros _ ->|].
  destruct (pool_search4_spec p Hs H4 Hb id) as [(a & -> & Hf & Hmin)|[-> Hno]]; simpl; auto.
Qed.

Lemma AllocateFor_v4_complete_witness :
  isV4 demo_pool = true ∧ 1 <= pfx_bits (subnet demo_pool) ∧
  match AllocateFor demo_pool "" (cid 1) AddrZero None with
  | Ok (a, _) => free demo_pool a ∧ a = addr_10_66_0 x02
  | _ => False
  end.
Proof.
  assert (isV4 demo_pool = true) as H4 by (vm_compute; reflexivity).
  assert (1 <= pfx_bits (subnet demo_pool)) as Hb by (vm_compute; discriminate).
  split; [exact H4|]. split; [exact Hb|].
  pose proof (AllocateFor_v4_complete demo_pool "" (cid 1) AddrZero None demo_pool_wf H4 Hb) as H.
  destruct (AllocateFor demo_pool "" (cid 1) AddrZero None) as [[a p']| |] eqn:E.
  - split; [apply H; vm_compute; reflexivity|].
    assert (fst <$> ok (AllocateFor demo_pool "" (cid 1) AddrZero None) = Some (addr_10_66_0 x02)) as E'
      by (vm_compute; reflexivity).
    rewrite E in E'. simpl in E'. congruence.
  - destruct H as (_ & _ & Hn). apply (Hn (addr_10_66_0 x02)).
    split; [vm_compute; reflexivity|]. split; vm_decide.
  - exact H.
Defined.

(** the hash-derived IPv6 candidates.  In a well-formed IPv6 pool every
    candidate, for any client and any round, lies in the subnet and is never the
    network address; and an allocation fails only with the collision error. *)
Theorem v6_candidates_valid p id round user pref db :
  pool_wf p → isV4 p = false →
  Contains (subnet p) (v6FromClientID (subnet p) id round) = true ∧
  v6FromClientID (subnet p) id round ≠ pfx_addr (subnet p) ∧
  match AllocateFor p user id pref db with Ok _ => True | Err e => e = ECollision | Panic => False end.
Proof.
  intros [Hs _] H4. destruct (subnet_v6 p Hs H4) as [H6 HB].
  pose proof (sw_masked _ Hs) as Hm. pose proof (sw_bits _ Hs) as Hb. rewrite HB in Hm, Hb.
  destruct (v6FromClientID_spec (subnet p) id round (sw_prefix _ Hs) (sw_valid _ Hs) H6
    ltac:(lia) Hm) as [Hc Hn].
  split; [done|]. split; [done|]. unfold AllocateFor, pool_search. rewrite H4.
  pose proof (hash6_spec 8 p id 0 Hs H4) as Hh.
  destruct (byClient p !! id); [done|]. destruct (preferredOK p user pref db); [done|].
  destruct (match db with Some _ => _ | None => None end); [done|].
  by destruct (hash6 8 p id 0).
Qed.

Definition demo_prefix6 : Prefix := PrefixFrom (AddrFrom16 (array_of 16 [xfd; x00; x00; x66])) 125.
Definition demo_pool6 : ipPool :=
  default (mkPool PrefixZero ∅ true ∅ ∅) (ok (newIPPool demo_prefix6 [])).

Lemma v6_candidates_valid_witness :
  isV4 demo_pool6 = false ∧
  Contains (subnet demo_pool6) (v6FromClientID (subnet demo_pool6) (cid 7) 0) = true.
Proof.
  assert (isV4 demo_pool6 = false) as H4 by (vm_compute; reflexivity). split; [exact H4|].
  assert (newIPPool demo_prefix6 [] = Ok demo_pool6) as Hp
    by (apply ok_default; vm_compute; reflexivity).
  exact (proj1 (v6_candidates_valid demo_pool6 (cid 7) 0 "" AddrZero None
    (newIPPool_wf demo_prefix6 [] _ (PrefixFrom_wf _ _) Hp) H4)).
Defined.

(** releasing a freshly allocated address restores the pool exactly, so an
    aborted handshake leaks nothing; releasing twice is the same as once. *)
Theorem Release_undoes p user id pref db a p' :
  pool_wf p → byClient p !! id = None → AllocateFor p user id pref db = Ok (a, p') →
  Release p' id = p ∧ Release (Release p' id) id = p.
Proof.
  intros Hwf Hid H.
  destruct (AllocateFor_Ok _ _ _ _ _ _ _ (proj1 Hwf) H) as [[? _]|(_ & -> & _ & _ & Hu)];
    [congruence|].
  assert (Release (take_addr p id a) id = p) as E.
  { unfold Release. simpl. rewrite lookup_insert_eq.
    destruct p as [sn r v u m]; simpl in *. f_equal; [set_solver|].
    rewrite delete_insert_eq. by apply delete_id. }
  rewrite E. split; [done|]. unfold Release. by rewrite Hid.
Qed.

Lemma Release_undoes_witness :
  byClient demo_pool !! cid 1 = None ∧
  ∃ a p', demo_alloc "bob" (cid 1) AddrZero = Ok (a, p') ∧ Release p' (cid 1) = demo_pool.
Proof.
  assert (byClient demo_pool !! cid 1 = None) as Hn by (vm_compute; reflexivity).
  split; [exact Hn|].
  pose proof (ok_default (demo_alloc "bob" (cid 1) AddrZero) (AddrZero, demo_pool) eq_refl) as H.
  destruct (default (AddrZero, demo_pool) (ok (demo_alloc "bob" (cid 1) AddrZero))) as [a p'].
  exists a, p'. split; [exact H|].
  exact (proj1 (Release_undoes _ _ _ _ _ _ _ demo_pool_wf Hn H)).
Defined.

(** [Claim] protects.  When a client re-asserts the address it was assigned
    (whether or not a racing release freed it meanwhile, as long as nobody else
    took it), it owns it again, ownership stays unique, and no later allocation
    for another client returns that address. *)
Theorem Claim_protects p id a other user pref db :
  pool_wf p → Contains (subnet p) a = true →
  byClient p !! id = Some a ∨ byClient p !! id = None ∧ a ∉ used p →
  other ≠ id →
  let q := Claim p id a in
  pool_wf q ∧ byClient q !! id = Some a ∧
  ∀ b q', AllocateFor q user other pref db = Ok (b, q') → b ≠ a.
Proof.
  intros Hwf Hc Hown Hne q.
  assert (pool_wf q ∧ byClient q !! id = Some a) as [Hq Ha].
  { unfold q. rewrite (Claim_take _ _ _ (proj1 Hwf) Hc). destruct Hown as [Ho|[Ho Hu]].
    - by rewrite (take_addr_own _ _ _ (proj2 Hwf) Ho).
    - split; [by apply take_addr_wf|]. simpl. by rewrite lookup_insert_eq. }
  split; [done|]. split; [done|]. intros b q' H ->.
  destruct (AllocateFor_Ok _ _ _ _ _ _ _ (proj1 Hq) H) as [[Hb _]|(_ & _ & _ & _ & Hu)].
  - destruct Hne. by eapply (ow_inj _ (proj2 Hq)).
  - destruct Hu. by eapply (ow_used _ (proj2 Hq)).
Qed.

Lemma Claim_protects_witness :
  cid 2 ≠ cid 1 ∧
  byClient (Claim demo_pool (cid 1) (addr_10_66_0 x02)) !! cid 1 = Some (addr_10_66_0 x02) ∧
  ∀ b q', AllocateFor (Claim demo_pool (cid 1) (addr_10_66_0 x02)) "" (cid 2) (addr_10_66_0 x02) None
          = Ok (b, q') → b ≠ addr_10_66_0 x02.
Proof.
  assert (cid 2 ≠ cid 1) as Hne by vm_decide.
  assert (Contains (subnet demo_pool) (addr_10_66_0 x02) = true) as Hc by (vm_compute; reflexivity).
  assert (byClient demo_pool !! cid 1 = Some (addr_10_66_0 x02) ∨
          byClient demo_pool !! cid 1 = None ∧ addr_10_66_0 x02 ∉ used demo_pool) as Ho.
  { right. split; [vm_compute; reflexivity|vm_decide]. }
  split; [exact Hne|].
  exact (proj2 (Claim_protects demo_pool (cid 1) _ (cid 2) "" (addr_10_66_0 x02) None
    demo_pool_wf Hc Ho Hne)).
Defined.

(** A hole in step 2.  With a non-nil but empty user database (the state
    after a reload with an empty [users:] list) a client authorized as the
    single peer has the empty user name, which equals the "no owner" answer of
    [ReservationOwner]; so it is granted any free reserved address of the subnet
    it asks for, the server's own tunnel address and the network address
    included. *)
Theorem AllocateFor_empty_db_grants_reserved p id a :
  pool_wf p → byClient p !! id = None → a ∈ reserved p → a ∉ used p →
  Contains (subnet p) a = true → IsUnspecified a = false →
  AllocateFor p EmptyString id a (Some emptyDB) = Ok (a, take_addr p id a).
Proof.
  intros [Hs _] Hid Hr Hu Hc Hun. unfold AllocateFor. rewrite Hid.
  assert (preferredOK p EmptyString a (Some emptyDB) = true) as ->; [|done].
  pose proof (familyMatch_Contains p a Hs Hc) as Hf.
  assert (IsValid a = true) as Hv by (unfold familyMatch in Hf; by destruct (IsValid a)).
  assert (ReservationOwner (Some emptyDB) a = EmptyString) as Ho.
  { simpl. by rewrite !lookup_empty, Hv; destruct (Is4 a). }
  unfold preferredOK, otherUserReserved. rewrite Hv, Hun, Hf, Hc, Ho.
  rewrite (bool_decide_eq_false_2 (a ∈ used p)) by done.
  rewrite (bool_decide_eq_true_2 (a ∈ reserved p)) by done. reflexivity.
Qed.

Lemma AllocateFor_empty_db_grants_reserved_witness :
  NewUserDB [] = Ok emptyDB ∧ addr_10_66_0 x01 ∈ reserved demo_pool ∧
  AllocateFor demo_pool EmptyString (cid 1) (addr_10_66_0 x01) (Some emptyDB)
  = Ok (addr_10_66_0 x01, take_addr demo_pool (cid 1) (addr_10_66_0 x01)).
Proof.
  split; [reflexivity|]. assert (addr_10_66_0 x01 ∈ reserved demo_pool) as Hr by vm_decide.
  split; [exact Hr|].
  apply (AllocateFor_empty_db_grants_reserved demo_pool (cid 1) (addr_10_66_0 x01)).
  - exact demo_pool_wf.
  - vm_compute. reflexivity.
  - exact Hr.
  - vm_decide.
  - vm_compute. reflexivity.
  - vm_compute. reflexivity.
Defined.
