(* ===== verification/RateLimit.v ===== *)
(** * ratelimit.go: the accept-path abuse controls

    A bounded per-source-IP table of token buckets ([allowIP]) and a server-wide
    semaphore on handshakes in flight ([acquireSlot]).  [rate.Limiter] is
    third-party code: its constructor and [AllowN] are section parameters, and
    no theorem needs a law of them.

    - An instant ([time.Time]) is its distance in nanoseconds from Go's zero
      [Time]; [Sub] saturates at the range of an int64 [Duration].
    - Go ranges over a map in an unspecified order: the operations that range
      take the visited order as an argument, some enumeration of the keys.
    - [now] is read before the mutex is taken, so calls may reach the table with
      times out of order: nothing below assumes the clock monotone.
    - A [*connLimiter] that may be nil is an [option].  The channel [sem] is
      its capacity and its fill; the [sync.Once] of each permit is a cell of
      [onces], addressed by the permit. *)

From Stdlib Require Import SpecFloat.
From S2P Require Import Prelude.

Definition Second : Z := 1000000000.
Definition Minute : Z := 60 * Second.
Definition maxDuration : Z := 2 ^ 63 - 1.
Definition minDuration : Z := - 2 ^ 63.

(** [t.Sub(u)] *)
Definition Sub (t u : Z) : Z := Z.max minDuration (Z.min maxDuration (t - u)).
Definition zeroTime : Z := 0.

(** The float64 value 10.0, and [x <= 0] (false on NaN). *)
Definition defaultPerIPPerSec : spec_float := S754_finite false 5629499534213120 (-49).
Definition float_le_0 (x : spec_float) : bool := SFleb x (S754_zero false).

Definition defaultPerIPBurst : Z := 20.
Definition defaultMaxInFlight : Z := 256.
Definition defaultMaxIPEntries : Z := 8192.
Definition ipEntryTTL : Z := 5 * Minute.
Definition ipGCInterval : Z := Minute.

Record RateLimitConfig : Type := mkRateCfg {
  PerIPPerSec : spec_float;
  PerIPBurst : Z;
  MaxInFlight : Z;
  MaxIPEntries : Z;
  Disabled : bool
}.

(** What [acquireSlot] returns as [release]: a no-op closure, or the closure
    over the [sync.Once] with this address. *)
Inductive releaseFn : Type := Noop | Once (o : nat).

Section limiter.
Context {Limiter : Type}.
Context (NewLimiter : spec_float → Z → Limiter).
Context (AllowN : Limiter → Z → Z → bool * Limiter).

Record ipLimiterEntry : Type := mkIpEntry { lim : Limiter; seen : Z }.

Record connLimiter : Type := mkLimiter {
  disabled : bool;
  perIPRate : spec_float;
  perIPBurst : Z;
  maxEntries : Z;
  limiters : gmap string ipLimiterEntry;
  lastGC : Z;
  sem_cap : Z;
  sem_len : Z;
  onces : list bool            (* true: the permit was released *)
}.

Definition set_table (l : connLimiter) (m : gmap string ipLimiterEntry) (gc : Z) : connLimiter :=
  mkLimiter (disabled l) (perIPRate l) (perIPBurst l) (maxEntries l) m gc
    (sem_cap l) (sem_len l) (onces l).

Definition set_sem (l : connLimiter) (n : Z) (o : list bool) : connLimiter :=
  mkLimiter (disabled l) (perIPRate l) (perIPBurst l) (maxEntries l) (limiters l) (lastGC l)
    (sem_cap l) n o.

Definition newConnLimiter (cfg : RateLimitConfig) : connLimiter :=
  if Disabled cfg
  then mkLimiter true (S754_zero false) 0 0 ∅ zeroTime 0 0 []
  else
    let perSec := if float_le_0 (PerIPPerSec cfg) then defaultPerIPPerSec else PerIPPerSec cfg in
    let burst := if PerIPBurst cfg <=? 0 then defaultPerIPBurst else PerIPBurst cfg in
    let maxInFlight := if MaxInFlight cfg <=? 0 then defaultMaxInFlight else MaxInFlight cfg in
    let maxEntries := if MaxIPEntries cfg <=? 0 then defaultMaxIPEntries else MaxIPEntries cfg in
    mkLimiter false perSec burst maxEntries ∅ zeroTime maxInFlight 0 [].

(** The range loop of [gcLocked]: each visited entry idle for longer than the
    TTL is deleted. *)
Definition gc_table (order : list string) (now : Z) (m : gmap string ipLimiterEntry)
    : gmap string ipLimiterEntry :=
  fold_left (λ m ip,
    match m !! ip with
    | Some e => if ipEntryTTL <? Sub now (seen e) then delete ip m else m
    | None => m
    end) order m.

Definition gcLocked (order : list string) (now : Z) (l : connLimiter) : connLimiter :=
  set_table l (gc_table order now (limiters l)) now.

(** The range loop of [evictOldestLocked]: the accumulator is
    [(oldestIP, oldest)], and the empty string stands for "none yet". *)
Definition oldest_step (m : gmap string ipLimiterEntry) (acc : string * Z) (ip : string)
    : string * Z :=
  match m !! ip with
  | Some e => if bool_decide (acc.1 = EmptyString) || (seen e <? acc.2) then (ip, seen e) else acc
  | None => acc
  end.

Definition evictOldestLocked (order : list string) (l : connLimiter) : connLimiter :=
  let oldestIP := (fold_left (oldest_step (limiters l)) order (EmptyString, zeroTime)).1 in
  if bool_decide (oldestIP ≠ EmptyString)
  then set_table l (delete oldestIP (limiters l)) (lastGC l) else l.

(** [gcOrder] and [evictOrder] are the orders the two ranges visit. *)
Definition allowIP (gcOrder evictOrder : list string) (now : Z) (ip : string)
    (l : option connLimiter) : bool * option connLimiter :=
  match l with
  | None => (true, None)
  | Some l =>
      if disabled l then (true, Some l)
      else
        let l1 := if ipGCInterval <=? Sub now (lastGC l) then gcLocked gcOrder now l else l in
        let '(e, l2) :=
          match limiters l1 !! ip with
          | Some e => (e, l1)
          | None =>
              (mkIpEntry (NewLimiter (perIPRate l1) (perIPBurst l1)) zeroTime,
               if maxEntries l1 <=? Z.of_nat (size (limiters l1))
               then evictOldestLocked evictOrder l1 else l1)
          end in
        let '(b, lim') := AllowN (lim e) now 1 in
        (b, Some (set_table l2 (<[ip := mkIpEntry lim' now]> (limiters l2)) (lastGC l2)))
  end.

Definition acquireSlot (l : option connLimiter) : releaseFn * bool * option connLimiter :=
  match l with
  | None => (Noop, true, None)
  | Some l =>
      if disabled l then (Noop, true, Some l)
      else if sem_len l <? sem_cap l
      then (Once (length (onces l)), true, Some (set_sem l (sem_len l + 1) (onces l ++ [false])))
      else (Noop, false, Some l)
  end.

(** Calling a release closure: the first call of a permit receives from the
    channel, which would block ([None]) on an empty one. *)
Definition call_release (r : releaseFn) (l : connLimiter) : option connLimiter :=
  match r with
  | Noop => Some l
  | Once o =>
      match onces l !! o with
      | Some false => if 0 <? sem_len l then Some (set_sem l (sem_len l - 1) (<[o := true]> (onces l))) else None
      | _ => Some l
      end
  end.

(** ** Steps of a limiter shared by many accept goroutines *)

(** A range over [m] visits each key once. *)
Definition enumerates (order : list string) (m : gmap string ipLimiterEntry) : Prop :=
  NoDup order ∧ ∀ k, k ∈ order ↔ is_Some (m !! k).

Definition after_gc (order : list string) (now : Z) (l : connLimiter) : connLimiter :=
  if ipGCInterval <=? Sub now (lastGC l) then gcLocked order now l else l.

Inductive limiter_step : connLimiter → connLimiter → Prop :=
| step_allow gcO evO now ip l b l' :
    ip ≠ EmptyString → enumerates gcO (limiters l) →
    enumerates evO (limiters (after_gc gcO now l)) →
    allowIP gcO evO now ip (Some l) = (b, Some l') → limiter_step l l'
| step_acquire l r b l' : acquireSlot (Some l) = (r, b, Some l') → limiter_step l l'
| step_release r l l' : call_release r l = Some l' → limiter_step l l'.

(** ** The two range loops *)

Definition expired (now : Z) (e : ipLimiterEntry) : bool := ipEntryTTL <? Sub now (seen e).

Lemma gc_table_lookup order now m k :
  gc_table order now m !! k =
  match m !! k with
  | Some e => if bool_decide (k ∈ order) && expired now e then None else Some e
  | None => None
  end.
Proof.
  unfold gc_table. revert m. induction order as [|ip order IH]; intros m; cbn [fold_left].
  - rewrite bool_decide_eq_false_2 by set_solver. by destruct (m !! k).
  - rewrite IH. destruct (decide (k = ip)) as [->|Hne].
    + rewrite (bool_decide_eq_true_2 (ip ∈ ip :: order)) by set_solver.
      destruct (m !! ip) as [e|] eqn:He; [|by rewrite He].
      unfold expired. destruct (ipEntryTTL <? Sub now (seen e)) eqn:Hx.
      * by rewrite lookup_delete_eq.
      * by rewrite He, Hx, !andb_false_r.
    + rewrite (bool_decide_ext (k ∈ ip :: order) (k ∈ order)) by set_solver.
      destruct (m !! ip) as [e|]; [|done].
      destruct (_ <? _); [by rewrite lookup_delete_ne|done].
Qed.

Lemma gc_table_sub order now m : gc_table order now m ⊆ m.
Proof.
  apply map_subseteq_spec. intros k e. rewrite gc_table_lookup.
  destruct (m !! k); [|done]. by destruct (_ && _).
Qed.

(** What the eviction loop holds after visiting [order]. *)
Definition oldest_of (m : gmap string ipLimiterEntry) (order : list string) (acc : string * Z) : Prop :=
  acc.1 ∈ order ∧ (∃ e, m !! acc.1 = Some e ∧ seen e = acc.2) ∧
  ∀ k e, k ∈ order → m !! k = Some e → acc.2 <= seen e.

Lemma oldest_loop m order :
  order ≠ [] → (∀ k, k ∈ order → k ≠ EmptyString ∧ is_Some (m !! k)) →
  oldest_of m order (fold_left (oldest_step m) order (EmptyString, zeroTime)).
Proof.
  induction order as [|k order IH] using rev_ind; intros Hne Hin; [done|].
  rewrite fold_left_app. cbn [fold_left].
  destruct (Hin k) as [Hk [e He]]; [set_solver|].
  destruct (decide (order = [])) as [->|Hord].
  - cbn. unfold oldest_step, oldest_of. rewrite He. cbn. repeat split; [set_solver|by exists e|].
    intros k' e' Hk' He'. assert (k' = k) by set_solver. subst. by simplify_eq.
  - destruct (IH Hord) as (Hi & (e0 & He0 & Hs0) & Hmin); [intros; apply Hin; set_solver|].
    set (acc := fold_left _ order _) in *. clearbody acc.
    destruct (Hin acc.1) as [Hacc _]; [set_solver|].
    unfold oldest_step. rewrite He, bool_decide_eq_false_2 by done. cbn [orb].
    destruct (seen e <? acc.2) eqn:Hlt; bool_to_prop; unfold oldest_of; cbn.
    + repeat split; [set_solver|by exists e|]. intros k' e' Hk' He'.
      apply elem_of_app in Hk' as [Hk'|Hk']; [pose proof (Hmin _ _ Hk' He'); lia|].
      assert (k' = k) by set_solver. subst. simplify_eq. lia.
    + repeat split; [set_solver|by exists e0|]. intros k' e' Hk' He'.
      apply elem_of_app in Hk' as [Hk'|Hk']; [eauto|].
      assert (k' = k) by set_solver. subst. by simplify_eq.
Qed.

Lemma evict_spec order l :
  enumerates order (limiters l) → limiters l !! EmptyString = None → limiters l ≠ ∅ →
  ∃ ip e, limiters l !! ip = Some e ∧
    (∀ k e', limiters l !! k = Some e' → seen e <= seen e') ∧
    evictOldestLocked order l = set_table l (delete ip (limiters l)) (lastGC l).
Proof.
  intros [_ Hord] Hempty Hne.
  assert (order ≠ []) as Hnil.
  { intros ->. apply Hne, map_empty. intros k. apply eq_None_not_Some. rewrite <-Hord. set_solver. }
  assert (∀ k, k ∈ order → k ≠ EmptyString ∧ is_Some (limiters l !! k)) as Hin.
  { intros k Hk. apply Hord in Hk. split; [intros ->; by destruct Hk; congruence|done]. }
  destruct (oldest_loop _ _ Hnil Hin) as (Hi & (e & He & Hs) & Hmin).
  unfold evictOldestLocked. set (acc := fold_left _ order _) in *. clearbody acc.
  exists acc.1, e. rewrite bool_decide_eq_true_2 by (by apply Hin). repeat split; [done|].
  intros k e' Hk. rewrite Hs. apply (Hmin k e'); [apply Hord; eauto|done].
Qed.

(** ** The invariant of a shared limiter *)

Definition held (o : list bool) : Z := Z.of_nat (length (filter (λ b, b = false) o)).

Record limiter_inv (l : connLimiter) : Prop := {
  inv_max : disabled l = false → 1 <= maxEntries l;
  inv_size : Z.of_nat (size (limiters l)) <= maxEntries l;
  inv_empty : limiters l !! EmptyString = None;
  inv_sem : sem_len l = held (onces l);
  inv_cap : sem_len l <= sem_cap l
}.

Lemma newConnLimiter_inv cfg : limiter_inv (newConnLimiter cfg).
Proof.
  unfold newConnLimiter, defaultMaxIPEntries, defaultMaxInFlight.
  destruct (Disabled cfg), (MaxIPEntries cfg <=? 0) eqn:?, (MaxInFlight cfg <=? 0) eqn:?;
    bool_to_prop; split; cbn; rewrite ?map_size_empty; try done; lia.
Qed.

Lemma after_gc_sub order now l : limiters (after_gc order now l) ⊆ limiters l.
Proof. unfold after_gc. destruct (_ <=? _); [apply gc_table_sub|done]. Qed.

Lemma after_gc_inv order now l : limiter_inv l → limiter_inv (after_gc order now l).
Proof.
  intros H. pose proof (after_gc_sub order now l) as Hs. destruct H. 
  assert (size (limiters (after_gc order now l)) <= size (limiters l))%nat by by apply map_subseteq_size.
  assert (limiters (after_gc order now l) !! EmptyString = None) by
    (eapply lookup_weaken_None; eauto).
  revert Hs H H0. unfold after_gc. destruct (_ <=? _); [|done]. cbn. intros. split; cbn; auto; lia.
Qed.

(** [allowIP] in terms of the table after the opportunistic pruning. *)
Lemma allowIP_eq gcO evO now ip l :
  disabled l = false →
  allowIP gcO evO now ip (Some l) =
  let l1 := after_gc gcO now l in
  let fresh := bool_decide (limiters l1 !! ip = None) in
  let full := maxEntries l1 <=? Z.of_nat (size (limiters l1)) in
  let l2 := if fresh && full then evictOldestLocked evO l1 else l1 in
  let bucket := match limiters l1 !! ip with
                | Some e => lim e
                | None => NewLimiter (perIPRate l) (perIPBurst l)
                end in
  let '(b, lim') := AllowN bucket now 1 in
  (b, Some (set_table l2 (<[ip := mkIpEntry lim' now]> (limiters l2)) (lastGC l2))).
Proof.
  intros Hd. unfold allowIP. rewrite Hd. fold (after_gc gcO now l). cbv zeta.
  assert (perIPRate (after_gc gcO now l) = perIPRate l ∧
          perIPBurst (after_gc gcO now l) = perIPBurst l) as [-> ->].
  { unfold after_gc. by destruct (_ <=? _). }
  destruct (limiters (after_gc gcO now l) !! ip) as [e|] eqn:He; cbn; done.
Qed.

Lemma insert_inv l ip e :
  limiter_inv l → ip ≠ EmptyString →
  is_Some (limiters l !! ip) ∨ Z.of_nat (size (limiters l)) < maxEntries l →
  limiter_inv (set_table l (<[ip := e]> (limiters l)) (lastGC l)).
Proof.
  intros [] Hip Hroom. split; cbn; auto; [|by rewrite lookup_insert_ne].
  destruct (limiters l !! ip) eqn:Hl.
  - rewrite map_size_insert_Some by eauto. lia.
  - rewrite map_size_insert_None by done. destruct Hroom as [[? ?]|]; [done|lia].
Qed.

Lemma delete_inv l ip gc :
  limiter_inv l → limiter_inv (set_table l (delete ip (limiters l)) gc).
Proof.
  intros []. split; cbn; auto.
  - pose proof (map_subseteq_size _ _ (delete_subseteq (limiters l) ip)). lia.
  - by apply lookup_delete_None; right.
Qed.

Lemma allowIP_inv gcO evO now ip l b l' :
  limiter_inv l → ip ≠ EmptyString →
  enumerates evO (limiters (after_gc gcO now l)) →
  allowIP gcO evO now ip (Some l) = (b, Some l') → limiter_inv l'.
Proof.
  intros Hl Hip Hev. destruct (disabled l) eqn:Hd.
  { cbn. rewrite Hd. by intros [= <- <-]. }
  rewrite allowIP_eq by done. cbv zeta.
  assert (disabled (after_gc gcO now l) = false) as Hd1.
  { unfold after_gc. by destruct (_ <=? _). }
  pose proof (after_gc_inv gcO now l Hl) as H1. clear Hl.
  set (l1 := after_gc gcO now l) in *. clearbody l1.
  destruct (AllowN _ _ _) as [b' lim']. intros [= <- <-].
  destruct (limiters l1 !! ip) as [e|] eqn:He; cbn [bool_decide andb].
  { rewrite bool_decide_eq_false_2 by done. cbn. apply insert_inv; eauto. }
  rewrite bool_decide_eq_true_2 by done. cbn [andb].
  destruct (_ <=? _) eqn:Hfull; bool_to_prop; [|apply insert_inv; eauto; lia].
  pose proof (inv_max _ H1 Hd1).
  destruct (evict_spec evO l1 Hev) as (k & ek & Hk & _ & ->);
    [apply H1|intros E0; rewrite E0, map_size_empty in Hfull; lia|].
  apply insert_inv; [by apply delete_inv|done|right]. cbn.
  pose proof (inv_size _ H1). rewrite map_size_delete_Some by eauto.
  assert (size (limiters l1) ≠ 0%nat); [|lia].
  intros Hz. apply map_size_empty_inv in Hz. rewrite Hz in Hk. by rewrite lookup_empty in Hk.
Qed.

Lemma held_app o b : held (o ++ [b]) = held o + (if b then 0 else 1).
Proof. unfold held. rewrite filter_app, length_app, filter_cons, filter_nil.
  destruct b; case_decide; cbn [length]; try done; lia. Qed.

Lemma held_release o i : o !! i = Some false → held (<[i := true]> o) = held o - 1.
Proof.
  intros Hi. unfold held. rewrite insert_take_drop by (by eapply lookup_lt_Some).
  pose proof (take_drop_middle o i false Hi) as Ho.
  remember (take i o) as a. remember (drop (S i) o) as c. clear Heqa Heqc Hi. subst o.
  rewrite !filter_app, !length_app, !filter_cons. repeat case_decide; try done. cbn [length]. lia.
Qed.

Lemma held_pos o i : o !! i = Some false → 0 < held o.
Proof. intros Hi. pose proof (held_release o i Hi). unfold held in *. lia. Qed.

Lemma acquireSlot_inv l r b l' :
  limiter_inv l → acquireSlot (Some l) = (r, b, Some l') → limiter_inv l'.
Proof.
  intros Hl. cbn. destruct (disabled l); [by intros [= <- <- <-]|].
  destruct (_ <? _) eqn:?; bool_to_prop; intros [= <- <- <-]; [|done].
  destruct Hl. split; cbn; auto; [rewrite held_app; lia|lia].
Qed.

Lemma call_release_inv r l : limiter_inv l → ∃ l', call_release r l = Some l' ∧ limiter_inv l'.
Proof.
  intros Hl. destruct r as [|o]; cbn; [by eauto|].
  destruct (onces l !! o) as [[]|] eqn:Ho; [by eauto| |by eauto].
  destruct Hl. pose proof (held_pos _ _ Ho).
  destruct (0 <? sem_len l) eqn:?; bool_to_prop; [|lia].
  eexists. split; [done|]. split; cbn; auto; [rewrite held_release by done; lia|lia].
Qed.

Lemma limiter_step_inv l l' : limiter_step l l' → limiter_inv l → limiter_inv l'.
Proof.
  destruct 1; intros Hl; [by eapply allowIP_inv|by eapply acquireSlot_inv|].
  destruct (call_release_inv r l Hl) as (? & ? & ?). by simplify_eq.
Qed.

Lemma limiter_step_const l l' :
  limiter_step l l' → maxEntries l' = maxEntries l ∧ sem_cap l' = sem_cap l.
Proof.
  destruct 1 as [gcO evO now ip l b l' _ _ _ Ha|l r b l' Ha|r l l' Ha].
  - destruct (disabled l) eqn:Hd; [revert Ha; cbn; rewrite Hd; by intros [= <- <-]|].
    rewrite allowIP_eq in Ha by done. cbv zeta in Ha. destruct (AllowN _ _ _).
    injection Ha as <- <-. unfold after_gc, evictOldestLocked.
    repeat case_match; done.
  - cbn in Ha. repeat case_match; by simplify_eq.
  - destruct r; cbn in Ha; repeat case_match; by simplify_eq.
Qed.

(** A released permit stays released. *)
Lemma limiter_step_once l l' o :
  limiter_step l l' → onces l !! o = Some true → onces l' !! o = Some true.
Proof.
  destruct 1 as [gcO evO now ip l b l' _ _ _ Ha|l r b l' Ha|r l l' Ha]; intros Ho.
  - destruct (disabled l) eqn:Hd; [revert Ha; cbn; rewrite Hd; by intros [= <- <-]|].
    rewrite allowIP_eq in Ha by done. cbv zeta in Ha. destruct (AllowN _ _ _).
    injection Ha as <- <-. unfold after_gc, evictOldestLocked. by repeat case_match.
  - cbn in Ha. repeat case_match; simplify_eq; try done. cbn. by apply lookup_app_l_Some.
  - destruct r as [|i]; cbn in Ha; repeat case_match; simplify_eq; try done. cbn.
    destruct (decide (i = o)) as [->|]; [congruence|by rewrite list_lookup_insert_ne].
Qed.

(** An entry the call's pruning drops: the GC interval has passed and the entry
    was idle for longer than the TTL. *)
Definition pruned (l : connLimiter) (now : Z) (e : ipLimiterEntry) : bool :=
  (ipGCInterval <=? Sub now (lastGC l)) && expired now e.

Lemma after_gc_lookup order now l k :
  enumerates order (limiters l) →
  limiters (after_gc order now l) !! k =
  match limiters l !! k with
  | Some e => if pruned l now e then None else Some e
  | None => None
  end.
Proof.
  intros [_ Hord]. unfold after_gc, pruned. destruct (_ <=? _); cbn; [|by destruct (_ !! k)].
  rewrite gc_table_lookup. destruct (limiters l !! k) eqn:Hk; [|done].
  by rewrite bool_decide_eq_true_2 by (apply Hord; eauto).
Qed.

(** The bucket a call from [ip] draws from: its own if it has one that
    survives pruning, a new one otherwise. *)
Definition bucket_of (l : connLimiter) (now : Z) (ip : string) : Limiter :=
  match limiters l !! ip with
  | Some e => if pruned l now e then NewLimiter (perIPRate l) (perIPBurst l) else lim e
  | None => NewLimiter (perIPRate l) (perIPBurst l)
  end.

(** Shared by any interleaving of accept goroutines, with any clock
    readings and any map iteration orders, a limiter built by [newConnLimiter]
    never holds more than [MaxIPEntries] source addresses nor more than
    [MaxInFlight] handshake permits; the semaphore's fill is exactly the number of
    permits not yet released, and no release closure ever blocks. *)
Theorem limiter_bounded cfg l :
  rtc limiter_step (newConnLimiter cfg) l →
  Z.of_nat (size (limiters l)) <= maxEntries (newConnLimiter cfg) ∧
  sem_len l <= sem_cap (newConnLimiter cfg) ∧
  sem_len l = held (onces l) ∧
  ∀ r, is_Some (call_release r l).
Proof.
  intros Hsteps.
  assert (limiter_inv l ∧ maxEntries l = maxEntries (newConnLimiter cfg)
          ∧ sem_cap l = sem_cap (newConnLimiter cfg)) as (Hl & <- & <-).
  { refine (rtc_invariant _ (λ l, limiter_inv l ∧ maxEntries l = _ ∧ sem_cap l = _) _ _ _ Hsteps _);
      [|split_and!; [apply newConnLimiter_inv|reflexivity..]].
    intros l0 l1 (? & <- & <-) Hs. destruct (limiter_step_const _ _ Hs).
    split; [by eapply limiter_step_inv|done]. }
  split_and!; try apply Hl. intros r.
  destruct (call_release_inv r l Hl) as (? & ? & _). eauto.
Qed.

(** One source address cannot spend another's tokens: a connection from
    [ip] is admitted exactly when the bucket of [ip] itself (a new one if it has
    none left) grants a token, and every other entry is left as it was, unless
    it is pruned for being idle past the TTL, or [ip] is new, the table is full
    and the entry is a stalest one. *)
Theorem allowIP_isolated gcO evO now ip l b l' :
  limiter_inv l → disabled l = false →
  enumerates gcO (limiters l) → enumerates evO (limiters (after_gc gcO now l)) →
  allowIP gcO evO now ip (Some l) = (b, Some l') →
  b = (AllowN (bucket_of l now ip) now 1).1 ∧
  limiters l' !! ip = Some (mkIpEntry (AllowN (bucket_of l now ip) now 1).2 now) ∧
  ∀ k e, k ≠ ip → limiters l !! k = Some e →
    limiters l' !! k = Some e ∨ pruned l now e = true ∨
    (limiters (after_gc gcO now l) !! ip = None ∧
     maxEntries l <= Z.of_nat (size (limiters (after_gc gcO now l))) ∧
     ∀ k' e', limiters (after_gc gcO now l) !! k' = Some e' → seen e <= seen e').
Proof.
  intros Hl Hd Hgc Hev. rewrite allowIP_eq by done. cbv zeta.
  assert (match limiters (after_gc gcO now l) !! ip with
          | Some e => lim e | None => NewLimiter (perIPRate l) (perIPBurst l) end
          = bucket_of l now ip) as ->.
  { unfold bucket_of. rewrite after_gc_lookup by done. repeat case_match; by simplify_eq. }
  assert (maxEntries (after_gc gcO now l) = maxEntries l) as Hmax.
  { unfold after_gc. by destruct (_ <=? _). }
  destruct (AllowN _ _ _) as [b' lim']. intros [= <- <-]. cbn.
  split_and!; [done|by rewrite lookup_insert_eq|]. intros k e Hk He.
  destruct (pruned l now e) eqn:Hp; [by auto|]. rewrite lookup_insert_ne by done.
  assert (limiters (after_gc gcO now l) !! k = Some e) as Hk1.
  { by rewrite after_gc_lookup, He, Hp. }
  destruct (bool_decide _ && _) eqn:Hfull; [|by left].
  bool_to_prop. pose proof (after_gc_inv gcO now l Hl) as H1.
  destruct (evict_spec evO _ Hev) as (o & eo & Ho & Hmin & ->);
    [apply H1|intros E0; by rewrite E0, lookup_empty in Hk1|]. cbn.
  destruct (decide (o = k)) as [->|]; [|left; by rewrite lookup_delete_ne].
  right; right. simplify_eq. rewrite <-Hmax. auto.
Qed.

(** A handshake permit is refused exactly when [MaxInFlight] of them are
    out; releasing one gives back one place, and releasing it again, at any time,
    gives back nothing. *)
Theorem acquireSlot_permits l r b l1 :
  limiter_inv l → disabled l = false → acquireSlot (Some l) = (r, b, Some l1) →
  b = (sem_len l <? sem_cap l) ∧
  (b = false → l1 = l) ∧
  (b = true → sem_len l1 = sem_len l + 1 ∧
     ∃ l2, call_release r l1 = Some l2 ∧ sem_len l2 = sem_len l ∧
       ∀ l3, rtc limiter_step l2 l3 → call_release r l3 = Some l3).
Proof.
  intros Hl Hd. cbn. rewrite Hd.
  destruct (_ <? _) eqn:Hlt; intros [= <- <- <-]; split_and!; try done. intros _. cbn.
  split; [done|]. rewrite list_lookup_middle by done. cbn.
  pose proof (inv_sem _ Hl). unfold held in *.
  destruct (0 <? sem_len l + 1) eqn:?; bool_to_prop; [|lia].
  eexists. split; [done|]. cbn. split; [lia|]. intros l3 Hsteps.
  assert (onces l3 !! length (onces l) = Some true) as Ho; [|by rewrite Ho].
  remember (set_sem _ _ _) as l2 eqn:E.
  assert (onces l2 !! length (onces l) = Some true) as Ho2.
  { subst l2. cbn. apply list_lookup_insert_eq. rewrite length_app. cbn. lia. }
  refine (rtc_invariant _ (λ l, onces l !! _ = _) _ _ _ Hsteps Ho2).
  intros l4 l5 Ho4 Hs. by apply (limiter_step_once _ _ _ Hs).
Qed.

End limiter.

(** ** Witnesses: a bucket that counts its tokens down *)

Definition demoNew (_ : spec_float) (burst : Z) : Z := burst.
Definition demoAllowN (tokens _ n : Z) : bool * Z :=
  if n <=? tokens then (true, tokens - n) else (false, tokens).

Definition demo_cfg : RateLimitConfig := mkRateCfg (S754_zero false) 1 1 2 false.
Definition demo_ip : string := "10.0.0.1".

(** After one connection from [demo_ip]: its only token is spent. *)
Definition demo_l1 : connLimiter :=
  default (newConnLimiter demo_cfg)
    (allowIP demoNew demoAllowN [] [] 1000 demo_ip (Some (newConnLimiter demo_cfg))).2.

Lemma demo_l1_table : limiters demo_l1 = {[demo_ip := mkIpEntry 0 1000]}.
Proof. reflexivity. Qed.

Lemma enumerates_empty : enumerates (Limiter := Z) [] ∅.
Proof.
  split; [apply NoDup_nil_2|]. intros k. rewrite lookup_empty. split; [by intros ?%not_elem_of_nil|].
  by intros [? ?].
Qed.

Lemma enumerates_demo : enumerates [demo_ip] (limiters demo_l1).
Proof.
  rewrite demo_l1_table. split; [apply NoDup_singleton|]. intros k.
  rewrite list_elem_of_singleton, lookup_singleton_is_Some. naive_solver.
Qed.

Lemma demo_steps : rtc (limiter_step demoNew demoAllowN) (newConnLimiter demo_cfg) demo_l1.
Proof.
  apply rtc_once, (step_allow _ _ [] [] 1000 demo_ip _ true);
    [done|apply enumerates_empty|apply enumerates_empty|reflexivity].
Qed.

Lemma demo_l1_inv : limiter_inv demo_l1.
Proof.
  eapply rtc_invariant; [|exact demo_steps|apply newConnLimiter_inv].
  intros l l' Hl Hs. by apply (limiter_step_inv _ _ _ _ Hs).
Qed.

Lemma limiter_bounded_witness :
  rtc (limiter_step demoNew demoAllowN) (newConnLimiter demo_cfg) demo_l1 ∧
  Z.of_nat (size (limiters demo_l1)) <= 2 ∧ sem_len demo_l1 <= 1.
Proof.
  split; [exact demo_steps|].
  destruct (limiter_bounded demoNew demoAllowN demo_cfg demo_l1 demo_steps) as (H1 & H2 & _).
  exact (conj H1 H2).
Defined.

(** The second connection finds the bucket empty. *)
Lemma allowIP_isolated_witness :
  limiter_inv demo_l1 ∧
  (allowIP demoNew demoAllowN [demo_ip] [demo_ip] 2000 demo_ip (Some demo_l1)).1 = false.
Proof.
  split; [exact demo_l1_inv|].
  destruct (allowIP demoNew demoAllowN [demo_ip] [demo_ip] 2000 demo_ip (Some demo_l1))
    as [b [l'|]] eqn:E; [|discriminate E].
  exact (proj1 (allowIP_isolated demoNew demoAllowN [demo_ip] [demo_ip] 2000 demo_ip demo_l1 b l' demo_l1_inv eq_refl
                  enumerates_demo enumerates_demo E)).
Defined.

Lemma acquireSlot_permits_witness :
  limiter_inv demo_l1 ∧ (acquireSlot (Some demo_l1)).1.2 = true.
Proof.
  split; [exact demo_l1_inv|].
  destruct (acquireSlot (Some demo_l1)) as [[r b] [l'|]] eqn:E; [|discriminate E].
  exact (proj1 (acquireSlot_permits demoNew demoAllowN _ _ _ _ demo_l1_inv eq_refl E)).
Defined.
