(* ===== verification/Config.v ===== *)
(** * config.go and packetio.go: ciphers, configurations and their validation

    [Cipher] is a byte, as on the wire.  Of a [PacketIO] only the capabilities the
    program queries are kept: whether it prefixes packets with a virtio header,
    whether it implements [usoController] (and what [USOSupported] says), and
    whether it implements [batchReader].  Dialers, loggers, socket tuning and
    callbacks are not kept in the configurations. *)

From stdpp Require Import pretty.
From S2P Require Import Prelude Netip Users RateLimit.

(** ** Cipher *)

Definition Cipher : Type := byte.
Definition CipherNone : Cipher := x00.
Definition CipherAESGCM : Cipher := x01.
Definition CipherChaCha : Cipher := x02.
Definition CipherAES256GCM : Cipher := x03.

#[global] Instance Cipher_eq_dec : EqDecision Cipher := byte_eq_dec.

Definition Cipher_String (c : Cipher) : string :=
  if bool_decide (c = CipherNone) then "none"
  else if bool_decide (c = CipherAESGCM) then "aes-128-gcm"
  else if bool_decide (c = CipherChaCha) then "chacha20"
  else if bool_decide (c = CipherAES256GCM) then "aes-256-gcm"
  else "unknown(" +:+ pretty (Z.to_N (b2z c)) +:+ ")".

Definition ParseCipher (s : string) : result string Cipher :=
  if bool_decide (s ∈ [""; "none"]%string) then Ok CipherNone
  else if bool_decide (s ∈ ["aes-gcm"; "aes"; "aes-128-gcm"; "aes-128"]%string) then Ok CipherAESGCM
  else if bool_decide (s ∈ ["aes-256-gcm"; "aes-256"]%string) then Ok CipherAES256GCM
  else if bool_decide (s ∈ ["chacha20"; "chacha20-poly1305"]%string) then Ok CipherChaCha
  else Err s.

(** ** PacketIO *)

Record PacketIO : Type := mkPIO {
  VnetHdr : bool;
  uso : option bool;           (* usoController, with USOSupported() *)
  batch : bool                 (* batchReader *)
}.

(** All queues must agree, and there must be one. *)
Fixpoint all_uso (queues : list PacketIO) : bool :=
  match queues with
  | [] => true
  | q :: queues' =>
      match uso q with
      | None => false
      | Some supported => if negb supported then false else all_uso queues'
      end
  end.

Definition localUSO (queues : list PacketIO) : bool :=
  if all_uso queues then (0 <? length queues)%nat else false.

(** ** Configurations *)

Record ClientConfig : Type := mkClientCfg {
  Peer : string;
  cl_Lanes : Z;
  cl_Queues : list PacketIO;
  cl_StaticPrivateKey : list byte;
  cl_PeerPublicKey : list byte;
  cl_Cipher : Cipher;
  RequestIP : Addr;
  RequestIP6 : Addr
}.

(** nft_linux.go: the ruleset the server installs. *)
Record NFTConfig : Type := mkNFT {
  nft_Enabled : bool;
  nft_Family : string;
  nft_TableName : string;
  nft_TUNMatch : string;
  nft_Isolation : bool;
  nft_Masquerade : bool;
  nft_EgressInterface : string;
  nft_TPROXY : bool;
  nft_TPROXYPort : Z;
  nft_TPROXYMark : Z;
  nft_RouteTable : Z;
  nft_IPv4 : bool;
  nft_IPv6 : bool;
  nft_ServerIP4 : Addr;
  nft_ServerIP6 : Addr;
  nft_Accounting : bool;
  nft_PoolV4 : Prefix;
  nft_PoolV6 : Prefix
}.

Record TPROXYConfig : Type := mkTPROXY {
  tp_Enabled : bool;
  tp_ListenAddr : string;
  tp_ListenPort : Z;
  tp_UDPIdleTimeout : Z;
  tp_EnforceIsolation : bool;
  tp_PoolV4 : Prefix;
  tp_PoolV6 : Prefix;
  tp_ServerIP4 : Addr;
  tp_ServerIP6 : Addr
}.

Definition zeroNFT : NFTConfig :=
  mkNFT false EmptyString EmptyString EmptyString false false EmptyString false 0 0 0 false false
    AddrZero AddrZero false PrefixZero PrefixZero.
Definition zeroTPROXY : TPROXYConfig :=
  mkTPROXY false EmptyString 0 0 false PrefixZero PrefixZero AddrZero AddrZero.

Record ServerConfig : Type := mkServerCfg {
  Listen : string;
  Lanes : Z;
  Queues : list PacketIO;
  StaticPrivateKey : list byte;
  PeerPublicKey : list byte;
  cfg_Users : list User;
  cfg_Cipher : Cipher;
  AllowIP : string;
  MetricsAddr : string;
  RateLimit : RateLimitConfig;
  sv_MPTCP : bool;
  Subnet : Prefix;
  Subnet6 : Prefix;
  ServerIP : Addr;
  ServerIP6 : Addr;
  TUNName : string;
  sv_VnetHdr : bool;
  SharedTUNQueues : Z;
  NFT : NFTConfig;
  TPROXY : TPROXYConfig
}.

Inductive configError : Type :=
| EPeerRequired
| ELanes
| EQueues (have want : Z)
| EPrivKeyLen
| EPeerKeyRequired             (* client: server public key required with a static key *)
| EPeerKeyAlone                (* client: server public key without a static key *)
| EListenRequired
| EMultiNeedsKeys
| EServerIP4
| EServerIPOutside
| EServerIP6
| EServerIP6Outside.

Definition cl_keyed (c : ClientConfig) : bool := (0 <? length (cl_StaticPrivateKey c))%nat.
Definition sv_keyed (c : ServerConfig) : bool := (0 <? length (StaticPrivateKey c))%nat.

Definition ClientConfig_Validate (c : ClientConfig) : option configError :=
  if bool_decide (Peer c = EmptyString) then Some EPeerRequired
  else if cl_Lanes c <? 1 then Some ELanes
  else if negb (Z.of_nat (length (cl_Queues c)) =? cl_Lanes c)
  then Some (EQueues (Z.of_nat (length (cl_Queues c))) (cl_Lanes c))
  else if (0 <? length (cl_StaticPrivateKey c))%nat then
    if negb (length (cl_StaticPrivateKey c) =? pubKeyLen)%nat then Some EPrivKeyLen
    else if negb (length (cl_PeerPublicKey c) =? pubKeyLen)%nat then Some EPeerKeyRequired
    else None
  else if (0 <? length (cl_PeerPublicKey c))%nat then Some EPeerKeyAlone
  else None.

Definition ServerConfig_Validate (c : ServerConfig) : option configError :=
  if bool_decide (Listen c = EmptyString) then Some EListenRequired
  else if (0 <? length (StaticPrivateKey c))%nat && negb (length (StaticPrivateKey c) =? pubKeyLen)%nat
  then Some EPrivKeyLen
  else
    let hasAuth := (0 <? length (PeerPublicKey c))%nat || (0 <? length (cfg_Users c))%nat in
    let lanes :=
      if Lanes c <? 1 then Some ELanes
      else if negb (Z.of_nat (length (Queues c)) =? Lanes c)
      then Some (EQueues (Z.of_nat (length (Queues c))) (Lanes c))
      else None in
    let v6 :=
      if pfx_IsValid (Subnet6 c) then
        if negb (IsValid (ServerIP6 c)) || negb (Is6 (ServerIP6 c)) then Some EServerIP6
        else if negb (Contains (Subnet6 c) (ServerIP6 c)) then Some EServerIP6Outside
        else None
      else None in
    if pfx_IsValid (Subnet c) || pfx_IsValid (Subnet6 c) then
      if negb (sv_keyed c) || negb hasAuth then Some EMultiNeedsKeys
      else if pfx_IsValid (Subnet c) then
        if negb (IsValid (ServerIP c)) || negb (Is4 (ServerIP c)) then Some EServerIP4
        else if negb (Contains (Subnet c) (ServerIP c)) then Some EServerIPOutside
        else v6
      else v6
    else lanes.

(** ** What validation establishes *)

Definition key_ok (k : list byte) : Prop := k = [] ∨ length k = pubKeyLen.

Definition has_auth (c : ServerConfig) : Prop := PeerPublicKey c ≠ [] ∨ cfg_Users c ≠ [].

Definition multi_client (c : ServerConfig) : bool :=
  pfx_IsValid (Subnet c) || pfx_IsValid (Subnet6 c).

Record server_ok (c : ServerConfig) : Prop := {
  ok_listen : Listen c ≠ EmptyString;
  ok_key : key_ok (StaticPrivateKey c);
  ok_multi : multi_client c = true →
    StaticPrivateKey c ≠ [] ∧ has_auth c ∧
    (pfx_IsValid (Subnet c) = true → Is4 (ServerIP c) = true ∧ Contains (Subnet c) (ServerIP c) = true) ∧
    (pfx_IsValid (Subnet6 c) = true → Is6 (ServerIP6 c) = true ∧ Contains (Subnet6 c) (ServerIP6 c) = true);
  ok_single : multi_client c = false → 1 <= Lanes c ∧ Z.of_nat (length (Queues c)) = Lanes c
}.

Record client_ok (c : ClientConfig) : Prop := {
  ok_peer : Peer c ≠ EmptyString;
  ok_lanes : 1 <= cl_Lanes c ∧ Z.of_nat (length (cl_Queues c)) = cl_Lanes c;
  ok_keys : (cl_StaticPrivateKey c = [] ∧ cl_PeerPublicKey c = []) ∨
            (length (cl_StaticPrivateKey c) = pubKeyLen ∧ length (cl_PeerPublicKey c) = pubKeyLen)
}.

Lemma nonempty_length {A} (l : list A) : (0 <? length l)%nat = true ↔ l ≠ [].
Proof. destruct l; cbn; split; done. Qed.

Lemma empty_length {A} (l : list A) : (0 <? length l)%nat = false ↔ l = [].
Proof. destruct l; cbn; split; done. Qed.

Lemma Is4_valid a : Is4 a = true → IsValid a = true.
Proof. by destruct a. Qed.
Lemma Is6_valid a : Is6 a = true → IsValid a = true.
Proof. by destruct a. Qed.

(** One family of a multi-client configuration. *)
Lemma family_check (b v i c : bool) (e1 e2 : configError) (k : option configError) :
  (i = true → v = true) →
  (if b then if negb v || negb i then Some e1 else if negb c then Some e2 else k else k) = None ↔
  (b = true → i = true ∧ c = true) ∧ k = None.
Proof. intros Hv. destruct b, i, c; [rewrite Hv by done| | | | | | |]; destruct v; cbn; naive_solver. Qed.

Lemma ClientConfig_Validate_ok c : ClientConfig_Validate c = None ↔ client_ok c.
Proof.
  unfold ClientConfig_Validate. split.
  - intros H. repeat case_match; try done; bool_to_prop; split; try (done || lia || tauto).
    left. split; apply nil_length_inv; lia.
  - intros [Hp [Hl1 Hl2] Hk]. rewrite bool_decide_eq_false_2 by done.
    rewrite (proj2 (Z.ltb_ge _ _)), (proj2 (Z.eqb_eq _ _)) by lia. cbn [negb].
    destruct Hk as [[-> ->]|[H1 H2]]; [done|]. by rewrite H1, H2.
Qed.

Definition parses_back (c : Cipher) : bool :=
  match ParseCipher (Cipher_String c) with Ok c' => bool_decide (c' = c) | _ => false end.

(** [ParseCipher] inverts [String] exactly on the four suites: the text of any
    other cipher byte, which [String] renders as "unknown(n)", is refused. *)
Theorem ParseCipher_String c :
  ParseCipher (Cipher_String c) = Ok c ↔ c ∈ [CipherNone; CipherAESGCM; CipherChaCha; CipherAES256GCM].
Proof.
  transitivity (parses_back c = true); [unfold parses_back; split; [intros ->; by apply bool_decide_eq_true|]|].
  { destruct (ParseCipher _); try done. by intros ->%bool_decide_eq_true. }
  rewrite <-(bool_decide_eq_true (c ∈ _)). apply eq_iff_eq_true. apply eqb_prop. revert c. apply byte_forall.
  vm_compute. reflexivity.
Qed.

Lemma ServerConfig_Validate_ok c : ServerConfig_Validate c = None ↔ server_ok c.
Proof.
  unfold ServerConfig_Validate.
  assert (∀ k : list byte, (0 <? length k)%nat && negb (length k =? pubKeyLen)%nat = false ↔ key_ok k) as Hk.
  { intros k. unfold key_ok. destruct k; cbn [length Nat.ltb Nat.leb andb]; [naive_solver|].
    rewrite negb_false_iff, Nat.eqb_eq. naive_solver. }
  destruct (bool_decide (Listen c = EmptyString)) eqn:HL; bool_to_prop.
  { split; [done|]. by intros []. }
  destruct (_ && _) eqn:HK.
  { split; [done|]. intros [_ H%Hk _ _]. congruence. }
  apply Hk in HK. fold (multi_client c).
  destruct (multi_client c) eqn:HM; cycle 1.
  { destruct (Lanes c <? 1) eqn:?, (Z.of_nat (length (Queues c)) =? Lanes c) eqn:?; bool_to_prop;
      cbn [negb];
      (split; [intros; split; try (done || congruence || lia)|intros [_ _ _ Hs]; specialize (Hs HM); done || lia]). }
  enough (∀ P : Prop, (P ↔ (StaticPrivateKey c ≠ [] ∧ has_auth c ∧
      (pfx_IsValid (Subnet c) = true → Is4 (ServerIP c) = true ∧ Contains (Subnet c) (ServerIP c) = true) ∧
      (pfx_IsValid (Subnet6 c) = true → Is6 (ServerIP6 c) = true ∧ Contains (Subnet6 c) (ServerIP6 c) = true)))
    → P ↔ server_ok c) as Hok; [apply Hok; clear Hok|].
  - unfold has_auth, sv_keyed.
    destruct (0 <? length (StaticPrivateKey c))%nat eqn:HS; cbn [negb orb];
      [apply nonempty_length in HS|apply empty_length in HS; split; [done|by intros [? _]]].
    destruct (_ || _) eqn:HA; cbn [negb].
    + rewrite family_check by apply Is4_valid.
      rewrite (family_check _ _ _ _ _ _ None) by apply Is6_valid.
      apply orb_true_iff in HA. rewrite !nonempty_length in HA. tauto.
    + apply orb_false_iff in HA. rewrite !empty_length in HA. split; [done|tauto].
  - intros P HP. rewrite HP. split; [intros H; split; done || congruence|by intros []; auto].
Qed.

(** [ServerConfig.Validate] accepts exactly the consistent configurations: in
    multi-client mode a 32-byte server key, an authorized peer or user, and for
    each configured family a server address of that family inside the subnet; in
    single-client mode one queue per lane. *)
Theorem ServerConfig_Validate_iff c : ServerConfig_Validate c = None ↔ server_ok c.
Proof. apply ServerConfig_Validate_ok. Qed.
