(* ===== verification/YamlConfig.v ===== *)
(** * yaml_config.go: from the configuration file to the server configuration

    [FileConfig] is the decoded document (decoding is gopkg.in/yaml.v3, outside this
    repository); a pointer field is an option.  [ApplyServer] overlays it on the
    configuration built from the command line.  On an error the Go code leaves its
    argument partly updated and the caller exits; here only the error is returned. *)

From S2P Require Import Prelude Netip Users Keys NetipText RateLimit Config.

(** ** The document *)

Record RateLimitFile : Type := mkRateFile {
  rl_Disabled : bool;
  rl_PerIPPerSec : SpecFloat.spec_float;
  rl_PerIPBurst : Z;
  rl_MaxInFlight : Z;
  rl_MaxIPEntries : Z
}.

Record BrutalConfig : Type := mkBrutal { br_Enabled : bool; RateMbps : Z }.

Record PoolConfig : Type := mkPoolCfg {
  V4Subnet : string;
  V6Subnet : string;
  pc_ServerIP4 : string;
  pc_ServerIP6 : string
}.

Record UserFile : Type := mkUserFile {
  uf_Name : string;
  uf_PublicKey : string;
  uf_MaxConcurrent : Z;
  uf_Reserved : list string
}.

Record ForwardConfig : Type := mkForward {
  Isolation : bool;
  Masquerade : bool;
  fw_TPROXY : bool;
  Metering : bool;
  TPROXYListenPort : Z;
  TPROXYFwmark : Z;
  TPROXYTable : Z;
  EgressInterface : string;
  TUNMatch : string
}.

Record NFTFileConfig : Type := mkNFTFile { nf_Enabled : option bool; nf_TableName : string; nf_Family : string }.

Record TPROXYFileConf : Type := mkTPROXYFile {
  tf_Enabled : option bool;
  tf_ListenAddr : string;
  tf_ListenPort : Z;
  tf_Family : string;
  UDPIdleSecs : Z;
  EnforceIso : option bool
}.

Record FileConfig : Type := mkFileCfg {
  fc_Listen : string;
  fc_Lanes : Z;
  fc_MPTCP : bool;
  fc_Cipher : string;
  BBR : option bool;
  fc_VnetHdr : option bool;
  fc_AllowIP : string;
  fc_TUNName : string;
  ServerKey : string;
  PeerPubKey : string;
  Brutal : BrutalConfig;
  Pool : PoolConfig;
  fc_Users : list UserFile;
  fc_RateLimit : RateLimitFile;
  Forward : ForwardConfig;
  fc_NFT : NFTFileConfig;
  fc_TPROXY : TPROXYFileConf
}.

Inductive yamlError : Type :=
| EUserKeyText (i : nat) (name : string) (e : keyError)
| EUserKeyMissing (i : nat) (name : string)
| EUserReserved (name addr : string)
| EServerKeyText (e : keyError)
| EPeerKeyText (e : keyError)
| ECipherText (e : string)
| EV4Subnet | EServerIP4Text | EV6Subnet | EServerIP6Text.

(** ** Users *)

Fixpoint parse_reserved (name : string) (rs : list string) : result yamlError (list Addr) :=
  match rs with
  | [] => Ok []
  | s :: rs' =>
      match ParseAddr s with
      | None => Err (EUserReserved name s)
      | Some a => let? l := parse_reserved name rs' in Ok (a :: l)
      end
  end.

Definition to_user (i : nat) (u : UserFile) : result yamlError User :=
  match ParseKey (uf_PublicKey u) with
  | Err e => Err (EUserKeyText i (uf_Name u) e)
  | Panic => Panic
  | Ok pub =>
      if (length pub =? 0)%nat then Err (EUserKeyMissing i (uf_Name u))
      else
        let? reserved := parse_reserved (uf_Name u) (uf_Reserved u) in
        Ok (mkUser (uf_Name u) pub (uf_MaxConcurrent u) reserved)
  end.

Fixpoint to_users (i : nat) (us : list UserFile) : result yamlError (list User) :=
  match us with
  | [] => Ok []
  | u :: us' => let? x := to_user i u in let? xs := to_users (S i) us' in Ok (x :: xs)
  end.

Definition ToUsers (fc : FileConfig) : result yamlError (list User) := to_users 0 (fc_Users fc).

(** ** The overlay *)

Definition CipherChoice (fc : FileConfig) : result yamlError Cipher :=
  if bool_decide (fc_Cipher fc = EmptyString) then Ok CipherNone
  else match ParseCipher (fc_Cipher fc) with
       | Ok c => Ok c
       | Err e => Err (ECipherText e)
       | Panic => Panic
       end.

Definition WantBBR (fc : FileConfig) : bool := default true (BBR fc).

(** A key of the file is used only when the configuration has none. *)
Definition pick_key (have : list byte) (text : string) (fail : keyError → yamlError)
    : result yamlError (list byte) :=
  if (length have =? 0)%nat && negb (bool_decide (text = EmptyString)) then
    match ParseKey text with
    | Ok k => Ok k
    | Err e => Err (fail e)
    | Panic => Panic
    end
  else Ok have.

Definition pick_prefix (have : Prefix) (text : string) (fail : yamlError) : result yamlError Prefix :=
  if negb (bool_decide (text = EmptyString)) then
    match ParsePrefix text with Some p => Ok p | None => Err fail end
  else Ok have.

(** The server address of one family; [fam] tests the family. *)
Definition pick_addr (fam : Addr → bool) (have : Addr) (text : string) (fail : yamlError) : result yamlError Addr :=
  if negb (bool_decide (text = EmptyString)) then
    match ParseAddr text with
    | Some a => if negb (fam a) then Err fail else Ok a
    | None => Err fail
    end
  else Ok have.

Definition nft_of (fc : FileConfig) (sn sn6 : Prefix) (ip ip6 : Addr) : NFTConfig :=
  let fwd := Forward fc in
  let nftWanted := Isolation fwd || Masquerade fwd || fw_TPROXY fwd || Metering fwd in
  mkNFT (default nftWanted (nf_Enabled (fc_NFT fc)))
    (nf_Family (fc_NFT fc)) (nf_TableName (fc_NFT fc)) (TUNMatch fwd) (Isolation fwd) (Masquerade fwd)
    (EgressInterface fwd) (fw_TPROXY fwd) (TPROXYListenPort fwd) (TPROXYFwmark fwd) (TPROXYTable fwd)
    (pfx_IsValid sn || (negb (pfx_IsValid sn) && negb (pfx_IsValid sn6))) (pfx_IsValid sn6)
    ip ip6 (Metering fwd) sn sn6.

Definition tproxy_of (fc : FileConfig) (sn sn6 : Prefix) (ip ip6 : Addr) : TPROXYConfig :=
  let fwd := Forward fc in
  let t := fc_TPROXY fc in
  mkTPROXY (default (fw_TPROXY fwd) (tf_Enabled t)) (tf_ListenAddr t)
    (if negb (tf_ListenPort t =? 0) then tf_ListenPort t else TPROXYListenPort fwd)
    (if 0 <? UDPIdleSecs t then swrap 64 (UDPIdleSecs t * Second) else 0)
    (default (Isolation fwd) (EnforceIso t)) sn sn6 ip ip6.

Definition applyForward (fc : FileConfig) (c : ServerConfig) : ServerConfig :=
  mkServerCfg (Listen c) (Lanes c) (Queues c) (StaticPrivateKey c) (PeerPublicKey c) (cfg_Users c)
    (cfg_Cipher c) (AllowIP c) (MetricsAddr c) (RateLimit c) (sv_MPTCP c) (Subnet c) (Subnet6 c)
    (ServerIP c) (ServerIP6 c) (TUNName c) (sv_VnetHdr c) (SharedTUNQueues c)
    (nft_of fc (Subnet c) (Subnet6 c) (ServerIP c) (ServerIP6 c))
    (tproxy_of fc (Subnet c) (Subnet6 c) (ServerIP c) (ServerIP6 c)).

(** A string of the file is used only when the configuration has none. *)
Definition pick_string (have text : string) : string :=
  if bool_decide (have = EmptyString) && negb (bool_decide (text = EmptyString)) then text else have.

Definition ApplyServer (fc : FileConfig) (c : ServerConfig) : result yamlError ServerConfig :=
  let? key := pick_key (StaticPrivateKey c) (ServerKey fc) EServerKeyText in
  let? peer := pick_key (PeerPublicKey c) (PeerPubKey fc) EPeerKeyText in
  let? ciph := if bool_decide (cfg_Cipher c = CipherNone) then CipherChoice fc else Ok (cfg_Cipher c) in
  let rl := fc_RateLimit fc in
  let? sn := pick_prefix (Subnet c) (V4Subnet (Pool fc)) EV4Subnet in
  let? ip := pick_addr Is4 (ServerIP c) (pc_ServerIP4 (Pool fc)) EServerIP4Text in
  let? sn6 := pick_prefix (Subnet6 c) (V6Subnet (Pool fc)) EV6Subnet in
  let? ip6 := pick_addr Is6 (ServerIP6 c) (pc_ServerIP6 (Pool fc)) EServerIP6Text in
  let? users := ToUsers fc in
  Ok (applyForward fc
    (mkServerCfg (pick_string (Listen c) (fc_Listen fc))
      (if (Lanes c =? 0) && negb (fc_Lanes fc =? 0) then fc_Lanes fc else Lanes c)
      (Queues c) key peer (if (0 <? length users)%nat then users else cfg_Users c) ciph
      (pick_string (AllowIP c) (fc_AllowIP fc)) (MetricsAddr c)
      (mkRateCfg (rl_PerIPPerSec rl) (rl_PerIPBurst rl) (rl_MaxInFlight rl) (rl_MaxIPEntries rl) (rl_Disabled rl))
      (if negb (sv_MPTCP c) && fc_MPTCP fc then true else sv_MPTCP c)
      sn sn6 ip ip6 (pick_string (TUNName c) (fc_TUNName fc))
      (default (sv_VnetHdr c) (fc_VnetHdr fc)) (SharedTUNQueues c) (NFT c) (TPROXY c))).

(** ** Users of the file *)

(** What decoding establishes of each user, before the list is checked as a whole. *)
Definition decoded (f : UserFile) (u : User) : Prop :=
  Name u = uf_Name f ∧ MaxConcurrent u = uf_MaxConcurrent f ∧
  ParseKey (uf_PublicKey f) = Ok (PublicKey u) ∧ length (PublicKey u) = pubKeyLen ∧
  Forall2 (λ s a, ParseAddr s = Some a) (uf_Reserved f) (Reserved u).

Lemma parse_reserved_spec name rs :
  match parse_reserved name rs with
  | Ok l => Forall2 (λ s a, ParseAddr s = Some a) rs l
  | Err _ => Exists (λ s, ParseAddr s = None) rs
  | Panic => False
  end.
Proof.
  induction rs as [|s rs IH]; cbn [parse_reserved]; [constructor|].
  destruct (ParseAddr s) as [a|] eqn:Ha; [|by left].
  destruct (parse_reserved name rs); cbn [rbind]; [by constructor|by right|done].
Qed.

Lemma to_user_spec i f :
  match to_user i f with
  | Ok u => decoded f u
  | Err _ => ¬ ∃ u, decoded f u
  | Panic => False
  end.
Proof.
  unfold to_user, decoded. pose proof (ParseKey_spec (uf_PublicKey f)) as Hk.
  destruct (ParseKey (uf_PublicKey f)) as [pub|e|] eqn:E; [|naive_solver|done].
  destruct (length pub =? 0)%nat eqn:H0; bool_to_prop.
  { intros (u & _ & _ & [= <-] & Hl & _). rewrite H0 in Hl. discriminate. }
  assert (length pub = pubKeyLen) as Hl by (case_bool_decide; subst; done).
  pose proof (parse_reserved_spec (uf_Name f) (uf_Reserved f)) as Hr.
  destruct (parse_reserved _ _) as [l|e|]; cbn [rbind]; [done| |done].
  intros (u & _ & _ & _ & _ & Hf). apply Exists_exists in Hr as (s & Hs & Hn).
  apply list_elem_of_lookup in Hs as [j Hj]. destruct (Forall2_lookup_l _ _ _ _ _ Hf Hj) as (a & _ & Ha). congruence.
Qed.

Lemma to_users_spec i fs :
  match to_users i fs with
  | Ok us => Forall2 decoded fs us
  | Err _ => Exists (λ f, ¬ ∃ u, decoded f u) fs
  | Panic => False
  end.
Proof.
  revert i. induction fs as [|f fs IH]; intros i; cbn [to_users]; [constructor|].
  pose proof (to_user_spec i f) as Hu. destruct (to_user i f) as [u|e|]; cbn [rbind]; [|by left|done].
  specialize (IH (S i)). destruct (to_users (S i) fs); cbn [rbind]; [by constructor|by right|done].
Qed.

(** ** The pieces of the overlay *)

Lemma pick_key_Ok have text fail k :
  pick_key have text fail = Ok k →
  (have ≠ [] → k = have) ∧ (key_ok have → key_ok k) ∧ pick_key k text fail = Ok k.
Proof.
  unfold pick_key, key_ok. pose proof (ParseKey_spec text) as Ht. intros H.
  destruct (length have =? 0)%nat eqn:E0; cbn [andb] in H; bool_to_prop.
  - apply nil_length_inv in E0 as ->. destruct (bool_decide (text = EmptyString)) eqn:Et; cbn [negb] in *.
    + injection H as <-. split_and!; done.
    + destruct (ParseKey text) as [b| |]; try done. injection H as <-.
      split_and!; [done|by right|]. by rewrite Ht.
  - injection H as <-. split_and!; [done|done|]. by rewrite (proj2 (Nat.eqb_neq _ _) E0).
Qed.

Lemma pick_prefix_Ok have text fail p :
  pick_prefix have text fail = Ok p →
  (text ≠ EmptyString → ParsePrefix text = Some p) ∧ (text = EmptyString → p = have) ∧
  (prefix_wf have → prefix_wf p) ∧ pick_prefix p text fail = Ok p.
Proof.
  unfold pick_prefix. case_bool_decide as Ht; cbn [negb]; [by intros [= <-]|].
  destruct (ParsePrefix text) as [q|] eqn:Hq; [|done]. intros [= <-].
  split_and!; [done|done| |done]. intros _. by eapply ParsePrefix_valid.
Qed.

Lemma pick_addr_Ok fam have text fail a :
  pick_addr fam have text fail = Ok a →
  (text ≠ EmptyString → ParseAddr text = Some a ∧ fam a = true) ∧ (text = EmptyString → a = have) ∧
  pick_addr fam a text fail = Ok a.
Proof.
  unfold pick_addr. case_bool_decide as Ht; cbn [negb]; [by intros [= <-]|].
  destruct (ParseAddr text) as [q|] eqn:Hq; [|done]. destruct (fam q) eqn:Hf; cbn [negb]; [|done].
  by intros [= <-].
Qed.

Lemma pick_string_idem have text : pick_string (pick_string have text) text = pick_string have text.
Proof. unfold pick_string. by repeat case_bool_decide. Qed.

(** All the choices of a successful overlay. *)
Record overlay (fc : FileConfig) (c c' : ServerConfig) : Prop := {
  ov_key : pick_key (StaticPrivateKey c) (ServerKey fc) EServerKeyText = Ok (StaticPrivateKey c');
  ov_peer : pick_key (PeerPublicKey c) (PeerPubKey fc) EPeerKeyText = Ok (PeerPublicKey c');
  ov_cipher : (if bool_decide (cfg_Cipher c = CipherNone) then CipherChoice fc else Ok (cfg_Cipher c)) = Ok (cfg_Cipher c');
  ov_subnet : pick_prefix (Subnet c) (V4Subnet (Pool fc)) EV4Subnet = Ok (Subnet c');
  ov_ip : pick_addr Is4 (ServerIP c) (pc_ServerIP4 (Pool fc)) EServerIP4Text = Ok (ServerIP c');
  ov_subnet6 : pick_prefix (Subnet6 c) (V6Subnet (Pool fc)) EV6Subnet = Ok (Subnet6 c');
  ov_ip6 : pick_addr Is6 (ServerIP6 c) (pc_ServerIP6 (Pool fc)) EServerIP6Text = Ok (ServerIP6 c');
  ov_users : ∃ us, ToUsers fc = Ok us ∧ cfg_Users c' = (if (0 <? length us)%nat then us else cfg_Users c);
  ov_rest :
    Listen c' = pick_string (Listen c) (fc_Listen fc) ∧
    Lanes c' = (if (Lanes c =? 0) && negb (fc_Lanes fc =? 0) then fc_Lanes fc else Lanes c) ∧
    Queues c' = Queues c ∧ AllowIP c' = pick_string (AllowIP c) (fc_AllowIP fc) ∧
    TUNName c' = pick_string (TUNName c) (fc_TUNName fc) ∧ sv_VnetHdr c' = default (sv_VnetHdr c) (fc_VnetHdr fc) ∧
    sv_MPTCP c' = (if negb (sv_MPTCP c) && fc_MPTCP fc then true else sv_MPTCP c) ∧
    RateLimit c' = (let rl := fc_RateLimit fc in
      mkRateCfg (rl_PerIPPerSec rl) (rl_PerIPBurst rl) (rl_MaxInFlight rl) (rl_MaxIPEntries rl) (rl_Disabled rl));
  ov_forward : applyForward fc c' = c'
}.

Lemma rbind_Ok {E A B} (m : result E A) (k : A → result E B) b :
  rbind m k = Ok b → ∃ a, m = Ok a ∧ k a = Ok b.
Proof. destruct m; cbn; [eauto|done|done]. Qed.

Lemma ApplyServer_overlay fc c c' : ApplyServer fc c = Ok c' → overlay fc c c'.
Proof.
  unfold ApplyServer. intros H.
  repeat match type of H with
         | rbind _ _ = Ok _ => let E := fresh "E" in apply rbind_Ok in H as (? & E & H)
         end.
  injection H as <-. split; cbn [applyForward Listen Lanes Queues StaticPrivateKey PeerPublicKey cfg_Users
    cfg_Cipher AllowIP Subnet Subnet6 ServerIP ServerIP6 TUNName sv_VnetHdr sv_MPTCP RateLimit]; eauto. by split_and!.
Qed.

(** ** Theorems *)

(** What the command line establishes of its keys and subnets (it parses them with
    the same functions). *)
Record parsed (c : ServerConfig) : Prop := {
  pr_key : key_ok (StaticPrivateKey c);
  pr_peer : key_ok (PeerPublicKey c);
  pr_subnet : prefix_wf (Subnet c);
  pr_subnet6 : prefix_wf (Subnet6 c);
  pr_ip : IsValid (ServerIP c) = true → Is4 (ServerIP c) = true;
  pr_ip6 : IsValid (ServerIP6 c) = true → Is6 (ServerIP6 c) = true
}.

(** What validation still has to look at in a parsed configuration: presence and
    agreement, not form. *)
Definition complete (c : ServerConfig) : Prop :=
  Listen c ≠ EmptyString ∧
  if multi_client c then
    StaticPrivateKey c ≠ [] ∧ has_auth c ∧
    (pfx_IsValid (Subnet c) = true → Contains (Subnet c) (ServerIP c) = true) ∧
    (pfx_IsValid (Subnet6 c) = true → Contains (Subnet6 c) (ServerIP6 c) = true)
  else 1 <= Lanes c ∧ Z.of_nat (length (Queues c)) = Lanes c.

Lemma Contains_valid p a : Contains p a = true → IsValid a = true.
Proof.
  unfold Contains. destruct (_ || _); [done|]. destruct a; [|done..].
  cbn [BitLen]. by rewrite orb_true_r.
Qed.

Lemma parsed_server_ok c : parsed c → server_ok c ↔ complete c.
Proof.
  intros [Hk _ _ _ H4 H6]. unfold complete. split.
  - intros [Hl _ Hm Hs]. split; [done|]. destruct (multi_client c); [|auto].
    destruct (Hm eq_refl) as (? & ? & A & B). split_and!; try done; intros E; [by apply A|by apply B].
  - intros [Hl Hc]. split; [done|done| |]; intros Hm; rewrite Hm in Hc; [|done].
    destruct Hc as (? & ? & A & B). split_and!; try done; intros E.
    + split; [|auto]. apply H4, (Contains_valid _ _ (A E)).
    + split; [|auto]. apply H6, (Contains_valid _ _ (B E)).
Qed.

Lemma ApplyServer_parsed fc c c' : parsed c → overlay fc c c' → parsed c'.
Proof.
  intros [Hk Hp Hs Hs6 H4 H6] Hov. split.
  - by apply (pick_key_Ok _ _ _ _ (ov_key _ _ _ Hov)).
  - by apply (pick_key_Ok _ _ _ _ (ov_peer _ _ _ Hov)).
  - by apply (pick_prefix_Ok _ _ _ _ (ov_subnet _ _ _ Hov)).
  - by apply (pick_prefix_Ok _ _ _ _ (ov_subnet6 _ _ _ Hov)).
  - destruct (pick_addr_Ok _ _ _ _ _ (ov_ip _ _ _ Hov)) as (A & B & _).
    destruct (decide (pc_ServerIP4 (Pool fc) = EmptyString)) as [E|E]; [by rewrite (B E)|by intros _; apply A].
  - destruct (pick_addr_Ok _ _ _ _ _ (ov_ip6 _ _ _ Hov)) as (A & B & _).
    destruct (decide (pc_ServerIP6 (Pool fc) = EmptyString)) as [E|E]; [by rewrite (B E)|by intros _; apply A].
Qed.

(** C26: A file applied to a command line leaves a well-formed configuration.  Keys
    are absent or 32 bytes, subnets are those of [ParsePrefix], the server addresses
    are of their family, and a user list of the file has 32-byte keys and valid
    reservations; so validation accepts the result exactly when nothing is missing
    and the addresses agree, and a user list it passes on fails later only for
    empty or repeated names, repeated keys, negative quotas or conflicting
    reservations. *)
Theorem ApplyServer_wf fc c c' :
  parsed c → ApplyServer fc c = Ok c' →
  parsed c' ∧ (ServerConfig_Validate c' = None ↔ complete c') ∧
  (fc_Users fc ≠ [] → Forall2 decoded (fc_Users fc) (cfg_Users c') ∧
     ∀ u, u ∈ cfg_Users c' → length (PublicKey u) = pubKeyLen ∧ Forall (λ r, IsValid r = true) (Reserved u)).
Proof.
  intros Hp Hov%ApplyServer_overlay. pose proof (ApplyServer_parsed _ _ _ Hp Hov) as Hc'.
  split; [done|]. split; [rewrite ServerConfig_Validate_ok; by apply parsed_server_ok|]. intros Hne.
  destruct (ov_users _ _ _ Hov) as (us & Hus & ->). pose proof (to_users_spec 0 (fc_Users fc)) as Ht.
  unfold ToUsers in Hus. rewrite Hus in Ht.
  assert ((0 <? length us)%nat = true) as ->.
  { apply Forall2_length in Ht. destruct (fc_Users fc); [done|]. rewrite <-Ht. by cbn. }
  split; [done|]. intros u Hu. apply list_elem_of_lookup in Hu as [i Hi].
  destruct (Forall2_lookup_r _ _ _ _ _ Ht Hi) as (f & _ & (_ & _ & _ & Hl & Hr)). split; [done|].
  apply Forall_forall. intros r Hin. apply list_elem_of_lookup in Hin as [j Hj].
  destruct (Forall2_lookup_r _ _ _ _ _ Hr Hj) as (s & _ & Ha). by eapply ParseAddr_valid.
Qed.

(** Applying a file again changes nothing: the overlay is idempotent. *)
Theorem ApplyServer_idempotent fc c c' : ApplyServer fc c = Ok c' → ApplyServer fc c' = Ok c'.
Proof.
  intros H. destruct (ApplyServer_overlay _ _ _ H) as [Hk Hp Hc Hs Hi Hs6 Hi6 (us & Hus & Hu) (HL & Hn & _ & HA & HT & HV & HM & HR) Hf].
  assert ((if bool_decide (cfg_Cipher c' = CipherNone) then CipherChoice fc else Ok (cfg_Cipher c')) = Ok (cfg_Cipher c'))
    as Hc'.
  { destruct (bool_decide (cfg_Cipher c' = CipherNone)) eqn:E'; [|done]. apply bool_decide_eq_true in E'.
    destruct (bool_decide (cfg_Cipher c = CipherNone)) eqn:E; [done|]. apply bool_decide_eq_false in E.
    injection Hc as Hc. by rewrite Hc in E. }
  unfold ApplyServer.
  rewrite (proj2 (proj2 (pick_key_Ok _ _ _ _ Hk))), (proj2 (proj2 (pick_key_Ok _ _ _ _ Hp))), Hc'.
  rewrite (proj2 (proj2 (proj2 (pick_prefix_Ok _ _ _ _ Hs)))), (proj2 (proj2 (pick_addr_Ok _ _ _ _ _ Hi))).
  rewrite (proj2 (proj2 (proj2 (pick_prefix_Ok _ _ _ _ Hs6)))), (proj2 (proj2 (pick_addr_Ok _ _ _ _ _ Hi6))), Hus.
  cbn [rbind]. rewrite HL, HA, HT, !pick_string_idem, <-HL, <-HA, <-HT.
  transitivity (Ok (E := yamlError) (applyForward fc c')); [do 2 f_equal|by rewrite Hf]. clear Hk Hp Hc Hc' Hs Hi Hs6 Hi6 Hf H HL HA HT.
  destruct c' as [L n Q K P U C A MA R M S1 S6 I1 I6 T V SQ NF TP]. cbn in *. subst. f_equal.
  - by destruct (Lanes c =? 0) eqn:E1, (fc_Lanes fc =? 0) eqn:E2; cbn; rewrite ?E1, ?E2.
  - by destruct us.
  - by destruct (sv_MPTCP c), (fc_MPTCP fc).
  - by destruct (fc_VnetHdr fc).
Qed.

(** C32: Precedence.  The listen address, lane count, allow list, device name, keys
    and cipher of the command line win over the file; the subnets, server
    addresses, virtio header setting and users of the file win over the command
    line (unlike what the comment on [ApplyServer] says for values set in both). *)
Theorem ApplyServer_precedence fc c c' :
  ApplyServer fc c = Ok c' →
  ((Listen c ≠ EmptyString → Listen c' = Listen c) ∧ (Lanes c ≠ 0 → Lanes c' = Lanes c) ∧
   (AllowIP c ≠ EmptyString → AllowIP c' = AllowIP c) ∧ (TUNName c ≠ EmptyString → TUNName c' = TUNName c) ∧
   (StaticPrivateKey c ≠ [] → StaticPrivateKey c' = StaticPrivateKey c) ∧
   (PeerPublicKey c ≠ [] → PeerPublicKey c' = PeerPublicKey c) ∧
   (cfg_Cipher c ≠ CipherNone → cfg_Cipher c' = cfg_Cipher c)) ∧
  ((V4Subnet (Pool fc) ≠ EmptyString → ParsePrefix (V4Subnet (Pool fc)) = Some (Subnet c')) ∧
   (V6Subnet (Pool fc) ≠ EmptyString → ParsePrefix (V6Subnet (Pool fc)) = Some (Subnet6 c')) ∧
   (pc_ServerIP4 (Pool fc) ≠ EmptyString → ParseAddr (pc_ServerIP4 (Pool fc)) = Some (ServerIP c')) ∧
   (pc_ServerIP6 (Pool fc) ≠ EmptyString → ParseAddr (pc_ServerIP6 (Pool fc)) = Some (ServerIP6 c')) ∧
   (∀ b, fc_VnetHdr fc = Some b → sv_VnetHdr c' = b) ∧
   (fc_Users fc ≠ [] → ToUsers fc = Ok (cfg_Users c'))).
Proof.
  intros Hov%ApplyServer_overlay.
  destruct (ov_rest _ _ _ Hov) as (HL & Hn & _ & HA & HT & HV & _ & _). unfold pick_string in *.
  split; split_and!.
  - intros E. by rewrite HL, (bool_decide_eq_false_2 (Listen c = _)).
  - intros E. by rewrite Hn, (proj2 (Z.eqb_neq _ _) E).
  - intros E. by rewrite HA, (bool_decide_eq_false_2 (AllowIP c = _)).
  - intros E. by rewrite HT, (bool_decide_eq_false_2 (TUNName c = _)).
  - apply (pick_key_Ok _ _ _ _ (ov_key _ _ _ Hov)).
  - apply (pick_key_Ok _ _ _ _ (ov_peer _ _ _ Hov)).
  - intros E. pose proof (ov_cipher _ _ _ Hov) as Hc. rewrite bool_decide_eq_false_2 in Hc by done.
    by injection Hc.
  - apply (pick_prefix_Ok _ _ _ _ (ov_subnet _ _ _ Hov)).
  - apply (pick_prefix_Ok _ _ _ _ (ov_subnet6 _ _ _ Hov)).
  - intros E. by apply (pick_addr_Ok _ _ _ _ _ (ov_ip _ _ _ Hov)).
  - intros E. by apply (pick_addr_Ok _ _ _ _ _ (ov_ip6 _ _ _ Hov)).
  - intros b E. by rewrite HV, E.
  - intros E. destruct (ov_users _ _ _ Hov) as (us & Hus & ->). rewrite Hus.
    pose proof (to_users_spec 0 (fc_Users fc)) as Ht. unfold ToUsers in Hus. rewrite Hus in Ht.
    apply Forall2_length in Ht. destruct us; [|done]. by destruct (fc_Users fc).
Qed.

(** ** Witnesses: the configuration of the repository's test *)

Definition demo_file : FileConfig :=
  mkFileCfg "0.0.0.0:4500" 4 false "aes-gcm" (Some true) None EmptyString EmptyString
    (FormatKey (replicate 32 xcc)) EmptyString (mkBrutal false 0)
    (mkPoolCfg "10.66.0.0/24" EmptyString "10.66.0.1" EmptyString)
    [mkUserFile "alice" (FormatKey (replicate 32 xaa)) 3 []; mkUserFile "bob" (FormatKey (replicate 32 xbb)) 2 ["10.66.0.5"%string]]
    (mkRateFile false (SpecFloat.S754_zero false) 0 0 0)
    (mkForward true true false true 0 0 0 EmptyString EmptyString)
    (mkNFTFile None EmptyString EmptyString)
    (mkTPROXYFile None EmptyString 0 EmptyString 0 None).

(** A command line with another subnet and a listen address. *)
Definition demo_cli : ServerConfig :=
  mkServerCfg "[::]:443" 0 [] [] [] [] CipherNone EmptyString EmptyString demo_cfg false
    (PrefixFrom (Addr4 [# x0a; x01; x00; x00]) 16) PrefixZero (Addr4 [# x0a; x01; x00; x01]) AddrZero
    EmptyString false 0 zeroNFT zeroTPROXY.

Definition demo_applied : ServerConfig := default demo_cli (ok (ApplyServer demo_file demo_cli)).

Lemma demo_applied_Ok : ApplyServer demo_file demo_cli = Ok demo_applied.
Proof. apply ok_default. vm_compute. reflexivity. Qed.

Lemma demo_cli_parsed : parsed demo_cli.
Proof. split; try (by left) || apply PrefixFrom_wf || done. Qed.

Lemma ApplyServer_wf_witness :
  parsed demo_applied ∧ ServerConfig_Validate demo_applied = None ∧ length (cfg_Users demo_applied) = 2%nat.
Proof.
  destruct (ApplyServer_wf demo_file demo_cli demo_applied demo_cli_parsed demo_applied_Ok) as (Hp & _ & Hu).
  split; [exact Hp|]. split; [vm_compute; reflexivity|].
  destruct Hu as [Hf _]; [discriminate|]. apply Forall2_length in Hf. rewrite <-Hf. reflexivity.
Defined.

Lemma ApplyServer_idempotent_witness : ApplyServer demo_file demo_applied = Ok demo_applied.
Proof. exact (ApplyServer_idempotent demo_file demo_cli demo_applied demo_applied_Ok). Defined.

Lemma ApplyServer_precedence_witness :
  Listen demo_applied = "[::]:443"%string ∧ ParsePrefix "10.66.0.0/24" = Some (Subnet demo_applied).
Proof.
  destruct (ApplyServer_precedence demo_file demo_cli demo_applied demo_applied_Ok) as [(HL & _) (HS & _)].
  split; [apply HL; discriminate|apply HS; discriminate].
Defined.
