(* ===== verification/Nft.v ===== *)
(** * nft_linux.go: the nftables ruleset and its installation

    [buildScript] renders the script line by line as the Go code does; [ruleset] is
    the ruleset it is meant to say, and the text is shown to be its rendering.  The
    nft and ip programs are a parameter, [exec]: a state transformer that succeeds
    ([None]) or fails with its trimmed standard error and the exit error's text.
    The commands issued are kept in a trace.  [%q] of an interface name
    ([strconv.Quote]) is the parameter [quote]. *)

From S2P Require Import Prelude Netip Users Keys NetipText RateLimit Config.

Definition nl : string := string_of [x0a].

(** [strings.Contains(s, sub)]. *)
Fixpoint has_prefix (p s : list byte) : bool :=
  match p, s with
  | [], _ => true
  | a :: p', b :: s' => bool_decide (a = b) && has_prefix p' s'
  | _, [] => false
  end.
Fixpoint has_infix (p s : list byte) : bool :=
  has_prefix p s || match s with [] => false | _ :: s' => has_infix p s' end.
Definition contains (s sub : string) : bool := has_infix (bytes_of sub) (bytes_of s).

(** ** Defaults *)

Inductive nftNewError : Type := ENoBinary.

Definition def_string (s d : string) : string := if bool_decide (s = EmptyString) then d else s.
Definition def_int (n d : Z) : Z := if n =? 0 then d else n.

(** [found] is the outcome of looking up the nft binary. *)
Definition NewNFTInstaller (found : bool) (c : NFTConfig) : result nftNewError NFTConfig :=
  if negb (nft_Enabled c) then Ok c
  else
    let port := if nft_TPROXY c then def_int (nft_TPROXYPort c) 13338 else nft_TPROXYPort c in
    let neither := nft_TPROXY c && negb (nft_IPv4 c) && negb (nft_IPv6 c) in
    let c' :=
      mkNFT (nft_Enabled c) (def_string (nft_Family c) "inet") (def_string (nft_TableName c) "packethose")
        (def_string (nft_TUNMatch c) "phose-*") (nft_Isolation c) (nft_Masquerade c) (nft_EgressInterface c)
        (nft_TPROXY c) port
        (if nft_TPROXY c then def_int (nft_TPROXYMark c) 1 else nft_TPROXYMark c)
        (if nft_TPROXY c then def_int (nft_RouteTable c) (wrap 32 port) else nft_RouteTable c)
        (nft_IPv4 c || neither) (nft_IPv6 c || neither)
        (nft_ServerIP4 c) (nft_ServerIP6 c) (nft_Accounting c) (nft_PoolV4 c) (nft_PoolV6 c) in
    if negb found then Err ENoBinary else Ok c'.

Section nft.
Context (quote : string → string).

(** ** The script *)

(** [fmt.Fprintf(&b, s + "\n")]. *)
Definition lines (l : list string) : string := String.concat EmptyString ((λ s, s +:+ nl) <$> l).

Definition when {A} (b : bool) (l : list A) : list A := if b then l else [].

Definition tproxy_line (c : NFTConfig) (ip : string) : string :=
  "    iifname " +:+ quote (nft_TUNMatch c) +:+ " meta l4proto { tcp, udp } tproxy " +:+ ip +:+ " to :"
  +:+ dec (nft_TPROXYPort c) +:+ " meta mark set 0x" +:+ hex (nft_TPROXYMark c) +:+ " accept".

Definition buildScript (c : NFTConfig) : string :=
  let tun := quote (nft_TUNMatch c) in
  let acctV4 := nft_IPv4 c && pfx_IsValid (nft_PoolV4 c) in
  let acctV6 := nft_IPv6 c && pfx_IsValid (nft_PoolV6 c) in
  lines (
    ["table " +:+ nft_Family c +:+ " " +:+ nft_TableName c +:+ " {"]
    ++ when (nft_TPROXY c) (
      ["  chain prerouting {"; "    type filter hook prerouting priority mangle; policy accept;"]
      ++ when (nft_IPv4 c && IsValid (nft_ServerIP4 c))
           ["    iifname " +:+ tun +:+ " ip daddr " +:+ Addr_String (nft_ServerIP4 c) +:+ " accept"]
      ++ when (nft_IPv6 c && IsValid (nft_ServerIP6 c))
           ["    iifname " +:+ tun +:+ " ip6 daddr " +:+ Addr_String (nft_ServerIP6 c) +:+ " accept"]
      ++ when (nft_IPv4 c) [tproxy_line c "ip"]
      ++ when (nft_IPv6 c) [tproxy_line c "ip6"]
      ++ ["  }"])
    ++ when (nft_Isolation c)
      ["  chain forward {"; "    type filter hook forward priority 0; policy accept;";
       "    iifname " +:+ tun +:+ " oifname " +:+ tun +:+ " drop"; "  }"]
    ++ when (nft_Masquerade c) (
      ["  chain postrouting {"; "    type nat hook postrouting priority srcnat; policy accept;"]
      ++ (if negb (bool_decide (nft_EgressInterface c = EmptyString))
          then ["    iifname " +:+ tun +:+ " oifname " +:+ quote (nft_EgressInterface c) +:+ " masquerade"]
          else ["    iifname " +:+ tun +:+ " oifname != " +:+ tun +:+ " masquerade"])
      ++ ["  }"])
    ++ when (nft_Accounting c) (
      when acctV4
        ["  set acct_up4 { type ipv4_addr; flags dynamic; size 65535; counter; }";
         "  set acct_down4 { type ipv4_addr; flags dynamic; size 65535; counter; }"]
      ++ when acctV6
        ["  set acct_up6 { type ipv6_addr; flags dynamic; size 65535; counter; }";
         "  set acct_down6 { type ipv6_addr; flags dynamic; size 65535; counter; }"]
      ++ ["  chain acct_ingress {"; "    type filter hook prerouting priority -300; policy accept;"]
      ++ when acctV4 ["    ip saddr " +:+ Prefix_String (nft_PoolV4 c) +:+ " update @acct_up4 { ip saddr }"]
      ++ when acctV6 ["    ip6 saddr " +:+ Prefix_String (nft_PoolV6 c) +:+ " update @acct_up6 { ip6 saddr }"]
      ++ ["  }"; "  chain acct_egress {"; "    type filter hook postrouting priority -300; policy accept;"]
      ++ when acctV4 ["    ip daddr " +:+ Prefix_String (nft_PoolV4 c) +:+ " update @acct_down4 { ip daddr }"]
      ++ when acctV6 ["    ip6 daddr " +:+ Prefix_String (nft_PoolV6 c) +:+ " update @acct_down6 { ip6 daddr }"]
      ++ ["  }"])
    ++ ["}"]).

Definition removeScript (c : NFTConfig) : string :=
  "delete table " +:+ nft_Family c +:+ " " +:+ nft_TableName c +:+ nl.

(** ** Running commands *)

Inductive cmd : Type :=
| CNft (script : string)                       (* nft -f - *)
| CIp (args : list string).                    (* ip args *)

#[global] Instance cmd_eq_dec : EqDecision cmd.
Proof. solve_decision. Defined.

Inductive nftError : Type :=
| ENotPresent                                  (* errNFTNotPresent *)
| EFailed (msg : string)
| EInstall (e : nftError)                      (* "nft install: ..." *)
| ERouting (msg : string).                     (* "install ip rule/route: ..." *)

Context {W : Type} (exec : cmd → W → option (string * string) * W).

(** The system and the commands issued so far. *)
Definition osState : Type := W * list cmd.

Definition run (c : cmd) (s : osState) : option (string * string) * osState :=
  let '(r, w) := exec c s.1 in (r, (w, s.2 ++ [c])).

(** The text of [fmt.Errorf("%s: %w", msg, err)], or of [err] when there is no message. *)
Definition err_text (msg err : string) : string :=
  if bool_decide (msg = EmptyString) then err else msg +:+ ": " +:+ err.

Definition runNFT (script : string) (s : osState) : option nftError * osState :=
  let '(r, s') := run (CNft script) s in
  (match r with
   | None => None
   | Some (msg, err) =>
       if contains msg "No such file" || contains msg "does not exist" then Some ENotPresent
       else Some (EFailed (err_text msg err))
   end, s').

Definition runIP (v6 : bool) (args : list string) (s : osState) : option string * osState :=
  let '(r, s') := run (CIp (if v6 then "-6"%string :: args else args)) s in
  (match r with None => None | Some (msg, err) => Some (err_text msg err) end, s').

Definition isIPNotPresent (e : string) : bool :=
  contains e "No such" || contains e "RTNETLINK answers: No such file" || contains e "Cannot find".

(** ** Companion routing *)

Definition rule_args (verb : string) (c : NFTConfig) : list string :=
  ["rule"; verb; "fwmark"; "0x" +:+ hex (nft_TPROXYMark c); "lookup"; dec (nft_RouteTable c)]%string.
Definition route_args (verb : string) (c : NFTConfig) : list string :=
  ["route"; verb; "local"; "default"; "dev"; "lo"; "table"; dec (nft_RouteTable c)]%string.

Definition add_family (c : NFTConfig) (v6 : bool) (s : osState) : option string * osState :=
  match runIP v6 (rule_args "add" c) s with
  | (Some e, s) => (Some e, s)
  | (None, s) => runIP v6 (route_args "add" c) s
  end.

Definition installIPRouting (c : NFTConfig) (s : osState) : option string * osState :=
  match (if nft_IPv4 c then add_family c false s else (None, s)) with
  | (Some e, s) => (Some e, s)
  | (None, s) => if nft_IPv6 c then add_family c true s else (None, s)
  end.

(** The closure [swallow]. *)
Definition swallow (first e : option string) : option string :=
  match e with
  | Some m => match first with None => if negb (isIPNotPresent m) then Some m else None | _ => first end
  | None => first
  end.

Definition del_family (c : NFTConfig) (v6 : bool) (first : option string) (s : osState)
    : option string * osState :=
  let '(e1, s) := runIP v6 (rule_args "del" c) s in
  let '(e2, s) := runIP v6 (route_args "del" c) s in
  (swallow (swallow first e1) e2, s).

Definition removeIPRouting (c : NFTConfig) (s : osState) : option string * osState :=
  let '(first, s) := if nft_IPv4 c then del_family c false None s else (None, s) in
  if nft_IPv6 c then del_family c true first s else (first, s).

(** ** Install, Remove, Reconcile *)

Definition Install (c : NFTConfig) (s : osState) : option nftError * osState :=
  if negb (nft_Enabled c) then (None, s)
  else
    match runNFT (buildScript c) s with
    | (Some e, s) => (Some (EInstall e), s)
    | (None, s) =>
        if nft_TPROXY c then
          match installIPRouting c s with
          | (Some e, s) => let '(_, s) := runNFT (removeScript c) s in (Some (ERouting e), s)
          | (None, s) => (None, s)
          end
        else (None, s)
    end.

Definition Remove (c : NFTConfig) (s : osState) : option nftError * osState :=
  if negb (nft_Enabled c) then (None, s)
  else
    let '(first, s) := if nft_TPROXY c then removeIPRouting c s else (None, s) in
    let '(e, s) := runNFT (removeScript c) s in
    (match first with Some m => Some (EFailed m) | None => e end, s).

Definition Reconcile (c : NFTConfig) (s : osState) : option nftError * osState :=
  if negb (nft_Enabled c) then (None, s)
  else
    let '(_, s) := runNFT (removeScript c) s in
    let '(_, s) := removeIPRouting c s in
    Install c s.

(** ** The ruleset the script says *)

Inductive rule : Type :=
| RAccept (v6 : bool) (a : Addr)       (* to the server's own tunnel address *)
| RRedirect (v6 : bool) (port mark : Z)   (* TCP and UDP, to the proxy's port, with its mark *)
| RDrop                                (* from tunnel to tunnel *)
| RMasquerade
| RCount (v6 up : bool).               (* per-client byte counters *)

Inductive item : Type :=
| IChain (name hook : string) (rules : list rule)
| ISet (v6 up : bool).

Definition fam (v6 : bool) : string := if v6 then "ip6" else "ip".
Definition set_name (v6 up : bool) : string :=
  (if up then "acct_up" else "acct_down") +:+ (if v6 then "6" else "4").

Definition render_rule (c : NFTConfig) (r : rule) : string :=
  let tun := quote (nft_TUNMatch c) in
  match r with
  | RAccept v6 a => "    iifname " +:+ tun +:+ " " +:+ fam v6 +:+ " daddr " +:+ Addr_String a +:+ " accept"
  | RRedirect v6 port mark =>
      "    iifname " +:+ tun +:+ " meta l4proto { tcp, udp } tproxy " +:+ fam v6 +:+ " to :" +:+ dec port
      +:+ " meta mark set 0x" +:+ hex mark +:+ " accept"
  | RDrop => "    iifname " +:+ tun +:+ " oifname " +:+ tun +:+ " drop"
  | RMasquerade =>
      "    iifname " +:+ tun +:+ " oifname "
      +:+ (if bool_decide (nft_EgressInterface c = EmptyString) then "!= " +:+ tun else quote (nft_EgressInterface c))
      +:+ " masquerade"
  | RCount v6 up =>
      let field := fam v6 +:+ (if up then " saddr" else " daddr") in
      "    " +:+ field +:+ " " +:+ Prefix_String (if v6 then nft_PoolV6 c else nft_PoolV4 c)
      +:+ " update @" +:+ set_name v6 up +:+ " { " +:+ field +:+ " }"
  end.

Definition render_item (c : NFTConfig) (i : item) : list string :=
  match i with
  | IChain name hook rules =>
      ["  chain " +:+ name +:+ " {"; "    type " +:+ hook +:+ "; policy accept;"] ++ (render_rule c <$> rules) ++ ["  }"]
  | ISet v6 up =>
      ["  set " +:+ set_name v6 up +:+ " { type " +:+ (if v6 then "ipv6_addr" else "ipv4_addr")
       +:+ "; flags dynamic; size 65535; counter; }"]
  end.

(** Whether a family is served, and whether it is accounted. *)
Definition served (c : NFTConfig) (v6 : bool) : bool := if v6 then nft_IPv6 c else nft_IPv4 c.
Definition server_ip (c : NFTConfig) (v6 : bool) : Addr := if v6 then nft_ServerIP6 c else nft_ServerIP4 c.
Definition accounted (c : NFTConfig) (v6 : bool) : bool :=
  served c v6 && pfx_IsValid (if v6 then nft_PoolV6 c else nft_PoolV4 c).

Definition both : list bool := [false; true].

Definition ruleset (c : NFTConfig) : list item :=
  when (nft_TPROXY c) [IChain "prerouting" "filter hook prerouting priority mangle"
    (((λ v, RAccept v (server_ip c v)) <$> filter (λ v, served c v && IsValid (server_ip c v) = true) both)
     ++ ((λ v, RRedirect v (nft_TPROXYPort c) (nft_TPROXYMark c)) <$> filter (λ v, served c v = true) both))]
  ++ when (nft_Isolation c) [IChain "forward" "filter hook forward priority 0" [RDrop]]
  ++ when (nft_Masquerade c) [IChain "postrouting" "nat hook postrouting priority srcnat" [RMasquerade]]
  ++ when (nft_Accounting c)
      ((filter (λ v, accounted c v = true) both ≫= λ v, [ISet v true; ISet v false])
       ++ [IChain "acct_ingress" "filter hook prerouting priority -300"
             ((λ v, RCount v true) <$> filter (λ v, accounted c v = true) both);
           IChain "acct_egress" "filter hook postrouting priority -300"
             ((λ v, RCount v false) <$> filter (λ v, accounted c v = true) both)]).

Definition has_rule (c : NFTConfig) (r : rule) : Prop := ∃ name hook rs, IChain name hook rs ∈ ruleset c ∧ r ∈ rs.

Lemma filter_both (P : bool → Prop) `{∀ v, Decision (P v)} :
  filter P both = when (bool_decide (P false)) [false] ++ when (bool_decide (P true)) [true].
Proof. unfold both. rewrite !filter_cons, filter_nil. by repeat case_decide; repeat case_bool_decide. Qed.

Lemma bool_decide_true (b : bool) : bool_decide (b = true) = b.
Proof. by destruct b. Qed.

Lemma buildScript_render c :
  buildScript c =
  lines (["table " +:+ nft_Family c +:+ " " +:+ nft_TableName c +:+ " {"]
         ++ (ruleset c ≫= render_item c) ++ ["}"%string]).
Proof.
  unfold buildScript, ruleset. rewrite !filter_both. unfold accounted, served, server_ip.
  rewrite !bool_decide_true, !bind_app. do 2 f_equal. rewrite <-!(app_assoc _ _ ["}"%string]).
  f_equal; [|f_equal; [|f_equal; [|f_equal]]].
  - destruct (nft_TPROXY c), (nft_IPv4 c), (nft_IPv6 c), (IsValid (nft_ServerIP4 c)), (IsValid (nft_ServerIP6 c));
      reflexivity.
  - by destruct (nft_Isolation c).
  - destruct (nft_Masquerade c); [|done]. cbn [when mbind list_bind render_item fmap list_fmap render_rule app].
    by destruct (bool_decide (nft_EgressInterface c = EmptyString)).
  - destruct (nft_Accounting c), (nft_IPv4 c), (nft_IPv6 c), (pfx_IsValid (nft_PoolV4 c)), (pfx_IsValid (nft_PoolV6 c));
      reflexivity.
Qed.

Lemma elem_of_when {A} (b : bool) (l : list A) x : x ∈ when b l ↔ b = true ∧ x ∈ l.
Proof. destruct b; cbn; [naive_solver|]. rewrite elem_of_nil. naive_solver. Qed.

Lemma elem_of_both v : v ∈ both.
Proof. destruct v; set_solver. Qed.

Definition tproxy_rules (c : NFTConfig) : list rule :=
  ((λ v, RAccept v (server_ip c v)) <$> filter (λ v, served c v && IsValid (server_ip c v) = true) both)
  ++ ((λ v, RRedirect v (nft_TPROXYPort c) (nft_TPROXYMark c)) <$> filter (λ v, served c v = true) both).
Definition count_rules (c : NFTConfig) (up : bool) : list rule :=
  (λ v, RCount v up) <$> filter (λ v, accounted c v = true) both.

Lemma elem_of_chain c name hook rs : IChain name hook rs ∈ ruleset c →
  (nft_TPROXY c = true ∧ rs = tproxy_rules c) ∨ (nft_Isolation c = true ∧ rs = [RDrop]) ∨
  (nft_Masquerade c = true ∧ rs = [RMasquerade]) ∨ (nft_Accounting c = true ∧ ∃ up, rs = count_rules c up).
Proof.
  unfold ruleset. rewrite !elem_of_app, !elem_of_when, !list_elem_of_singleton, elem_of_app, !elem_of_cons, list_elem_of_bind.
  intros [[H [= _ _ ->]]|[[H [= _ _ ->]]|[[H [= _ _ ->]]|[H Hc]]]]; [by left|by right; left|by right; right; left|].
  right; right; right. split; [done|].
  destruct Hc as [(v & Hv & _)|[[= _ _ ->]|[[= _ _ ->]|Hn]]].
  - rewrite !elem_of_cons, elem_of_nil in Hv. by destruct Hv as [?|[?|?]].
  - by exists true.
  - by exists false.
  - by apply not_elem_of_nil in Hn.
Qed.

Lemma elem_of_tproxy c r : r ∈ tproxy_rules c ↔
  (∃ v, r = RAccept v (server_ip c v) ∧ served c v = true ∧ IsValid (server_ip c v) = true) ∨
  (∃ v, r = RRedirect v (nft_TPROXYPort c) (nft_TPROXYMark c) ∧ served c v = true).
Proof.
  unfold tproxy_rules. rewrite elem_of_app, !list_elem_of_fmap.
  split.
  - intros [(v & -> & Hv)|(v & -> & Hv)]; apply list_elem_of_filter in Hv as [Hv _]; [left|right]; exists v;
      [apply andb_true_iff in Hv|]; naive_solver.
  - intros [(v & -> & H1 & H2)|(v & -> & H1)]; [left|right]; exists v; (split; [done|]);
      apply list_elem_of_filter; (split; [by rewrite ?H1, ?H2|apply elem_of_both]).
Qed.

Lemma elem_of_count c up r : r ∈ count_rules c up ↔ ∃ v, r = RCount v up ∧ accounted c v = true.
Proof.
  unfold count_rules. rewrite list_elem_of_fmap. split; intros (v & -> & H); exists v; (split; [done|]).
  - by apply list_elem_of_filter in H as [? _].
  - apply list_elem_of_filter. split; [done|apply elem_of_both].
Qed.

(** The chains are there. *)
Lemma chain_intro c :
  (nft_TPROXY c = true → ∃ h, IChain "prerouting" h (tproxy_rules c) ∈ ruleset c) ∧
  (nft_Isolation c = true → ∃ h, IChain "forward" h [RDrop] ∈ ruleset c) ∧
  (nft_Masquerade c = true → ∃ h, IChain "postrouting" h [RMasquerade] ∈ ruleset c) ∧
  (nft_Accounting c = true → ∀ up, ∃ n h, IChain n h (count_rules c up) ∈ ruleset c).
Proof.
  unfold ruleset. split_and!; intros H; [| | |intros []]; rewrite H; repeat eexists;
    rewrite !elem_of_app; cbn [when].
  - left. left.
  - right. left. left.
  - right. right. left. left.
  - right. right. right. apply elem_of_app. right. left.
  - right. right. right. apply elem_of_app. right. right. left.
Qed.

Lemma sets_first c k name hook rs v up :
  ruleset c !! k = Some (IChain name hook rs) → RCount v up ∈ rs →
  ∃ j, (j < k)%nat ∧ ruleset c !! j = Some (ISet v up).
Proof.
  intros Hk Hr. assert (nft_Accounting c = true ∧ accounted c v = true) as [HA Hv].
  { destruct (elem_of_chain _ _ _ _ (list_elem_of_lookup_2 _ _ _ Hk)) as [[_ ->]|[[_ ->]|[[_ ->]|[? [? ->]]]]].
    - apply elem_of_tproxy in Hr as [(? & ? & _)|(? & ? & _)]; done.
    - by apply list_elem_of_singleton in Hr.
    - by apply list_elem_of_singleton in Hr.
    - apply elem_of_count in Hr as (? & [= <- _] & ?). done. }
  unfold ruleset in *. rewrite HA in *. cbn [when] in *. rewrite !app_assoc in *.
  set (sets := _ ≫= _) in *.
  match type of Hk with ((?p ++ sets) ++ _) !! _ = _ => set (pre := p) in * end.
  assert (ISet v up ∈ sets) as [j Hj]%list_elem_of_lookup.
  { apply list_elem_of_bind. exists v. split; [destruct up; set_solver|].
    apply list_elem_of_filter. split; [done|apply elem_of_both]. }
  exists (length pre + j)%nat. rewrite <-app_assoc. split.
  - rewrite <-app_assoc in Hk. apply lookup_lt_Some in Hj.
    rewrite lookup_app_Some in Hk. destruct Hk as [Hk|[Hle Hk]].
    { exfalso. apply list_elem_of_lookup_2 in Hk. unfold pre in Hk.
      rewrite !elem_of_app, !elem_of_when, !list_elem_of_singleton in Hk.
      destruct Hk as [[[_ [= _ _ ->]]|[_ [= _ _ ->]]]|[_ [= _ _ ->]]].
      - apply (elem_of_tproxy c) in Hr as [(? & ? & _)|(? & ? & _)]; done.
      - by apply list_elem_of_singleton in Hr.
      - by apply list_elem_of_singleton in Hr. }
    rewrite lookup_app_Some in Hk. destruct Hk as [Hk|[Hle' _]]; [|lia].
    apply list_elem_of_lookup_2, list_elem_of_bind in Hk as (w & Hw & _). set_solver.
  - rewrite lookup_app_r, lookup_app_l by (apply lookup_lt_Some in Hj; lia).
    by replace (length pre + j - length pre)%nat with j by lia.
Qed.

(** C22: The nftables script.  Its text is the rendering of [ruleset], inside one
    table block; and that ruleset redirects TCP and UDP of exactly the served families to
    the transparent proxy's port with its mark, after accepting traffic to the server's own addresses;
    drops traffic between tunnels exactly when isolation is on; masquerades exactly
    when asked; and counts exactly the accounted families, into sets declared
    before they are used. *)
Theorem buildScript_correct c :
  buildScript c = lines (["table " +:+ nft_Family c +:+ " " +:+ nft_TableName c +:+ " {"]
                         ++ (ruleset c ≫= render_item c) ++ ["}"%string]) ∧
  (∀ v port mark, has_rule c (RRedirect v port mark) ↔
     nft_TPROXY c = true ∧ served c v = true ∧ port = nft_TPROXYPort c ∧ mark = nft_TPROXYMark c) ∧
  (∀ name hook rs i j v w a port mark, IChain name hook rs ∈ ruleset c →
     rs !! i = Some (RAccept v a) → rs !! j = Some (RRedirect w port mark) → (i < j)%nat) ∧
  (∀ v a, has_rule c (RAccept v a) ↔
     nft_TPROXY c = true ∧ served c v = true ∧ a = server_ip c v ∧ IsValid a = true) ∧
  (has_rule c RDrop ↔ nft_Isolation c = true) ∧ (has_rule c RMasquerade ↔ nft_Masquerade c = true) ∧
  (∀ v up, has_rule c (RCount v up) ↔ nft_Accounting c = true ∧ accounted c v = true) ∧
  (∀ k name hook rs v up, ruleset c !! k = Some (IChain name hook rs) → RCount v up ∈ rs →
     ∃ j, (j < k)%nat ∧ ruleset c !! j = Some (ISet v up)).
Proof.
  destruct (chain_intro c) as (I1 & I2 & I3 & I4).
  assert (∀ r, has_rule c r → (nft_TPROXY c = true ∧ r ∈ tproxy_rules c) ∨ (nft_Isolation c = true ∧ r = RDrop) ∨
    (nft_Masquerade c = true ∧ r = RMasquerade) ∨ (nft_Accounting c = true ∧ ∃ up, r ∈ count_rules c up)) as He.
  { intros r (n & h & rs & [[? ->]|[[? ->]|[[? ->]|[? [up ->]]]]]%elem_of_chain & Hr);
      rewrite ?list_elem_of_singleton in Hr; naive_solver. }
  setoid_rewrite elem_of_tproxy in He. setoid_rewrite elem_of_count in He.
  split; [apply buildScript_render|]. split_and!.
  - intros v port mark. split; [intros H%He; naive_solver|]. intros (H1 & H2 & -> & ->). destruct (I1 H1) as [h Hh].
    exists "prerouting"%string, h, (tproxy_rules c). split; [done|]. apply elem_of_tproxy. eauto.
  - intros n h rs i j v w a port mark Hc Hi Hj.
    destruct (elem_of_chain _ _ _ _ Hc) as [[_ ->]|[[_ ->]|[[_ ->]|[_ [up ->]]]]].
    2,3: destruct i as [|[]]; discriminate Hi.
    2: { apply list_elem_of_lookup_2, elem_of_count in Hi as (? & ? & _). done. }
    unfold tproxy_rules in Hi, Hj. rewrite lookup_app_Some in Hi, Hj.
    destruct Hi as [Hi|[_ Hi]]; [|apply list_elem_of_lookup_2, list_elem_of_fmap in Hi as (? & ? & _); done].
    destruct Hj as [Hj|[Hj _]]; [apply list_elem_of_lookup_2, list_elem_of_fmap in Hj as (? & ? & _); done|].
    apply lookup_lt_Some in Hi. lia.
  - intros v a. split; [intros H%He; naive_solver|]. intros (H1 & H2 & -> & H3). destruct (I1 H1) as [h Hh].
    exists "prerouting"%string, h, (tproxy_rules c). split; [done|]. apply elem_of_tproxy. eauto.
  - split; [intros H%He; naive_solver|]. intros H. destruct (I2 H) as [h Hh]. do 3 eexists. split; [done|left].
  - split; [intros H%He; naive_solver|]. intros H. destruct (I3 H) as [h Hh]. do 3 eexists. split; [done|left].
  - intros v up. split; [intros H%He; naive_solver|]. intros [H1 H2]. destruct (I4 H1 up) as (n & h & Hh).
    exists n, h, (count_rules c up). split; [done|]. apply elem_of_count. eauto.
  - apply sets_first.
Qed.

(** ** Traces of the installer *)

Definition ip_cmd (v6 : bool) (args : list string) : cmd := CIp (if v6 then "-6"%string :: args else args).

Definition family_cmds (verb : string) (c : NFTConfig) (v6 : bool) : list cmd :=
  [ip_cmd v6 (rule_args verb c); ip_cmd v6 (route_args verb c)].

(** The rule and the route of each served family. *)
Definition routing (verb : string) (c : NFTConfig) : list cmd :=
  filter (λ v, served c v = true) both ≫= family_cmds verb c.

Lemma routing_eq verb c :
  routing verb c =
  when (nft_IPv4 c) (family_cmds verb c false) ++ when (nft_IPv6 c) (family_cmds verb c true).
Proof.
  unfold routing. rewrite filter_both. unfold served. rewrite !bool_decide_true.
  by destruct (nft_IPv4 c), (nft_IPv6 c).
Qed.

Lemma run_trace c s : (run c s).2.2 = s.2 ++ [c].
Proof. unfold run. by destruct (exec c s.1). Qed.

Lemma runNFT_trace script s : (runNFT script s).2.2 = s.2 ++ [CNft script].
Proof. unfold runNFT. rewrite <-run_trace. by destruct (run _ s). Qed.

Lemma runIP_trace v6 args s : (runIP v6 args s).2.2 = s.2 ++ [ip_cmd v6 args].
Proof. unfold runIP, ip_cmd. rewrite <-run_trace. by destruct (run _ s). Qed.

(** How far a sequence of commands got: all of it, or some of it before a failure. *)
Definition got_to (all done : list cmd) (r : option string) : Prop :=
  match r with None => done = all | Some _ => done ≠ [] ∧ done `prefix_of` all end.

Lemma add_family_trace c v s r s' :
  add_family c v s = (r, s') → ∃ done, s'.2 = s.2 ++ done ∧ got_to (family_cmds "add" c v) done r.
Proof.
  unfold add_family. pose proof (runIP_trace v (rule_args "add" c) s) as T1.
  destruct (runIP v (rule_args "add" c) s) as [[e|] s1]; cbn [snd] in T1.
  { intros [= <- <-]. exists [ip_cmd v (rule_args "add" c)]. split; [done|]. split; [done|]. by eexists. }
  pose proof (runIP_trace v (route_args "add" c) s1) as T2. intros E. rewrite E in T2. cbn [snd] in T2.
  exists (family_cmds "add" c v). rewrite T2, T1, <-app_assoc. split; [done|]. destruct r; done.
Qed.

(** Adding stops at the first failure. *)
Lemma installIPRouting_trace c s r s' :
  installIPRouting c s = (r, s') → ∃ done, s'.2 = s.2 ++ done ∧ got_to (routing "add" c) done r.
Proof.
  unfold installIPRouting. rewrite routing_eq.
  assert (∀ (b : bool) v s r s', (if b then add_family c v s else (None, s)) = (r, s') →
    ∃ done, s'.2 = s.2 ++ done ∧ got_to (when b (family_cmds "add" c v)) done r) as Hf.
  { clear s r s'. intros [] v s r s'; [apply add_family_trace|]. intros [= <- <-]. exists []. by rewrite app_nil_r. }
  destruct (if nft_IPv4 c then add_family c false s else (None, s)) as [[e|] s1] eqn:E4; apply Hf in E4 as (d4 & T4 & G4).
  - intros [= <- <-]. exists d4. split; [done|]. destruct G4 as [? G4]. split; [done|]. by apply prefix_app_r.
  - intros E6%Hf. destruct E6 as (d6 & T6 & G6). cbn in G4. subst d4. exists (when (nft_IPv4 c) (family_cmds "add" c false) ++ d6).
    rewrite T6, T4, <-app_assoc. split; [done|]. destruct r; cbn in *; [|by subst].
    destruct G6 as [? G6]. split; [by destruct d6; [done|destruct (nft_IPv4 c)]|]. by apply prefix_app.
Qed.

Lemma del_family_trace c v f s : (del_family c v f s).2.2 = s.2 ++ family_cmds "del" c v.
Proof.
  unfold del_family. pose proof (runIP_trace v (rule_args "del" c) s) as T1.
  destruct (runIP v _ s) as [e1 s1]; cbn [snd] in T1.
  pose proof (runIP_trace v (route_args "del" c) s1) as T2. destruct (runIP v _ s1) as [e2 s2]; cbn [snd] in *.
  by rewrite T2, T1, <-app_assoc.
Qed.

(** Removing runs every command. *)
Lemma removeIPRouting_trace c s : (removeIPRouting c s).2.2 = s.2 ++ routing "del" c.
Proof.
  unfold removeIPRouting. rewrite routing_eq.
  destruct (nft_IPv4 c).
  - pose proof (del_family_trace c false None s) as T4. destruct (del_family c false None s) as [f s4]; cbn [snd] in T4.
    destruct (nft_IPv6 c); cbn [when snd]; [by rewrite del_family_trace, T4, <-app_assoc|by rewrite T4, app_nil_r].
  - destruct (nft_IPv6 c); cbn [when app snd]; [apply del_family_trace|by rewrite app_nil_r].
Qed.

Lemma Install_trace c s :
  nft_Enabled c = true →
  ∃ done, (Install c s).2.2 = s.2 ++ CNft (buildScript c) :: done ∧
    match (Install c s).1 with
    | None => done = when (nft_TPROXY c) (routing "add" c)
    | Some (EInstall _) => done = []
    | Some _ => nft_TPROXY c = true ∧
        ∃ some, some ≠ [] ∧ some `prefix_of` routing "add" c ∧ done = some ++ [CNft (removeScript c)]
    end.
Proof.
  intros He. unfold Install. rewrite He. cbn [negb].
  pose proof (runNFT_trace (buildScript c) s) as T1. destruct (runNFT (buildScript c) s) as [[e|] s1]; cbn [snd] in T1.
  { exists []. done. }
  destruct (nft_TPROXY c); [|by exists []]. cbn [when].
  destruct (installIPRouting c s1) as [r s2] eqn:E. apply installIPRouting_trace in E as (done & T2 & G).
  destruct r as [e|]; cbn in G.
  - pose proof (runNFT_trace (removeScript c) s2) as T3. destruct (runNFT (removeScript c) s2) as [x s3]; cbn [fst snd] in *.
    exists (done ++ [CNft (removeScript c)]). rewrite T3, T2, T1, <-!app_assoc. split; [done|]. split; [done|].
    destruct G. eauto.
  - cbn [fst snd]. exists done. by rewrite T2, T1, <-app_assoc.
Qed.

Lemma Remove_trace c s : nft_Enabled c = true →
  (Remove c s).2.2 = s.2 ++ when (nft_TPROXY c) (routing "del" c) ++ [CNft (removeScript c)].
Proof.
  intros He. unfold Remove. rewrite He. cbn [negb]. destruct (nft_TPROXY c); cbn [when].
  - pose proof (removeIPRouting_trace c s) as T1. destruct (removeIPRouting c s) as [f s1]; cbn [snd] in T1.
    pose proof (runNFT_trace (removeScript c) s1) as T2. destruct (runNFT (removeScript c) s1); cbn [snd] in *.
    by rewrite T2, T1, <-app_assoc.
  - pose proof (runNFT_trace (removeScript c) s) as T2. by destruct (runNFT (removeScript c) s).
Qed.

(** C23: The commands of the installer, on every branch.  [Install] loads the script,
    then with the proxy on adds a rule and a route per served family, stopping at
    the first failure and then deleting the table, but not what it had added
    of the rules and routes.  [Remove] always deletes exactly the rules and routes
    that a complete [Install] adds, then the table, whatever fails in between; on
    a table that is already gone it returns an error.  [Reconcile] deletes the
    table, then the rules and routes even when the proxy is off (then those with
    the unset mark 0 and table 0), and installs.  A disabled installer runs nothing. *)
Theorem nft_commands c s :
  (nft_Enabled c = false → Install c s = (None, s) ∧ Remove c s = (None, s) ∧ Reconcile c s = (None, s)) ∧
  (nft_Enabled c = true →
   (∃ done, (Install c s).2.2 = s.2 ++ CNft (buildScript c) :: done ∧
     match (Install c s).1 with
     | None => done = when (nft_TPROXY c) (routing "add" c)
     | Some (EInstall _) => done = []
     | Some _ => nft_TPROXY c = true ∧
         ∃ some, some ≠ [] ∧ some `prefix_of` routing "add" c ∧ done = some ++ [CNft (removeScript c)]
     end) ∧
   (Remove c s).2.2 = s.2 ++ when (nft_TPROXY c) (routing "del" c) ++ [CNft (removeScript c)] ∧
   (∀ msg err, nft_TPROXY c = false → (exec (CNft (removeScript c)) s.1).1 = Some (msg, err) →
      contains msg "No such file" = true → (Remove c s).1 = Some ENotPresent) ∧
   (∃ done s1, (Reconcile c s).2.2 = s.2 ++ [CNft (removeScript c)] ++ routing "del" c ++ done ∧
      Reconcile c s = Install c s1 ∧ (Install c s1).2.2 = s1.2 ++ done) ∧
   (nft_TPROXYMark c = 0 → nft_RouteTable c = 0 → nft_IPv4 c = true →
      CIp ["rule"; "del"; "fwmark"; "0x0"; "lookup"; "0"]%string ∈ (Reconcile c s).2.2)).
Proof.
  split; [intros He; unfold Install, Remove, Reconcile; by rewrite He|]. intros He.
  assert (∃ done s1, (Reconcile c s).2.2 = s.2 ++ [CNft (removeScript c)] ++ routing "del" c ++ done ∧
      Reconcile c s = Install c s1 ∧ (Install c s1).2.2 = s1.2 ++ done) as HR.
  { unfold Reconcile. rewrite He. cbn [negb].
    pose proof (runNFT_trace (removeScript c) s) as T1. destruct (runNFT (removeScript c) s) as [x s1]; cbn [snd] in T1.
    pose proof (removeIPRouting_trace c s1) as T2. destruct (removeIPRouting c s1) as [y s2]; cbn [snd] in T2.
    destruct (Install_trace c s2 He) as (done & T3 & _). exists (CNft (buildScript c) :: done), s2.
    split_and!; [|done|done]. by rewrite T3, T2, T1, <-!app_assoc. }
  split_and!; [by apply Install_trace| | |done|].
  - by apply Remove_trace.
  - intros msg err Ht Hx Hc. unfold Remove. rewrite He, Ht. cbn [negb]. unfold runNFT, run.
    destruct (exec _ s.1) as [r w]. cbn in Hx. subst r. cbn. by rewrite Hc.
  - intros Hm Ht H4. destruct HR as (done & s1 & -> & _). rewrite routing_eq, H4, !elem_of_app.
    right. right. left. left. unfold family_cmds, ip_cmd, rule_args. rewrite Hm, Ht. left.
Qed.

End nft.
