(* ===== verification/NftStats.v ===== *)
(** * nft_stats_linux.go: byte counters of the accounting sets

    The decoding of [nft -j list set] and the merge of the four sets into one sorted
    list.  A listing is the JSON value of the command's output ([None] when it is not
    JSON); from there the decoding follows encoding/json on the structs of the source:
    field names match up to case, a null leaves a value unset, a value of the wrong
    type is an error of the whole decoding. *)

From Stdlib Require Import Strings.Byte.
From stdpp Require Import sorting.
From S2P Require Import Prelude Netip Users Keys NetipText AddrText RateLimit Config Nft.

#[local] Set Warnings "-register-all".

Inductive json : Type :=
| JNull
| JBool (b : bool)
| JNum (text : list byte)
| JStr (s : string)
| JArr (l : list json)
| JObj (l : list (string * json)).

(** ** encoding/json into structs *)

(** [foldName]: upper case, with the two non-ASCII letters that fold to ASCII. *)
Fixpoint fold_name (l : list byte) : list byte :=
  match l with
  | xc5 :: xbf :: l' => "S"%byte :: fold_name l'
  | xe2 :: x84 :: xaa :: l' => "K"%byte :: fold_name l'
  | c :: l' => (if between "a" "z" c then z2b (b2z c - 32) else c) :: fold_name l'
  | [] => []
  end.

Definition is_field (name key : string) : bool :=
  bool_decide (fold_name (bytes_of key) = fold_name (bytes_of name)).

(** A decoder updates the value it is given and reports whether the types fit. *)
Definition decoder (A : Type) : Type := json → A → A * bool.

Definition dec_struct {A} (field : string → json → A → A * bool) : decoder A := λ j cur,
  match j with
  | JNull => (cur, true)
  | JObj l => foldl (λ acc kv, let '(v, ok) := field kv.1 kv.2 acc.1 in (v, acc.2 && ok)) (cur, true) l
  | _ => (cur, false)
  end.

Definition dec_ptr {A} (zero : A) (d : decoder A) : decoder (option A) := λ j cur,
  match j with
  | JNull => (None, true)
  | _ => let '(v, ok) := d j (default zero cur) in (Some v, ok)
  end.

Definition dec_string : decoder string := λ j cur,
  match j with JStr s => (s, true) | JNull => (cur, true) | _ => (cur, false) end.

Definition dec_uint64 : decoder Z := λ j cur,
  match j with
  | JNum t => match ParseUint (2 ^ 64 - 1) t with Some v => (v, true) | None => (cur, false) end
  | JNull => (cur, true)
  | _ => (cur, false)
  end.

(** The elements of a slice decode over those it had. *)
Fixpoint dec_elems {A} (zero : A) (d : decoder A) (l : list json) (cur : list A) : list A * bool :=
  match l with
  | [] => ([], true)
  | j :: l' =>
      let '(v, ok) := d j (default zero (head cur)) in
      let '(vs, ok') := dec_elems zero d l' (tail cur) in (v :: vs, ok && ok')
  end.

Definition dec_slice {A} (zero : A) (d : decoder A) : decoder (list A) := λ j cur,
  match j with
  | JNull => ([], true)
  | JArr l => dec_elems zero d l cur
  | _ => (cur, false)
  end.

(** ** The structs *)

Record nftCounter : Type := mkCounter { Packets : Z; Bytes : Z }.
Record nftElemBody : Type := mkBody { Val : string; Counter : option nftCounter }.
Definition nftElemWrap : Type := option nftElemBody.
Record nftSetDump : Type := mkSet { set_Name : string; Elem : list json }.
Definition nftDumpItem : Type := option nftSetDump.

Definition dec_counter : decoder nftCounter := dec_struct (λ key j c,
  if is_field "packets" key then let '(v, ok) := dec_uint64 j (Packets c) in (mkCounter v (Bytes c), ok)
  else if is_field "bytes" key then let '(v, ok) := dec_uint64 j (Bytes c) in (mkCounter (Packets c) v, ok)
  else (c, true)).

Definition dec_body : decoder nftElemBody := dec_struct (λ key j b,
  if is_field "val" key then let '(v, ok) := dec_string j (Val b) in (mkBody v (Counter b), ok)
  else if is_field "counter" key then
    let '(v, ok) := dec_ptr (mkCounter 0 0) dec_counter j (Counter b) in (mkBody (Val b) v, ok)
  else (b, true)).

Definition zeroBody : nftElemBody := mkBody EmptyString None.

Definition dec_wrap : decoder nftElemWrap := dec_struct (λ key j w,
  if is_field "elem" key then dec_ptr zeroBody dec_body j w else (w, true)).

Definition dec_raw : decoder (list json) := λ j cur,
  match j with JNull => ([], true) | JArr l => (l, true) | _ => (cur, false) end.

Definition dec_set : decoder nftSetDump := dec_struct (λ key j s,
  if is_field "name" key then let '(v, ok) := dec_string j (set_Name s) in (mkSet v (Elem s), ok)
  else if is_field "elem" key then let '(v, ok) := dec_raw j (Elem s) in (mkSet (set_Name s) v, ok)
  else (s, true)).

Definition dec_item : decoder nftDumpItem := dec_struct (λ key j i,
  if is_field "set" key then dec_ptr (mkSet EmptyString []) dec_set j i else (i, true)).

Definition dec_dump : decoder (list nftDumpItem) := dec_struct (λ key j d,
  if is_field "nftables" key then dec_slice None dec_item j d else (d, true)).

(** ** parseNFTSetCounters *)

(** The counter of one element, wrapped or inline. *)
Definition elem_counter (raw : json) : option (Addr * Z) :=
  match dec_wrap raw None with
  | (Some (mkBody v (Some c)), true) => (λ a, (a, Bytes c)) <$> ParseAddr v
  | _ =>
      match dec_body raw zeroBody with
      | (mkBody v (Some c), true) => (λ a, (a, Bytes c)) <$> ParseAddr v
      | _ => None
      end
  end.

Definition add_counter (out : gmap Addr Z) (raw : json) : gmap Addr Z :=
  match elem_counter raw with Some (a, n) => <[a := n]> out | None => out end.

Definition add_item (out : gmap Addr Z) (item : nftDumpItem) : gmap Addr Z :=
  match item with None => out | Some s => foldl add_counter out (Elem s) end.

Definition parseNFTSetCounters (data : option json) : option (gmap Addr Z) :=
  match data with
  | None => None
  | Some j => let '(dump, ok) := dec_dump j [] in if ok then Some (foldl add_item ∅ dump) else None
  end.

(** ** Stats *)

Record ClientStat : Type := mkStat { cs_Addr : Addr; UpBytes : Z; DownBytes : Z }.

Inductive statError : Type := EListSet (set : string) | EParseSet (set : string).

(** [get(a)] followed by the assignment. *)
Definition set_bytes (up : bool) (a : Addr) (n : Z) (byAddr : gmap Addr ClientStat) : gmap Addr ClientStat :=
  let s := default (mkStat a 0 0) (byAddr !! a) in
  <[a := if up then mkStat (cs_Addr s) n (DownBytes s) else mkStat (cs_Addr s) (UpBytes s) n]> byAddr.

(** [list_set] is the outcome of [listSet]: [None] when the command fails. *)
Definition read_set (list_set : string → option (option json)) (set : string) (up : bool)
    (byAddr : gmap Addr ClientStat) : result statError (gmap Addr ClientStat) :=
  match list_set set with
  | None => Err (EListSet set)
  | Some data =>
      match parseNFTSetCounters data with
      | None => Err (EParseSet set)
      | Some counters => Ok (map_fold (set_bytes up) byAddr counters)
      end
  end.

Definition job : Type := string * bool * bool.

Definition jobs (c : NFTConfig) : list job :=
  let on4 := nft_IPv4 c && pfx_IsValid (nft_PoolV4 c) in
  let on6 := nft_IPv6 c && pfx_IsValid (nft_PoolV6 c) in
  [("acct_up4"%string, true, on4); ("acct_down4"%string, false, on4);
   ("acct_up6"%string, true, on6); ("acct_down6"%string, false, on6)].

Fixpoint run_jobs (list_set : string → option (option json)) (js : list job) (byAddr : gmap Addr ClientStat)
    : result statError (gmap Addr ClientStat) :=
  match js with
  | [] => Ok byAddr
  | (set, up, on) :: js' =>
      if negb on then run_jobs list_set js' byAddr
      else let? byAddr' := read_set list_set set up byAddr in run_jobs list_set js' byAddr'
  end.

(** [Addr.Compare] as an order: family width, value, zone. *)
Definition zone_of (a : Addr) : list byte := match a with Addr6 _ z => bytes_of z | _ => [] end.

Fixpoint bytes_lt (l k : list byte) : bool :=
  match l, k with
  | [], _ :: _ => true
  | x :: l', y :: k' => (b2z x <? b2z y) || ((b2z x =? b2z y) && bytes_lt l' k')
  | _, [] => false
  end.

Definition Less (a b : Addr) : bool :=
  (BitLen a <? BitLen b) || ((BitLen a =? BitLen b) &&
    ((addr_Z a <? addr_Z b) || ((addr_Z a =? addr_Z b) && bytes_lt (zone_of a) (zone_of b)))).

Definition stat_le (s t : ClientStat) : Prop := Less (cs_Addr t) (cs_Addr s) = false.
#[global] Instance stat_le_dec s t : Decision (stat_le s t).
Proof. unfold stat_le. apply _. Defined.

Definition Stats (c : NFTConfig) (list_set : string → option (option json)) : result statError (list ClientStat) :=
  if negb (nft_Enabled c) || negb (nft_Accounting c) then Ok []
  else
    let? byAddr := run_jobs list_set (jobs c) ∅ in
    Ok (merge_sort stat_le (snd <$> map_to_list byAddr)).

(** ** The order of addresses *)

Lemma bytes_lt_irrefl l : bytes_lt l l = false.
Proof. induction l as [|x l IH]; [done|]. cbn. by rewrite Z.ltb_irrefl, Z.eqb_refl, IH. Qed.

Lemma bytes_lt_trans l k m : bytes_lt l k = true → bytes_lt k m = true → bytes_lt l m = true.
Proof.
  revert k m. induction l as [|x l IH]; intros [|y k] [|z m] H1 H2; cbn in *; try done.
  rewrite orb_true_iff, andb_true_iff, Z.ltb_lt, Z.eqb_eq in *.
  destruct H1 as [H1|[H1 H1']], H2 as [H2|[H2 H2']]; try (left; lia). right. split; [lia|eauto].
Qed.

Lemma bytes_lt_total l k : bytes_lt l k = true ∨ l = k ∨ bytes_lt k l = true.
Proof.
  revert k. induction l as [|x l IH]; intros [|y k]; cbn; auto.
  rewrite !orb_true_iff, !andb_true_iff, !Z.ltb_lt, !Z.eqb_eq.
  destruct (Z.lt_trichotomy (b2z x) (b2z y)) as [H|[H|H]]; [auto| |auto].
  destruct (IH k) as [H'|[->|H']]; [auto| |auto]. apply b2z_inj in H as ->. auto.
Qed.

Lemma addr_key_inj a b : BitLen a = BitLen b → addr_Z a = addr_Z b → zone_of a = zone_of b → a = b.
Proof.
  destruct a as [|v|v z], b as [|w|w y]; cbn [BitLen zone_of]; try done; intros _ Hv Hz.
  - f_equal. apply vec_to_list_inj2, be_Z_inj; [by rewrite !length_vec_to_list|exact Hv].
  - apply bytes_of_inj in Hz as ->. f_equal.
    apply vec_to_list_inj2, be_Z_inj; [by rewrite !length_vec_to_list|exact Hv].
Qed.

Lemma Less_spec a b : Less a b = true ↔
  BitLen a < BitLen b ∨ BitLen a = BitLen b ∧
    (addr_Z a < addr_Z b ∨ addr_Z a = addr_Z b ∧ bytes_lt (zone_of a) (zone_of b) = true).
Proof. unfold Less. by rewrite !orb_true_iff, !andb_true_iff, !orb_true_iff, !andb_true_iff, !Z.ltb_lt, !Z.eqb_eq. Qed.

Lemma Less_irrefl a : Less a a = false.
Proof. unfold Less. by rewrite !Z.ltb_irrefl, !Z.eqb_refl, bytes_lt_irrefl. Qed.

Lemma Less_trans a b c : Less a b = true → Less b c = true → Less a c = true.
Proof.
  rewrite !Less_spec. intros [H|[H [H'|[H' Hz]]]] [G|[G [G'|[G' Gz]]]]; try lia.
  right. split; [lia|]. right. split; [lia|]. by eapply bytes_lt_trans.
Qed.

Lemma Less_total a b : Less a b = true ∨ a = b ∨ Less b a = true.
Proof.
  rewrite !Less_spec. destruct (Z.lt_trichotomy (BitLen a) (BitLen b)) as [H|[H|H]]; [auto| |auto].
  destruct (Z.lt_trichotomy (addr_Z a) (addr_Z b)) as [G|[G|G]]; [auto 10| |auto 10].
  destruct (bytes_lt_total (zone_of a) (zone_of b)) as [E|[E|E]]; [auto 10| |auto 10].
  right; left. by apply addr_key_inj.
Qed.

#[global] Instance stat_le_total : Total stat_le.
Proof.
  intros s t. unfold stat_le. destruct (Less (cs_Addr t) (cs_Addr s)) eqn:E; [right|by left].
  destruct (Less (cs_Addr s) (cs_Addr t)) eqn:E'; [|done].
  pose proof (Less_trans _ _ _ E E') as H. by rewrite Less_irrefl in H.
Qed.

#[global] Instance stat_le_trans : Transitive stat_le.
Proof.
  intros s t r. unfold stat_le. intros H1 H2. destruct (Less (cs_Addr r) (cs_Addr s)) eqn:E; [|done].
  destruct (Less_total (cs_Addr t) (cs_Addr s)) as [H|[H|H]]; [congruence|by rewrite H in H2; congruence|].
  pose proof (Less_trans _ _ _ E H). congruence.
Qed.

(** ** The merge *)

Definition keyed (m : gmap Addr ClientStat) : Prop := ∀ a s, m !! a = Some s → cs_Addr s = a.

Definition put (up : bool) (n : Z) (s : ClientStat) : ClientStat :=
  if up then mkStat (cs_Addr s) n (DownBytes s) else mkStat (cs_Addr s) (UpBytes s) n.

Lemma set_bytes_fold up counters by0 a :
  map_fold (set_bytes up) by0 counters !! a =
    match counters !! a with Some n => Some (put up n (default (mkStat a 0 0) (by0 !! a))) | None => by0 !! a end.
Proof.
  apply (map_fold_weak_ind (λ r m, r !! a = match m !! a with
    | Some n => Some (put up n (default (mkStat a 0 0) (by0 !! a))) | None => by0 !! a end)); [by rewrite lookup_empty|].
  intros i n m r Hi IH. unfold set_bytes. destruct (decide (i = a)) as [->|Hne].
  - rewrite !lookup_insert_eq. rewrite Hi in IH. by rewrite IH.
  - by rewrite !lookup_insert_ne.
Qed.

(** What job [j] reads for [a]. *)
Definition reading (list_set : string → option (option json)) (j : job) (a : Addr) : option Z :=
  if j.2 then
    match list_set j.1.1 with
    | None => None
    | Some d => match parseNFTSetCounters d with Some m => m !! a | None => None end
    end
  else None.

Definition apply_job list_set (j : job) (a : Addr) (o : option ClientStat) : option ClientStat :=
  match reading list_set j a with Some n => Some (put j.1.2 n (default (mkStat a 0 0) o)) | None => o end.

Definition job_error (list_set : string → option (option json)) (e : statError) : Prop :=
  match e with
  | EListSet s => list_set s = None
  | EParseSet s => ∃ d, list_set s = Some d ∧ parseNFTSetCounters d = None
  end.

Lemma run_jobs_spec list_set js by0 :
  match run_jobs list_set js by0 with
  | Ok m => ∀ a, m !! a = foldl (λ o j, apply_job list_set j a o) (by0 !! a) js
  | Err e => job_error list_set e ∧ ∃ j, j ∈ js ∧ j.2 = true ∧
      j.1.1 = match e with EListSet s | EParseSet s => s end
  | Panic => False
  end.
Proof.
  revert by0. induction js as [|[[set up] on] js IH]; intros by0; [done|]. cbn [run_jobs foldl].
  destruct on; cbn [negb].
  - unfold read_set. destruct (list_set set) as [d|] eqn:Hs; cycle 1.
    { cbn [rbind]. split; [done|]. exists (set, up, true). split; [left|done]. }
    destruct (parseNFTSetCounters d) as [m|] eqn:Hm; cycle 1.
    { cbn [rbind]. split; [by exists d|]. exists (set, up, true). split; [left|done]. }
    cbn [rbind]. specialize (IH (map_fold (set_bytes up) by0 m)).
    destruct (run_jobs list_set js _) as [r|e|]; [|destruct IH as (He & j & Hj & ?); split; [done|]; exists j; split; [by right|done]|done].
    intros a. rewrite IH. f_equal. rewrite set_bytes_fold. unfold apply_job, reading. cbn [fst snd]. by rewrite Hs, Hm.
  - specialize (IH by0). destruct (run_jobs list_set js by0) as [r|e|]; [done| |done].
    destruct IH as (He & j & Hj & ?). split; [done|]. exists j. split; [by right|done].
Qed.

(** ** The result *)

(** The counter of [a] in one direction, the IPv6 set's where both have one. *)
Definition latest (c : NFTConfig) (list_set : string → option (option json)) (up : bool) (a : Addr) : option Z :=
  let on4 := nft_IPv4 c && pfx_IsValid (nft_PoolV4 c) in
  let on6 := nft_IPv6 c && pfx_IsValid (nft_PoolV6 c) in
  match reading list_set ((if up then "acct_up6" else "acct_down6")%string, up, on6) a with
  | Some n => Some n
  | None => reading list_set ((if up then "acct_up4" else "acct_down4")%string, up, on4) a
  end.

Definition expected (c : NFTConfig) list_set (a : Addr) : option ClientStat :=
  match latest c list_set true a, latest c list_set false a with
  | None, None => None
  | u, d => Some (mkStat a (default 0 u) (default 0 d))
  end.

Lemma jobs_expected c list_set a :
  foldl (λ o j, apply_job list_set j a o) None (jobs c) = expected c list_set a.
Proof.
  unfold jobs, expected, latest. cbn [foldl]. unfold apply_job.
  destruct (reading list_set ("acct_up4"%string, true, _) a), (reading list_set ("acct_down4"%string, false, _) a),
    (reading list_set ("acct_up6"%string, true, _) a), (reading list_set ("acct_down6"%string, false, _) a); done.
Qed.

Lemma expected_addr c list_set a s : expected c list_set a = Some s → cs_Addr s = a.
Proof. unfold expected. destruct (latest _ _ true a), (latest _ _ false a); intros; by simplify_eq. Qed.

Lemma NoDup_values (m : gmap Addr ClientStat) : keyed m → NoDup (cs_Addr <$> (snd <$> map_to_list m)).
Proof.
  intros Hk. assert (cs_Addr <$> (snd <$> map_to_list m) = fst <$> map_to_list m) as ->; [|apply NoDup_fst_map_to_list].
  rewrite <-list_fmap_compose. apply list_fmap_ext. intros i [a s] Hi. cbn.
  apply Hk, elem_of_map_to_list, (list_elem_of_lookup_2 _ _ _ Hi).
Qed.

(** Sorted and without repetition is strictly sorted. *)
Lemma strict_sorted l : NoDup (cs_Addr <$> l) → StronglySorted stat_le l →
  StronglySorted (λ s t, Less (cs_Addr s) (cs_Addr t) = true) l.
Proof.
  intros Hn Hs. induction Hs as [|s l Hs IH Hf]; [constructor|]. cbn in Hn. apply NoDup_cons in Hn as [Hni Hn].
  constructor; [auto|]. rewrite Forall_forall in *. intros t Ht. specialize (Hf t Ht). unfold stat_le in Hf.
  destruct (Less_total (cs_Addr s) (cs_Addr t)) as [H|[H|H]]; [done| |congruence].
  destruct Hni. rewrite H. by apply list_elem_of_fmap_2.
Qed.

(** The per-client byte counters.  With accounting on, the list has exactly the
    addresses some active set counts, each once, in strictly increasing order, with
    the bytes of the upload set and of the download set of its family (zero where it is
    missing there); and it fails only when listing or decoding one of the active sets
    fails. *)
Theorem Stats_correct c list_set : nft_Enabled c = true → nft_Accounting c = true →
  match Stats c list_set with
  | Ok l => StronglySorted (λ s t, Less (cs_Addr s) (cs_Addr t) = true) l
            ∧ ∀ a s, (s ∈ l ∧ cs_Addr s = a) ↔ expected c list_set a = Some s
  | Err e => job_error list_set e ∧ ∃ j, j ∈ jobs c ∧ j.2 = true ∧ j.1.1 = match e with EListSet s | EParseSet s => s end
  | Panic => False
  end.
Proof.
  intros He Ha. unfold Stats. rewrite He, Ha. cbn [negb orb].
  pose proof (run_jobs_spec list_set (jobs c) ∅) as H.
  destruct (run_jobs list_set (jobs c) ∅) as [m|e|]; cbn [rbind]; [|done..].
  assert (∀ a, m !! a = expected c list_set a) as Hm by (intros a; rewrite H, lookup_empty; apply jobs_expected).
  assert (keyed m) as Hk by (intros a s Has; rewrite Hm in Has; by eapply expected_addr).
  pose proof (merge_sort_Permutation stat_le (snd <$> map_to_list m)) as Hp. split.
  - apply strict_sorted; [|apply StronglySorted_merge_sort; apply _]. rewrite Hp. by apply NoDup_values.
  - intros a s. rewrite Hp, <-Hm. rewrite list_elem_of_fmap. split.
    + intros [([b t] & -> & Hin) Hb]. apply elem_of_map_to_list in Hin. cbn in *. by rewrite <-Hb, (Hk b t Hin).
    + intros Hs. split; [|by apply Hk]. exists (a, s). split; [done|]. by apply elem_of_map_to_list.
Qed.

(** ** A listing, in both element shapes *)

Definition num (s : string) : json := JNum (bytes_of s).
Definition counted (val bytes : string) : json :=
  JObj [("val"%string, JStr val); ("counter"%string, JObj [("packets"%string, num "1"); ("bytes"%string, num bytes)])].

Definition sample_list_set (set : string) : option (option json) :=
  let doc elems := Some (Some (JObj [("nftables"%string, JArr [JObj [("metainfo"%string, JObj [])];
    JObj [("set"%string, JObj [("name"%string, JStr set); ("elem"%string, JArr elems)])]])])) in
  if bool_decide (set = "acct_up4"%string)
  then doc [JObj [("elem"%string, counted "10.66.0.11" "42")]; counted "10.66.0.10" "7"; JStr "10.66.0.12"]
  else if bool_decide (set = "acct_down4"%string) then doc [JObj [("elem"%string, counted "10.66.0.10" "99")]]
  else None.

Definition sample_acct : NFTConfig :=
  mkNFT true "inet" "packethose" "phose-*" false false EmptyString false 0 0 0 true false AddrZero AddrZero true
    (PrefixFrom (Addr4 [# x0a; x42; x00; x00]) 24) PrefixZero.

Definition sample_stats : list ClientStat :=
  [mkStat (Addr4 [# x0a; x42; x00; x0a]) 7 99; mkStat (Addr4 [# x0a; x42; x00; x0b]) 42 0].

Lemma sample_stats_Ok : Stats sample_acct sample_list_set = Ok sample_stats.
Proof. vm_compute. reflexivity. Qed.

Example Stats_correct_witness :
  expected sample_acct sample_list_set (Addr4 [# x0a; x42; x00; x0a]) = Some (mkStat (Addr4 [# x0a; x42; x00; x0a]) 7 99).
Proof.
  pose proof (Stats_correct sample_acct sample_list_set eq_refl eq_refl) as H. rewrite sample_stats_Ok in H.
  apply H. split; [left|reflexivity].
Defined.
