(* ===== verification/Metrics.v ===== *)
(** * metrics.go: counters and their exposition

    The counters (a nil [*Metrics] is [None]) and the text [WritePrometheus] writes, for
    the byte counters of the server's provider (server.go).  [%q] of a string
    (strconv.Quote) is the parameter [quote]. *)

From stdpp Require Import sorting.
From S2P Require Import Prelude Netip Users Keys NetipText AddrText RateLimit Config Nft NftStats.

Record Metrics : Type := mkMetrics {
  accepts : Z;
  hsOK : Z;
  hsFail : Z;
  rateLimited : Z;
  slotsFull : Z;
  sessOpened : Z;
  sessClosed : Z
}.

Record ByteStat : Type := mkByteStat { bs_Addr : string; TxBytes : Z; RxBytes : Z }.

Definition NewMetrics : Metrics := mkMetrics 0 0 0 0 0 0 0.

(** [atomic.Int64.Add(1)]. *)
Definition add1 (n : Z) : Z := swrap 64 (n + 1).

Definition incAccept (m : option Metrics) : option Metrics :=
  (λ m, mkMetrics (add1 (accepts m)) (hsOK m) (hsFail m) (rateLimited m) (slotsFull m) (sessOpened m) (sessClosed m)) <$> m.
Definition incHandshakeOK (m : option Metrics) : option Metrics :=
  (λ m, mkMetrics (accepts m) (add1 (hsOK m)) (hsFail m) (rateLimited m) (slotsFull m) (sessOpened m) (sessClosed m)) <$> m.
Definition incHandshakeFail (m : option Metrics) : option Metrics :=
  (λ m, mkMetrics (accepts m) (hsOK m) (add1 (hsFail m)) (rateLimited m) (slotsFull m) (sessOpened m) (sessClosed m)) <$> m.
Definition incRateLimited (m : option Metrics) : option Metrics :=
  (λ m, mkMetrics (accepts m) (hsOK m) (hsFail m) (add1 (rateLimited m)) (slotsFull m) (sessOpened m) (sessClosed m)) <$> m.
Definition incSlotsFull (m : option Metrics) : option Metrics :=
  (λ m, mkMetrics (accepts m) (hsOK m) (hsFail m) (rateLimited m) (add1 (slotsFull m)) (sessOpened m) (sessClosed m)) <$> m.
Definition incSessionOpened (m : option Metrics) : option Metrics :=
  (λ m, mkMetrics (accepts m) (hsOK m) (hsFail m) (rateLimited m) (slotsFull m) (add1 (sessOpened m)) (sessClosed m)) <$> m.
Definition incSessionClosed (m : option Metrics) : option Metrics :=
  (λ m, mkMetrics (accepts m) (hsOK m) (hsFail m) (rateLimited m) (slotsFull m) (sessOpened m) (add1 (sessClosed m))) <$> m.

(** The comparison of [sort.Slice], on the bytes of the strings. *)
Definition bs_le (s t : ByteStat) : Prop := bytes_lt (bytes_of (bs_Addr t)) (bytes_of (bs_Addr s)) = false.
#[global] Instance bs_le_dec s t : Decision (bs_le s t).
Proof. unfold bs_le. apply _. Defined.

(** The provider the server registers (server.go). *)
Definition statProvider (c : NFTConfig) (list_set : string → option (option json)) : list ByteStat :=
  match Stats c list_set with
  | Ok cs => (λ s, mkByteStat (Addr_String (cs_Addr s)) (UpBytes s) (DownBytes s)) <$> cs
  | _ => []
  end.

(** The double quote. *)
Definition dquote : string := string_of [x22].

Section exposition.
Context (quote : string → string).

Definition WritePrometheus (m : option Metrics) (provider : option (list ByteStat)) : string :=
  match m with
  | None => EmptyString
  | Some m =>
      lines (
        ["# HELP packethose_accepts_total Connections accepted before any gating.";
         "# TYPE packethose_accepts_total counter";
         "packethose_accepts_total " +:+ dec (accepts m);
         "# HELP packethose_handshakes_total Handshake outcomes by result.";
         "# TYPE packethose_handshakes_total counter";
         "packethose_handshakes_total{result=" +:+ dquote +:+ "ok" +:+ dquote +:+ "} " +:+ dec (hsOK m);
         "packethose_handshakes_total{result=" +:+ dquote +:+ "fail" +:+ dquote +:+ "} " +:+ dec (hsFail m);
         "# HELP packethose_rate_limited_total Connections dropped by the per-IP rate limiter.";
         "# TYPE packethose_rate_limited_total counter";
         "packethose_rate_limited_total " +:+ dec (rateLimited m);
         "# HELP packethose_handshake_slots_exhausted_total Connections dropped because the in-flight handshake cap was reached.";
         "# TYPE packethose_handshake_slots_exhausted_total counter";
         "packethose_handshake_slots_exhausted_total " +:+ dec (slotsFull m);
         "# HELP packethose_sessions_active Current multi-client sessions.";
         "# TYPE packethose_sessions_active gauge";
         "packethose_sessions_active " +:+ dec (swrap 64 (sessOpened m - sessClosed m))]
        ++ match provider with
           | None => []
           | Some stats =>
               let stats := merge_sort bs_le stats in
               ["# HELP packethose_client_tx_bytes Bytes from a client toward the internet (kernel counter).";
                "# TYPE packethose_client_tx_bytes counter"]
               ++ ((λ s, "packethose_client_tx_bytes{addr=" +:+ quote (bs_Addr s) +:+ "} " +:+ dec (TxBytes s)) <$> stats)
               ++ ["# HELP packethose_client_rx_bytes Bytes toward a client from the internet (kernel counter).";
                   "# TYPE packethose_client_rx_bytes counter"]
               ++ ((λ s, "packethose_client_rx_bytes{addr=" +:+ quote (bs_Addr s) +:+ "} " +:+ dec (RxBytes s)) <$> stats)
           end)
  end.

(** ** The exposition as families *)

(** A family: name, help text, kind, and its samples (labels and value). *)
Record family : Type := mkFamily { fam_name : string; fam_help : string; fam_type : string; fam_samples : list (string * Z) }.

Definition render_family (f : family) : list string :=
  [("# HELP " +:+ fam_name f +:+ " " +:+ fam_help f); ("# TYPE " +:+ fam_name f +:+ " " +:+ fam_type f)]
  ++ ((λ s, fam_name f +:+ s.1 +:+ " " +:+ dec s.2) <$> fam_samples f).

Definition label (name value : string) : string := "{" +:+ name +:+ "=" +:+ value +:+ "}".

Definition control_families (m : Metrics) : list family :=
  [mkFamily "packethose_accepts_total" "Connections accepted before any gating." "counter" [(EmptyString, accepts m)];
   mkFamily "packethose_handshakes_total" "Handshake outcomes by result." "counter"
     [(label "result" (dquote +:+ "ok" +:+ dquote), hsOK m); (label "result" (dquote +:+ "fail" +:+ dquote), hsFail m)];
   mkFamily "packethose_rate_limited_total" "Connections dropped by the per-IP rate limiter." "counter"
     [(EmptyString, rateLimited m)];
   mkFamily "packethose_handshake_slots_exhausted_total"
     "Connections dropped because the in-flight handshake cap was reached." "counter" [(EmptyString, slotsFull m)];
   mkFamily "packethose_sessions_active" "Current multi-client sessions." "gauge"
     [(EmptyString, swrap 64 (sessOpened m - sessClosed m))]].

Definition byte_families (stats : list ByteStat) : list family :=
  [mkFamily "packethose_client_tx_bytes" "Bytes from a client toward the internet (kernel counter)." "counter"
     ((λ s, (label "addr" (quote (bs_Addr s)), TxBytes s)) <$> stats);
   mkFamily "packethose_client_rx_bytes" "Bytes toward a client from the internet (kernel counter)." "counter"
     ((λ s, (label "addr" (quote (bs_Addr s)), RxBytes s)) <$> stats)].

Definition families (m : Metrics) (provider : option (list ByteStat)) : list family :=
  control_families m ++ match provider with None => [] | Some l => byte_families (merge_sort bs_le l) end.

Lemma append_assoc (a b c : string) : (a +:+ b) +:+ c = a +:+ (b +:+ c).
Proof. apply bytes_of_inj. by rewrite !bytes_of_app, (assoc_L (++)). Qed.

Lemma samples_text name (l : list ByteStat) (f : ByteStat → Z) :
  ((λ s, name +:+ "{addr=" +:+ quote (bs_Addr s) +:+ "} " +:+ dec (f s)) <$> l)
  = (λ s : string * Z, name +:+ s.1 +:+ " " +:+ dec s.2) <$> ((λ s, (label "addr" (quote (bs_Addr s)), f s)) <$> l).
Proof.
  rewrite <-list_fmap_compose. apply list_fmap_ext. intros i s _. unfold compose, label. cbn [fst snd].
  by rewrite !append_assoc.
Qed.

#[global] Instance bs_le_total : Total bs_le.
Proof.
  intros s t. unfold bs_le. destruct (bytes_lt (bytes_of (bs_Addr t)) (bytes_of (bs_Addr s))) eqn:E; [right|by left].
  destruct (bytes_lt (bytes_of (bs_Addr s)) (bytes_of (bs_Addr t))) eqn:E'; [|done].
  pose proof (bytes_lt_trans _ _ _ E E') as H. by rewrite bytes_lt_irrefl in H.
Qed.

#[global] Instance bs_le_trans : Transitive bs_le.
Proof.
  intros s t r. unfold bs_le. intros H1 H2.
  destruct (bytes_lt (bytes_of (bs_Addr r)) (bytes_of (bs_Addr s))) eqn:E; [|done].
  destruct (bytes_lt_total (bytes_of (bs_Addr t)) (bytes_of (bs_Addr s))) as [H|[H|H]];
    [congruence|by rewrite H in H2; congruence|].
  pose proof (bytes_lt_trans _ _ _ E H). congruence.
Qed.

(** With distinct addresses the sorted list does not depend on the order given. *)
Lemma merge_sort_canonical l k : NoDup (bs_Addr <$> l) → l ≡ₚ k → merge_sort bs_le l = merge_sort bs_le k.
Proof.
  intros Hn Hp. apply (StronglySorted_unique_strong bs_le).
  - intros s t Hs Ht H1 H2. rewrite merge_sort_Permutation in Hs, Ht. rewrite <-Hp in Ht.
    assert (bs_Addr s = bs_Addr t) as E.
    { unfold bs_le in *. destruct (bytes_lt_total (bytes_of (bs_Addr s)) (bytes_of (bs_Addr t))) as [H|[H|H]];
        [congruence|by apply bytes_of_inj|congruence]. }
    apply list_elem_of_lookup in Hs as [i Hi], Ht as [j Hj].
    assert (i = j) as ->; [|congruence].
    eapply (NoDup_lookup (bs_Addr <$> l)); [done|by rewrite list_lookup_fmap, Hi|by rewrite list_lookup_fmap, Hj; cbn; rewrite E].
  - apply StronglySorted_merge_sort; apply _.
  - apply StronglySorted_merge_sort; apply _.
  - by rewrite !merge_sort_Permutation.
Qed.

(** The exposition.  The text is a sequence of metric families with distinct names,
    each announced by its help and type lines before its samples, carrying the counters
    and, as the gauge, the sessions opened less those closed; with distinct addresses it
    does not depend on the order in which the byte counters are supplied; a nil
    [Metrics] writes nothing. *)
Theorem exposition_correct m provider :
  WritePrometheus (Some m) provider = lines (families m provider ≫= render_family)
  ∧ NoDup (fam_name <$> families m provider)
  ∧ (∀ l k, provider = Some l → NoDup (bs_Addr <$> l) → l ≡ₚ k →
       WritePrometheus (Some m) (Some k) = WritePrometheus (Some m) provider)
  ∧ WritePrometheus None provider = EmptyString.
Proof.
  split_and!; [| | |done].
  - unfold WritePrometheus. f_equal. unfold families. rewrite bind_app. f_equal.
    destruct provider as [l|]; [|done]. unfold byte_families. rewrite !bind_cons. change ([] ≫= render_family) with (@nil string). rewrite app_nil_r.
    unfold render_family. cbn [fam_name fam_help fam_type fam_samples]. rewrite <-!samples_text, <-!(assoc_L (++)). done.
  - destruct provider; vm_decide.
  - intros l k -> Hn Hp. unfold WritePrometheus. by rewrite (merge_sort_canonical l k Hn Hp).
Qed.

End exposition.

(** ** Serving the exposition *)

Definition SetStatProvider {A} (m : option Metrics) (fn : A) (provider : option A) : option A :=
  match m with None => provider | Some _ => Some fn end.

(** A response: the status, the content type a handler sets, and the body. *)
Record httpResponse : Type := mkResp { rs_status : Z; rs_type : option string; rs_body : string }.

Inductive metricsLog : Type := LServing | LListenFailed | LServeFailed.

(** [EvRequest]: a request with the counters and the byte counters at that time;
    [EvCanceled]: the context is done, and [Shutdown] closes the listener; [EvServeError]:
    another error of [Serve]. *)
Inductive metricsEvent : Type :=
| EvRequest (m : option Metrics) (provider : option (list ByteStat)) (path : string)
| EvCanceled
| EvServeError.

Record metricsServer : Type := mkMS {
  ms_listening : bool; ms_answers : list httpResponse; ms_log : list metricsLog; ms_returned : bool
}.

Section serving.
Context (quote : string → string).

(** The two handlers, and the mux's answer to any other path. *)
Definition metrics_mux (m : option Metrics) (provider : option (list ByteStat)) (path : string) : httpResponse :=
  if bool_decide (path = "/metrics"%string) then mkResp 200 (Some "text/plain; version=0.0.4"%string) (WritePrometheus quote m provider)
  else if bool_decide (path = "/healthz"%string) then mkResp 200 None (lines ["ok"%string])
  else mkResp 404 (Some "text/plain; charset=utf-8"%string) (lines ["404 page not found"%string]).

Definition serve_event (s : metricsServer) (ev : metricsEvent) : metricsServer :=
  if ms_returned s then s
  else match ev with
       | EvRequest m provider path => mkMS (ms_listening s) (ms_answers s ++ [metrics_mux m provider path]) (ms_log s) false
       | EvCanceled => mkMS false (ms_answers s) (ms_log s) true
       | EvServeError => mkMS false (ms_answers s) (ms_log s ++ [LServeFailed]) true
       end.

Definition serveMetrics (listenOK : bool) (evs : list metricsEvent) : metricsServer :=
  if listenOK then foldl serve_event (mkMS true [] [LServing] false) evs else mkMS false [] [LListenFailed] true.

(** Until the context is done every request is answered, in order, with what the counters
    are at that time; then the listener is closed, nothing is answered any more, and the
    clean shutdown is not logged as an error. *)
Lemma serveMetrics_ok (reqs : list (option Metrics * option (list ByteStat) * string)) rest :
  let ask := λ r : option Metrics * option (list ByteStat) * string, EvRequest r.1.1 r.1.2 r.2 in
  let answers := (λ r : option Metrics * option (list ByteStat) * string, metrics_mux r.1.1 r.1.2 r.2) <$> reqs in
  serveMetrics true (ask <$> reqs) = mkMS true answers [LServing] false ∧
  serveMetrics true ((ask <$> reqs) ++ EvCanceled :: rest) = mkMS false answers [LServing] true.
Proof.
  intros ask answers.
  assert (∀ s, ms_returned s = false → foldl serve_event s (ask <$> reqs) = mkMS (ms_listening s) (ms_answers s ++ answers) (ms_log s) false) as Hreq.
  { unfold answers. clear answers. induction reqs as [|r reqs IH]; intros s Hs; cbn [fmap list_fmap foldl].
    - rewrite app_nil_r. destruct s; cbn in *; by subst.
    - rewrite IH by (unfold serve_event; by rewrite Hs). unfold serve_event. rewrite Hs. cbn. by rewrite <-(assoc_L (++)). }
  assert (∀ s, ms_returned s = true → foldl serve_event s rest = s) as Hdone.
  { induction rest as [|ev rest IH]; intros s Hs; [done|]. cbn [foldl]. unfold serve_event at 2. rewrite Hs. by apply IH. }
  unfold serveMetrics. rewrite foldl_app. rewrite Hreq by done. split; [done|]. cbn [foldl]. by rewrite Hdone.
Qed.

End serving.
