(* ===== verification/MultiAccept.v ===== *)
(** * multiclient_linux.go: the accept loop and its handshakes in flight

    [multiClientLoop] admits connections through the allow list, the rate limiter and
    the in-flight permits, and runs [handleConn] for each in a goroutine; here the loop's
    iterations and the goroutines' progress are interleaved steps over the shared limiter
    and counters.  What a handshake does is in [MultiClient.handleConn]; here it appears
    by how it ends.  [configureSharedInterface] is the device's set-up. *)

From Stdlib Require Import Strings.Byte.
From S2P Require Import Prelude Netip Users Keys NetipText AddrText RateLimit Config Nft NftStats Metrics.

(** ** The shared device *)

Definition sharedTunName (cfg : ServerConfig) : string :=
  if bool_decide (TUNName cfg = EmptyString) then "phose0" else TUNName cfg.

Definition sharedQueueCount (cfg : ServerConfig) (numCPU : Z) : Z :=
  if SharedTUNQueues cfg <=? 0 then numCPU else SharedTUNQueues cfg.

(** The commands, up to the first that fails ([ran] is whether a command succeeds). *)
Definition interface_cmds (name : string) (cfg : ServerConfig) : list (list string) :=
  [["ip"; "link"; "set"; name; "up"]%string]
  ++ (if pfx_IsValid (Subnet cfg) && IsValid (ServerIP cfg) then
        [["ip"%string; "addr"%string; "replace"%string; Addr_String (ServerIP cfg) +:+ "/" +:+ dec (pfx_bits (Subnet cfg)); "dev"%string; name]]
      else [])
  ++ (if pfx_IsValid (Subnet6 cfg) && IsValid (ServerIP6 cfg) then
        [["ip"%string; "-6"%string; "addr"%string; "replace"%string; Addr_String (ServerIP6 cfg) +:+ "/" +:+ dec (pfx_bits (Subnet6 cfg)); "dev"%string; name]]
      else []).

Fixpoint run_until_fail (ran : list string → bool) (cmds : list (list string)) : bool * list (list string) :=
  match cmds with
  | [] => (true, [])
  | c :: cmds' => if ran c then let '(ok, l) := run_until_fail ran cmds' in (ok, c :: l) else (false, [c])
  end.

Definition configureSharedInterface (ran : list string → bool) (name : string) (cfg : ServerConfig)
    : bool * list (list string) := run_until_fail ran (interface_cmds name cfg).

(** ** Admission *)

Definition remoteIP (remote : string) : string :=
  match SplitHostPort (bytes_of remote) with Some (host, _) => string_of host | None => remote end.

Inductive phase : Type := Handshaking | Serving | Closed.
#[global] Instance phase_eq_dec : EqDecision phase.
Proof. solve_decision. Defined.

(** A connection given to [handleConn], with its release closure. *)
Record conn : Type := mkConn { c_phase : phase; c_release : releaseFn }.

Section accept.
Context {Limiter : Type} (NewLimiter : SpecFloat.spec_float → Z → Limiter)
  (AllowN : Limiter → Z → Z → bool * Limiter).

Abbreviation limiter := (connLimiter (Limiter := Limiter)).

(** [refused] and [addressless] count what the code counts nowhere: connections
    refused by the allow list, and handshakes that ended without an address. *)
Record loopState : Type := mkLoop {
  ls_limiter : limiter;
  ls_metrics : Metrics;
  ls_conns : list conn;
  refused : Z;
  addressless : Z
}.

(** The limiter and the counters are never nil here. *)
Definition keep {A} (d : A) (o : option A) : A := match o with Some a => a | None => d end.

Definition with_metrics (f : option Metrics → option Metrics) (m : Metrics) : Metrics := keep m (f (Some m)).

(** One iteration of the loop, for an accepted connection. *)
Definition accept_conn (allow remote : string) (gcO evO : list string) (now : Z) (s : loopState) : loopState :=
  let m := with_metrics incAccept (ls_metrics s) in
  let ip := remoteIP remote in
  if negb (bool_decide (allow = EmptyString)) && negb (bool_decide (ip = allow))
  then mkLoop (ls_limiter s) m (ls_conns s) (refused s + 1) (addressless s)
  else
    let '(ok, l) := allowIP NewLimiter AllowN gcO evO now ip (Some (ls_limiter s)) in
    let l := keep (ls_limiter s) l in
    if negb ok then mkLoop l (with_metrics incRateLimited m) (ls_conns s) (refused s) (addressless s)
    else
      let '(release, ok, l') := acquireSlot (Some l) in
      let l' := keep l l' in
      if negb ok then mkLoop l' (with_metrics incSlotsFull m) (ls_conns s) (refused s) (addressless s)
      else mkLoop l' m (ls_conns s ++ [mkConn Handshaking release]) (refused s) (addressless s).

(** How [handleConn] goes on: the handshake fails, ends without an address, or
    succeeds; a connection past its handshake ends (its session refused, or its lane
    over).  Every end runs the deferred release closure; a handshake that succeeds has
    run it before.  A counter and the release that follows it are one step. *)
Inductive progress : Type := HsFail | HsNoAddress | HsOK | Ends.

Definition next_phase (p : progress) : phase := match p with HsOK => Serving | _ => Closed end.

Definition conn_step (i : nat) (p : progress) (s : loopState) : option loopState :=
  match ls_conns s !! i with
  | None => None
  | Some c =>
      if bool_decide (c_phase c = match p with Ends => Serving | _ => Handshaking end) then
        match call_release (c_release c) (ls_limiter s) with
        | None => None                           (* the release closure blocks *)
        | Some l =>
            Some (mkLoop l
              (match p with
               | HsFail => with_metrics incHandshakeFail (ls_metrics s)
               | HsOK => with_metrics incHandshakeOK (ls_metrics s)
               | _ => ls_metrics s
               end)
              (<[i := mkConn (next_phase p) (c_release c)]> (ls_conns s)) (refused s)
              (match p with HsNoAddress => addressless s + 1 | _ => addressless s end))
        end
      else None
  end.

Inductive loop_step : loopState → loopState → Prop :=
| step_conn allow remote gcO evO now s :
    remoteIP remote ≠ EmptyString → enumerates gcO (limiters (ls_limiter s)) →
    enumerates evO (limiters (after_gc gcO now (ls_limiter s))) →
    loop_step s (accept_conn allow remote gcO evO now s)
| step_progress i p s s' : conn_step i p s = Some s' → loop_step s s'.

Definition loop_init (cfg : RateLimitConfig) : loopState := mkLoop (newConnLimiter cfg) NewMetrics [] 0 0.

(** ** Permits *)

Definition released (c : conn) : bool := negb (bool_decide (c_phase c = Handshaking)).

Definition in_flight (s : loopState) : Z := held (released <$> ls_conns s).

(** With permits, the closure of the [i]-th connection is the [i]-th permit, released
    exactly when its handshake is over. *)
Record permits_ok (s : loopState) : Prop := mkPermits {
  pm_inv : limiter_inv (ls_limiter s);
  pm_onces : disabled (ls_limiter s) = false → onces (ls_limiter s) = released <$> ls_conns s;
  pm_release : disabled (ls_limiter s) = false → ∀ i c, ls_conns s !! i = Some c → c_release c = Once i;
  pm_noop : disabled (ls_limiter s) = true → ∀ i c, ls_conns s !! i = Some c → c_release c = Noop
}.

Lemma allowIP_keeps gcO evO now ip l b l' :
  allowIP NewLimiter AllowN gcO evO now ip (Some l) = (b, Some l') →
  disabled l' = disabled l ∧ onces l' = onces l ∧ sem_len l' = sem_len l ∧ sem_cap l' = sem_cap l.
Proof.
  destruct (disabled l) eqn:Hd; [cbn; rewrite Hd; by intros [= <- <-]|].
  rewrite allowIP_eq by done. cbv zeta. destruct (AllowN _ _ _). intros [= <- <-].
  unfold after_gc, evictOldestLocked. repeat case_match; done.
Qed.

Lemma allowIP_Some gcO evO now ip l : ∃ l', (allowIP NewLimiter AllowN gcO evO now ip (Some l)).2 = Some l'.
Proof. cbn. destruct (disabled l); [eauto|]. repeat case_match; cbn; eauto. Qed.

Lemma permits_limiter s l : permits_ok s → limiter_inv l → disabled l = disabled (ls_limiter s) →
  onces l = onces (ls_limiter s) → ∀ m r a, permits_ok (mkLoop l m (ls_conns s) r a).
Proof. intros [H1 H2 H3 H4] Hi Hd Ho m r a. split; cbn; rewrite ?Hd, ?Ho; auto. Qed.

Lemma accept_permits allow remote gcO evO now s :
  remoteIP remote ≠ EmptyString → enumerates evO (limiters (after_gc gcO now (ls_limiter s))) →
  permits_ok s → permits_ok (accept_conn allow remote gcO evO now s).
Proof.
  intros Hip Hev Hs. unfold accept_conn. destruct (_ && _).
  { by apply (permits_limiter s (ls_limiter s) Hs (pm_inv _ Hs)). }
  destruct (allowIP_Some gcO evO now (remoteIP remote) (ls_limiter s)) as [l Hl].
  destruct (allowIP NewLimiter AllowN gcO evO now (remoteIP remote) (Some (ls_limiter s))) as [ok l0] eqn:Ha.
  cbn [snd] in Hl. subst l0. cbn [keep].
  pose proof (allowIP_inv NewLimiter AllowN _ _ _ _ _ _ _ (pm_inv _ Hs) Hip Hev Ha) as Hi.
  destruct (allowIP_keeps _ _ _ _ _ _ _ Ha) as (Hd & Ho & _).
  destruct ok; cbn [negb]; [|by apply (permits_limiter s l Hs)].
  destruct Hs as [H1 H2 H3 H4]. unfold acquireSlot. destruct (disabled l) eqn:Ed; cbn [negb keep].
  { rewrite <-Hd in *. split; cbn [ls_limiter ls_conns]; [done|by rewrite Ed|by rewrite Ed|].
    intros _ i c Hc. apply lookup_app_Some in Hc as [Hc|[_ Hc]]; [by eapply H4|].
    apply list_lookup_singleton_Some in Hc as [_ <-]. done. }
  rewrite <-Hd in *. destruct (Z.ltb_spec (sem_len l) (sem_cap l)) as [Hlt|Hge]; cbn [negb keep].
  - split; cbn [ls_limiter ls_conns]; [|intros _|intros _|cbn; congruence].
    + eapply (acquireSlot_inv l); [done|]. unfold acquireSlot. rewrite Ed, (proj2 (Z.ltb_lt _ _) Hlt). done.
    + rewrite fmap_app. cbn. by rewrite Ho, H2.
    + intros i c Hc. apply lookup_app_Some in Hc as [Hc|[Hge Hc]]; [by eapply H3|].
      apply list_lookup_singleton_Some in Hc as [Hi' <-]. cbn. f_equal. rewrite Ho, H2, length_fmap by done. lia.
  - split; cbn [ls_limiter ls_conns]; [done|intros _; by rewrite Ho, H2|intros _; by eapply H3|congruence].
Qed.

Lemma held_fmap_insert (conns : list conn) (i : nat) c c' : conns !! i = Some c → c_phase c = Handshaking → c_phase c' ≠ Handshaking →
  released <$> <[i := c']> conns = <[i := true]> (released <$> conns) ∧ (released <$> conns) !! i = Some false.
Proof.
  intros Hi Hc Hc'. rewrite list_fmap_insert, list_lookup_fmap, Hi. cbn. unfold released.
  rewrite (bool_decide_eq_false_2 (c_phase c' = _)), (bool_decide_eq_true_2 (c_phase c = _)) by done. done.
Qed.

Lemma released_insert_same (conns : list conn) (i : nat) c c' : conns !! i = Some c → released c' = released c →
  released <$> <[i := c']> conns = released <$> conns.
Proof. intros Hi Hr. rewrite list_fmap_insert. apply list_insert_id. by rewrite list_lookup_fmap, Hi; cbn; rewrite Hr. Qed.

(** Progress is never blocked by the release closure, and keeps the permits in step. *)
Lemma conn_step_permits i p s c : permits_ok s → ls_conns s !! i = Some c →
  c_phase c = match p with Ends => Serving | _ => Handshaking end →
  ∃ s', conn_step i p s = Some s' ∧ permits_ok s'.
Proof.
  intros [H1 H2 H3 H4] Hi Hp. unfold conn_step. rewrite Hi, bool_decide_eq_true_2 by done.
  destruct (call_release_inv (c_release c) (ls_limiter s) H1) as (l & Hl & Hli). rewrite Hl. eexists. split; [done|].
  assert (∀ j d, <[i := mkConn (next_phase p) (c_release c)]> (ls_conns s) !! j = Some d →
            ∃ d', ls_conns s !! j = Some d' ∧ c_release d = c_release d') as Hconn.
  { intros j d Hj. apply list_lookup_insert_Some in Hj as [(<- & <- & _)|[_ Hj]]; eauto. }
  destruct (disabled (ls_limiter s)) eqn:Ed.
  - rewrite (H4 eq_refl _ _ Hi) in Hl. cbn in Hl. injection Hl as <-.
    split; cbn [ls_limiter ls_conns]; [done|by rewrite Ed|by rewrite Ed|].
    intros _ j d Hj. destruct (Hconn j d Hj) as (d' & Hd' & ->). by eapply H4.
  - rewrite (H3 eq_refl _ _ Hi) in Hl. cbn in Hl. rewrite (H2 eq_refl) in Hl.
    assert (disabled l = false ∧ onces l = released <$> <[i := mkConn (next_phase p) (c_release c)]> (ls_conns s)) as [Hd Ho].
    { destruct (bool_decide_reflect (c_phase c = Handshaking)) as [Hh|Hh].
      - destruct (held_fmap_insert (ls_conns s) i c (mkConn (next_phase p) (c_release c)) Hi Hh) as [-> Hf];
          [by destruct p|]. rewrite Hf in Hl. destruct (_ <? _); [|done]. by injection Hl as <-.
      - assert (p = Ends) as -> by by destruct p.
        rewrite (released_insert_same _ _ c) by (done || (unfold released; cbn; by rewrite (bool_decide_eq_false_2 (c_phase c = _)))).
        rewrite list_lookup_fmap, Hi in Hl. cbn in Hl. unfold released in Hl.
        rewrite (bool_decide_eq_false_2 (c_phase c = _)) in Hl by done. injection Hl as <-. by rewrite H2. }
    split; cbn [ls_limiter ls_conns]; [done|done| |by rewrite Hd].
    intros _ j d Hj. destruct (Hconn j d Hj) as (d' & Hd' & ->). by eapply H3.
Qed.

Lemma conn_step_phase i p s s' : conn_step i p s = Some s' →
  ∃ c, ls_conns s !! i = Some c ∧ c_phase c = match p with Ends => Serving | _ => Handshaking end.
Proof.
  unfold conn_step. destruct (ls_conns s !! i) as [c|]; [|done].
  destruct (bool_decide_reflect (c_phase c = match p with Ends => Serving | _ => Handshaking end)); [eauto|done].
Qed.

Lemma loop_step_permits s s' : loop_step s s' → permits_ok s → permits_ok s'.
Proof.
  intros [allow remote gcO evO now s0 Hip Hgc Hev|i p s0 s1 Hp] Hs; [by apply accept_permits|].
  destruct (conn_step_phase _ _ _ _ Hp) as (c & Hi & Hc).
  destruct (conn_step_permits i p s0 c Hs Hi Hc) as (s2 & Hs2 & Hok). congruence.
Qed.

(** ** Accounting *)

(** Equal as 64-bit counters. *)
Definition eqm (a b : Z) : Prop := ∃ k, a = b + k * 2 ^ 64.

Lemma add1_eqm n : ∃ k, add1 n = n + 1 + k * 2 ^ 64.
Proof.
  unfold add1, swrap. exists (- ((n + 1 + 2 ^ (64 - 1)) / 2 ^ 64)).
  pose proof (Z.div_mod (n + 1 + 2 ^ (64 - 1)) (2 ^ 64) ltac:(lia)). lia.
Qed.

(** Where the accepted connections are: refused by one of the three gates, ended
    their handshake in one of three ways, or still in it. *)
Definition accounted (s : loopState) : Prop :=
  let m := ls_metrics s in
  eqm (accepts m)
    (refused s + rateLimited m + slotsFull m + hsOK m + hsFail m + addressless s + in_flight s).

Lemma in_flight_spawn conns r :
  held (released <$> conns ++ [mkConn Handshaking r]) = held (released <$> conns) + 1.
Proof. rewrite fmap_app. cbn [fmap list_fmap]. by rewrite held_app. Qed.

Lemma accept_accounted allow remote gcO evO now s : accounted s → accounted (accept_conn allow remote gcO evO now s).
Proof.
  unfold accounted, in_flight. intros [k Hk]. unfold accept_conn.
  destruct (add1_eqm (accepts (ls_metrics s))) as [k1 H1].
  destruct (_ && _); [exists (k + k1); cbn; lia|].
  destruct (allowIP _ _ _ _ _ _ _) as [[] l]; cbn [negb].
  - destruct (acquireSlot _) as [[r []] l']; cbn [negb ls_metrics ls_conns refused addressless].
    + rewrite in_flight_spawn. exists (k + k1). cbn. lia.
    + destruct (add1_eqm (slotsFull (ls_metrics s))) as [k2 H2]. exists (k + k1 - k2). cbn. lia.
  - destruct (add1_eqm (rateLimited (ls_metrics s))) as [k2 H2]. exists (k + k1 - k2). cbn. lia.
Qed.

Lemma progress_accounted i p s s' : conn_step i p s = Some s' → accounted s → accounted s'.
Proof.
  intros Hs [k Hk]. destruct (conn_step_phase _ _ _ _ Hs) as (c & Hi & Hc). unfold conn_step in Hs.
  rewrite Hi, bool_decide_eq_true_2 in Hs by done. destruct (call_release _ _) as [l|]; [|done]. injection Hs as <-.
  unfold accounted, in_flight in *. cbn [ls_metrics ls_conns refused addressless].
  destruct (bool_decide_reflect (c_phase c = Handshaking)) as [Hh|Hh].
  - destruct (held_fmap_insert (ls_conns s) i c (mkConn (next_phase p) (c_release c)) Hi Hh) as [-> Hf]; [by destruct p|].
    rewrite held_release by done. destruct p.
    + destruct (add1_eqm (hsFail (ls_metrics s))) as [k2 H2]. exists (k - k2). cbn. lia.
    + exists k. lia.
    + destruct (add1_eqm (hsOK (ls_metrics s))) as [k2 H2]. exists (k - k2). cbn. lia.
    + congruence.
  - assert (p = Ends) as -> by by destruct p.
    rewrite (released_insert_same _ _ c) by (done || (unfold released; cbn; by rewrite (bool_decide_eq_false_2 (c_phase c = _)))).
    by exists k.
Qed.

Lemma loop_run_ok cfg s : rtc loop_step (loop_init cfg) s → permits_ok s ∧ accounted s
  ∧ sem_cap (ls_limiter s) = sem_cap (newConnLimiter (Limiter := Limiter) cfg) ∧ disabled (ls_limiter s) = Disabled cfg.
Proof.
  intros Hr. eapply (rtc_invariant loop_step (λ s, permits_ok s ∧ accounted s
    ∧ sem_cap (ls_limiter s) = sem_cap (newConnLimiter (Limiter := Limiter) cfg) ∧ disabled (ls_limiter s) = Disabled cfg)); [|exact Hr|].
  - intros a b (Hp & Ha & Hc & Hd) Hs. split; [by eapply loop_step_permits|]. split.
    + destruct Hs as [allow remote gcO evO now s0 _ _ _|i p s0 s1 H1]; [by apply accept_accounted|by eapply progress_accounted].
    + rewrite <-Hc, <-Hd. destruct Hs as [allow remote gcO evO now s0 _ _ _|i p s0 s1 H1].
      * unfold accept_conn. destruct (_ && _); [done|].
        destruct (allowIP_Some gcO evO now (remoteIP remote) (ls_limiter s0)) as [l Hl].
        destruct (allowIP _ _ _ _ _ _ _) as [ok l0] eqn:E. cbn [snd] in Hl. subst l0.
        destruct (allowIP_keeps _ _ _ _ _ _ _ E) as (E1 & _ & _ & E2). cbn [keep].
        destruct ok; cbn [negb]; [|done]. unfold acquireSlot. destruct (disabled l) eqn:Edl; cbn; [by rewrite Edl|].
        destruct (_ <? _); cbn; by rewrite ?Edl.
      * unfold conn_step in H1. destruct (ls_conns s0 !! i) as [c|]; [|done]. destruct (bool_decide _); [|done].
        destruct (call_release (c_release c) (ls_limiter s0)) as [l|] eqn:E; [|done]. injection H1 as <-. cbn.
        destruct (c_release c); cbn in E; repeat case_match; by simplify_eq.
  - split_and!; [|by exists 0|done|cbn; unfold newConnLimiter; by destruct (Disabled cfg)].
    split; cbn; [apply newConnLimiter_inv|unfold newConnLimiter; by destruct (Disabled cfg)|done|done].
Qed.

(** C31: The multi-client accept loop with its handshakes in flight, in every
    interleaving.  Unless limiting is disabled, the handshakes in flight are exactly the
    permits taken, never more than the configured maximum; a handshake can always end,
    since no release closure blocks, and a served connection holds no permit.  The
    counters account for every accepted connection: those the allow list, the rate
    limiter or the permits refused, those whose handshake failed, gave no address or
    succeeded, and those in flight. *)
Theorem accept_accounting cfg s : rtc loop_step (loop_init cfg) s →
  accounted s ∧
  (Disabled cfg = false →
     sem_len (ls_limiter s) = in_flight s ∧ in_flight s <= sem_cap (newConnLimiter (Limiter := Limiter) cfg)) ∧
  (∀ i c p, ls_conns s !! i = Some c → c_phase c = match p with Ends => Serving | _ => Handshaking end →
     ∃ s', conn_step i p s = Some s' ∧ loop_step s s').
Proof.
  intros (Hp & Ha & Hc & Hd)%loop_run_ok. split_and!; [done| |].
  - intros Hn. rewrite Hn in Hd. pose proof (inv_sem _ (pm_inv _ Hp)) as Hs. pose proof (inv_cap _ (pm_inv _ Hp)) as Hm.
    rewrite (pm_onces _ Hp Hd) in Hs. unfold in_flight. rewrite <-Hs, <-Hc. done.
  - intros i c p Hi Hph. destruct (conn_step_permits i p s c Hp Hi Hph) as (s' & Hs' & _). exists s'. split; [done|].
    by eapply step_progress.
Qed.

End accept.

(** One connection admitted. *)
Definition sample_loop : loopState (Limiter := Z) :=
  accept_conn demoNew demoAllowN EmptyString "10.0.0.1:4000" [] [] 1000 (loop_init demo_cfg).

Example accept_accounting_witness :
  in_flight sample_loop = 1 ∧ sem_len (ls_limiter sample_loop) = in_flight sample_loop.
Proof.
  assert (rtc (loop_step demoNew demoAllowN) (loop_init demo_cfg) sample_loop) as Hr.
  { apply rtc_once, step_conn; [by vm_compute|apply enumerates_empty|apply enumerates_empty]. }
  destruct (accept_accounting demoNew demoAllowN demo_cfg sample_loop Hr) as (_ & Hp & _).
  split; [vm_compute; reflexivity|]. by apply Hp.
Defined.
