(* ===== verification/Tproxy.v ===== *)
(** * tproxy_listen_linux.go: the transparent proxy's flows

    The decisions of the listener and its table of UDP flows.  Flows live in a heap
    and the table holds positions in it, as the Go map holds pointers.  The accept
    loop's locked part and its write are separate steps, and each flow's reply pump
    runs beside it.  Socket calls appear by their outcome; parsing of control
    messages (golang.org/x/sys/unix) is an argument. *)

From Stdlib Require Import Strings.Byte.
From stdpp Require Import pretty.
From S2P Require Import Prelude Netip Users Keys NetipText AddrText Addr6Text RateLimit Config YamlConfig Nft.

(** ** Configuration *)

Definition NewTPROXYListener (c : TPROXYConfig) : TPROXYConfig :=
  if negb (tp_Enabled c) then c
  else mkTPROXY true (def_string (tp_ListenAddr c) "0.0.0.0") (def_int (tp_ListenPort c) 13338)
         (if tp_UDPIdleTimeout c <=? 0 then 60 * Second else tp_UDPIdleTimeout c)
         (tp_EnforceIsolation c) (tp_PoolV4 c) (tp_PoolV6 c) (tp_ServerIP4 c) (tp_ServerIP6 c).

(** ** Isolation *)

Definition inPool (c : TPROXYConfig) (a : Addr) : bool :=
  if negb (IsValid a) then false
  else if IsValid (tp_ServerIP4 c) && bool_decide (a = tp_ServerIP4 c) then false
  else if IsValid (tp_ServerIP6 c) && bool_decide (a = tp_ServerIP6 c) then false
  else if pfx_IsValid (tp_PoolV4 c) && Contains (tp_PoolV4 c) a then true
  else if pfx_IsValid (tp_PoolV6 c) && Contains (tp_PoolV6 c) a then true
  else false.

(** The accepted socket's local address is the original destination. *)
Definition originalTCPDst (local : string) : option AddrPort := ParseAddrPort (bytes_of local).

(** The address [handleTCP] dials for a connection with this local address, if any. *)
Definition handleTCP (c : TPROXYConfig) (local : string) : option string :=
  match originalTCPDst local with
  | None => None
  | Some dst => if tp_EnforceIsolation c && inPool c (ap_addr dst) then None else Some (AddrPort_String dst)
  end.

(** ** Per-packet metadata *)

Record cmsg : Type := mkCmsg { level : Z; ctype : Z; cdata : list byte }.

Definition IPPROTO_IP : Z := 0.
Definition IPPROTO_IPV6 : Z := 41.
Definition IP_TOS : Z := 1.
Definition IP_ORIGDSTADDR : Z := 20.
Definition IPV6_TCLASS : Z := 67.
Definition IPV6_ORIGDSTADDR : Z := 74.

Definition byte_at (l : list byte) (i : nat) : byte := default x00 (l !! i).

(** One message of the loop; the switch takes the first case that applies. *)
Definition cmsg_step (acc : AddrPort * byte * bool) (m : cmsg) : AddrPort * byte * bool :=
  let '(dst, dscp, ok) := acc in
  let d := cdata m in
  let port := u16 (byte_at d 2) (byte_at d 3) in
  if (level m =? IPPROTO_IP) && (ctype m =? IP_ORIGDSTADDR) && (8 <=? length d)%nat
  then (mkAP (AddrFrom4 (array_of 4 (slice d 4 8))) port, dscp, true)
  else if (level m =? IPPROTO_IPV6) && (ctype m =? IPV6_ORIGDSTADDR) && (24 <=? length d)%nat
  then (mkAP (AddrFrom16 (array_of 16 (slice d 8 24))) port, dscp, true)
  else if (level m =? IPPROTO_IP) && (ctype m =? IP_TOS) && (1 <=? length d)%nat
  then (dst, byte_at d 0, ok)
  else if (level m =? IPPROTO_IPV6) && (ctype m =? IPV6_TCLASS) && (4 <=? length d)%nat
  then (dst, byte_at d 0, ok)
  else acc.

Definition parsePerPacketCmsg (msgs : option (list cmsg)) : AddrPort * byte * bool :=
  match msgs with
  | None => (mkAP AddrZero 0, x00, false)
  | Some l => fold_left cmsg_step l (mkAP AddrZero 0, x00, false)
  end.

Definition AF_INET : Z := 2.
Definition AF_INET6 : Z := 10.

(** The sender's address as the kernel stores it: family, port in network order read
    natively, and the address bytes. *)
Record RawSockaddr : Type := mkRaw { family : Z; raw_port : Z; raw_addr : list byte }.

Definition swap16 (p : Z) : Z := wrap 16 (Z.lor (Z.shiftr p 8) (Z.shiftl p 8)).

Definition rawSockaddrToAddrPort (sa : RawSockaddr) : result Empty_set AddrPort :=
  if family sa =? AF_INET then Ok (mkAP (AddrFrom4 (array_of 4 (raw_addr sa))) (swap16 (raw_port sa)))
  else if family sa =? AF_INET6 then
    let addr := AddrFrom16 (array_of 16 (raw_addr sa)) in
    match As4 addr with                         (* evaluated before the test *)
    | None => Panic
    | Some v4 => Ok (mkAP (if Is4In6 addr then AddrFrom4 v4 else addr) (swap16 (raw_port sa)))
    end
  else Ok (mkAP AddrZero 0).

(** ** UDP flows *)

Record flow : Type := mkFlow {
  f_src : AddrPort;
  f_dst : AddrPort;
  lastActivity : Z;
  lastDSCP : byte;
  f_closed : bool
}.

(** [pending] is the datagram the accept loop still has to write, with its source
    and destination; [sent] and [replied] record what went to a flow's upstream and
    to its client. *)
Record udpState : Type := mkUDP {
  flowHeap : list flow;
  flows : gmap string nat;
  pending : option (nat * (AddrPort * AddrPort) * byte * list byte);
  sent : list (nat * (AddrPort * AddrPort) * byte * list byte);
  replied : list (nat * list byte)
}.

Definition flow_key (src dst : AddrPort) : string := AddrPort_String src +:+ "|" +:+ AddrPort_String dst.

Definition upd_flow (g : flow → flow) (p : nat) (u : udpState) : udpState :=
  mkUDP (alter g p (flowHeap u)) (flows u) (pending u) (sent u) (replied u).

Definition bump_flow (now : Z) (f : flow) : flow := mkFlow (f_src f) (f_dst f) now (lastDSCP f) (f_closed f).

(** One datagram of the accept loop, up to the unlock.  [opened] is whether the
    sockets of a new flow could be opened. *)
Definition udp_accept (c : TPROXYConfig) (now : Z) (raw : RawSockaddr) (msgs : option (list cmsg))
    (opened : bool) (payload : list byte) (u : udpState) : result Empty_set udpState :=
  if (length payload =? 0)%nat then Ok u
  else
    let? src := rawSockaddrToAddrPort raw in
    let '(dst, dscp, ok) := parsePerPacketCmsg msgs in
    if negb ok then Ok u
    else if tp_EnforceIsolation c && inPool c (ap_addr dst) then Ok u
    else
      let key := flow_key src dst in
      match flows u !! key with
      | Some p =>
          Ok (upd_flow (bump_flow now) p
            (mkUDP (flowHeap u) (flows u) (Some (p, (src, dst), dscp, payload)) (sent u) (replied u)))
      | None =>
          if negb opened then Ok u
          else
            let p := length (flowHeap u) in
            Ok (mkUDP (flowHeap u ++ [mkFlow src dst now x00 false]) (<[key := p]> (flows u))
                  (Some (p, (src, dst), dscp, payload)) (sent u) (replied u))
      end.

(** The rest of the iteration: the marking of the upstream socket is changed when
    the datagram carries another non-zero one, and the datagram is written (the
    write fails silently on a closed flow). *)
Definition udp_write (u : udpState) : udpState :=
  match pending u with
  | None => u
  | Some (p, ends, dscp, payload) =>
      match flowHeap u !! p with
      | None => u
      | Some f =>
          let mark := if negb (bool_decide (dscp = x00)) && negb (bool_decide (dscp = lastDSCP f))
                      then dscp else lastDSCP f in
          mkUDP (alter (λ f, mkFlow (f_src f) (f_dst f) (lastActivity f) mark (f_closed f)) p (flowHeap u))
            (flows u) None (if f_closed f then sent u else sent u ++ [(p, ends, mark, payload)]) (replied u)
      end
  end.

(** The reply pump of flow [p] when its read returned a datagram. *)
Definition pump_reply (now : Z) (p : nat) (data : list byte) (u : udpState) : udpState :=
  if (length data =? 0)%nat then u
  else mkUDP (alter (bump_flow now) p (flowHeap u)) (flows u) (pending u) (sent u) (replied u ++ [(p, data)]).

(** The idle test at the top of the pump's loop. *)
Definition pump_idle (c : TPROXYConfig) (now : Z) (f : flow) : bool :=
  negb (now <? lastActivity f + tp_UDPIdleTimeout c).

(** The deferred function, under the lock. *)
Definition pump_exit (p : nat) (u : udpState) : udpState :=
  match flowHeap u !! p with
  | None => u
  | Some f =>
      let key := flow_key (f_src f) (f_dst f) in
      if bool_decide (flows u !! key = Some p)
      then mkUDP (flowHeap u) (delete key (flows u)) (pending u) (sent u) (replied u) else u
  end.

(** [shutdown], after the unlock. *)
Definition flow_shutdown (p : nat) (u : udpState) : udpState :=
  upd_flow (λ f, mkFlow (f_src f) (f_dst f) (lastActivity f) (lastDSCP f) true) p u.

(** ** Endpoints *)

Definition ap_wf (p : AddrPort) : Prop := 0 <= ap_port p < 65536.

(** The source of a datagram that does not panic is an IPv4 endpoint, or none. *)
Definition src_wf (p : AddrPort) : Prop := ap_wf p ∧ (Is4 (ap_addr p) = true ∨ p = mkAP AddrZero 0).

Lemma src_wf_no_bar p : src_wf p → Forall (λ c, c ≠ "|"%byte) (bytes_of (AddrPort_String p)).
Proof.
  intros [[Hp _] [H4| ->]]; [|by repeat constructor].
  destruct p as [[|v|] p]; try done. unfold AddrPort_String. cbn [ap_addr ap_port Addr_String].
  rewrite !bytes_of_app. rewrite !Forall_app. repeat split.
  - eapply Forall_impl; [apply (dotted_text v)|]. cbn. intros c [H| ->]; [by intros ->|done].
  - by repeat constructor.
  - eapply Forall_impl; [by apply dec_digits|]. cbn. by intros c H ->.
Qed.

Lemma src_text_inj s t : src_wf s → src_wf t → AddrPort_String s = AddrPort_String t → s = t.
Proof.
  assert (∀ s t, src_wf s → src_wf t → Is4 (ap_addr s) = true → AddrPort_String s = AddrPort_String t → s = t) as H.
  { intros [[|v|] p] t' [[Hp _] _] [[Ht _] _] H4 Heq; try done. symmetry. by apply AddrPort_String_4. }
  intros Hs Ht Heq. destruct (Hs) as [_ [H4| ->]]; [by apply H|].
  destruct (Ht) as [_ [H4| ->]]; [symmetry; by apply H|done].
Qed.

(** The key determines the client and the destination. *)
Lemma flow_key_inj s t d e :
  src_wf s → src_wf t → ep_wf d → ep_wf e → flow_key s d = flow_key t e → s = t ∧ d = e.
Proof.
  intros Hs Ht Hd He H%(f_equal bytes_of). unfold flow_key in H. rewrite !bytes_of_app in H.
  apply (cut_unique (λ c, c ≠ "|"%byte)) in H as [H1 H2]; [|by apply src_wf_no_bar..|auto].
  apply bytes_of_inj in H1, H2. split; [by apply src_text_inj|by apply AddrPort_String_inj].
Qed.

(** A connection is relayed to exactly the destination it was made to, unless isolation
    forbids that destination. *)
Lemma handleTCP_text c p : ep_wf p →
  handleTCP c (AddrPort_String p) =
  if tp_EnforceIsolation c && inPool c (ap_addr p) then None else Some (AddrPort_String p).
Proof. intros Hp. unfold handleTCP, originalTCPDst. by rewrite ParseAddrPort_String. Qed.

(** ** Runs of the accept loop beside the pumps *)

(** The accept loop takes a datagram once it has written the one before; a pump
    leaves when its flow is idle or when it is stopped (the context, the listener,
    or an error of its socket), and shuts the flow down after it left the table. *)
Inductive udp_step (c : TPROXYConfig) : udpState → udpState → Prop :=
| step_accept now raw msgs opened payload u u' :
    pending u = None → udp_accept c now raw msgs opened payload u = Ok u' → udp_step c u u'
| step_write u : udp_step c u (udp_write u)
| step_reply now p data f u :
    flowHeap u !! p = Some f → f_closed f = false → udp_step c u (pump_reply now p data u)
| step_idle now p f u :
    flowHeap u !! p = Some f → pump_idle c now f = true → udp_step c u (pump_exit p u)
| step_stop p u : udp_step c u (pump_exit p u)
| step_shutdown p u :
    (∀ k, flows u !! k ≠ Some p) → udp_step c u (flow_shutdown p u).

Definition udp_init : udpState := mkUDP [] ∅ None [] [].

Inductive udp_reach (c : TPROXYConfig) : udpState → Prop :=
| reach_init : udp_reach c udp_init
| reach_step u u' : udp_reach c u → udp_step c u u' → udp_reach c u'.

Definition ends_ok (c : TPROXYConfig) (s d : AddrPort) : Prop :=
  src_wf s ∧ ep_wf d ∧ (tp_EnforceIsolation c = true → inPool c (ap_addr d) = false).

(** A datagram handed to flow [p] belongs to it. *)
Definition routed (c : TPROXYConfig) (h : list flow) (p : nat) (s d : AddrPort) : Prop :=
  ends_ok c s d ∧ ∃ f, h !! p = Some f ∧ flow_key s d = flow_key (f_src f) (f_dst f).

Record udp_inv (c : TPROXYConfig) (u : udpState) : Prop := mkInv {
  inv_flows : ∀ p f, flowHeap u !! p = Some f → ends_ok c (f_src f) (f_dst f);
  inv_table : ∀ k p, flows u !! k = Some p →
    ∃ f, flowHeap u !! p = Some f ∧ k = flow_key (f_src f) (f_dst f) ∧ f_closed f = false;
  inv_pending : ∀ p s d m l, pending u = Some (p, (s, d), m, l) → routed c (flowHeap u) p s d;
  inv_sent : Forall (λ e, let '(p, (s, d), _, _) := e in routed c (flowHeap u) p s d) (sent u)
}.

(** Updates of the heap that keep every flow's endpoints. *)
Definition same_ends (h h' : list flow) : Prop :=
  ∀ p f, h !! p = Some f → ∃ f', h' !! p = Some f' ∧ f_src f' = f_src f ∧ f_dst f' = f_dst f.

Lemma routed_mono c h h' p s d : same_ends h h' → routed c h p s d → routed c h' p s d.
Proof.
  intros Hm (He & f & Hf & Hk). split; [done|]. destruct (Hm p f Hf) as (f' & Hf' & Hs & Hd).
  exists f'. split; [done|]. by rewrite Hs, Hd.
Qed.

Lemma routed_all_mono c h h' (l : list (nat * (AddrPort * AddrPort) * byte * list byte)) : same_ends h h' →
  Forall (λ e, let '(p, (s, d), _, _) := e in routed c h p s d) l →
  Forall (λ e, let '(p, (s, d), _, _) := e in routed c h' p s d) l.
Proof. intros Hm H. eapply Forall_impl; [exact H|]. intros [[[p [s d]] m] l']. by apply routed_mono. Qed.

Lemma alter_cases {A} (g : A → A) p q (h : list A) x :
  alter g p h !! q = Some x → (q = p ∧ ∃ y, h !! p = Some y ∧ x = g y) ∨ (p ≠ q ∧ h !! q = Some x).
Proof.
  destruct (decide (p = q)) as [<-|Hne].
  - rewrite list_lookup_alter_eq. intros (y & Hy & ->)%fmap_Some. eauto.
  - rewrite list_lookup_alter_ne by done. auto.
Qed.

Lemma same_ends_alter g p h : (∀ f, f_src (g f) = f_src f ∧ f_dst (g f) = f_dst f) → same_ends h (alter g p h).
Proof.
  intros Hg q f Hf. destruct (decide (p = q)) as [<-|Hne].
  - rewrite list_lookup_alter_eq, Hf. eexists; split; [done|]. apply Hg.
  - rewrite list_lookup_alter_ne by done. eauto.
Qed.

Lemma same_ends_app h l : same_ends h (h ++ l).
Proof. intros p f Hf. exists f. split; [by apply lookup_app_l_Some|done]. Qed.

(** An update of one flow that keeps its endpoints and does not close a flow of the table. *)
Lemma inv_upd_flow c g p u :
  (∀ f, f_src (g f) = f_src f ∧ f_dst (g f) = f_dst f) →
  ((∀ f, f_closed (g f) = f_closed f) ∨ (∀ k, flows u !! k ≠ Some p)) →
  udp_inv c u → udp_inv c (upd_flow g p u).
Proof.
  intros Hg Hc [Hf Ht Hp Hs]. pose proof (same_ends_alter g p (flowHeap u) Hg) as Hm.
  split; cbn [upd_flow flowHeap flows pending sent].
  - intros q f Hq. apply alter_cases in Hq as [(-> & f' & Hf' & ->)|[_ Hq]]; [|eauto].
    destruct (Hg f') as [-> ->]. eauto.
  - intros k q Hk. destruct (Ht k q Hk) as (f & Hq & -> & Hcl).
    destruct (Hm q f Hq) as (f' & Hq' & Hs' & Hd'). exists f'. split; [done|]. rewrite Hs', Hd'.
    split; [done|]. apply alter_cases in Hq' as [(-> & f0 & Hf0 & ->)|[_ Hq']]; [|congruence].
    destruct Hc as [Hc|Hc]; [rewrite Hc; congruence|by destruct (Hc _ Hk)].
  - intros q s d m l Hq. eapply routed_mono; eauto.
  - by eapply routed_all_mono.
Qed.

Lemma inv_set_pending c p s d m l u :
  routed c (flowHeap u) p s d → udp_inv c u →
  udp_inv c (mkUDP (flowHeap u) (flows u) (Some (p, (s, d), m, l)) (sent u) (replied u)).
Proof. intros Hr [Hf Ht Hp Hs]. split; cbn [flowHeap flows pending sent]; try done. by intros ????? [= <- <- <- <- <-]. Qed.

Lemma swap16_range z : 0 <= swap16 z < 65536.
Proof. apply (wrap_range 16). lia. Qed.

Lemma raw_src_wf raw s : rawSockaddrToAddrPort raw = Ok s → src_wf s.
Proof.
  unfold rawSockaddrToAddrPort, src_wf, ap_wf. destruct (_ =? _).
  { intros [= <-]. cbn. split; [apply swap16_range|by left]. }
  destruct (_ =? _); [|intros [= <-]; cbn; split; [lia|by right]].
  generalize (AddrFrom16 (array_of 16 (raw_addr raw))). intros a. destruct (As4 a) eqn:H4; [|done].
  intros Hok. assert (s = mkAP (if Is4In6 a then AddrFrom4 t else a) (swap16 (raw_port raw))) as -> by congruence.
  cbn [ap_addr ap_port]. split; [apply swap16_range|left].
  destruct (Is4In6 a) eqn:Hi; [done|]. destruct a; try done. unfold As4 in H4. by rewrite Hi in H4.
Qed.

(** A destination the control messages give is a valid endpoint. *)
Definition cmsg_acc_ok (acc : AddrPort * byte * bool) : Prop := acc.2 = true → ep_wf acc.1.1.

Lemma cmsg_step_ok acc x : cmsg_acc_ok acc → cmsg_acc_ok (cmsg_step acc x).
Proof.
  destruct acc as [[dst dscp] ok]. intros Hd. unfold cmsg_step.
  repeat case_match; try done; intros _; (split; [done|apply u16_range]).
Qed.

Lemma parse_dst_wf msgs d m : parsePerPacketCmsg msgs = (d, m, true) → ep_wf d.
Proof.
  unfold parsePerPacketCmsg. destruct msgs as [l|]; [|done]. intros H.
  assert (cmsg_acc_ok (fold_left cmsg_step l (mkAP AddrZero 0, x00, false))) as Hok.
  { assert (cmsg_acc_ok (mkAP AddrZero 0, x00, false)) as H0 by done. revert H0. clear.
    generalize (mkAP AddrZero 0, x00, false). induction l as [|x l IH]; intros acc Ha; [done|].
    by apply IH, cmsg_step_ok. }
  rewrite H in Hok. by apply Hok.
Qed.

Lemma udp_accept_inv c now raw msgs opened payload u u' :
  udp_accept c now raw msgs opened payload u = Ok u' → udp_inv c u → udp_inv c u'.
Proof.
  unfold udp_accept. intros H Hu. case_match; [by simplify_eq|].
  destruct (rawSockaddrToAddrPort raw) as [src|e|] eqn:Hsrc; try done. cbn in H.
  destruct (parsePerPacketCmsg msgs) as [[dst dscp] ok] eqn:Hdst. destruct ok; cbn in H; [|by simplify_eq].
  destruct (tp_EnforceIsolation c && inPool c (ap_addr dst)) eqn:Hiso; [by simplify_eq|].
  assert (ends_ok c src dst) as He.
  { split; [by eapply raw_src_wf|split; [by eapply parse_dst_wf|]]. intros Hi. by rewrite Hi in Hiso. }
  destruct (flows u !! flow_key src dst) as [p|] eqn:Hk.
  - injection H as <-. apply inv_upd_flow; [done|by left|]. apply inv_set_pending; [|done].
    destruct (inv_table c u Hu _ _ Hk) as (f & Hf & Heq & _). split; [done|eauto].
  - destruct opened; [|by injection H as <-]. injection H as <-. destruct Hu as [Hf Ht Hp Hs].
    set (fl := mkFlow src dst now x00 false).
    assert ((flowHeap u ++ [fl]) !! length (flowHeap u) = Some fl) as Hnew by by apply list_lookup_middle.
    pose proof (same_ends_app (flowHeap u) [fl]) as Hm.
    split; cbn [flowHeap flows pending sent].
    + intros q f Hq. apply lookup_app_Some in Hq as [Hq|[_ Hq]]; [eauto|].
      apply list_lookup_singleton_Some in Hq as [_ <-]. done.
    + intros k q [[<- <-]|[_ Hq]]%lookup_insert_Some; [by exists fl|].
      destruct (Ht k q Hq) as (f & Hf' & Hk' & Hc). exists f. split; [by apply lookup_app_l_Some|done].
    + intros q s d m l [= <- <- <- <- <-]. split; [done|]. by exists fl.
    + by eapply routed_all_mono.
Qed.

Lemma udp_write_inv c u : udp_inv c u → udp_inv c (udp_write u).
Proof.
  intros Hu. unfold udp_write. destruct (pending u) as [[[[p [s d]] m] l]|] eqn:Hp; [|done].
  destruct (flowHeap u !! p) as [f|] eqn:Hf; [|done].
  set (g := λ f0 : flow, mkFlow _ _ _ _ _).
  destruct (inv_upd_flow c g p u ltac:(done) ltac:(by left) Hu) as [H1 H2 H3 H4].
  split; cbn [flowHeap flows pending sent]; try done.
  destruct (f_closed f); [done|]. apply Forall_app. split; [done|]. apply Forall_singleton.
  apply (H3 p s d m l). by cbn [upd_flow pending].
Qed.

Lemma pump_exit_inv c p u : udp_inv c u → udp_inv c (pump_exit p u).
Proof.
  intros Hu. unfold pump_exit. case_match; [|done]. case_bool_decide; [|done].
  destruct Hu as [Hf Ht Hp Hs]. split; cbn [flowHeap flows pending sent]; try done.
  intros k q [_ Hk]%lookup_delete_Some. eauto.
Qed.

Lemma udp_step_inv c u u' : udp_step c u u' → udp_inv c u → udp_inv c u'.
Proof.
  intros [now raw msgs opened payload u0 u1 _ H| |now p data f u0 Hf Hc| | |p u0 Hk] Hu;
    eauto using udp_accept_inv, udp_write_inv, pump_exit_inv.
  - unfold pump_reply. case_match; [done|].
    destruct (inv_upd_flow c (bump_flow now) p u0 ltac:(done) ltac:(by left) Hu) as [H1 H2 H3 H4]. by split.
  - apply inv_upd_flow; [done|by right|done].
Qed.

Lemma udp_reach_inv c u : udp_reach c u → udp_inv c u.
Proof.
  induction 1 as [|u u' _ IH Hs]; [|by eapply udp_step_inv].
  split; cbn; [done..|constructor].
Qed.

(** ** Claims *)

(** In every run of the UDP side, with the accept loop and the reply pumps in any
    order, the flow table only points at open flows under their own key, each datagram
    sent upstream went out on a flow of its own client and to exactly its own
    destination, and with isolation on no destination of a flow or of a
    datagram lies in the address pools. *)
Lemma udp_flows_ok c u : udp_reach c u →
  (∀ k p, flows u !! k = Some p →
    ∃ f, flowHeap u !! p = Some f ∧ f_closed f = false ∧ k = flow_key (f_src f) (f_dst f))
  ∧ (∀ p f, flowHeap u !! p = Some f → tp_EnforceIsolation c = true → inPool c (ap_addr (f_dst f)) = false)
  ∧ (∀ p s d m l, (p, (s, d), m, l) ∈ sent u →
      (tp_EnforceIsolation c = true → inPool c (ap_addr d) = false)
      ∧ ∃ f, flowHeap u !! p = Some f ∧ f_src f = s ∧ f_dst f = d).
Proof.
  intros [Hf Ht _ Hs]%udp_reach_inv. split_and!.
  - intros k p Hk. destruct (Ht k p Hk) as (f & ? & ? & ?). by exists f.
  - intros p f Hp Hi. by apply (Hf p f Hp).
  - intros p s d m l Hin. rewrite Forall_forall in Hs. specialize (Hs _ Hin). cbn in Hs.
    destruct Hs as [(Hws & Hwd & Hpool) (f & Hp & Hk)]. split; [done|]. exists f. split; [done|].
    destruct (Hf p f Hp) as (Hws' & Hwd' & _).
    destruct (flow_key_inj _ _ _ _ Hws Hws' Hwd Hwd' Hk) as [-> ->]. done.
Qed.

Definition sample_tproxy : TPROXYConfig :=
  mkTPROXY true EmptyString 0 0 true (mkPrefix (Addr4 [# x0a; x42; x00; x00]) 24) PrefixZero
    (Addr4 [# x0a; x42; x00; x01]) AddrZero.
Definition sample_raw : RawSockaddr := mkRaw AF_INET 36895 [x0a; x42; x00; x05].
Definition sample_cmsg : cmsg :=
  mkCmsg IPPROTO_IP IP_ORIGDSTADDR [x02; x00; x00; x35; x08; x08; x08; x08].
Definition sample_udp : udpState :=
  match udp_accept sample_tproxy 7 sample_raw (Some [sample_cmsg]) true [x01] udp_init with
  | Ok u => udp_write u | _ => udp_init end.

(** C35: The address a datagram came from, read from what the kernel stores, is the
    IPv4 endpoint with its port put back in host order, also when it is stored as an
    IPv4-mapped IPv6 address; but a datagram from any other IPv6 address makes the
    accept loop panic, because the address is converted before it is tested. *)
Theorem udp_source_address c now port v (raw : list byte) msgs (opened : bool) payload u :
  payload ≠ [] → length raw = 16%nat → take 12 raw ≠ v4InV6Prefix →
  rawSockaddrToAddrPort (mkRaw AF_INET port (vec_to_list v)) = Ok (mkAP (Addr4 v) (swap16 port))
  ∧ rawSockaddrToAddrPort (mkRaw AF_INET6 port (v4InV6Prefix ++ vec_to_list v)) = Ok (mkAP (Addr4 v) (swap16 port))
  ∧ (∀ x y, swap16 (b2z x + 256 * b2z y) = 256 * b2z x + b2z y)
  ∧ udp_accept c now (mkRaw AF_INET6 port raw) msgs opened payload u = Panic.
Proof.
  intros Hp Hl Hn. split_and!.
  - unfold rawSockaddrToAddrPort. cbn [family raw_addr raw_port]. rewrite array_of_vec_to_list. done.
  - unfold rawSockaddrToAddrPort. cbn [family raw_addr raw_port].
    assert (vec_to_list (array_of 16 (v4InV6Prefix ++ vec_to_list v)) = v4InV6Prefix ++ vec_to_list v) as Hv.
    { apply vec_to_list_array_of. by rewrite length_app, length_vec_to_list. }
    change (AF_INET6 =? AF_INET) with false. cbn [Z.eqb Pos.eqb AF_INET6]. unfold As4, Is4In6, AddrFrom16.
    rewrite Hv. rewrite take_app_length' by done. rewrite bool_decide_eq_true_2 by done.
    rewrite drop_app_length' by done. by rewrite array_of_vec_to_list.
  - intros x y. unfold swap16. pose proof (b2z_range x). pose proof (b2z_range y).
    rewrite (Z.shiftr_div_pow2 _ 8), Z.lor_comm by lia. change (2 ^ 8) with 256.
    replace ((b2z x + 256 * b2z y) / 256) with (b2z y) by (apply (Z.div_unique _ _ _ (b2z x)); lia).
    rewrite lor_shiftl_add by lia. unfold wrap. change (2 ^ 8) with 256. change (2 ^ 16) with 65536.
    symmetry. apply (Z.mod_unique _ _ (b2z y)); lia.
  - unfold udp_accept. destruct payload; [done|]. cbn [length Nat.eqb].
    unfold rawSockaddrToAddrPort. cbn [family raw_addr raw_port].
    change (AF_INET6 =? AF_INET) with false. cbn [Z.eqb Pos.eqb AF_INET6]. unfold As4, Is4In6, AddrFrom16.
    rewrite vec_to_list_array_of by done. by rewrite bool_decide_eq_false_2.
Qed.

Example udp_source_address_witness :
  udp_accept sample_tproxy 7 (mkRaw AF_INET6 0 (xfd :: zeros 15)) None true [x01] udp_init = Panic.
Proof. apply (udp_source_address sample_tproxy 7 0 [# x08; x08; x08; x08] (xfd :: zeros 15)); done. Defined.

(** For a configuration built from the file, the listener's port is the one the
    redirect rules use exactly when the file gives no separate listener port or gives
    the same one; isolation in the listener follows the rules' unless it is set apart,
    over the same pools and server addresses; and with no listen address the listener
    binds every interface. *)
Theorem listener_matches_rules fc sn sn6 ip ip6 (found : bool) n :
  let t := NewTPROXYListener (tproxy_of fc sn sn6 ip ip6) in
  NewNFTInstaller found (nft_of fc sn sn6 ip ip6) = Ok n →
  nft_Enabled n = true → nft_TPROXY n = true → tp_Enabled t = true →
  (tp_ListenPort t = nft_TPROXYPort n
     ↔ tf_ListenPort (fc_TPROXY fc) = 0 ∨ tf_ListenPort (fc_TPROXY fc) = nft_TPROXYPort n)
  ∧ (EnforceIso (fc_TPROXY fc) = None → tp_EnforceIsolation t = nft_Isolation n)
  ∧ tp_PoolV4 t = nft_PoolV4 n ∧ tp_PoolV6 t = nft_PoolV6 n
  ∧ tp_ServerIP4 t = nft_ServerIP4 n ∧ tp_ServerIP6 t = nft_ServerIP6 n
  ∧ (tf_ListenAddr (fc_TPROXY fc) = EmptyString → tp_ListenAddr t = "0.0.0.0"%string).
Proof.
  intros t Hn He Htp Hen. unfold NewNFTInstaller in Hn.
  destruct (nft_Enabled (nft_of fc sn sn6 ip ip6)) eqn:He'; cbn [negb] in Hn;
    [|assert (n = nft_of fc sn sn6 ip ip6) as -> by congruence; congruence].
  destruct found; [|done]. cbn [negb] in Hn. injection Hn as <-. cbn [nft_TPROXY nft_of] in Htp.
  unfold t, NewTPROXYListener in *. destruct (tp_Enabled (tproxy_of fc sn sn6 ip ip6)) eqn:Ht; cbn [negb] in Hen; [|by rewrite Ht in Hen].
  cbn [negb tp_ListenPort tp_EnforceIsolation tp_PoolV4 tp_PoolV6 tp_ServerIP4 tp_ServerIP6 tp_ListenAddr tproxy_of
       nft_of nft_TPROXY nft_TPROXYPort nft_Isolation nft_PoolV4 nft_PoolV6 nft_ServerIP4 nft_ServerIP6].
  rewrite Htp. split_and!; try done.
  - unfold def_int. destruct (Z.eqb_spec (tf_ListenPort (fc_TPROXY fc)) 0) as [->|Hne]; cbn [negb].
    + split; [by left|done].
    + destruct (Z.eqb_spec (tf_ListenPort (fc_TPROXY fc)) 0); [done|]. split; [by right|]. intros [H|H]; [done|exact H].
  - by intros ->.
  - by intros ->.
Qed.

Definition tproxy_file (port : Z) : FileConfig :=
  mkFileCfg "0.0.0.0:4500" 4 false "aes-gcm" None None EmptyString EmptyString EmptyString EmptyString (mkBrutal false 0)
    (mkPoolCfg EmptyString EmptyString EmptyString EmptyString) [] (mkRateFile false (SpecFloat.S754_zero false) 0 0 0)
    (mkForward true true true false 0 0 0 EmptyString EmptyString) (mkNFTFile None EmptyString EmptyString)
    (mkTPROXYFile None EmptyString port EmptyString 0 None).

Example listener_matches_rules_witness :
  tp_ListenPort (NewTPROXYListener (tproxy_of (tproxy_file 0) PrefixZero PrefixZero AddrZero AddrZero)) = 13338
  ∧ tp_ListenPort (NewTPROXYListener (tproxy_of (tproxy_file 9000) PrefixZero PrefixZero AddrZero AddrZero)) ≠ 13338.
Proof.
  pose proof (listener_matches_rules (tproxy_file 0) PrefixZero PrefixZero AddrZero AddrZero true _
    eq_refl eq_refl eq_refl eq_refl) as [H0 _].
  pose proof (listener_matches_rules (tproxy_file 9000) PrefixZero PrefixZero AddrZero AddrZero true _
    eq_refl eq_refl eq_refl eq_refl) as [H9 _].
  split; [apply H0; by left|]. intros H. apply H9 in H as [H|H]; discriminate H.
Defined.
