(* ===== verification/Relay.v ===== *)
(** * tproxy_listen_linux.go, tproxy-spoof/main.go: relaying TCP connections

    A relay joins two connections with one copying goroutine per direction; each ends
    by half-closing its destination, and the caller closes both connections when both
    are done.  The goroutines are interleaved steps.  A connection is seen from the
    relay: what its peer sends and when its stream ends, how much its peer takes, and
    what was written to it.
    The helper tproxy-spoof relays in the same way, after dialing from the client's
    own address.  Dialing and the kernel's answers to socket options are arguments. *)

From Stdlib Require Import Strings.Byte.
From stdpp Require Import relations.
From S2P Require Import Prelude Netip Users Keys NetipText AddrText Addr6Text RateLimit Config YamlConfig Nft Tproxy.

(** ** Connections *)

(** When the peer's stream ends: on its own, once the peer has seen our half-close (before
    which it sends the rest), or never.  The end is EOF or an error, which [io.Copy]'s
    caller does not distinguish. *)
Inductive peerEnd : Type := EndsAlone | EndsOnFin (late : list byte) | NeverEnds.

(** [tc_in] is what the peer sends before; [room] how many bytes it takes ([None]: all),
    beyond which a write fails or, if it [stalls], blocks; [halfcloses] whether the Go
    value has [CloseWrite]. *)
Record tcpConn : Type := mkTcp {
  tc_in : list byte;
  tc_end : peerEnd;
  room : option nat;
  stalls : bool;
  tc_out : list byte;
  halfcloses : bool;
  wclosed : bool;
  tc_closed : bool
}.

Definition tc_Close (c : tcpConn) : tcpConn :=
  mkTcp (tc_in c) (tc_end c) (room c) (stalls c) (tc_out c) (halfcloses c) (wclosed c) true.

Definition closeWrite (c : tcpConn) : tcpConn :=
  if halfcloses c
  then mkTcp (tc_in c) (tc_end c) (room c) (stalls c) (tc_out c) (halfcloses c) true (tc_closed c)
  else tc_Close c.

(** How much of [data] a peer with this room takes. *)
Definition taken (r : option nat) (data : list byte) : list byte :=
  match r with None => data | Some k => take k data end.

Definition fits (r : option nat) (data : list byte) : bool :=
  match r with None => true | Some k => (length data <=? k)%nat end.

Inductive writeRes : Type := WroteAll | WriteFailed | WriteBlocks.

(** [Write]: the bytes taken are written; when not all were, the call fails or blocks. *)
Definition tc_Write (data : list byte) (c : tcpConn) : writeRes * tcpConn :=
  if wclosed c || tc_closed c then (WriteFailed, c)
  else (if fits (room c) data then WroteAll else if stalls c then WriteBlocks else WriteFailed,
        mkTcp (tc_in c) (tc_end c) ((λ k, k - length data)%nat <$> room c) (stalls c)
          (tc_out c ++ taken (room c) data) (halfcloses c) (wclosed c) (tc_closed c)).

Inductive readRes : Type := ReadData (chunk : list byte) (c : tcpConn) | ReadEnd | ReadBlocks.

(** [Read] of at most [S n] bytes of [l], what is there to read. *)
Definition read_of (n : nat) (l : list byte) (e : peerEnd) (c : tcpConn) : readRes :=
  ReadData (take (S n) l)
    (mkTcp (drop (S n) l) e (room c) (stalls c) (tc_out c) (halfcloses c) (wclosed c) (tc_closed c)).

Definition tc_Read (n : nat) (c : tcpConn) : readRes :=
  if tc_closed c then ReadEnd
  else match tc_in c with
       | [] =>
           match tc_end c with
           | EndsAlone => ReadEnd
           | NeverEnds => ReadBlocks
           | EndsOnFin late =>
               if negb (wclosed c) then ReadBlocks
               else match late with [] => ReadEnd | _ => read_of n late EndsAlone c end
           end
       | l => read_of n l (tc_end c) c
       end.

(** ** The relay *)

(** [PStuck]: in a [Write] that does not return. *)
Inductive copyPhase : Type := PCopy | PStuck | PCloseWrite | PDone.

Record relay : Type := mkRelay {
  ra : tcpConn; rb : tcpConn;                  (* the client and the upstream *)
  ph_ab : copyPhase; ph_ba : copyPhase;
  returned : bool
}.

Definition relay_init (a b : tcpConn) : relay := mkRelay a b PCopy PCopy false.

(** The goroutine that copies from [ra] to [rb]: an iteration of [io.Copy], then
    [closeWrite], then its message on [done]; no step while a call blocks. *)
Definition copy_ab (n : nat) (s : relay) : option relay :=
  match ph_ab s with
  | PCopy =>
      match tc_Read n (ra s) with
      | ReadBlocks => None
      | ReadEnd => Some (mkRelay (ra s) (rb s) PCloseWrite (ph_ba s) (returned s))
      | ReadData chunk a =>
          let '(res, b) := tc_Write chunk (rb s) in
          let ph := match res with WroteAll => PCopy | WriteFailed => PCloseWrite | WriteBlocks => PStuck end in
          Some (mkRelay a b ph (ph_ba s) (returned s))
      end
  | PCloseWrite => Some (mkRelay (ra s) (closeWrite (rb s)) PDone (ph_ba s) (returned s))
  | PStuck | PDone => None
  end.

Definition swap_ends (s : relay) : relay := mkRelay (rb s) (ra s) (ph_ba s) (ph_ab s) (returned s).

(** The other goroutine does the same with the ends exchanged. *)
Definition copy_ba (n : nat) (s : relay) : option relay := swap_ends <$> copy_ab n (swap_ends s).

(** Both [<-done], the return of [relayTCP], and the deferred closes of its caller. *)
Definition relay_return (s : relay) : option relay :=
  match ph_ab s, ph_ba s, returned s with
  | PDone, PDone, false => Some (mkRelay (tc_Close (ra s)) (tc_Close (rb s)) PDone PDone true)
  | _, _, _ => None
  end.

Inductive relay_step : relay → relay → Prop :=
| step_ab n s s' : copy_ab n s = Some s' → relay_step s s'
| step_ba n s s' : copy_ba n s = Some s' → relay_step s s'
| step_return s s' : relay_return s = Some s' → relay_step s s'.

(** ** Sessions *)

(** [handleTCP] as a whole: the client is closed at once when its destination is
    unreadable or forbidden or cannot be dialed, and relayed otherwise.  The first
    component is the addresses dialed. *)
Definition tcp_session (c : TPROXYConfig) (local : string) (dial : string → option tcpConn) (client : tcpConn)
    : list string * (tcpConn + relay) :=
  match handleTCP c local with
  | None => ([], inl (tc_Close client))
  | Some target =>
      ([target],
       match dial target with
       | None => inl (tc_Close client)
       | Some upstream => inr (relay_init client upstream)
       end)
  end.

(** ** The source-preserving helper *)

(** package net: an IP is a byte slice, and a [TCPAddr] has a zone. *)
Definition To4 (ip : list byte) : option (list byte) :=
  if (length ip =? 4)%nat then Some ip
  else if (length ip =? 16)%nat && bool_decide (take 12 ip = v4InV6Prefix) then Some (drop 12 ip)
  else None.

Record TCPAddr : Type := mkTA { ta_IP : list byte; ta_Port : Z; ta_Zone : string }.

(** The text of an IP of length 4 or 16, or of none. *)
Definition IP_text (ip : list byte) : string :=
  if (length ip =? 0)%nat then EmptyString
  else match To4 ip with
       | Some v4 => Addr_String (Addr4 (array_of 4 v4))
       | None => Addr_String (Addr6 (array_of 16 ip) EmptyString)
       end.

Definition TCPAddr_String (a : TCPAddr) : string :=
  let host := if bool_decide (ta_Zone a = EmptyString) then IP_text (ta_IP a)
              else IP_text (ta_IP a) +:+ "%" +:+ ta_Zone a in
  string_of (JoinHostPort (bytes_of host) (bytes_of (dec (ta_Port a)))).

Inductive spoofOpt : Type :=
| SO_REUSEADDR | IP_TRANSPARENT | IPV6_TRANSPARENT | IPV6_V6ONLY (v : Z).

Section spoof.

(** The kernel's answer to an option: [None] when it is taken. *)
Context (answer : spoofOpt → option Z) (noSpoof : bool).

(** The control functions: the options set, in order, and the error returned. *)
Definition listen_control : list spoofOpt * option Z :=
  ([SO_REUSEADDR; IP_TRANSPARENT; IPV6_TRANSPARENT; IPV6_V6ONLY 0], answer IP_TRANSPARENT).

Definition dial_control : list spoofOpt * option Z :=
  if noSpoof then ([], None) else ([IP_TRANSPARENT; IPV6_TRANSPARENT], answer IP_TRANSPARENT).

Record dialReq : Type := mkDial {
  d_network : string;
  d_local : option TCPAddr;
  d_addr : string;
  d_opts : list spoofOpt
}.

Definition dial_request (src dst : TCPAddr) : dialReq :=
  mkDial (match To4 (ta_IP src), To4 (ta_IP dst) with Some _, Some _ => "tcp4" | _, _ => "tcp6" end)
    (if noSpoof then None else Some (mkTA (ta_IP src) 0 EmptyString)) (TCPAddr_String dst) dial_control.1.

(** A control function that fails fails the dial. *)
Definition dialTransparent (dial : dialReq → option tcpConn) (src dst : TCPAddr) : option tcpConn :=
  match dial_control.2 with Some _ => None | None => dial (dial_request src dst) end.

(** [local] and [remote] are [None] when they are not TCP addresses. *)
Definition handle (dial : dialReq → option tcpConn) (local remote : option TCPAddr) (client : tcpConn)
    : tcpConn + relay :=
  match local, remote with
  | Some dst, Some src =>
      match dialTransparent dial src dst with
      | None => inl (tc_Close client)
      | Some out => inr (relay_init client out)
      end
  | _, _ => inl (tc_Close client)
  end.

End spoof.

(** ** Every schedule of the relay *)

(** What the peer has still to send, seeing the half-close included. *)
Definition to_come (c : tcpConn) : list byte :=
  tc_in c ++ match tc_end c with EndsOnFin late => late | _ => [] end.

(** One direction, [d] being all that its destination takes of the source's stream. *)
Definition dir_ok (d : list byte) (a b : tcpConn) (ph : copyPhase) : Prop :=
  match ph with
  | PCopy => wclosed b = false ∧ tc_out b ++ taken (room b) (to_come a) = d
  | PStuck => wclosed b = false ∧ tc_out b = d ∧ stalls b = true
  | PCloseWrite => wclosed b = false ∧ tc_out b = d
  | PDone => wclosed b = true ∧ tc_out b = d
  end.

Record relay_ok (d e : list byte) (s : relay) : Prop := mkRelayOk {
  ok_ab : dir_ok d (ra s) (rb s) (ph_ab s);
  ok_ba : dir_ok e (rb s) (ra s) (ph_ba s);
  ok_half : halfcloses (ra s) = true ∧ halfcloses (rb s) = true;
  ok_open : tc_closed (ra s) = returned s ∧ tc_closed (rb s) = returned s;
  ok_done : returned s = true → ph_ab s = PDone ∧ ph_ba s = PDone
}.

Lemma relay_ok_swap d e s : relay_ok d e s → relay_ok e d (swap_ends s).
Proof. intros [H1 H2 [Ha Hb] [Oa Ob] Hd]. split; cbn; try done. intros Hr. by destruct (Hd Hr). Qed.

Lemma taken_step r (chunk rest : list byte) :
  (fits r chunk = true → taken r chunk ++ taken ((λ k, k - length chunk)%nat <$> r) rest = taken r (chunk ++ rest)) ∧
  (fits r chunk = false → taken r chunk = taken r (chunk ++ rest)).
Proof.
  destruct r as [k|]; cbn; [|done]. destruct (Nat.leb_spec (length chunk) k) as [Hk|Hk]; split; try done; intros _.
  - by rewrite take_app, (take_ge chunk) by done.
  - by rewrite take_app_le by lia.
Qed.

(** Only what is to come, and how it will end, changes by a read. *)
Definition same_but_in (a a' : tcpConn) : Prop :=
  room a' = room a ∧ stalls a' = stalls a ∧ tc_out a' = tc_out a ∧ halfcloses a' = halfcloses a ∧
  wclosed a' = wclosed a ∧ tc_closed a' = tc_closed a ∧ (tc_end a' = tc_end a ∨ tc_end a' = EndsAlone).

(** The three outcomes of a read from an open connection. *)
Lemma tc_Read_spec n a : tc_closed a = false →
  match tc_Read n a with
  | ReadData chunk a' => chunk ≠ [] ∧ to_come a = chunk ++ to_come a' ∧ same_but_in a a'
  | ReadEnd => to_come a = []
  | ReadBlocks => tc_in a = [] ∧ (tc_end a = NeverEnds ∨ (∃ l, tc_end a = EndsOnFin l) ∧ wclosed a = false)
  end.
Proof.
  intros Hc. unfold tc_Read. rewrite Hc. destruct (tc_in a) as [|x l] eqn:Hin.
  - destruct (tc_end a) as [|[|x l]|] eqn:He; unfold to_come; rewrite ?Hin, ?He; [done| | |by auto].
    all: destruct (wclosed a) eqn:Hw; cbn [negb]; [|by eauto]; try done.
    cbn [read_of tc_in tc_end]. rewrite app_nil_r, app_nil_l. split_and!; [done|by rewrite take_drop|].
    unfold same_but_in. cbn. rewrite Hw. by auto 10.
  - cbn [read_of]. split_and!; [done| |unfold same_but_in; cbn; by auto 10].
    unfold to_come. cbn [tc_in tc_end]. by rewrite Hin, app_assoc, take_drop.
Qed.

(** A copying goroutine keeps the other direction's ends as far as that depends on them. *)
Lemma copy_ab_ok d e n s s' : relay_ok d e s → copy_ab n s = Some s' → relay_ok d e s'.
Proof.
  intros [H1 H2 [Ha Hb] [Oa Ob] Hd]. unfold copy_ab. destruct (ph_ab s) eqn:Hp; [|done| |done].
  - assert (returned s = false) as Hr by (destruct (returned s); [by destruct (Hd eq_refl)|done]).
    cbn in H1. destruct H1 as [Hw H1]. pose proof (tc_Read_spec n (ra s) ltac:(congruence)) as Hrd.
    destruct (tc_Read n (ra s)) as [chunk a| |]; [| |done].
    + destruct Hrd as (_ & Hcome & R1 & R2 & R3 & R4 & R5 & R6 & _). unfold tc_Write. rewrite Hw, Ob, Hr. cbn [orb].
      destruct (taken_step (room (rb s)) chunk (to_come a)) as [Hy Hn]. rewrite <-Hcome in Hy, Hn. intros [= <-].
      split; cbn [ra rb ph_ab ph_ba returned halfcloses tc_closed]; rewrite ?Hr; [| |by rewrite R4| |done].
      * destruct (fits (room (rb s)) chunk); [|destruct (stalls (rb s))];
          cbn [dir_ok wclosed tc_out room stalls]; split_and?; try done.
        -- rewrite <-app_assoc. by rewrite Hy by done.
        -- by rewrite Hn.
        -- by rewrite Hn.
      * unfold dir_ok in *. cbn [to_come tc_in tc_end] in *. by rewrite R1, R2, R3, R5.
      * rewrite R6. split; congruence.
    + intros [= <-]. split; cbn; rewrite ?Oa, ?Ob, ?Hr; try done. split; [done|]. rewrite Hrd in H1. revert H1.
      destruct (room (rb s)); cbn; by rewrite ?take_nil, app_nil_r.
  - intros [= <-]. cbn in H1. destruct H1 as [Hw H1]. unfold closeWrite. rewrite Hb.
    split; cbn; try done. intros Hr. by destruct (Hd Hr).
Qed.

Lemma relay_return_ok d e s s' : relay_ok d e s → relay_return s = Some s' → relay_ok d e s'.
Proof.
  intros [H1 H2 [Ha Hb] [Oa Ob] Hd]. unfold relay_return.
  destruct (ph_ab s), (ph_ba s), (returned s); intros [= <-]. by split.
Qed.

Lemma relay_step_ok d e s s' : relay_step s s' → relay_ok d e s → relay_ok d e s'.
Proof.
  intros [n s0 s1 H|n s0 s1 H|s0 s1 H] Hs; [eapply copy_ab_ok; eassumption| |eapply relay_return_ok; eassumption].
  apply fmap_Some in H as (s2 & H & ->). apply relay_ok_swap. eapply copy_ab_ok; [by apply relay_ok_swap|exact H].
Qed.

(** *** Termination *)

Definition weight (p : copyPhase) : nat := match p with PCopy => 2 | PCloseWrite => 1 | PStuck | PDone => 0 end.

Definition work (s : relay) : nat :=
  (length (to_come (ra s)) + length (to_come (rb s)) + weight (ph_ab s) + weight (ph_ba s) + if returned s then 0 else 1)%nat.

Lemma to_come_Write data c : to_come (tc_Write data c).2 = to_come c.
Proof. unfold tc_Write. by destruct (_ || _). Qed.

Lemma to_come_closeWrite c : to_come (closeWrite c) = to_come c.
Proof. unfold closeWrite. by destruct (halfcloses c). Qed.

Lemma copy_ab_work n s s' : copy_ab n s = Some s' → (work s' < work s)%nat.
Proof.
  unfold copy_ab, work. destruct (ph_ab s) eqn:Hp; [|done| |done].
  - destruct (tc_closed (ra s)) eqn:Hc.
    { unfold tc_Read. rewrite Hc. intros [= <-]. cbn. lia. }
    pose proof (tc_Read_spec n (ra s) Hc) as Hrd. destruct (tc_Read n (ra s)) as [chunk a| |]; [| |done].
    + destruct Hrd as (Hne & Hcome & _). rewrite Hcome, length_app.
      assert (length chunk ≠ 0)%nat by by intros ?%nil_length_inv. pose proof (to_come_Write chunk (rb s)) as E.
      destruct (tc_Write chunk (rb s)) as [[] b]; intros [= <-]; cbn [snd ra rb ph_ab ph_ba returned weight] in *;
        rewrite E; lia.
    + intros [= <-]. cbn. lia.
  - intros [= <-]. cbn [ra rb ph_ab ph_ba returned weight]. rewrite to_come_closeWrite. lia.
Qed.

Lemma relay_step_work s s' : relay_step s s' → (work s' < work s)%nat.
Proof.
  intros [n s0 s1 H|n s0 s1 H|s0 s1 H]; [by eapply copy_ab_work| |].
  - apply fmap_Some in H as (s2 & H%copy_ab_work & ->). unfold work in *. cbn in *. lia.
  - unfold relay_return in H. unfold work. destruct (ph_ab s0), (ph_ba s0), (returned s0); try done.
    injection H as <-. cbn. unfold to_come. cbn. lia.
Qed.

(** A peer that takes all it is sent, or refuses it, and whose stream ends. *)
Definition lively (c : tcpConn) : Prop := stalls c = false ∧ tc_end c ≠ NeverEnds.

(** A peer that ends its stream only after ours. *)
Definition waits (c : tcpConn) : Prop := ∃ late, tc_end c = EndsOnFin late.

Definition can_finish (a b : tcpConn) : Prop := lively a ∧ lively b ∧ ¬ (waits a ∧ waits b).

Lemma can_finish_weaken a b a' b' :
  stalls a' = stalls a → stalls b' = stalls b → (tc_end a' = tc_end a ∨ tc_end a' = EndsAlone) →
  (tc_end b' = tc_end b ∨ tc_end b' = EndsAlone) → can_finish a b → can_finish a' b'.
Proof.
  intros Sa Sb Ea Eb ([La Na] & [Lb Nb] & Hw). unfold can_finish, lively, waits in *. rewrite Sa, Sb. split_and!; try done.
  - by destruct Ea as [-> | ->].
  - by destruct Eb as [-> | ->].
  - intros [[x Hx] [y Hy]]. apply Hw. destruct Ea as [Ea|Ea], Eb as [Eb|Eb]; rewrite Ea in Hx; rewrite Eb in Hy; naive_solver.
Qed.

Lemma copy_ab_can_finish n s s' : copy_ab n s = Some s' →
  can_finish (ra s) (rb s) → can_finish (ra s') (rb s').
Proof.
  unfold copy_ab. destruct (ph_ab s); [|done| |done].
  - destruct (tc_closed (ra s)) eqn:Hc.
    { unfold tc_Read. rewrite Hc. by intros [= <-]. }
    pose proof (tc_Read_spec n (ra s) Hc) as Hrd. destruct (tc_Read n (ra s)) as [chunk a| |]; [|by intros [= <-]|done].
    destruct Hrd as (_ & _ & _ & Ha & _ & _ & _ & _ & He).
    assert (stalls (tc_Write chunk (rb s)).2 = stalls (rb s) ∧ tc_end (tc_Write chunk (rb s)).2 = tc_end (rb s)) as [Hb Eb]
      by (unfold tc_Write; by destruct (_ || _)).
    destruct (tc_Write chunk (rb s)) as [res b]. intros [= <-]. cbn [snd ra rb] in *. apply can_finish_weaken; auto.
  - intros [= <-]. cbn. unfold closeWrite. apply can_finish_weaken; destruct (halfcloses (rb s)); auto.
Qed.

Lemma can_finish_sym a b : can_finish a b ↔ can_finish b a.
Proof. unfold can_finish. tauto. Qed.

Lemma relay_step_can_finish s s' : relay_step s s' → can_finish (ra s) (rb s) → can_finish (ra s') (rb s').
Proof.
  intros [n s0 s1 H|n s0 s1 H|s0 s1 H] Hf; [by eapply copy_ab_can_finish| |].
  - apply fmap_Some in H as (s2 & H & ->). apply can_finish_sym. eapply copy_ab_can_finish; [exact H|by apply can_finish_sym].
  - unfold relay_return in H. destruct (ph_ab s0), (ph_ba s0), (returned s0); try done. by injection H as <-.
Qed.

(** A goroutine that has no step is done, or waits for the end of a peer that waits. *)
Lemma copy_ab_blocked d e s : relay_ok d e s → can_finish (ra s) (rb s) → returned s = false →
  copy_ab 0 s = None → ph_ab s = PDone ∨ waits (ra s) ∧ wclosed (ra s) = false.
Proof.
  intros [H1 _ _ [Oa _] _] ([_ Na] & [Lb _] & _) Hr. unfold copy_ab. destruct (ph_ab s) eqn:Hp; [| |done|by left].
  - pose proof (tc_Read_spec 0 (ra s) ltac:(congruence)) as Hrd. destruct (tc_Read 0 (ra s)) as [chunk a| |]; [|done|].
    + by destruct (tc_Write chunk (rb s)).
    + destruct Hrd as [_ [?|[? ?]]]; [done|by right].
  - destruct H1 as (_ & _ & Hs). congruence.
Qed.

Lemma relay_progress d e s : relay_ok d e s → can_finish (ra s) (rb s) → returned s = false → ∃ s', relay_step s s'.
Proof.
  intros Hok Hf Hr. destruct (copy_ab 0 s) as [s'|] eqn:E; [eexists; by eapply step_ab|].
  destruct (copy_ba 0 s) as [s'|] eqn:E'; [eexists; by eapply step_ba|].
  apply fmap_None in E'. pose proof (copy_ab_blocked _ _ _ Hok Hf Hr E) as Ha.
  pose proof (copy_ab_blocked _ _ _ (relay_ok_swap _ _ _ Hok) (proj1 (can_finish_sym _ _) Hf) Hr E') as Hb. cbn in Hb.
  destruct Hok as [H1 H2 _ _ _]. destruct Hf as (_ & _ & Hw).
  destruct Ha as [Ha|[Ha Wa]], Hb as [Hb|[Hb Wb]].
  - eexists. eapply step_return. unfold relay_return. by rewrite Ha, Hb, Hr.
  - rewrite Ha in H1. destruct H1. congruence.
  - rewrite Hb in H2. destruct H2. congruence.
  - by destruct Hw.
Qed.

(** A connection as it is accepted or dialed. *)
Definition fresh (c : tcpConn) : Prop := tc_out c = [] ∧ halfcloses c = true ∧ wclosed c = false ∧ tc_closed c = false.

Lemma relay_init_ok a b : fresh a → fresh b →
  relay_ok (taken (room b) (to_come a)) (taken (room a) (to_come b)) (relay_init a b).
Proof. intros (Oa & Ha & Wa & Ca) (Ob & Hb & Wb & Cb). split; cbn; rewrite ?Oa, ?Ob; done. Qed.

Lemma relay_steps_work k s s' : nsteps relay_step k s s' → (k + work s' ≤ work s)%nat.
Proof. induction 1 as [|k s1 s2 s3 H1%relay_step_work _ IH]; lia. Qed.

Lemma dir_prefix d a b ph : dir_ok d a b ph → tc_out b `prefix_of` d.
Proof. destruct ph; cbn; intros [_ H]; [rewrite <-H; by apply prefix_app_r|by destruct H as [<- _]|by rewrite H..]. Qed.

Lemma dir_wclosed d a b ph : dir_ok d a b ph → wclosed b = true → ph = PDone ∧ tc_out b = d.
Proof. destruct ph; cbn; intros [H1 H2] Hw; [congruence..|done]. Qed.

(** What holds of a relay between two fresh connections after [k] steps of any schedule. *)
Definition relay_delivers (a b : tcpConn) (k : nat) (s : relay) : Prop :=
  let to_b := taken (room b) (to_come a) in
  let to_a := taken (room a) (to_come b) in
  tc_out (rb s) `prefix_of` to_b ∧ tc_out (ra s) `prefix_of` to_a ∧
  (wclosed (rb s) = true → tc_out (rb s) = to_b) ∧ (wclosed (ra s) = true → tc_out (ra s) = to_a) ∧
  (k ≤ length (to_come a) + length (to_come b) + 5)%nat ∧
  (if returned s
   then tc_out (rb s) = to_b ∧ tc_out (ra s) = to_a ∧ wclosed (ra s) = true ∧ wclosed (rb s) = true ∧
        tc_closed (ra s) = true ∧ tc_closed (rb s) = true
   else tc_closed (ra s) = false ∧ tc_closed (rb s) = false ∧ (can_finish a b → ∃ s', relay_step s s')).

Lemma relay_run a b k s : fresh a → fresh b → nsteps relay_step k (relay_init a b) s → relay_delivers a b k s.
Proof.
  intros Ha Hb Hr. assert (relay_ok (taken (room b) (to_come a)) (taken (room a) (to_come b)) s ∧
    (can_finish a b → can_finish (ra s) (rb s))) as [Hok Hf].
  { assert (can_finish a b → can_finish (ra (relay_init a b)) (rb (relay_init a b))) as Hf0 by done.
    pose proof (relay_init_ok a b Ha Hb) as H0. induction Hr as [|k s1 s2 s3 H1 _ IH]; [done|].
    apply IH; [intros H; by eapply relay_step_can_finish, Hf0|by apply (relay_step_ok _ _ s1)]. }
  apply relay_steps_work in Hr. pose proof Hok as [H1 H2 _ [Oa Ob] Hd].
  split_and!; [by eapply dir_prefix..|by eapply dir_wclosed|by eapply dir_wclosed|unfold work at 2 in Hr; cbn in Hr; lia|].
  destruct (returned s) eqn:E.
  - destruct (Hd eq_refl) as [E1 E2]. rewrite E1 in H1. rewrite E2 in H2. by destruct H1, H2.
  - split_and!; [done..|]. intros Hc. eapply relay_progress; [exact Hok|by apply Hf|done].
Qed.

(** C19: A redirected TCP connection.  Under isolation it is
    closed, and nothing is dialed, when the destination is in a pool; otherwise exactly
    that destination is dialed, once, and the two connections are relayed, or the client
    is closed when the dial fails.  In every schedule of the two copying goroutines each
    side receives, in order, a prefix of what the other side sends and sees the half-close
    only after all of it (or all that it takes); one side's end does not cut the other
    direction short, neither connection is closed before both directions are done, and
    the relay takes boundedly many steps.  If both peers' streams end, neither lets a write
    block for ever, and not both wait for the other's end first, the relay always has a
    step left until it has returned, each side half-closed, with both connections closed:
    a peer that ends only after it has seen the other's end is not left waiting. *)
Theorem tcp_session_correct c p dial client :
  ep_wf p → fresh client →
  let dst := AddrPort_String p in
  tcp_session c dst dial client =
    (if tp_EnforceIsolation c && inPool c (ap_addr p) then ([], inl (tc_Close client))
     else ([dst], match dial dst with
                  | None => inl (tc_Close client)
                  | Some upstream => inr (relay_init client upstream)
                  end)) ∧
  ∀ upstream k s, fresh upstream → nsteps relay_step k (relay_init client upstream) s →
    relay_delivers client upstream k s.
Proof.
  intros Hp Hc dst. split; [|intros upstream k s Hu; by apply relay_run].
  unfold tcp_session, dst. rewrite handleTCP_text by done. by destruct (_ && _).
Qed.

(** A peer that sends these bytes and closes. *)
Definition demo_conn (l : list byte) : tcpConn := mkTcp l EndsAlone None false [] true false false.

(** A server that answers after the end of the request. *)
Definition demo_server : tcpConn := mkTcp [] (EndsOnFin [x03]) None false [] true false false.

(** A client that sends two bytes to such a server, over IPv6. *)
Definition demo_ep : AddrPort := mkAP (Addr6 (array_of 16 (x20 :: x01 :: zeros 13 ++ [x08])) EmptyString) 443.

Example tcp_session_correct_witness :
  tcp_session sample_tproxy (AddrPort_String demo_ep) (λ _, Some demo_server) (demo_conn [x01; x02])
  = ([AddrPort_String demo_ep], inr (relay_init (demo_conn [x01; x02]) demo_server)) ∧
  can_finish (demo_conn [x01; x02]) demo_server ∧
  ∀ k s, nsteps relay_step k (relay_init (demo_conn [x01; x02]) demo_server) s →
    relay_delivers (demo_conn [x01; x02]) demo_server k s.
Proof.
  destruct (tcp_session_correct sample_tproxy demo_ep (λ _, Some demo_server) (demo_conn [x01; x02])
    ltac:(split; [done|cbn; lia]) ltac:(by split_and!)) as [Hs Hr].
  split; [exact Hs|]. split; [|intros k s; apply Hr; by split_and!].
  split; [by split|]. split; [by split|]. intros [[late [=]] _].
Defined.

(** The server does get the end of the request: a run of that relay to its return. *)
Example demo_relay_returns :
  fold_left (λ (r : option relay) f, r ≫= f)
    [copy_ab 0; copy_ab 9; copy_ab 9; copy_ab 9; copy_ba 9; copy_ba 9; copy_ba 9; relay_return]
    (Some (relay_init (demo_conn [x01; x02]) demo_server))
  = Some (mkRelay (mkTcp [] EndsAlone None false [x03] true true true)
            (mkTcp [] EndsAlone None false [x01; x02] true true true) PDone PDone true).
Proof. reflexivity. Qed.

(** ** The helper's sessions *)

Lemma To4_length ip v : To4 ip = Some v → length v = 4%nat.
Proof.
  unfold To4. destruct (Nat.eqb_spec (length ip) 4) as [H|_]; [by intros [= <-]|].
  destruct (Nat.eqb_spec (length ip) 16) as [H|_]; [|done]. cbn [andb]. case_bool_decide; [|done].
  intros [= <-]. by rewrite length_drop, H.
Qed.

(** The address a [TCPAddr] stands for: a mapped address is its IPv4 address. *)
Definition IP_addr (ip : list byte) (zone : string) : Addr :=
  match To4 ip with Some v4 => Addr4 (array_of 4 v4) | None => Addr6 (array_of 16 ip) zone end.

(** An IP with its zone, which only an IPv6 address can have. *)
Definition ta_wf (a : TCPAddr) : Prop :=
  (length (ta_IP a) = 4%nat ∨ length (ta_IP a) = 16%nat) ∧ (ta_Zone a = EmptyString ∨ To4 (ta_IP a) = None) ∧ 0 <= ta_Port a < 65536.

Lemma ta_host a : ta_wf a →
  (if bool_decide (ta_Zone a = EmptyString) then IP_text (ta_IP a) else IP_text (ta_IP a) +:+ "%" +:+ ta_Zone a)
  = Addr_String (IP_addr (ta_IP a) (ta_Zone a)).
Proof.
  intros (Hl & Hz & _). unfold IP_text, IP_addr. rewrite (proj2 (Nat.eqb_neq _ _)) by (destruct Hl as [-> | ->]; lia).
  destruct (To4 (ta_IP a)) as [v|] eqn:E.
  - destruct Hz as [->|]; [|done]. by rewrite bool_decide_eq_true_2.
  - case_bool_decide as Hzz; [by rewrite Hzz|]. apply bytes_of_inj. rewrite !bytes_of_app, (Addr6_bytes _ (ta_Zone a)).
    by rewrite bool_decide_eq_false_2.
Qed.

(** The text reads back as the address and the port. *)
Lemma TCPAddr_text a : ta_wf a →
  ParseAddrPort (bytes_of (TCPAddr_String a)) = Some (mkAP (IP_addr (ta_IP a) (ta_Zone a)) (ta_Port a)).
Proof.
  intros Ha. unfold TCPAddr_String. rewrite (ta_host a Ha). destruct Ha as (_ & _ & Hp & Hlt).
  unfold string_of, bytes_of at 1. rewrite String.list_byte_of_string_of_list_byte.
  rewrite ParseAddrPort_Join by (by apply dec_no || (unfold IP_addr; by destruct (To4 _))).
  rewrite ParseUint_dec by done. by rewrite (proj2 (Z.ltb_ge _ _)) by lia.
Qed.

(** The helper that preserves the client's address.  The address it dials reads back as
    exactly the destination, over tcp4 exactly when both ends are IPv4.  Unless told not to, it dials from the
    client's own IP on a free port, and only on a socket the kernel made transparent: when
    the option is refused the client is closed and nothing is dialed.  A dialed connection
    is relayed as the listener relays it. *)
Theorem spoof_session_correct answer noSpoof dial src dst client :
  ta_wf dst →
  let req := dial_request answer noSpoof src dst in
  ParseAddrPort (bytes_of (d_addr req)) = Some (mkAP (IP_addr (ta_IP dst) (ta_Zone dst)) (ta_Port dst)) ∧
  (d_network req = "tcp4"%string ↔ is_Some (To4 (ta_IP dst)) ∧ is_Some (To4 (ta_IP src))) ∧
  d_local req = (if noSpoof then None else Some (mkTA (ta_IP src) 0 EmptyString)) ∧
  match handle answer noSpoof dial (Some dst) (Some src) client with
  | inl c => c = tc_Close client ∧ (noSpoof = false ∧ is_Some (answer IP_TRANSPARENT) ∨ dial req = None)
  | inr r =>
      (noSpoof = false → answer IP_TRANSPARENT = None ∧ IP_TRANSPARENT ∈ d_opts req) ∧
      ∃ out, dial req = Some out ∧
        (fresh client → fresh out → ∀ k s, nsteps relay_step k r s → relay_delivers client out k s)
  end.
Proof.
  intros Hwf req. split; [by apply TCPAddr_text|]. split.
  { unfold req, dial_request. cbn [d_network]. destruct (To4 (ta_IP dst)), (To4 (ta_IP src)); split; naive_solver. }
  split; [done|]. unfold handle, dialTransparent. fold req.
  assert (∀ out, fresh client → fresh out → ∀ k s, nsteps relay_step k (relay_init client out) s → relay_delivers client out k s)
    as Hr by by (intros; apply relay_run).
  unfold req, dial_request, dial_control in *. clear req. destruct noSpoof; cbn [fst snd].
  - destruct (dial _) as [out|]; [|by split; [|right]]. split; [done|]. exists out. split; [done|apply Hr].
  - destruct (answer IP_TRANSPARENT) as [e|] eqn:E; [split; [done|left; eauto]|].
    destruct (dial _) as [out|]; [|by split; [|right]]. split; [intros _; split; [done|apply list_elem_of_here]|].
    exists out. split; [done|apply Hr].
Qed.

Definition demo_dst : TCPAddr := mkTA (zeros 10 ++ [xff; xff; x08; x08; x08; x08]) 443 EmptyString.

Example spoof_session_correct_witness :
  ParseAddrPort (bytes_of (d_addr (dial_request (λ _, None) false (mkTA [x0a; x42; x00; x02] 5000 EmptyString) demo_dst)))
  = Some (mkAP (Addr4 [# x08; x08; x08; x08]) 443).
Proof.
  exact (proj1 (spoof_session_correct (λ _, None) false (λ _, None) (mkTA [x0a; x42; x00; x02] 5000 EmptyString) demo_dst
    (demo_conn []) ltac:(split_and!; [by right|by left|done|done]))).
Defined.
