(* ===== verification/SpoofMain.v ===== *)
(** * tproxy-spoof/main.go: the helper's command line and accept loop

    [main] over package flag's parsing, the listener and the outcomes of [Accept], with
    each connection handled as in [Relay]. *)

From Stdlib Require Import Strings.Byte.
From S2P Require Import Prelude Netip Users Keys NetipText AddrText Addr6Text GoText GoFlag RateLimit Config YamlConfig Nft Tproxy Relay.

Record spoofFlags : Type := mkSpoof { sp_listen : string; sp_logFlows : bool; sp_noSpoof : bool }.

Definition spoof_defaults : spoofFlags := mkSpoof "[::]:22002" false false.

Definition spoofFlagSet : list (flagDef spoofFlags) := [
  StringVar "listen" (λ v f, mkSpoof v (sp_logFlows f) (sp_noSpoof f));
  BoolVar "v" (λ v f, mkSpoof (sp_listen f) v (sp_noSpoof f));
  BoolVar "no_spoof" (λ v f, mkSpoof (sp_listen f) (sp_logFlows f) v) ].

(** An outcome of [Accept]: a connection with its two addresses, or an error. *)
Inductive spoofAccept : Type :=
| SpConn (local remote : option TCPAddr) (client : tcpConn)
| SpErr.

(** [SpServing]: what became of the connections accepted so far. *)
Inductive spoofOutcome : Type :=
| SpExit (code : Z)
| SpFatalListen
| SpServing (sessions : list (tcpConn + relay)).

Section main.

(** The kernel's answers to socket options, whether an address can be listened on, and
    the connections that dialing opens. *)
Context (answer : spoofOpt → option Z) (listen : string → bool) (dial : dialReq → option tcpConn).

Definition listenTransparent (addr : string) : bool :=
  match (listen_control answer).2 with Some _ => false | None => listen addr end.

(** The loop never returns: an error of [Accept] is logged and the next one awaited. *)
Fixpoint spoof_loop (noSpoof : bool) (evs : list spoofAccept) : list (tcpConn + relay) :=
  match evs with
  | [] => []
  | SpErr :: evs => spoof_loop noSpoof evs
  | SpConn local remote client :: evs => handle answer noSpoof dial local remote client :: spoof_loop noSpoof evs
  end.

Definition spoof_main (args : list string) (evs : list spoofAccept) : spoofOutcome :=
  match Parse spoofFlagSet args spoof_defaults with
  | Err EHelp => SpExit 0
  | Err _ => SpExit 2
  | Panic => SpExit 2
  | Ok (f, _) =>
      if listenTransparent (sp_listen f) then SpServing (spoof_loop (sp_noSpoof f) evs) else SpFatalListen
  end.

(** What a session may be, for its connection: closed without a relay when its addresses
    are no TCP addresses, the kernel refused transparency or the dial failed; and otherwise
    relayed to a connection that was dialed to exactly the original destination, from the
    client's own address on a transparent socket unless that was switched off. *)
Definition session_ok (noSpoof : bool) (ev : spoofAccept) (r : tcpConn + relay) : Prop :=
  match ev with
  | SpErr => False
  | SpConn local remote client =>
      match r with
      | inl c => c = tc_Close client
      | inr rl =>
          ∃ src dst out, local = Some dst ∧ remote = Some src ∧ rl = relay_init client out ∧
            dial (dial_request answer noSpoof src dst) = Some out ∧
            (noSpoof = false → answer IP_TRANSPARENT = None ∧
               d_local (dial_request answer noSpoof src dst) = Some (mkTA (ta_IP src) 0 EmptyString)) ∧
            (ta_wf dst → ParseAddrPort (bytes_of (d_addr (dial_request answer noSpoof src dst)))
                         = Some (mkAP (IP_addr (ta_IP dst) (ta_Zone dst)) (ta_Port dst)))
      end
  end.

Lemma handle_ok noSpoof local remote client :
  session_ok noSpoof (SpConn local remote client) (handle answer noSpoof dial local remote client).
Proof.
  unfold session_ok, handle. destruct local as [dst|]; [|done]. destruct remote as [src|]; [|done].
  unfold dialTransparent. destruct (dial_control answer noSpoof).2 eqn:Ec; [done|].
  destruct (dial _) as [out|] eqn:Ed; [|done]. exists src, dst, out. split_and!; try done.
  - intros ->. split; [|done]. unfold dial_control in Ec. cbn in Ec. done.
  - intros Hwf. by apply TCPAddr_text.
Qed.

Definition is_conn (ev : spoofAccept) : bool := match ev with SpErr => false | _ => true end.

(** The helper as a whole.  Started with well-formed flags on an address it can listen on
    transparently, it serves every connection, whatever errors come between; without
    [no_spoof] among them each relayed connection keeps its client's address.  Where the
    kernel refuses transparency it does not start. *)
Theorem spoof_main_serves args f rest evs :
  Parse spoofFlagSet args spoof_defaults = Ok (f, rest) →
  (answer IP_TRANSPARENT ≠ None → spoof_main args evs = SpFatalListen) ∧
  (answer IP_TRANSPARENT = None → listen (sp_listen f) = true →
     ∃ ss, spoof_main args evs = SpServing ss ∧ Forall2 (session_ok (sp_noSpoof f)) (filter (λ e, is_conn e = true) evs) ss).
Proof.
  intros Hf. unfold spoof_main, listenTransparent. rewrite Hf. cbn [listen_control snd]. split.
  - intros Hn. by destruct (answer IP_TRANSPARENT).
  - intros -> ->. eexists. split; [done|]. induction evs as [|[local remote client|] evs IH]; cbn [spoof_loop].
    + constructor.
    + rewrite filter_cons_True by done. constructor; [apply handle_ok|done].
    + by rewrite filter_cons_False.
Qed.

End main.

Example spoof_main_serves_witness :
  spoof_main (λ _, None) (λ _, true) (λ _, None) ["-no_spoof"; "-listen"; "[::]:1"]%string [SpErr; SpConn None None (demo_conn [])]
  = SpServing [inl (tc_Close (demo_conn []))] ∧
  ∃ ss, spoof_main (λ _, None) (λ _, true) (λ _, None) ["-no_spoof"; "-listen"; "[::]:1"]%string [SpErr; SpConn None None (demo_conn [])]
    = SpServing ss ∧ Forall2 (session_ok (λ _, None) (λ _, None) true) [SpConn None None (demo_conn [])] ss.
Proof.
  split; [reflexivity|].
  exact (proj2 (spoof_main_serves (λ _, None) (λ _, true) (λ _, None) ["-no_spoof"; "-listen"; "[::]:1"]%string
    (mkSpoof "[::]:1" false true) [] [SpErr; SpConn None None (demo_conn [])] eq_refl) eq_refl eq_refl).
Defined.
