(* ===== verification/Netstack.v ===== *)
(** * netstack/netstack.go: the user-space stack's link endpoint

    The endpoint between the gVisor stack and a lane: the bounded queue of outgoing
    packets, the injection of incoming ones, and closing, with the interleavings its
    goroutines allow; and the addresses [DialContext] and the listeners derive from
    text.  The stack itself is outside this repository: what reaches it is recorded. *)

From Stdlib Require Import Strings.Byte.
From S2P Require Import Prelude Netip Users Keys NetipText AddrText Addr6Text.

(** ** Addresses from text *)

(** [fmt.Sscanf(port, "%d", &p)] for a [uint64]: blanks are skipped, the digits that
    follow are the value; without digits, or beyond 64 bits, [p] stays zero. *)
Definition is_blank (c : byte) : bool := bool_decide (c ∈ [" "%byte; "009"%byte; "011"%byte; "012"%byte; "013"%byte]).

Fixpoint skip_blanks (l : list byte) : list byte :=
  match l with c :: l' => if is_blank c then skip_blanks l' else l | [] => [] end.

Fixpoint digit_prefix (l : list byte) : list byte :=
  match l with c :: l' => if is_digit c then c :: digit_prefix l' else [] | [] => [] end.

Definition sscanf_d (l : list byte) : Z := default 0 (ParseUint (2 ^ 64 - 1) (digit_prefix (skip_blanks l))).

Inductive netProto : Type := PIPv4 | PIPv6.

Record FullAddress : Type := mkFull { full_addr : Addr; full_port : Z; full_proto : netProto }.

Inductive dialError : Type := EAddrText | ENetwork (network : string).

Definition proto_of (a : Addr) : netProto := if Is4 a then PIPv4 else PIPv6.

(** The address part of [DialContext]. *)
Definition dial_target (addr : string) : option FullAddress :=
  match SplitHostPort (bytes_of addr) with
  | None => None
  | Some (host, port) =>
      match ParseAddrPort (JoinHostPort host port) with
      | Some ap => Some (mkFull (ap_addr ap) (ap_port ap) (proto_of (ap_addr ap)))
      | None =>
          match ParseAddr (string_of host) with
          | None => None
          | Some ipa => Some (mkFull ipa (wrap 16 (sscanf_d port)) (proto_of ipa))
          end
      end
  end.

Inductive dial : Type := DialTCP (a : FullAddress) | DialUDP (a : FullAddress).

Definition DialContext (network addr : string) : result dialError dial :=
  match dial_target addr with
  | None => Err EAddrText
  | Some a =>
      if bool_decide (network ∈ ["tcp"; "tcp4"; "tcp6"]%string) then Ok (DialTCP a)
      else if bool_decide (network ∈ ["udp"; "udp4"; "udp6"]%string) then Ok (DialUDP a)
      else Err (ENetwork network)
  end.

(** The local address of [ListenTCP], and of [ListenPacket] ([None] for the error). *)
Definition ListenTCP (addr : string) : option FullAddress :=
  match SplitHostPort (bytes_of addr) with
  | None => None
  | Some (host, port) =>
      match ParseAddr (string_of host) with
      | None => None
      | Some ipa => Some (mkFull ipa (wrap 16 (sscanf_d port)) (proto_of ipa))
      end
  end.

Definition ListenPacket (addr : string) : option FullAddress :=
  if bool_decide (addr = EmptyString) then Some (mkFull AddrZero 0 PIPv6)
  else
    match SplitHostPort (bytes_of addr) with
    | None => None
    | Some (host, port) =>
        match ParseAddr (string_of host) with
        | None => None
        | Some ipa =>
            Some (mkFull ipa (wrap 16 (sscanf_d port))
                    (if (length (AsSlice ipa) =? 4)%nat then PIPv4 else PIPv6))
        end
    end.

(** ** The endpoint *)

Definition queueCap : nat := 1024.

(** [q_closed] is the channel's state, [e_closed] the atomic flag.  [accepted] and
    [consumed] record what went into the queue and came out of it, [delivered] what was
    handed to the stack, [onClose_calls] the runs of the close action. *)
Record endpoint : Type := mkEp {
  e_mtu : Z;
  outQueue : list (list byte);
  q_closed : bool;
  attached : bool;
  e_closed : bool;
  has_onClose : bool;
  accepted : list (list byte);
  consumed : list (list byte);
  delivered : list (netProto * list byte);
  onClose_calls : nat
}.

Definition newEndpoint (mtu : Z) : endpoint := mkEp mtu [] false false false false [] [] [] 0.

Definition Attach (d : bool) (e : endpoint) : endpoint :=
  mkEp (e_mtu e) (outQueue e) (q_closed e) d (e_closed e) (has_onClose e) (accepted e) (consumed e) (delivered e) (onClose_calls e).

Definition IsAttached (e : endpoint) : bool := attached e.

Definition SetMTU (mtu : Z) (e : endpoint) : endpoint :=
  mkEp mtu (outQueue e) (q_closed e) (attached e) (e_closed e) (has_onClose e) (accepted e) (consumed e) (delivered e) (onClose_calls e).

Definition SetOnCloseAction (action : bool) (e : endpoint) : endpoint :=
  mkEp (e_mtu e) (outQueue e) (q_closed e) (attached e) (e_closed e) action (accepted e) (consumed e) (delivered e) (onClose_calls e).

(** The select with default: a send on a closed channel panics, a full queue drops. *)
Definition send_out (p : list byte) (e : endpoint) : result Empty_set (bool * endpoint) :=
  if q_closed e then Panic
  else if (length (outQueue e) <? queueCap)%nat then
    Ok (true, mkEp (e_mtu e) (outQueue e ++ [p]) (q_closed e) (attached e) (e_closed e) (has_onClose e)
                (accepted e ++ [p]) (consumed e) (delivered e) (onClose_calls e))
  else Ok (false, e).

(** [WritePackets] when nothing runs beside it: the count written, and whether it
    ended with [ErrClosedForSend]. *)
Fixpoint WritePackets (pkts : list (list byte)) (written : nat) (e : endpoint)
    : result Empty_set (nat * bool * endpoint) :=
  match pkts with
  | [] => Ok (written, false, e)
  | p :: ps =>
      if e_closed e then Ok (written, true, e)
      else
        match send_out p e with
        | Ok (sent, e') => WritePackets ps (if sent then S written else written) e'
        | Err x => Err x
        | Panic => Panic
        end
  end.

Definition deliver_packet (pr : netProto) (pkt : list byte) (e : endpoint) : endpoint :=
  mkEp (e_mtu e) (outQueue e) (q_closed e) (attached e) (e_closed e) (has_onClose e)
    (accepted e) (consumed e) (delivered e ++ [(pr, pkt)]) (onClose_calls e).

Definition inject (pkt : list byte) (e : endpoint) : endpoint :=
  if negb (attached e) || e_closed e then e
  else match pkt with
       | [] => e
       | b :: _ =>
           if Z.shiftr (b2z b) 4 =? 4 then deliver_packet PIPv4 pkt e
           else if Z.shiftr (b2z b) 4 =? 6 then deliver_packet PIPv6 pkt e
           else e
       end.

(** [Close] in its two parts: the swap of the flag, then the channel and the action. *)
Definition close_swap (e : endpoint) : bool * endpoint :=
  (e_closed e, mkEp (e_mtu e) (outQueue e) (q_closed e) (attached e) true (has_onClose e)
                 (accepted e) (consumed e) (delivered e) (onClose_calls e)).

Definition close_queue (e : endpoint) : result Empty_set endpoint :=
  if q_closed e then Panic
  else Ok (mkEp (e_mtu e) (outQueue e) true (attached e) (e_closed e) (has_onClose e)
             (accepted e) (consumed e) (delivered e) (if has_onClose e then S (onClose_calls e) else onClose_calls e)).

Definition ep_Close (e : endpoint) : result Empty_set endpoint :=
  let '(was, e') := close_swap e in if was then Ok e' else close_queue e'.

(** [Endpoint.Read]: [None] while it blocks; [Some None] is [net.ErrClosed]. *)
Definition ep_Read (cap : nat) (e : endpoint) : option (option (list byte)) * endpoint :=
  match outQueue e with
  | p :: q =>
      (Some (Some (take cap p)),
       mkEp (e_mtu e) q (q_closed e) (attached e) (e_closed e) (has_onClose e)
         (accepted e) (consumed e ++ [p]) (delivered e) (onClose_calls e))
  | [] => (if q_closed e then Some None else None, e)
  end.

(** [Endpoint.Write]: the length, or [None] for [net.ErrClosed]. *)
Definition ep_Write (buf : list byte) (e : endpoint) : option nat * endpoint :=
  if e_closed e then (None, e) else (Some (length buf), inject buf e).

(** ** Runs *)

(** A goroutine in [WritePackets], before its test of the flag or before its send,
    or in [Close], before the swap or before closing the channel. *)
Inductive thread : Type :=
| TWrite (pkts : list (list byte)) (written : nat)
| TSend (p : list byte) (pkts : list (list byte)) (written : nat)
| TClose
| TCloseQueue
| TDone.

Inductive config : Type := Run (e : endpoint) (ts : list thread) | Panicked.

Definition sending (t : thread) : Prop := ∃ p ps w, t = TSend p ps w.

(** With [quiesced], [Close] starts only while no send is under way. *)
Inductive ep_step (quiesced : bool) : config → config → Prop :=
| st_spawn e ts t : (t = TClose ∨ ∃ pkts, t = TWrite pkts 0) → ep_step quiesced (Run e ts) (Run e (ts ++ [t]))
| st_check e ts i p ps w :
    ts !! i = Some (TWrite (p :: ps) w) →
    ep_step quiesced (Run e ts) (Run e (<[i := if e_closed e then TDone else TSend p ps w]> ts))
| st_send e ts i p ps w :
    ts !! i = Some (TSend p ps w) →
    ep_step quiesced (Run e ts)
      match send_out p e with
      | Ok (sent, e') => Run e' (<[i := TWrite ps (if sent then S w else w)]> ts)
      | _ => Panicked
      end
| st_swap e ts i :
    ts !! i = Some TClose → (quiesced = true → Forall (λ t, ¬ sending t) ts) →
    ep_step quiesced (Run e ts) (Run (close_swap e).2 (<[i := if (close_swap e).1 then TDone else TCloseQueue]> ts))
| st_queue e ts i :
    ts !! i = Some TCloseQueue →
    ep_step quiesced (Run e ts) match close_queue e with Ok e' => Run e' (<[i := TDone]> ts) | _ => Panicked end
| st_read e ts cap : ep_step quiesced (Run e ts) (Run (ep_Read cap e).2 ts)
| st_write e ts buf : ep_step quiesced (Run e ts) (Run (ep_Write buf e).2 ts)
| st_attach e ts d : ep_step quiesced (Run e ts) (Run (Attach d e) ts)
| st_onClose e ts a : ep_step quiesced (Run e ts) (Run (SetOnCloseAction a e) ts)
| st_mtu e ts mtu : ep_step quiesced (Run e ts) (Run (SetMTU mtu e) ts).

Definition ep_init (mtu : Z) : config := Run (newEndpoint mtu) [].

(** ** Invariants *)

Definition queue_ok (e : endpoint) : Prop :=
  accepted e = consumed e ++ outQueue e ∧ (length (outQueue e) <= queueCap)%nat.

(** At most one goroutine closes the channel, once, after the flag is set. *)
Record close_ok (e : endpoint) (ts : list thread) : Prop := mkCloseOk {
  ck_flag : q_closed e = true → e_closed e = true;
  ck_turn : ∀ i, ts !! i = Some TCloseQueue → e_closed e = true ∧ q_closed e = false;
  ck_one : ∀ i j, ts !! i = Some TCloseQueue → ts !! j = Some TCloseQueue → i = j;
  ck_calls : (onClose_calls e <= if q_closed e then 1 else 0)%nat
}.

Definition quiet_ok (quiesced : bool) (e : endpoint) (ts : list thread) : Prop :=
  quiesced = true → e_closed e = true → Forall (λ t, ¬ sending t) ts.

Definition ep_inv (quiesced : bool) (c : config) : Prop :=
  match c with
  | Panicked => quiesced = false
  | Run e ts => queue_ok e ∧ close_ok e ts ∧ quiet_ok quiesced e ts
  end.

(** Replacing a thread by one that does not close the channel. *)
Lemma close_ok_insert e ts i t : t ≠ TCloseQueue → close_ok e ts → close_ok e (<[i := t]> ts).
Proof.
  intros Ht [H1 H2 H3 H4].
  assert (∀ j, <[i := t]> ts !! j = Some TCloseQueue → ts !! j = Some TCloseQueue) as Hj.
  { intros j H. apply list_lookup_insert_Some in H as [(_ & H & _)|[_ H]]; [by destruct (Ht H)|done]. }
  split; eauto.
Qed.

Lemma close_ok_spawn e ts t : t ≠ TCloseQueue → close_ok e ts → close_ok e (ts ++ [t]).
Proof.
  intros Ht [H1 H2 H3 H4].
  assert (∀ j, (ts ++ [t]) !! j = Some TCloseQueue → ts !! j = Some TCloseQueue) as Hj.
  { intros j [H|[_ H]]%lookup_app_Some; [done|]. apply list_lookup_singleton_Some in H as [_ H]. by destruct (Ht H). }
  split; eauto.
Qed.

(** The operations that leave the flags, the queue and the action count alone. *)
Definition same_close (e e' : endpoint) : Prop :=
  q_closed e' = q_closed e ∧ e_closed e' = e_closed e ∧ onClose_calls e' = onClose_calls e.

Lemma close_ok_same e e' ts : same_close e e' → close_ok e ts → close_ok e' ts.
Proof. intros (Hq & He & Hc) [H1 H2 H3 H4]. split; rewrite ?Hq, ?He, ?Hc; done. Qed.

Lemma quiet_ok_insert q e ts i t :
  (e_closed e = true → ¬ sending t) → quiet_ok q e ts → quiet_ok q e (<[i := t]> ts).
Proof. intros Ht H Hq He. apply Forall_insert; auto. Qed.

Lemma inject_same buf e : same_close e (inject buf e) ∧ outQueue (inject buf e) = outQueue e
  ∧ accepted (inject buf e) = accepted e ∧ consumed (inject buf e) = consumed e.
Proof.
  unfold inject. destruct (_ || _); [done|]. destruct buf as [|b buf]; [done|].
  by destruct (Z.shiftr (b2z b) 4 =? 4), (Z.shiftr (b2z b) 4 =? 6).
Qed.

Lemma ep_Write_same buf e : same_close e (ep_Write buf e).2 ∧ outQueue (ep_Write buf e).2 = outQueue e
  ∧ accepted (ep_Write buf e).2 = accepted e ∧ consumed (ep_Write buf e).2 = consumed e.
Proof. unfold ep_Write. destruct (e_closed e); [done|apply inject_same]. Qed.

Lemma not_sending t : (∀ p ps w, t ≠ TSend p ps w) → ¬ sending t.
Proof. intros H (p & ps & w & ->). by destruct (H p ps w). Qed.

Lemma send_inv q e ts i p ps w :
  ts !! i = Some (TSend p ps w) → ep_inv q (Run e ts) →
  ep_inv q match send_out p e with
           | Ok (sent, e') => Run e' (<[i := TWrite ps (if sent then S w else w)]> ts)
           | _ => Panicked
           end.
Proof.
  intros Hi ([Ha Hl] & Hc & Hq). unfold send_out. destruct (q_closed e) eqn:Eq.
  { cbn. destruct q; [|done]. specialize (Hq eq_refl (ck_flag _ _ Hc Eq)). rewrite Forall_forall in Hq.
    destruct (Hq _ (list_elem_of_lookup_2 _ _ _ Hi)). by exists p, ps, w. }
  destruct (Nat.ltb_spec (length (outQueue e)) queueCap) as [Hlt|Hge]; cbn [ep_inv].
  - split_and!.
    + split; cbn; [by rewrite Ha, (assoc_L (++))|]. rewrite length_app. cbn. lia.
    + apply close_ok_insert; [done|]. eapply close_ok_same; [|exact Hc]. by rewrite <-Eq.
    + apply quiet_ok_insert; [intros _; by apply not_sending|]. done.
  - split_and!; [done|by apply close_ok_insert|apply quiet_ok_insert; [intros _; by apply not_sending|done]].
Qed.

Lemma swap_inv q e ts i :
  ts !! i = Some TClose → (q = true → Forall (λ t, ¬ sending t) ts) → ep_inv q (Run e ts) →
  ep_inv q (Run (close_swap e).2 (<[i := if (close_swap e).1 then TDone else TCloseQueue]> ts)).
Proof.
  intros Hi Hs ([Ha Hl] & Hc & Hq). cbn [close_swap fst snd ep_inv]. split_and!; [done| |].
  - destruct (e_closed e) eqn:Ee.
    + apply close_ok_insert; [done|]. eapply close_ok_same; [|exact Hc]. done.
    + destruct Hc as [H1 H2 H3 H4]. destruct (q_closed e) eqn:Eq; [by specialize (H1 eq_refl); congruence|].
      split; cbn; rewrite ?Eq; try done.
      intros j1 j2 Hj1 Hj2. apply list_lookup_insert_Some in Hj1 as [(<- & _ & _)|[_ Hj1]];
        [|by destruct (H2 _ Hj1); congruence].
      by apply list_lookup_insert_Some in Hj2 as [(<- & _ & _)|[_ Hj2]]; [|destruct (H2 _ Hj2); congruence].
  - intros Ht _. apply Forall_insert; [by apply Hs|]. apply not_sending. by destruct (e_closed e).
Qed.

Lemma queue_inv q e ts i :
  ts !! i = Some TCloseQueue → ep_inv q (Run e ts) →
  ep_inv q match close_queue e with Ok e' => Run e' (<[i := TDone]> ts) | _ => Panicked end.
Proof.
  intros Hi ([Ha Hl] & [H1 H2 H3 H4] & Hq). destruct (H2 i Hi) as [He Eq]. unfold close_queue. rewrite Eq in *.
  cbn [ep_inv]. split_and!; [done| |].
  - assert (∀ j, <[i := TDone]> ts !! j ≠ Some TCloseQueue) as Hn.
    { intros j H. apply list_lookup_insert_Some in H as [(_ & H & _)|[Hne H]]; [done|by destruct Hne; apply H3]. }
    split; cbn; [done|by intros j Hj%Hn|by intros j ? Hj%Hn|]. destruct (has_onClose e); lia.
  - apply quiet_ok_insert; [intros _; by apply not_sending|done].
Qed.

Lemma ep_step_inv q c c' : ep_step q c c' → ep_inv q c → ep_inv q c'.
Proof.
  intros Hs. destruct Hs as [e ts t Ht|e ts i p ps w Hi|e ts i p ps w Hi|e ts i Hi Hn|e ts i Hi|e ts cap|e ts buf|e ts d|e ts a|e ts m].
  - intros (Ha & Hc & Hq). split_and!; [done|apply close_ok_spawn; [by destruct Ht as [-> | [? ->]]|done]|].
    intros Hq' He. apply Forall_app. split; [by apply Hq|]. apply Forall_singleton, not_sending.
    by destruct Ht as [-> | [? ->]].
  - intros (Ha & Hc & Hq). split_and!; [done|apply close_ok_insert; [by destruct (e_closed e)|done]|].
    apply quiet_ok_insert; [|done]. intros ->. by apply not_sending.
  - by apply send_inv.
  - by apply swap_inv.
  - by apply queue_inv.
  - intros ([Ha Hl] & Hc & Hq). unfold ep_Read. destruct (outQueue e) as [|p r] eqn:Eo;
      [cbn [snd ep_inv]; unfold queue_ok; rewrite Eo; by split_and!|].
    cbn [snd ep_inv]. split_and!; [|by eapply close_ok_same, Hc|done].
    split; cbn; [by rewrite Ha, <-(assoc_L (++))|]. cbn in Hl. lia.
  - intros ([Ha Hl] & Hc & Hq). destruct (ep_Write_same buf e) as ((Hqc & Hec & Hoc) & Ho & Hac & Hco).
    cbn [ep_inv]. split_and!; [by split; rewrite Ho, ?Hac, ?Hco|by eapply close_ok_same, Hc|].
    unfold quiet_ok. by rewrite Hec.
  - intros (Ha & Hc & Hq). split_and!; [done|by eapply close_ok_same, Hc|done].
  - intros (Ha & Hc & Hq). split_and!; [done|by eapply close_ok_same, Hc|done].
  - intros (Ha & Hc & Hq). split_and!; [done|by eapply close_ok_same, Hc|done].
Qed.

Lemma ep_reach_inv q mtu c : rtc (ep_step q) (ep_init mtu) c → ep_inv q c.
Proof.
  intros Hr. eapply (rtc_invariant (ep_step q) (ep_inv q)); [|exact Hr|].
  - intros; by eapply ep_step_inv.
  - cbn. split_and!; [split; cbn; [done|lia]|split; cbn; done || lia|]. intros _ ?. done.
Qed.

(** ** Claims *)

(** The unquiesced race: a writer that has seen the endpoint open and then finds the
    channel closed sends on a closed channel. *)
Lemma close_race mtu : rtc (ep_step false) (ep_init mtu) Panicked.
Proof.
  eapply rtc_l; [apply (st_spawn _ _ _ (TWrite [[x45]] 0)); eauto|].
  eapply rtc_l; [apply (st_spawn _ _ _ TClose); eauto|].
  eapply rtc_l; [by apply (st_check _ _ _ 0 [x45] [] 0)|].
  eapply rtc_l; [by apply (st_swap _ _ _ 1)|].
  eapply rtc_l; [by apply (st_queue _ _ _ 1)|].
  eapply rtc_l; [by apply (st_send _ _ _ 0 [x45] [] 0)|]. apply rtc_refl.
Qed.

(** C34: The endpoint's queue, in every interleaving of writers, readers and closers.
    What the stack emitted and the queue took is, in order, what the lane has read
    followed by what still waits, at most 1024 packets; the close action runs at most
    once; and if [Close] starts only while no writer is between its test of the closed
    flag and its send, nothing panics.  Without that condition, which the code does not
    ensure, a run reaches a send on the closed channel, a panic. *)
Theorem endpoint_fifo mtu :
  (∀ quiesced c, rtc (ep_step quiesced) (ep_init mtu) c →
     match c with
     | Run e _ => accepted e = consumed e ++ outQueue e ∧ (length (outQueue e) <= 1024)%nat
                  ∧ (onClose_calls e <= 1)%nat
     | Panicked => quiesced = false
     end)
  ∧ rtc (ep_step false) (ep_init mtu) Panicked.
Proof.
  split; [|apply close_race]. intros quiesced c Hr%ep_reach_inv.
  destruct c as [e ts|]; [|done]. destruct Hr as ([Ha Hl] & Hc & _).
  split_and!; [done..|]. pose proof (ck_calls _ _ Hc). destruct (q_closed e); lia.
Qed.

Example endpoint_sample :
  ∃ e, rtc (ep_step true) (ep_init 1500) (Run e [TWrite [] 1]) ∧ consumed e = [[x45]].
Proof.
  eexists. split.
  - eapply rtc_l; [apply (st_spawn _ _ _ (TWrite [[x45]] 0)); eauto|].
    eapply rtc_l; [by apply (st_check _ _ _ 0 [x45] [] 0)|].
    eapply rtc_l; [by apply (st_send _ _ _ 0 [x45] [] 0)|].
    eapply rtc_l; [apply (st_read _ _ _ 1500)|]. apply rtc_refl.
  - reflexivity.
Qed.

(** A packet written by the lane reaches the stack exactly when the endpoint is
    attached and open and the packet starts like an IPv4 or IPv6 header. *)
Lemma ep_Write_delivers buf e : e_closed e = false →
  delivered (ep_Write buf e).2 = delivered e ++
    match attached e, head buf with
    | true, Some b => if Z.shiftr (b2z b) 4 =? 4 then [(PIPv4, buf)]
                      else if Z.shiftr (b2z b) 4 =? 6 then [(PIPv6, buf)] else []
    | _, _ => []
    end.
Proof.
  intros He. unfold ep_Write, inject. rewrite He. destruct (attached e); cbn [snd negb orb]; [|by rewrite app_nil_r].
  destruct buf as [|b buf]; cbn [head]; [by rewrite app_nil_r|].
  destruct (_ =? 4); [done|]. destruct (_ =? 6); [done|by rewrite app_nil_r].
Qed.

Lemma digit_prefix_all l : digits l → digit_prefix l = l.
Proof. induction 1 as [|c l Hc Hl IH]; [done|]. cbn. by rewrite Hc, IH. Qed.

Lemma skip_blanks_digits l : digits l → skip_blanks l = l.
Proof.
  destruct l as [|c l]; [done|]. intros Hc%Forall_inv. cbn.
  destruct (is_blank c) eqn:E; [|done]. unfold is_blank in E. apply bool_decide_eq_true in E.
  rewrite !elem_of_cons, elem_of_nil in E. exfalso. naive_solver.
Qed.

Lemma sscanf_dec p : 0 <= p < 2 ^ 64 → sscanf_d (bytes_of (dec p)) = p.
Proof.
  intros [Hp Hlt]. unfold sscanf_d. pose proof (dec_digits p Hp) as Hd.
  rewrite skip_blanks_digits, digit_prefix_all, ParseUint_dec by done. by rewrite (proj2 (Z.ltb_ge _ _)) by lia.
Qed.

(** Dialing through the stack.  The text of an endpoint without a zone is read back as
    that endpoint; but a port number beyond 65535, which the address parser refuses, is
    taken modulo 65536 by the fallback instead of being refused. *)
Theorem dial_target_port a p : IsValid a = true → hasZone a = false → 0 <= p < 2 ^ 64 →
  dial_target (AddrPort_String (mkAP a p)) = Some (mkFull a (p mod 65536) (proto_of a)).
Proof.
  intros Ha Hz [Hp Hlt]. unfold dial_target. rewrite SplitHostPort_String by done. cbn [ap_addr ap_port].
  rewrite ParseAddrPort_Join by (done || by apply dec_no). rewrite ParseUint_dec by done.
  destruct (Z.ltb_spec 65535 p) as [Hbig|Hsmall]; cbn [fmap option_fmap option_map].
  - rewrite string_of_bytes_of, ParseAddr_String, sscanf_dec by done. done.
  - cbn [ap_addr ap_port]. by rewrite Z.mod_small by lia.
Qed.

Example dial_target_port_witness :
  dial_target (AddrPort_String (mkAP (Addr4 [# x0a; x42; x00; x01]) 65616))
  = Some (mkFull (Addr4 [# x0a; x42; x00; x01]) 80 PIPv4).
Proof. apply (dial_target_port (Addr4 [# x0a; x42; x00; x01]) 65616); [done..|lia]. Defined.
