(* ===== verification/NetstackSetup.v ===== *)
(** * netstack/netstack.go: setting the user-space stack up

    [NewStack], [AddAddress], [Close] and the [PacketIO] the lane is given, over an
    interface to the gVisor stack: its operations, and what its documentation says of them
    as laws. *)

From Stdlib Require Import Strings.Byte.
From S2P Require Import Prelude Netip Users Keys NetipText AddrText Addr6Text Netstack.

Definition nicID : Z := 1.

Inductive transProto : Type := TransTCP | TransUDP | TransICMP4 | TransICMP6.

(** The gVisor stack.  A NIC is created over a link endpoint, which it attaches to; an
    address is added with a prefix length; [gv_Close] closes the NICs and their endpoints. *)
Class Gvisor := {
  gv : Type;
  gv_New : list netProto → list transProto → gv;
  gv_CreateNIC : Z → endpoint → gv → option string * (endpoint * gv);
  gv_SetPromiscuousMode : Z → bool → gv → option string * gv;
  gv_SetSpoofing : Z → bool → gv → option string * gv;
  gv_SetRouteTable : list (netProto * Z) → gv → gv;
  gv_AddProtocolAddress : Z → netProto → list byte → Z → gv → option string * gv;
  gv_Close : endpoint → gv → endpoint * gv;
}.

Section setup.
Context `{Gvisor}.

Record Stack : Type := mkStack { st_s : gv; st_ep : endpoint; st_mtu : Z }.

Inductive stackError : Type :=
| ECreateNIC (e : string) | EPromiscuous (e : string) | ESpoofing (e : string)
| EFamily | EAddProtocolAddress (e : string).

(** Default routes for both families through the NIC. *)
Definition defaultRoutes : list (netProto * Z) := [(PIPv4, nicID); (PIPv6, nicID)].

Definition NewStack (mtu : Z) : result stackError Stack :=
  let ep := newEndpoint mtu in
  let s := gv_New [PIPv4; PIPv6] [TransTCP; TransUDP; TransICMP4; TransICMP6] in
  match gv_CreateNIC nicID ep s with
  | (Some e, _) => Err (ECreateNIC e)
  | (None, (ep, s)) =>
      match gv_SetPromiscuousMode nicID true s with
      | (Some e, _) => Err (EPromiscuous e)
      | (None, s) =>
          match gv_SetSpoofing nicID true s with
          | (Some e, _) => Err (ESpoofing e)
          | (None, s) => Ok (mkStack (gv_SetRouteTable defaultRoutes s) ep mtu)
          end
      end
  end.

(** [AddAddress]: [addr.WithPrefix()] is the address with all of its bits as prefix. *)
Definition AddAddress (p : Prefix) (st : Stack) : option stackError * Stack :=
  let a := pfx_addr p in
  if negb (Is4 a) && negb (Is6 a) then (Some EFamily, st)
  else
    let '(e, s) := gv_AddProtocolAddress nicID (proto_of a) (AsSlice a) (8 * Z.of_nat (length (AsSlice a))) (st_s st) in
    (EAddProtocolAddress <$> e, mkStack s (st_ep st) (st_mtu st)).

(** [Close]: the stack, then the endpoint. *)
Definition stack_Close (st : Stack) : result Empty_set Stack :=
  let '(ep, s) := gv_Close (st_ep st) (st_s st) in
  match ep_Close ep with
  | Ok ep => Ok (mkStack s ep (st_mtu st))
  | Err x => Err x
  | Panic => Panic
  end.

(** The addresses added one after the other. *)
Fixpoint AddAddresses (ps : list Prefix) (st : Stack) : option stackError * Stack :=
  match ps with
  | [] => (None, st)
  | p :: ps => match AddAddress p st with (None, st) => AddAddresses ps st | (Some e, st) => (Some e, st) end
  end.

End setup.

(** ** What the library promises *)

(** The NICs, their modes and addresses, and the routes.  Adding an address fails when
    the NIC has it already. *)
Class GvisorLaws `{Gvisor} := {
  gv_nics : gv → list Z;
  gv_promiscuous : gv → Z → bool;
  gv_spoofing : gv → Z → bool;
  gv_routes : gv → list (netProto * Z);
  gv_addrs : gv → Z → list (netProto * list byte * Z);
  gv_fresh nets trans : gv_nics (gv_New nets trans) = [] ∧ ∀ n, gv_addrs (gv_New nets trans) n = [];
  gv_create n ep s : n ∉ gv_nics s →
    let '(e, (ep', s')) := gv_CreateNIC n ep s in
    e = None ∧ ep' = Attach true ep ∧ gv_nics s' = n :: gv_nics s ∧ ∀ m, gv_addrs s' m = gv_addrs s m;
  gv_promiscuous_set n b s : n ∈ gv_nics s →
    let '(e, s') := gv_SetPromiscuousMode n b s in
    e = None ∧ gv_promiscuous s' n = b ∧ gv_nics s' = gv_nics s ∧ ∀ m, gv_addrs s' m = gv_addrs s m;
  gv_spoofing_set n b s : n ∈ gv_nics s →
    let '(e, s') := gv_SetSpoofing n b s in
    e = None ∧ gv_spoofing s' n = b ∧ gv_promiscuous s' = gv_promiscuous s ∧ gv_nics s' = gv_nics s ∧
    ∀ m, gv_addrs s' m = gv_addrs s m;
  gv_routes_set rs s :
    let s' := gv_SetRouteTable rs s in
    gv_routes s' = rs ∧ gv_spoofing s' = gv_spoofing s ∧ gv_promiscuous s' = gv_promiscuous s ∧ gv_nics s' = gv_nics s ∧
    ∀ m, gv_addrs s' m = gv_addrs s m;
  gv_add n pr a bits s : n ∈ gv_nics s →
    let '(e, s') := gv_AddProtocolAddress n pr a bits s in
    gv_routes s' = gv_routes s ∧ gv_spoofing s' = gv_spoofing s ∧ gv_promiscuous s' = gv_promiscuous s ∧
    gv_nics s' = gv_nics s ∧
    if bool_decide (a ∈ (λ x, x.1.2) <$> gv_addrs s n)
    then is_Some e ∧ gv_addrs s' n = gv_addrs s n
    else e = None ∧ gv_addrs s' n = gv_addrs s n ++ [(pr, a, bits)];
  gv_close ep s : (gv_Close ep s).1 = ep ∨ ep_Close ep = Ok (gv_Close ep s).1
}.

Section correct.
Context `{GvisorLaws}.

(** A stack after [NewStack]: the NIC is up in both modes, everything is routed to it, and
    the endpoint is attached and open. *)
Record stack_up (mtu : Z) (addrs : list (netProto * list byte * Z)) (st : Stack) : Prop := mkUp {
  up_nic : nicID ∈ gv_nics (st_s st);
  up_promiscuous : gv_promiscuous (st_s st) nicID = true;
  up_spoofing : gv_spoofing (st_s st) nicID = true;
  up_routes : gv_routes (st_s st) = defaultRoutes;
  up_addrs : gv_addrs (st_s st) nicID = addrs;
  up_ep : st_ep st = Attach true (newEndpoint mtu);
  up_mtu : st_mtu st = mtu
}.

Lemma NewStack_up mtu : ∃ st, NewStack mtu = Ok st ∧ stack_up mtu [] st.
Proof.
  unfold NewStack. destruct (gv_fresh [PIPv4; PIPv6] [TransTCP; TransUDP; TransICMP4; TransICMP6]) as [Hn Ha].
  set (s0 := gv_New _ _) in *.
  pose proof (gv_create nicID (newEndpoint mtu) s0 ltac:(rewrite Hn; apply not_elem_of_nil)) as H1.
  destruct (gv_CreateNIC nicID (newEndpoint mtu) s0) as [e1 [ep s1]]. destruct H1 as (-> & -> & Hn1 & Ha1).
  pose proof (gv_promiscuous_set nicID true s1 ltac:(rewrite Hn1; left)) as H2.
  destruct (gv_SetPromiscuousMode nicID true s1) as [e2 s2]. destruct H2 as (-> & Hp2 & Hn2 & Ha2).
  pose proof (gv_spoofing_set nicID true s2 ltac:(rewrite Hn2, Hn1; left)) as H3.
  destruct (gv_SetSpoofing nicID true s2) as [e3 s3]. destruct H3 as (-> & Hs3 & Hp3 & Hn3 & Ha3).
  destruct (gv_routes_set defaultRoutes s3) as (Hr4 & Hs4 & Hp4 & Hn4 & Ha4).
  eexists. split; [done|]. split; cbn [st_s st_ep st_mtu]; [|congruence..].
  rewrite Hn4, Hn3, Hn2, Hn1. left.
Qed.

(** How an address is added, whatever prefix length was asked for. *)
Definition added (p : Prefix) : netProto * list byte * Z := (proto_of (pfx_addr p), AsSlice (pfx_addr p), BitLen (pfx_addr p)).

Lemma AddAddress_up mtu addrs p st : stack_up mtu addrs st → IsValid (pfx_addr p) = true →
  AsSlice (pfx_addr p) ∉ (λ x, x.1.2) <$> addrs →
  ∃ st', AddAddress p st = (None, st') ∧ stack_up mtu (addrs ++ [added p]) st'.
Proof.
  intros [H1 H2 H3 H4 H5 H6 H7] Hv Hn. unfold AddAddress.
  rewrite (proj2 (andb_false_iff _ _)) by (destruct (pfx_addr p); naive_solver). rewrite length_AsSlice.
  pose proof (gv_add nicID (proto_of (pfx_addr p)) (AsSlice (pfx_addr p)) (BitLen (pfx_addr p)) (st_s st) H1) as Ha.
  destruct (gv_AddProtocolAddress _ _ _ _ _) as [e s]. destruct Ha as (Hr & Hs & Hp & Hnic & Ha).
  rewrite bool_decide_eq_false_2 in Ha by by rewrite H5. destruct Ha as [-> Ha].
  eexists. split; [done|]. split; cbn [st_s st_ep st_mtu]; [by rewrite Hnic|congruence..|by rewrite Ha, H5|done|done].
Qed.

Lemma AddAddresses_up mtu addrs ps st : stack_up mtu addrs st → Forall (λ p, IsValid (pfx_addr p) = true) ps →
  NoDup (((λ x, x.1.2) <$> addrs) ++ ((λ p, AsSlice (pfx_addr p)) <$> ps)) →
  ∃ st', AddAddresses ps st = (None, st') ∧ stack_up mtu (addrs ++ (added <$> ps)) st'.
Proof.
  intros Hup Hv. revert addrs st Hup. induction Hv as [|p ps Hp _ IH]; intros addrs st Hup Hnd; cbn [AddAddresses fmap list_fmap].
  - exists st. by rewrite app_nil_r.
  - destruct (AddAddress_up mtu addrs p st Hup Hp) as (st1 & -> & Hup1).
    { cbn [fmap list_fmap] in Hnd. apply NoDup_app in Hnd as (_ & Hd & _). intros Hin. apply (Hd _ Hin). left. }
    destruct (IH (addrs ++ [added p]) st1 Hup1) as (st2 & -> & Hup2).
    { rewrite fmap_app, <-(assoc_L (++)). done. }
    exists st2. split; [done|]. by rewrite <-(assoc_L (++)) in Hup2.
Qed.

Lemma stack_Close_up mtu addrs st : stack_up mtu addrs st →
  ∃ st', stack_Close st = Ok st' ∧ e_closed (st_ep st') = true ∧ q_closed (st_ep st') = true.
Proof.
  intros Hup. unfold stack_Close. pose proof (gv_close (st_ep st) (st_s st)) as Hc. rewrite (up_ep _ _ _ Hup) in *.
  destruct (gv_Close _ _) as [ep s]. cbn [fst] in Hc. destruct Hc as [-> | Hc].
  - eexists. split; [reflexivity|done].
  - injection Hc as <-. eexists. split; [reflexivity|done].
Qed.

(** Setting the user-space stack up.  [NewStack] succeeds; distinct valid addresses are
    added, each as a point address of all its bits whatever its prefix length, so
    that the [netip.Prefix] argument only gives the address; and [Close] ends with the
    endpoint closed, whether or not the stack closed it already. *)
Theorem stack_setup mtu ps :
  Forall (λ p, IsValid (pfx_addr p) = true) ps → NoDup ((λ p, AsSlice (pfx_addr p)) <$> ps) →
  ∃ st st', NewStack mtu = Ok st ∧ AddAddresses ps st = (None, st') ∧ stack_up mtu (added <$> ps) st' ∧
    (∀ st0 p q, pfx_addr p = pfx_addr q → AddAddress p st0 = AddAddress q st0) ∧
    ∃ st'', stack_Close st' = Ok st'' ∧ e_closed (st_ep st'') = true ∧ q_closed (st_ep st'') = true.
Proof.
  intros Hv Hnd. destruct (NewStack_up mtu) as (st & -> & Hup).
  destruct (AddAddresses_up mtu [] ps st Hup Hv Hnd) as (st' & Ha & Hup').
  exists st, st'. split_and!; [done..| |by eapply stack_Close_up].
  intros st0 p q Hpq. unfold AddAddress. by rewrite Hpq.
Qed.

(** A packet of a lane then reaches the stack. *)
Lemma stack_up_delivers mtu addrs st b pkt : stack_up mtu addrs st → Z.shiftr (b2z b) 4 = 4 →
  delivered (ep_Write (b :: pkt) (st_ep st)).2 = [(PIPv4, b :: pkt)].
Proof. intros Hup Hb. rewrite (up_ep _ _ _ Hup), ep_Write_delivers by done. cbn [attached Attach head]. by rewrite Hb. Qed.

End correct.

(** ** A stack that keeps the laws *)

Record simStack : Type := mkSim {
  sim_nics : list Z; sim_promiscuous : Z → bool; sim_spoofing : Z → bool;
  sim_routes : list (netProto * Z); sim_addrs : Z → list (netProto * list byte * Z)
}.

Definition upd {A} (f : Z → A) (n : Z) (a : A) : Z → A := λ m, if m =? n then a else f m.

#[global] Instance simGvisor : Gvisor := {
  gv := simStack;
  gv_New _ _ := mkSim [] (λ _, false) (λ _, false) [] (λ _, []);
  gv_CreateNIC n ep s :=
    if bool_decide (n ∈ sim_nics s) then (Some "duplicate nic id"%string, (ep, s))
    else (None, (Attach true ep, mkSim (n :: sim_nics s) (sim_promiscuous s) (sim_spoofing s) (sim_routes s) (sim_addrs s)));
  gv_SetPromiscuousMode n b s :=
    if bool_decide (n ∈ sim_nics s)
    then (None, mkSim (sim_nics s) (upd (sim_promiscuous s) n b) (sim_spoofing s) (sim_routes s) (sim_addrs s))
    else (Some "unknown nic id"%string, s);
  gv_SetSpoofing n b s :=
    if bool_decide (n ∈ sim_nics s)
    then (None, mkSim (sim_nics s) (sim_promiscuous s) (upd (sim_spoofing s) n b) (sim_routes s) (sim_addrs s))
    else (Some "unknown nic id"%string, s);
  gv_SetRouteTable rs s := mkSim (sim_nics s) (sim_promiscuous s) (sim_spoofing s) rs (sim_addrs s);
  gv_AddProtocolAddress n pr a bits s :=
    if negb (bool_decide (n ∈ sim_nics s)) then (Some "unknown nic id"%string, s)
    else if bool_decide (a ∈ (λ x, x.1.2) <$> sim_addrs s n) then (Some "duplicate address"%string, s)
    else (None, mkSim (sim_nics s) (sim_promiscuous s) (sim_spoofing s) (sim_routes s)
                  (upd (sim_addrs s) n (sim_addrs s n ++ [(pr, a, bits)])));
  gv_Close ep s := (match ep_Close ep with Ok ep' => ep' | _ => ep end, mkSim [] (sim_promiscuous s) (sim_spoofing s) [] (λ _, []))
}.

#[global] Program Instance simGvisorLaws : GvisorLaws := {
  gv_nics := sim_nics; gv_promiscuous := sim_promiscuous; gv_spoofing := sim_spoofing;
  gv_routes := sim_routes; gv_addrs := sim_addrs
}.
Next Obligation. done. Qed.
Next Obligation. intros n ep s Hn. cbn. by rewrite bool_decide_eq_false_2. Qed.
Next Obligation. intros n b s Hn. cbn. rewrite bool_decide_eq_true_2 by done. cbn. unfold upd. by rewrite Z.eqb_refl. Qed.
Next Obligation. intros n b s Hn. cbn. rewrite bool_decide_eq_true_2 by done. cbn. unfold upd. by rewrite Z.eqb_refl. Qed.
Next Obligation. done. Qed.
Next Obligation.
  intros n pr a bits s Hn. cbn. rewrite (bool_decide_eq_true_2 (n ∈ _)) by done. cbn [negb].
  case_bool_decide; cbn; [by split_and!|]. unfold upd. by rewrite Z.eqb_refl.
Qed.
Next Obligation. intros ep s. cbn [gv_Close simGvisor fst]. destruct (ep_Close ep) as [ep'|[]|] eqn:E; [by right|by left]. Qed.

Example stack_setup_witness :
  ∃ st st', NewStack 1400 = Ok st ∧
    AddAddresses [mkPrefix (Addr4 [# x0a; x42; x00; x05]) 24] st = (None, st') ∧
    gv_addrs (st_s st') nicID = [(PIPv4, [x0a; x42; x00; x05], 32)].
Proof.
  destruct (stack_setup 1400 [mkPrefix (Addr4 [# x0a; x42; x00; x05]) 24]) as (st & st' & H1 & H2 & H3 & _).
  - by constructor.
  - apply NoDup_singleton.
  - exists st, st'. split_and!; [exact H1|exact H2|]. apply (up_addrs _ _ _ H3).
Defined.
