(* ===== verification/Congestion.v ===== *)
(** * bbr_linux.go, brutal_linux.go: congestion control of a socket

    A TCP socket with the congestion control it runs and the tcp-brutal parameters
    set on it.  Whether the kernel takes an option is an argument.  The tuners are the
    functions the command line composes for [TuneSocket]. *)

From S2P Require Import Prelude Netip Users Keys GoText.

Definition DefaultBrutalCwndGain : Z := 15.

Record sock : Type := mkSock { is_tcp : bool; cc : string; brutal : option (list byte) }.

Inductive sockOpt : Type :=
| TCP_CONGESTION (alg : string)
| TCP_BRUTAL_PARAMS (buf : list byte).          (* option 23301 *)

Inductive ccError : Type := ENotTCP | ESetCC (errno : Z) | ESetParams (errno : Z).

(** [bbrAvailable]: the list of allowed algorithms names bbr ([None]: unreadable). *)
Definition bbrAvailable (data : option (list byte)) : bool :=
  match data with None => false | Some d => existsb (λ f, bool_decide (f = bytes_of "bbr")) (Fields d) end.

Section tuning.

(** The kernel's answer to an option: [None] when it is taken. *)
Context (answer : sockOpt → option Z) (allowed : option (list byte)).

Definition setsockopt (o : sockOpt) (s : sock) : option Z * sock :=
  match answer o with
  | Some e => (Some e, s)
  | None =>
      (None, match o with
             | TCP_CONGESTION a => mkSock (is_tcp s) a (brutal s)
             | TCP_BRUTAL_PARAMS b => mkSock (is_tcp s) (cc s) (Some b)
             end)
  end.

Definition applyBBR (s : sock) : option ccError * sock :=
  if negb (bbrAvailable allowed) then (None, s)
  else if negb (is_tcp s) then (None, s)
  else let '(e, s') := setsockopt (TCP_CONGESTION "bbr") s in (ESetCC <$> e, s').

(** [struct brutal_params]: the rate and the gain, little endian, packed. *)
Definition brutal_params (rate cwndGain : Z) : list byte := le_bytes 8 rate ++ le_bytes 4 cwndGain.

Definition SetBrutalRate (rate cwndGain : Z) (s : sock) : option ccError * sock :=
  if negb (is_tcp s) then (Some ENotTCP, s)
  else
    let gain := if cwndGain =? 0 then DefaultBrutalCwndGain else cwndGain in
    match setsockopt (TCP_CONGESTION "brutal") s with
    | (Some e, s) => (Some (ESetCC e), s)
    | (None, s) =>
        let '(e, s) := setsockopt (TCP_BRUTAL_PARAMS (brutal_params rate gain)) s in (ESetParams <$> e, s)
    end.

(** ** Tuners *)

Inductive tuner : Type := TBBR | TBrutal (rate cwndGain : Z).

Definition run_tuner (t : tuner) (s : sock) : sock :=
  match t with
  | TBBR => (applyBBR s).2
  | TBrutal rate gain => (SetBrutalRate rate gain s).2
  end.

(** [composeTuners]: nil for no tuner. *)
Definition composeTuners (ts : list tuner) : option (sock → sock) :=
  match ts with
  | [] => None
  | [t] => Some (run_tuner t)
  | _ => Some (λ s, foldl (λ s t, run_tuner t s) s ts)
  end.

(** ** The parameters as the kernel module reads them *)

Definition le_Z (l : list byte) : Z := be_Z (reverse l).

Lemma le_Z_bytes n z : le_Z (le_bytes n z) = z mod 2 ^ (8 * Z.of_nat n).
Proof. apply be_Z_be_bytes. Qed.

Lemma params_read rate gain :
  le_Z (take 8 (brutal_params rate gain)) = rate mod 2 ^ 64 ∧ le_Z (drop 8 (brutal_params rate gain)) = gain mod 2 ^ 32
  ∧ length (brutal_params rate gain) = 12%nat.
Proof.
  unfold brutal_params. rewrite take_app_length', drop_app_length' by by rewrite length_le_bytes. rewrite !le_Z_bytes.
  split_and!; [done..|]. by rewrite length_app, !length_le_bytes.
Qed.

(** Switching a socket to tcp-brutal.  When it succeeds the socket runs brutal with
    parameters that the module reads back as the rate and the gain (the default gain for
    zero); on an error before the algorithm is changed the socket is as it was; but when
    only the parameters are refused, the socket is left running brutal with the old
    parameters, although the previous algorithm should remain. *)
Theorem SetBrutalRate_correct rate gain s :
  0 <= rate < 2 ^ 64 → 0 <= gain < 2 ^ 32 →
  match SetBrutalRate rate gain s with
  | (None, s') => cc s' = "brutal"%string ∧ ∃ b, brutal s' = Some b ∧ length b = 12%nat ∧
      le_Z (take 8 b) = rate ∧ le_Z (drop 8 b) = (if gain =? 0 then 15 else gain)
  | (Some (ESetParams _), s') => cc s' = "brutal"%string ∧ brutal s' = brutal s
  | (Some _, s') => s' = s
  end.
Proof.
  intros Hr Hg. unfold SetBrutalRate. destruct (is_tcp s) eqn:Ht; cbn [negb]; [|done].
  unfold setsockopt. destruct (answer (TCP_CONGESTION "brutal")) as [e|]; [done|].
  set (g := if gain =? 0 then DefaultBrutalCwndGain else gain).
  destruct (answer (TCP_BRUTAL_PARAMS (brutal_params rate g))) as [e|]; [done|]. cbn.
  split; [done|]. exists (brutal_params rate g). split; [done|]. destruct (params_read rate g) as (H1 & H2 & H3).
  split; [done|]. rewrite H1, H2. rewrite !Z.mod_small; [done| |done].
  unfold g, DefaultBrutalCwndGain. destruct (gain =? 0); lia.
Qed.

End tuning.

Example SetBrutalRate_correct_witness :
  cc (SetBrutalRate (λ _, None) 125000000 0 (mkSock true "cubic" None)).2 = "brutal"%string.
Proof.
  pose proof (SetBrutalRate_correct (λ _, None) 125000000 0 (mkSock true "cubic" None) ltac:(lia) ltac:(lia)) as H.
  cbn in H |- *. apply H.
Defined.

(** Brutal is applied after BBR and wins where the kernel takes it. *)
Lemma tuners_brutal_wins answer allowed rate gain s f :
  composeTuners answer allowed [TBBR; TBrutal rate gain] = Some f → is_tcp s = true →
  (∀ o, answer o = None) → cc (f s) = "brutal"%string.
Proof.
  intros [= <-] Ht Ha. cbn. unfold SetBrutalRate, applyBBR, setsockopt.
  destruct (bbrAvailable allowed); repeat (cbn; rewrite ?Ht, ?Ha); done.
Qed.
