(* ===== verification/TproxyUdp.v ===== *)
(** * tproxy_listen_linux.go, tproxy_udp_batch_linux.go: the UDP receive loop

    How the proxy's sockets are armed, the sockets of a flow, the recvmmsg buffers, and
    the receive loop as the code runs it: batch after batch, each datagram through
    [Tproxy.udp_accept] and [Tproxy.udp_write].  Its runs are among those of
    [Tproxy.udp_step].  The kernel's answers are arguments. *)

From Stdlib Require Import Strings.Byte.
From S2P Require Import Prelude Netip Users Keys NetipText AddrText Addr6Text GoText RateLimit Config YamlConfig Nft Tproxy Congestion Relay.

(** ** Socket options *)

Record optId : Type := mkOpt { o_level : Z; o_name : Z }.
#[global] Instance optId_eq_dec : EqDecision optId.
Proof. solve_decision. Defined.
#[global] Program Instance optId_countable : Countable optId :=
  inj_countable' (λ o, (o_level o, o_name o)) (λ p, mkOpt p.1 p.2) _.
Next Obligation. by intros []. Qed.

Definition o_IP_TRANSPARENT : optId := mkOpt IPPROTO_IP 19.
Definition o_IPV6_TRANSPARENT : optId := mkOpt IPPROTO_IPV6 75.
Definition o_IP_RECVORIGDSTADDR : optId := mkOpt IPPROTO_IP 20.
Definition o_IPV6_RECVORIGDSTADDR : optId := mkOpt IPPROTO_IPV6 74.
Definition o_IP_RECVTOS : optId := mkOpt IPPROTO_IP 13.
Definition o_IPV6_RECVTCLASS : optId := mkOpt IPPROTO_IPV6 66.
Definition o_IP_TOS : optId := mkOpt IPPROTO_IP IP_TOS.
Definition o_IPV6_TCLASS : optId := mkOpt IPPROTO_IPV6 IPV6_TCLASS.
Definition o_SO_REUSEADDR : optId := mkOpt 1 2.
Definition o_SO_SNDBUF : optId := mkOpt 1 7.
Definition o_SO_RCVBUF : optId := mkOpt 1 8.
Definition o_TCP_FASTOPEN : optId := mkOpt 6 23.
Definition o_TCP_FASTOPEN_CONNECT : optId := mkOpt 6 30.

(** The integer options set on a socket. *)
Abbreviation optMap := (gmap optId Z).

Section options.

(** The kernel's answer to an option: [None] when it is taken. *)
Context (answer : optId → option Z).

Definition SetsockoptInt (o : optId) (v : Z) (s : optMap) : option Z * optMap :=
  match answer o with Some e => (Some e, s) | None => (None, <[o := v]> s) end.

(** Options set with their errors ignored. *)
Definition set_all (l : list (optId * Z)) (s : optMap) : optMap :=
  foldl (λ s '(o, v), (SetsockoptInt o v s).2) s l.

(** The common shape of the two control functions.  [ctl] is an error of
    [RawConn.Control], which then does not run the function. *)
Definition transparent_control (ctl : option Z) (rest : list (optId * Z)) (s : optMap) : option Z * optMap :=
  match ctl with
  | Some e => (Some e, s)
  | None =>
      let '(e4, s) := SetsockoptInt o_IP_TRANSPARENT 1 s in
      let '(e6, s) := SetsockoptInt o_IPV6_TRANSPARENT 1 s in
      match e4, e6 with
      | Some e, Some _ => (Some e, s)
      | _, _ => (None, set_all rest s)
      end
  end.

Definition tproxyTCPControl (ctl : option Z) : optMap → option Z * optMap :=
  transparent_control ctl [(o_SO_REUSEADDR, 1); (o_TCP_FASTOPEN, 256)].

Definition tproxyUDPControl (ctl : option Z) : optMap → option Z * optMap :=
  transparent_control ctl
    [(o_IP_RECVORIGDSTADDR, 1); (o_IPV6_RECVORIGDSTADDR, 1); (o_IP_RECVTOS, 1); (o_IPV6_RECVTCLASS, 1);
     (o_SO_REUSEADDR, 1)].

Definition applyDSCP (isV6 : bool) (dscp : byte) (s : optMap) : optMap :=
  (SetsockoptInt (if isV6 then o_IPV6_TCLASS else o_IP_TOS) (b2z dscp) s).2.

End options.

(** ** The sockets of a flow *)

Inductive udpSock : Type := UNone | UOpen | UClosed.

(** The upstream is connected to [dst] and the reply socket bound to its text; the
    client's address is where replies go. *)
Record flowSocks : Type := mkFS {
  fs_target : TCPAddr; fs_bind : string; fs_client : TCPAddr;
  fs_upstream : udpSock; fs_reply : udpSock
}.

Definition UDPAddr_of (p : AddrPort) : TCPAddr := mkTA (AsSlice (ap_addr p)) (ap_port p) EmptyString.

(** [dial], [listen]: whether the sockets can be opened; [isUDP]: whether the packet
    connection is a [*net.UDPConn]. *)
Definition openUDPFlow (dial listen isUDP : bool) (src dst : AddrPort) : bool * flowSocks :=
  let socks := mkFS (UDPAddr_of dst) (TCPAddr_String (UDPAddr_of dst)) (UDPAddr_of src) in
  if negb dial then (false, socks UNone UNone)
  else if negb listen then (false, socks UClosed UNone)
  else if negb isUDP then (false, socks UClosed UClosed)
  else (true, socks UOpen UOpen).

(** ** The receive buffers *)

Definition udpBatchSize : nat := 64.

(** A slot: the lengths of its buffers, and the lengths and flags of its header, which
    the kernel overwrites. *)
Record rxSlot : Type := mkSlot {
  buf_len : Z; cbuf_len : Z;
  Namelen : Z; Iovlen : Z; Controllen : Z; Flags : Z; Len : Z; iov_len : Z
}.

Definition sizeofRawSockaddrAny : Z := 112.

Definition newUDPRxBatch (n : nat) : list rxSlot := replicate n (mkSlot 65535 1024 0 0 0 0 0 65535).

Definition arm_slot (s : rxSlot) : rxSlot :=
  mkSlot (buf_len s) (cbuf_len s) sizeofRawSockaddrAny 1 (cbuf_len s) 0 0 (buf_len s).

Definition arm (b : list rxSlot) : list rxSlot := arm_slot <$> b.

(** A receive: the kernel fills the first slots, never past the lengths it was given. *)
Inductive received : list rxSlot → list rxSlot → Prop :=
| rx_rest b : received b b
| rx_slot s b b' nl cl fl n :
    0 <= nl → 0 <= cl <= Controllen s → 0 <= n <= iov_len s → received b b' →
    received (s :: b) (mkSlot (buf_len s) (cbuf_len s) nl (Iovlen s) cl fl n (iov_len s) :: b').

(** ** The receive loop *)

(** A received datagram, with the time and the outcome of opening its flow's sockets. *)
Record rxMsg : Type := mkRx {
  rx_now : Z; rx_name : RawSockaddr; rx_ctl : option (list cmsg); rx_opened : bool; rx_payload : list byte
}.

Fixpoint udp_batch (c : TPROXYConfig) (l : list rxMsg) (u : udpState) : result Empty_set udpState :=
  match l with
  | [] => Ok u
  | m :: l' =>
      let? u1 := udp_accept c (rx_now m) (rx_name m) (rx_ctl m) (rx_opened m) (rx_payload m) u in
      udp_batch c l' (udp_write u1)
  end.

(** What a pass through the loop sees: the listener closed, an error or an empty
    wake-up, or a batch. *)
Inductive rxPass : Type := PassClosed | PassError | PassBatch (l : list rxMsg).

(** The passes until the loop returns, or as many as there are. *)
Fixpoint udp_passes (c : TPROXYConfig) (ps : list rxPass) (u : udpState) : result Empty_set (bool * udpState) :=
  match ps with
  | [] => Ok (true, u)
  | PassClosed :: _ => Ok (false, u)
  | PassError :: ps' => udp_passes c ps' u
  | PassBatch l :: ps' => let? u1 := udp_batch c l u in udp_passes c ps' u1
  end.

(** ** Arming *)

Lemma set_all_other answer l o s : Forall (λ p, p.1 ≠ o) l → set_all answer l s !! o = s !! o.
Proof.
  revert s. induction l as [|[o' v] l IH]; intros s Hl; [done|]. inversion Hl as [|? ? H1 H2]; subst.
  change (set_all answer ((o', v) :: l) s) with (set_all answer l (SetsockoptInt answer o' v s).2). rewrite IH by done. unfold SetsockoptInt. destruct (answer o'); [done|]. by apply lookup_insert_ne.
Qed.

(** The control functions fail only when the file descriptor is not available or both
    transparent options are refused; otherwise the socket is transparent for a family. *)
Lemma transparent_control_ok answer ctl rest s :
  Forall (λ p, p.1 ≠ o_IP_TRANSPARENT ∧ p.1 ≠ o_IPV6_TRANSPARENT) rest →
  match transparent_control answer ctl rest s with
  | (None, s') => ctl = None ∧ (s' !! o_IP_TRANSPARENT = Some 1 ∨ s' !! o_IPV6_TRANSPARENT = Some 1)
  | (Some e, s') => s' = s ∧ (ctl = Some e ∨ answer o_IP_TRANSPARENT = Some e ∧ is_Some (answer o_IPV6_TRANSPARENT))
  end.
Proof.
  intros Hr. unfold transparent_control. destruct ctl as [e|]; [by split; [|left]|]. unfold SetsockoptInt.
  assert (∀ o s, o = o_IP_TRANSPARENT ∨ o = o_IPV6_TRANSPARENT → set_all answer rest s !! o = s !! o) as Hset.
  { intros o s0 Ho. apply set_all_other. eapply Forall_impl; [exact Hr|]. by destruct Ho; subst; intros p []. }
  destruct (answer o_IP_TRANSPARENT) as [e4|] eqn:E4, (answer o_IPV6_TRANSPARENT) as [e6|] eqn:E6.
  - split; [done|]. right. eauto.
  - split; [done|]. right. rewrite Hset by by right. by rewrite lookup_insert_eq.
  - split; [done|]. left. rewrite Hset by by left. by rewrite lookup_insert_eq.
  - split; [done|]. right. rewrite Hset by by right. by rewrite lookup_insert_eq.
Qed.

(** Arming undoes whatever a receive left: the next receive sees the buffers whole, and
    what it reports can be sliced. *)
Lemma arm_restores n b : received (arm (newUDPRxBatch n)) b →
  arm b = arm (newUDPRxBatch n) ∧ Forall (λ s, 0 <= Controllen s <= cbuf_len s ∧ 0 <= Len s <= buf_len s) b.
Proof.
  intros Hr. remember (arm (newUDPRxBatch n)) as b0 eqn:E. revert n E.
  induction Hr as [b|s b b' nl cl fl m H1 H2 H3 _ IH]; intros n E; subst.
  - split; [by induction n as [|n IH]; cbn; [|f_equal]|]. apply Forall_fmap, Forall_replicate. cbn. lia.
  - destruct n as [|n]; [done|]. cbn in E. injection E as -> ->. destruct (IH n eq_refl) as [Ha Hf].
    cbn in H2, H3. split; [cbn; by f_equal|]. constructor; [cbn; lia|done].
Qed.

(** ** What the loop sends *)

(** The datagrams the loop forwards, with their source and destination. *)
Definition admitted (c : TPROXYConfig) (m : rxMsg) : option ((AddrPort * AddrPort) * list byte) :=
  if (length (rx_payload m) =? 0)%nat then None
  else match rawSockaddrToAddrPort (rx_name m) with
       | Ok src =>
           let '(dst, _, ok) := parsePerPacketCmsg (rx_ctl m) in
           if negb ok || tp_EnforceIsolation c && inPool c (ap_addr dst) then None else Some ((src, dst), rx_payload m)
       | _ => None
       end.

Definition carried (l : list (nat * (AddrPort * AddrPort) * byte * list byte)) : list ((AddrPort * AddrPort) * list byte) :=
  (λ '(_, ends, _, payload), (ends, payload)) <$> l.

(** A datagram handed to an open flow is written. *)
Lemma udp_write_open u p ends m l f :
  pending u = Some (p, ends, m, l) → flowHeap u !! p = Some f → f_closed f = false →
  pending (udp_write u) = None ∧ carried (sent (udp_write u)) = carried (sent u) ++ [(ends, l)].
Proof.
  intros Hp Hf Hc. unfold udp_write. rewrite Hp, Hf, Hc. split; [done|]. cbn [sent]. unfold carried. by rewrite fmap_app.
Qed.

Lemma udp_write_none u : pending u = None → udp_write u = u.
Proof. unfold udp_write. by intros ->. Qed.

Lemma udp_accept_sent c m u u' :
  udp_inv c u → pending u = None → rx_opened m = true →
  udp_accept c (rx_now m) (rx_name m) (rx_ctl m) (rx_opened m) (rx_payload m) u = Ok u' →
  pending (udp_write u') = None ∧
  carried (sent (udp_write u')) = carried (sent u) ++ option_list (admitted c m).
Proof.
  intros Hu Hp Ho. unfold udp_accept, admitted.
  assert (∀ v, Ok (E := Empty_set) u = Ok v → pending (udp_write v) = None ∧ carried (sent (udp_write v)) = carried (sent u) ++ []) as Hskip.
  { intros v [= <-]. by rewrite udp_write_none, app_nil_r. }
  destruct (_ =? _)%nat; [apply Hskip|]. destruct (rawSockaddrToAddrPort (rx_name m)) as [src| |]; try done. cbn.
  destruct (parsePerPacketCmsg (rx_ctl m)) as [[dst dscp] ok]. destruct ok; cbn [negb orb]; [|apply Hskip].
  destruct (_ && _); [apply Hskip|]. cbn [option_list].
  destruct (flows u !! flow_key src dst) as [p|] eqn:Hk.
  - intros [= <-]. destruct (inv_table c u Hu _ _ Hk) as (f & Hf & _ & Hc).
    set (v := upd_flow (bump_flow (rx_now m)) p _).
    apply (udp_write_open v p (src, dst) dscp (rx_payload m) (bump_flow (rx_now m) f)); [done| |exact Hc].
    unfold v. cbn [upd_flow flowHeap]. by rewrite list_lookup_alter_eq, Hf.
  - rewrite Ho. intros [= <-]. eapply (udp_write_open (mkUDP _ _ _ _ _)); [reflexivity| |]; cbn [flowHeap].
    + by apply list_lookup_middle.
    + done.
Qed.

Lemma udp_batch_ok c l u u' :
  udp_reach c u → pending u = None → udp_batch c l u = Ok u' →
  udp_reach c u' ∧
  (Forall (λ m, rx_opened m = true) l → pending u' = None ∧ carried (sent u') = carried (sent u) ++ omap (admitted c) l).
Proof.
  revert u. induction l as [|m l IH]; intros u Hr Hp; cbn [udp_batch].
  { intros [= <-]. split; [done|]. intros _. cbn. by rewrite app_nil_r. }
  destruct (udp_accept c _ _ _ _ _ u) as [u1|[]|] eqn:Ha; [|done]. cbn.
  assert (udp_reach c (udp_write u1)) as Hr1.
  { eapply reach_step; [eapply reach_step; [exact Hr|by eapply step_accept]|apply step_write]. }
  assert (pending (udp_write u1) = None) as Hp1.
  { unfold udp_write. destruct (pending u1) as [[[[p ends] mk] pl]|] eqn:E; [|done].
    destruct (flowHeap u1 !! p) eqn:Ef; [done|]. exfalso.
    assert (udp_inv c u1) as Hi by (eapply udp_accept_inv, udp_reach_inv; eassumption).
    destruct ends as [s d]. destruct (inv_pending c u1 Hi _ _ _ _ _ E) as (_ & f & Hf & _). congruence. }
  intros Hb. destruct (IH _ Hr1 Hp1 Hb) as [Hr' Hs]. split; [done|].
  intros Hall. inversion Hall as [|? ? Hm Hl]; subst. destruct (Hs Hl) as [Hp' ->]. split; [done|].
  destruct (udp_accept_sent c m u u1 (udp_reach_inv c u Hr) Hp Hm Ha) as [_ ->]. cbn.
  destruct (admitted c m); cbn; by rewrite <-app_assoc.
Qed.

(** The datagrams received until the listener is closed. *)
Fixpoint until_closed (ps : list rxPass) : list rxMsg :=
  match ps with
  | [] | PassClosed :: _ => []
  | PassError :: ps' => until_closed ps'
  | PassBatch l :: ps' => l ++ until_closed ps'
  end.

Lemma udp_passes_ok c ps u run u' :
  udp_reach c u → pending u = None → Forall (λ m, rx_opened m = true) (until_closed ps) →
  udp_passes c ps u = Ok (run, u') →
  udp_reach c u' ∧ carried (sent u') = carried (sent u) ++ omap (admitted c) (until_closed ps).
Proof.
  revert u. induction ps as [|[| |l] ps IH]; intros u Hr Hp; cbn [until_closed udp_passes].
  1,2: intros _ [= _ <-]; split; [done|]; cbn; by rewrite app_nil_r.
  { by apply IH. }
  intros [Hl Hps]%Forall_app. destruct (udp_batch c l u) as [u1|[]|] eqn:Hb; [|done]. cbn. intros Hrun.
  destruct (udp_batch_ok c l u u1 Hr Hp Hb) as [Hr1 Hs]. destruct (Hs Hl) as [Hp1 Hs1].
  destruct (IH u1 Hr1 Hp1 Hps Hrun) as [Hr' ->]. split; [done|]. by rewrite Hs1, omap_app, app_assoc.
Qed.

(** The UDP receive loop.  Its runs, batch after batch, are runs of the flow table beside
    its pumps; when sockets can be opened, what it sends upstream is exactly the
    datagrams with a payload, a destination and a permission, in the order received,
    each with its own endpoints; nothing is sent after the listener is closed. *)
Theorem udp_loop_forwards c ps run u' :
  Forall (λ m, rx_opened m = true) (until_closed ps) → udp_passes c ps udp_init = Ok (run, u') →
  udp_reach c u' ∧ carried (sent u') = omap (admitted c) (until_closed ps).
Proof. intros Ho Hp. exact (udp_passes_ok c ps udp_init run u' (reach_init c) eq_refl Ho Hp). Qed.

Definition demo_rx (payload : list byte) : rxMsg :=
  mkRx 5 (mkRaw AF_INET 80 [x0a; x42; x00; x02])
    (Some [mkCmsg IPPROTO_IP IP_ORIGDSTADDR [x02; x00; x00; x35; x08; x08; x08; x08]]) true payload.

Example udp_loop_forwards_witness :
  ∃ run u', udp_passes sample_tproxy [PassBatch [demo_rx [x01]; demo_rx []]; PassError; PassBatch [demo_rx [x02]]; PassClosed;
      PassBatch [demo_rx [x03]]] udp_init = Ok (run, u') ∧ snd <$> carried (sent u') = [[x01]; [x02]].
Proof.
  eexists _, _. split; [vm_compute; reflexivity|].
  match goal with |- snd <$> carried (sent ?u) = _ =>
    rewrite (proj2 (udp_loop_forwards sample_tproxy [PassBatch [demo_rx [x01]; demo_rx []]; PassError;
      PassBatch [demo_rx [x02]]; PassClosed; PassBatch [demo_rx [x03]]] false u ltac:(by repeat constructor)
      ltac:(vm_compute; reflexivity)))
  end.
  vm_compute. reflexivity.
Defined.

(** Opening a flow's sockets: on a failure none is left open; on success replies go out
    from an address that reads back as the destination, to the client. *)
Lemma openUDPFlow_ok dial listen isUDP src dst : ep_wf dst → Is4In6 (ap_addr dst) = false → hasZone (ap_addr dst) = false →
  let '(ok, s) := openUDPFlow dial listen isUDP src dst in
  ParseAddrPort (bytes_of (fs_bind s)) = Some dst ∧ fs_client s = UDPAddr_of src ∧
  if ok then fs_upstream s = UOpen ∧ fs_reply s = UOpen else fs_upstream s ≠ UOpen ∧ fs_reply s ≠ UOpen.
Proof.
  intros [Hv Hp] H6 Hz. assert (ParseAddrPort (bytes_of (TCPAddr_String (UDPAddr_of dst))) = Some dst) as Ht.
  { destruct dst as [[|v|b z] p]; [done|..]; unfold UDPAddr_of; cbn [ap_addr ap_port AsSlice Is4In6] in *.
    all: rewrite TCPAddr_text by (split_and!; cbn; rewrite ?length_vec_to_list; auto; lia).
    all: cbn [ta_IP ta_Port ta_Zone]; unfold IP_addr, To4; rewrite length_vec_to_list; cbn [Nat.eqb andb].
    - by rewrite array_of_vec_to_list.
    - apply bool_decide_eq_false in H6. rewrite bool_decide_eq_false_2, array_of_vec_to_list by done. by destruct z. }
  unfold openUDPFlow. by destruct dial, listen, isUDP; cbn [negb].
Qed.
