(* ===== verification/TproxyRun.v ===== *)
(** * tproxy_listen_linux.go: the proxy's goroutines in time

    The UDP accept loop beside the reply pumps with the clock they read: each flow's pump
    ([runUDPReplyPump]) checks for idleness, reads with a deadline, and leaves.  A pump
    that can go on does so within a time [lag], for scheduling and locks.  The runs
    are runs of [Tproxy.udp_step].  The TCP accept loop and the options of relayed sockets
    complete the listener. *)

From S2P Require Import Prelude Netip Users Keys NetipText AddrText Addr6Text RateLimit Config YamlConfig Nft Tproxy Relay Congestion TproxyUdp.

(** ** The reply pumps *)

(** Where a pump is: at the top of its loop since a time, in its read with a deadline, in
    its deferred function since a time, out of the table, and past [shutdown]. *)
Inductive pumpPhase : Type :=
| PTop (since : Z)
| PReading (deadline : Z)
| PLeaving (since : Z)
| PLeft
| PDown.

#[global] Instance pumpPhase_eq_dec : EqDecision pumpPhase.
Proof. solve_decision. Defined.

(** The clock, the shared state, and the pump of each flow. *)
Record proxyState : Type := mkPS { ps_now : Z; ps_udp : udpState; ps_pumps : list pumpPhase }.

Definition proxy_init (t0 : Z) : proxyState := mkPS t0 udp_init [].

(** The pumps after the accept loop may have opened a flow. *)
Definition start_pumps (now : Z) (u : udpState) (ps : list pumpPhase) : list pumpPhase :=
  ps ++ replicate (length (flowHeap u) - length ps) (PTop now).

(** The idle test, and the deadline of the read that follows it. *)
Definition pump_top (c : TPROXYConfig) (now : Z) (f : flow) : pumpPhase :=
  if pump_idle c now f then PLeaving now else PReading (lastActivity f + tp_UDPIdleTimeout c).

(** A pump that can go on does so within [lag], a read returns within [lag] of its deadline. *)
Definition waits_until (lag t : Z) (ph : pumpPhase) : Prop :=
  match ph with PTop since | PLeaving since => t <= since + lag | PReading d => t <= d + lag | PLeft | PDown => True end.

(** The flow of the datagram that the accept loop has just taken. *)
Definition pending_flow (u : udpState) : option nat := (λ x, x.1.1.1) <$> pending u.

(** When each flow last carried a datagram, from either side, told apart from what the
    code stores: [p] carried one now, opening its flow if that is new. *)
Definition carries_now (now : Z) (p : option nat) (u : udpState) (traffic : list Z) : list Z :=
  let traffic := traffic ++ replicate (length (flowHeap u) - length traffic) now in
  match p with Some p => <[p := now]> traffic | None => traffic end.

Inductive proxy_step (c : TPROXYConfig) (lag : Z) : proxyState * list Z → proxyState * list Z → Prop :=
| ps_pass now now' u ps tr :
    now <= now' → Forall (waits_until lag now') ps → proxy_step c lag (mkPS now u ps, tr) (mkPS now' u ps, tr)
| ps_accept now raw msgs opened payload u u' ps tr :
    pending u = None → udp_accept c now raw msgs opened payload u = Ok u' →
    proxy_step c lag (mkPS now u ps, tr) (mkPS now u' (start_pumps now u' ps), carries_now now (pending_flow u') u' tr)
| ps_write now u ps tr : proxy_step c lag (mkPS now u ps, tr) (mkPS now (udp_write u) ps, tr)
| ps_top now p t f u ps tr :
    ps !! p = Some (PTop t) → flowHeap u !! p = Some f →
    proxy_step c lag (mkPS now u ps, tr) (mkPS now u (<[p := pump_top c now f]> ps), tr)
| ps_stop now p t u ps tr :                      (* the context, the listener, or the flow is done *)
    ps !! p = Some (PTop t) → proxy_step c lag (mkPS now u ps, tr) (mkPS now u (<[p := PLeaving now]> ps), tr)
| ps_data now p d data u ps tr :
    ps !! p = Some (PReading d) →
    proxy_step c lag (mkPS now u ps, tr)
      (mkPS now (pump_reply now p data u) (<[p := PTop now]> ps),
       carries_now now (if bool_decide (data = []) then None else Some p) u tr)
| ps_timeout now p d u ps tr :
    ps !! p = Some (PReading d) → d <= now → proxy_step c lag (mkPS now u ps, tr) (mkPS now u (<[p := PTop now]> ps), tr)
| ps_error now p d u ps tr :
    ps !! p = Some (PReading d) → proxy_step c lag (mkPS now u ps, tr) (mkPS now u (<[p := PLeaving now]> ps), tr)
| ps_leave now p t u ps tr :
    ps !! p = Some (PLeaving t) → proxy_step c lag (mkPS now u ps, tr) (mkPS now (pump_exit p u) (<[p := PLeft]> ps), tr)
| ps_down now p u ps tr :
    ps !! p = Some PLeft → proxy_step c lag (mkPS now u ps, tr) (mkPS now (flow_shutdown p u) (<[p := PDown]> ps), tr).

(** *** The invariant *)

Definition running (ph : pumpPhase) : Prop := match ph with PTop _ | PReading _ | PLeaving _ => True | _ => False end.

(** A flow of the table: its pump runs, and how long ago the flow can have been active,
    by where the pump is. *)
Definition flow_timely (c : TPROXYConfig) (lag now : Z) (f : flow) (ph : pumpPhase) : Prop :=
  let due := lastActivity f + tp_UDPIdleTimeout c in
  waits_until lag now ph ∧
  match ph with
  | PReading d => d <= due
  | PTop t => t <= due + lag
  | PLeaving t => t <= due + 2 * lag
  | PLeft | PDown => False
  end.

Record proxy_inv (c : TPROXYConfig) (lag : Z) (g : proxyState) : Prop := mkPI {
  pi_udp : udp_reach c (ps_udp g);
  pi_len : length (ps_pumps g) = length (flowHeap (ps_udp g));
  pi_past : Forall (λ f, lastActivity f <= ps_now g) (flowHeap (ps_udp g));
  pi_open : ∀ p f, flowHeap (ps_udp g) !! p = Some f → f_closed f = true → ps_pumps g !! p = Some PDown;
  pi_table : ∀ k p f, flows (ps_udp g) !! k = Some p → flowHeap (ps_udp g) !! p = Some f →
    ∃ ph, ps_pumps g !! p = Some ph ∧ flow_timely c lag (ps_now g) f ph
}.

(** The stored times are the times of the traffic. *)
Definition traffic_ok (g : proxyState) (tr : list Z) : Prop := tr = lastActivity <$> flowHeap (ps_udp g).

Section inv.
Context (c : TPROXYConfig) (lag : Z) (Hlag : 0 <= lag) (HT : 0 <= tp_UDPIdleTimeout c).

Lemma flow_timely_mono now f f' ph : lastActivity f <= lastActivity f' → flow_timely c lag now f ph → flow_timely c lag now f' ph.
Proof. intros Hle (Hw & Hd). split; [done|]. destruct ph; try done; lia. Qed.

Lemma flow_timely_running now f ph : flow_timely c lag now f ph →
  running ph ∧ now <= lastActivity f + tp_UDPIdleTimeout c + 3 * lag.
Proof. intros [Hw Hd]. destruct ph; cbn in *; try done; (split; [done|lia]). Qed.

(** The moves of a pump keep a flow timely. *)
Lemma timely_top now f t : flow_timely c lag now f (PTop t) → flow_timely c lag now f (pump_top c now f).
Proof.
  intros [Hw Hd]. unfold pump_top, pump_idle. cbn in *.
  destruct (Z.ltb_spec now (lastActivity f + tp_UDPIdleTimeout c)); split; cbn; lia.
Qed.

Lemma timely_leave now f ph : flow_timely c lag now f ph → match ph with PLeaving _ => False | _ => True end →
  flow_timely c lag now f (PLeaving now).
Proof. intros [Hw Hd] Hph. destruct ph; cbn in *; try done; split; cbn; lia. Qed.

Lemma timely_again now f d : flow_timely c lag now f (PReading d) → flow_timely c lag now f (PTop now).
Proof. intros [Hw Hd]. cbn in *. split; cbn; lia. Qed.

(** What most steps do: flows stay or become more recently active, the table does not
    grow, and the pumps of its flows stay timely. *)
Lemma proxy_inv_upd now u ps u' ps' :
  proxy_inv c lag (mkPS now u ps) → udp_reach c u' → length ps' = length (flowHeap u') →
  (∀ p f', flowHeap u' !! p = Some f' → ∃ f, flowHeap u !! p = Some f ∧ lastActivity f <= lastActivity f' <= now ∧
     (f_closed f' = true → f_closed f = true ∨ ps' !! p = Some PDown)) →
  (∀ k p, flows u' !! k = Some p → flows u !! k = Some p) →
  (∀ p ph, ps !! p = Some ph → ∃ ph', ps' !! p = Some ph' ∧ (ph = PDown → ph' = PDown) ∧
     ∀ k f, flows u' !! k = Some p → flowHeap u !! p = Some f → flow_timely c lag now f ph → flow_timely c lag now f ph') →
  proxy_inv c lag (mkPS now u' ps').
Proof.
  intros [_ Hlen Hpast Hopen Htab] Hreach Hlen' Hheap Hflows Hps. cbn [ps_now ps_udp ps_pumps] in *. split; cbn; [done|done|..].
  - apply Forall_lookup. intros p f' Hf'. destruct (Hheap p f' Hf') as (f & _ & [_ ?] & _). done.
  - intros p f' Hf' Hc. destruct (Hheap p f' Hf') as (f & Hf & _ & Hcl). destruct (Hcl Hc) as [Hfc|?]; [|done].
    destruct (Hps p PDown (Hopen p f Hf Hfc)) as (ph' & Hph' & Hd & _). by rewrite <-(Hd eq_refl).
  - intros k p f' Hk Hf'. destruct (Hheap p f' Hf') as (f & Hf & [Hle _] & _).
    destruct (Htab k p f (Hflows k p Hk) Hf) as (ph & Hph & Ht). destruct (Hps p ph Hph) as (ph' & Hph' & _ & Hx).
    exists ph'. split; [done|]. eapply flow_timely_mono; [exact Hle|]. by eapply Hx.
Qed.

(** A flow kept as it is. *)
Lemma heap_same now u ps p f :
  proxy_inv c lag (mkPS now u ps) → flowHeap u !! p = Some f →
  ∃ f0, flowHeap u !! p = Some f0 ∧ lastActivity f0 <= lastActivity f <= now ∧ (f_closed f = true → f_closed f0 = true ∨ ps !! p = Some PDown).
Proof.
  intros Hi Hf. exists f. split; [done|]. split; [|by left]. split; [lia|]. by apply (Forall_lookup_1 _ _ _ _ (pi_past _ _ _ Hi) Hf).
Qed.

(** A step of pump [p] that leaves the flows alone. *)
Lemma proxy_inv_phase now u ps p ph ph' :
  proxy_inv c lag (mkPS now u ps) → ps !! p = Some ph → ph ≠ PDown →
  (∀ f, flowHeap u !! p = Some f → flow_timely c lag now f ph → flow_timely c lag now f ph') →
  proxy_inv c lag (mkPS now u (<[p := ph']> ps)).
Proof.
  intros Hi Hp Hne Ht. eapply proxy_inv_upd; [exact Hi|apply (pi_udp _ _ _ Hi)|rewrite length_insert; apply (pi_len _ _ _ Hi)| |done|].
  - intros q f Hf. destruct (heap_same _ _ _ _ _ Hi Hf) as (f0 & ? & ? & Hc). exists f0. split; [done|]. split; [done|].
    intros Hfc. destruct (Hc Hfc) as [?|Hd]; [by left|]. right. rewrite list_lookup_insert_ne; [done|]. intros ->. congruence.
  - intros q ph0 Hq. destruct (decide (q = p)) as [->|Hqp].
    + rewrite Hp in Hq. injection Hq as <-. exists ph'. rewrite list_lookup_insert_eq by (by eapply lookup_lt_Some).
      split; [done|]. split; [done|]. intros k f _ Hf. by apply Ht.
    + exists ph0. rewrite list_lookup_insert_ne by done. by split_and!.
Qed.

Lemma pump_exit_gone p u k : udp_inv c u → flows (pump_exit p u) !! k ≠ Some p.
Proof.
  intros Hi Hk. unfold pump_exit in Hk. destruct (flowHeap u !! p) as [f|] eqn:Hf.
  - case_bool_decide as Hd; cbn [flows] in Hk.
    + apply lookup_delete_Some in Hk as [Hne Hk]. destruct (inv_table _ _ Hi _ _ Hk) as (f' & Hf' & -> & _). congruence.
    + destruct (inv_table _ _ Hi _ _ Hk) as (f' & Hf' & -> & _). congruence.
  - destruct (inv_table _ _ Hi _ _ Hk) as (f' & Hf' & _). congruence.
Qed.

Lemma pump_exit_heap p u : flowHeap (pump_exit p u) = flowHeap u ∧ ∀ k q, flows (pump_exit p u) !! k = Some q → flows u !! k = Some q.
Proof.
  unfold pump_exit. destruct (flowHeap u !! p); [|done]. case_bool_decide; [|done]. split; [done|]. intros k q. cbn [flows].
  by intros [_ ?]%lookup_delete_Some.
Qed.

Lemma udp_accept_cases now raw msgs opened payload u u' :
  udp_accept c now raw msgs opened payload u = Ok u' →
  u' = u ∨
  (∃ k p, flows u !! k = Some p ∧ flowHeap u' = alter (bump_flow now) p (flowHeap u) ∧ flows u' = flows u ∧ pending_flow u' = Some p) ∨
  (∃ k s d, flowHeap u' = flowHeap u ++ [mkFlow s d now x00 false] ∧ flows u' = <[k := length (flowHeap u)]> (flows u) ∧
     pending_flow u' = Some (length (flowHeap u))).
Proof.
  unfold udp_accept. destruct (_ =? _)%nat; [intros [= <-]; by left|]. intros (src & _ & H)%rbind_Ok. revert H.
  destruct (parsePerPacketCmsg msgs) as [[dst dscp] ok]. destruct (negb ok); [intros [= <-]; by left|].
  destruct (_ && _); [intros [= <-]; by left|]. destruct (flows u !! _) as [p|] eqn:Hk.
  - intros [= <-]. right. left. eexists _, p. by split_and!.
  - destruct (negb opened); intros [= <-]; [by left|]. right. right. eexists _, _, _. by split_and!.
Qed.

Lemma start_pumps_same now u ps : length ps = length (flowHeap u) → start_pumps now u ps = ps.
Proof. intros E. unfold start_pumps. rewrite E, Nat.sub_diag. apply app_nil_r. Qed.

Lemma proxy_accept_bump now u u' ps p :
  proxy_inv c lag (mkPS now u ps) → udp_reach c u' → flowHeap u' = alter (bump_flow now) p (flowHeap u) →
  (∀ k q, flows u' !! k = Some q → flows u !! k = Some q) → proxy_inv c lag (mkPS now u' ps).
Proof.
  intros Hi Hr Eh Ef. eapply proxy_inv_upd; [exact Hi|done|by rewrite Eh, length_alter; apply (pi_len _ _ _ Hi)| |done|].
  - intros q f. rewrite Eh. intros [(-> & f0 & Hf0 & ->)|[_ Hf]]%alter_cases; [|by eapply heap_same].
    exists f0. split; [done|]. split; [|by left]. split; [|done]. by apply (Forall_lookup_1 _ _ _ _ (pi_past _ _ _ Hi) Hf0).
  - intros q ph Hq. exists ph. by split_and!.
Qed.

Lemma proxy_accept_open now u u' ps k s d :
  proxy_inv c lag (mkPS now u ps) → udp_reach c u' →
  flowHeap u' = flowHeap u ++ [mkFlow s d now x00 false] → flows u' = <[k := length (flowHeap u)]> (flows u) →
  proxy_inv c lag (mkPS now u' (start_pumps now u' ps)).
Proof.
  intros Hi Hr Eh Ef. pose proof (pi_len _ _ _ Hi) as Hl. cbn in Hl.
  assert (start_pumps now u' ps = ps ++ [PTop now]) as ->.
  { unfold start_pumps. rewrite Eh, length_app, Hl. cbn [length]. by replace (length (flowHeap u) + 1 - length (flowHeap u))%nat with 1%nat by lia. }
  split; cbn [ps_now ps_udp ps_pumps]; [done|by rewrite Eh, !length_app, Hl|..].
  - rewrite Eh. apply Forall_app. split; [apply (pi_past _ _ _ Hi)|by apply Forall_singleton].
  - intros p f. rewrite Eh. intros [Hf|[_ Hf]]%lookup_app_Some Hc.
    + apply lookup_app_l_Some. by eapply (pi_open _ _ _ Hi).
    + apply list_lookup_singleton_Some in Hf as [_ <-]. done.
  - intros k' p f. rewrite Ef, Eh. intros [[<- <-]|[_ Hk]]%lookup_insert_Some Hf.
    + rewrite list_lookup_middle in Hf by done. injection Hf as <-. exists (PTop now). split; [by apply list_lookup_middle|].
      split; cbn; lia.
    + destruct (inv_table _ _ (udp_reach_inv _ _ (pi_udp _ _ _ Hi)) _ _ Hk) as (f0 & Hf0 & _).
      assert (flowHeap u !! p = Some f) as Hf' by (rewrite lookup_app_l in Hf; [done|by eapply lookup_lt_Some]).
      destruct (pi_table _ _ _ Hi _ _ _ Hk Hf') as (ph & Hph & Ht). exists ph. split; [by apply lookup_app_l_Some|done].
Qed.

Lemma udp_write_heap u : flows (udp_write u) = flows u ∧ length (flowHeap (udp_write u)) = length (flowHeap u) ∧
  ∀ p f', flowHeap (udp_write u) !! p = Some f' →
    ∃ f, flowHeap u !! p = Some f ∧ lastActivity f' = lastActivity f ∧ f_closed f' = f_closed f.
Proof.
  unfold udp_write. destruct (pending u) as [[[[q ends] dscp] payload]|]; [|by split_and!; eauto].
  destruct (flowHeap u !! q) as [f|]; [|by split_and!; eauto]. cbn [flows flowHeap]. rewrite length_alter. split_and!; [done..|].
  intros p f' [(-> & f0 & Hf0 & ->)|[_ Hf]]%alter_cases; eauto.
Qed.

Lemma proxy_write_inv now u ps : proxy_inv c lag (mkPS now u ps) → proxy_inv c lag (mkPS now (udp_write u) ps).
Proof.
  intros Hi. destruct (udp_write_heap u) as (Ef & El & Hh).
  eapply proxy_inv_upd; [exact Hi|eapply reach_step; [apply (pi_udp _ _ _ Hi)|apply step_write]|by rewrite El; apply (pi_len _ _ _ Hi)| |by rewrite Ef|].
  - intros p f' Hf'. destruct (Hh p f' Hf') as (f & Hf & -> & ->). by eapply heap_same.
  - intros q ph Hq. exists ph. by split_and!.
Qed.

Lemma proxy_data_inv now u ps p d data :
  proxy_inv c lag (mkPS now u ps) → ps !! p = Some (PReading d) → proxy_inv c lag (mkPS now (pump_reply now p data u) (<[p := PTop now]> ps)).
Proof.
  intros Hi Hp. destruct (lookup_lt_is_Some_2 (flowHeap u) p) as [f Hf].
  { pose proof (pi_len _ _ _ Hi) as E. cbn in E. rewrite <-E. by eapply lookup_lt_Some. }
  assert (f_closed f = false) as Hc.
  { destruct (f_closed f) eqn:E; [|done]. pose proof (pi_open _ _ _ Hi p f Hf E) as E'. cbn in E'. congruence. }
  assert (udp_reach c (pump_reply now p data u)) as Hr by (eapply reach_step; [apply (pi_udp _ _ _ Hi)|by eapply step_reply]).
  eapply (proxy_inv_phase _ _ _ p (PReading d)); [|exact Hp|done|by intros f' _; apply timely_again].
  unfold pump_reply in *. destruct (_ =? _)%nat; [done|]. by eapply (proxy_accept_bump now u _ ps p).
Qed.

(** A pump in its deferred function takes its flow out of the table. *)
Lemma proxy_leave_inv now u ps p t :
  proxy_inv c lag (mkPS now u ps) → ps !! p = Some (PLeaving t) → proxy_inv c lag (mkPS now (pump_exit p u) (<[p := PLeft]> ps)).
Proof.
  intros Hi Hp. destruct (pump_exit_heap p u) as [Eh Hf]. pose proof (udp_reach_inv _ _ (pi_udp _ _ _ Hi)) as Hu. cbn in Hu.
  eapply proxy_inv_upd; [exact Hi|eapply reach_step; [apply (pi_udp _ _ _ Hi)|apply step_stop]|rewrite Eh, length_insert; apply (pi_len _ _ _ Hi)| |done|].
  - intros q f. rewrite Eh. intros Hq. destruct (heap_same _ _ _ _ _ Hi Hq) as (f0 & ? & ? & Hc). exists f0. split; [done|].
    split; [done|]. intros Hfc. destruct (Hc Hfc) as [?|Hd]; [by left|]. right. rewrite list_lookup_insert_ne; [done|]. intros ->. congruence.
  - intros q ph Hq. destruct (decide (q = p)) as [->|Hqp].
    + rewrite Hp in Hq. injection Hq as <-. exists PLeft. rewrite list_lookup_insert_eq by (by eapply lookup_lt_Some).
      split; [done|]. split; [done|]. intros k f Hk. by destruct (pump_exit_gone p u k Hu).
    + exists ph. rewrite list_lookup_insert_ne by done. by split_and!.
Qed.

Lemma proxy_down_inv now u ps p :
  proxy_inv c lag (mkPS now u ps) → ps !! p = Some PLeft → proxy_inv c lag (mkPS now (flow_shutdown p u) (<[p := PDown]> ps)).
Proof.
  intros Hi Hp. assert (∀ k, flows u !! k ≠ Some p) as Hno.
  { intros k Hk. destruct (inv_table _ _ (udp_reach_inv _ _ (pi_udp _ _ _ Hi)) _ _ Hk) as (f & Hf & _).
    destruct (pi_table _ _ _ Hi _ _ _ Hk Hf) as (ph & Hph & _ & Hd). cbn in Hph. rewrite Hp in Hph. by injection Hph as <-. }
  assert (<[p := PDown]> ps !! p = Some PDown) as Hdown by (apply list_lookup_insert_eq; by eapply lookup_lt_Some).
  eapply proxy_inv_upd; [exact Hi|eapply reach_step; [apply (pi_udp _ _ _ Hi)|by apply step_shutdown]| | |done|].
  - cbn. rewrite length_insert, length_alter. apply (pi_len _ _ _ Hi).
  - intros q f. cbn [flow_shutdown upd_flow flowHeap]. intros [(-> & f0 & Hf0 & ->)|[Hqp Hf]]%alter_cases.
    + exists f0. split; [done|]. split; [|by right]. cbn. split; [lia|]. by apply (Forall_lookup_1 _ _ _ _ (pi_past _ _ _ Hi) Hf0).
    + rewrite list_lookup_insert_ne by done. by eapply heap_same.
  - intros q ph Hq. destruct (decide (q = p)) as [->|Hqp].
    + exists PDown. split; [done|]. split; [done|]. intros k f Hk. by destruct (Hno k).
    + exists ph. rewrite list_lookup_insert_ne by done. by split_and!.
Qed.

Lemma proxy_step_inv g g' : proxy_step c lag g g' → proxy_inv c lag g.1 → proxy_inv c lag g'.1.
Proof.
  intros Hstep Hi. pose proof (pi_udp _ _ _ Hi) as Hr.
  destruct Hstep as [now now' u ps tr Hle Hw|now raw msgs opened payload u u' ps tr Hpend Ha|now u ps tr|now p t f u ps tr Hp Hf|
    now p t u ps tr Hp|now p d data u ps tr Hp|now p d u ps tr Hp Hd|now p d u ps tr Hp|now p t u ps tr Hp|now p u ps tr Hp];
    cbn [fst ps_udp] in *.
  - destruct Hi as [_ Hlen Hpast Hopen Htab]. split; cbn in *; [done|done|eapply Forall_impl; [done|]; intros f; cbn; lia|done|].
    intros k p f Hk Hf. destruct (Htab k p f Hk Hf) as (ph & Hph & _ & Hd). exists ph. split; [done|].
    split; [exact (Forall_lookup_1 _ _ _ _ Hw Hph)|done].
  - assert (udp_reach c u') as Hr' by (eapply reach_step; [exact Hr|by eapply step_accept]).
    destruct (udp_accept_cases _ _ _ _ _ _ _ Ha) as [->|[(k & p & _ & Eh & Ef & _)|(k & s & d & Eh & Ef & _)]].
    + rewrite start_pumps_same by apply (pi_len _ _ _ Hi). done.
    + rewrite start_pumps_same by (rewrite Eh, length_alter; apply (pi_len _ _ _ Hi)).
      eapply proxy_accept_bump; [exact Hi|done|exact Eh|]. by rewrite Ef.
    + by eapply proxy_accept_open.
  - by apply proxy_write_inv.
  - eapply proxy_inv_phase; [exact Hi|exact Hp|done|]. intros f' Hf'. rewrite Hf in Hf'. injection Hf' as <-. apply timely_top.
  - eapply proxy_inv_phase; [exact Hi|exact Hp|done|]. intros f _ Ht. by eapply timely_leave.
  - by eapply proxy_data_inv.
  - eapply proxy_inv_phase; [exact Hi|exact Hp|done|]. intros f _. apply timely_again.
  - eapply proxy_inv_phase; [exact Hi|exact Hp|done|]. intros f _ Ht. by eapply timely_leave.
  - by eapply proxy_leave_inv.
  - by apply proxy_down_inv.
Qed.

(** *** The stored times *)

Lemma fmap_activity_alter now p (h : list flow) (l : list Z) :
  l = lastActivity <$> h → (p < length h)%nat → <[p := now]> l = lastActivity <$> alter (bump_flow now) p h.
Proof.
  intros -> Hp. apply list_eq. intros i. rewrite list_lookup_fmap. destruct (decide (i = p)) as [->|Hne].
  - rewrite list_lookup_insert_eq, list_lookup_alter_eq by (by rewrite length_fmap).
    destruct (lookup_lt_is_Some_2 h p Hp) as [f ->]. done.
  - by rewrite list_lookup_insert_ne, list_lookup_alter_ne, list_lookup_fmap by done.
Qed.

Lemma fmap_activity_same (g : flow → flow) p (h : list flow) :
  (∀ f, lastActivity (g f) = lastActivity f) → lastActivity <$> alter g p h = lastActivity <$> h.
Proof.
  intros Hg. apply list_eq. intros i. rewrite !list_lookup_fmap. destruct (decide (i = p)) as [->|Hne].
  - rewrite list_lookup_alter_eq. destruct (h !! p); cbn; [by rewrite Hg|done].
  - by rewrite list_lookup_alter_ne.
Qed.

Lemma carries_now_alter now p u u' tr g :
  traffic_ok g tr → ps_udp g = u → flowHeap u' = alter (bump_flow now) p (flowHeap u) → (p < length (flowHeap u))%nat →
  length (flowHeap u') = length (flowHeap u) → carries_now now (Some p) u' tr = lastActivity <$> flowHeap u'.
Proof.
  intros -> Hu Eh Hp El. unfold carries_now. rewrite Hu, length_fmap, El, Nat.sub_diag. cbn [replicate]. rewrite app_nil_r, Eh.
  by apply fmap_activity_alter.
Qed.

Lemma proxy_step_traffic g g' tr tr' : proxy_step c lag (g, tr) (g', tr') → proxy_inv c lag g → traffic_ok g tr → traffic_ok g' tr'.
Proof.
  intros Hstep Hi Ht. pose proof (udp_reach_inv _ _ (pi_udp _ _ _ Hi)) as Hu. pose proof (pi_len _ _ _ Hi) as Hlen.
  inversion Hstep as [now now' u ps tr0 Hle Hw|now raw msgs opened payload u u' ps tr0 Hpend Ha|now u ps tr0|now p t f u ps tr0 Hp Hf|
    now p t u ps tr0 Hp|now p d data u ps tr0 Hp|now p d u ps tr0 Hp Hd|now p d u ps tr0 Hp|now p t u ps tr0 Hp|now p u ps tr0 Hp];
    subst; try exact Ht; unfold traffic_ok; cbn [ps_udp ps_pumps] in *.
  - destruct (udp_accept_cases _ _ _ _ _ _ _ Ha) as [->|[(k & p & Hk & Eh & Ef & ->)|(k & s & d & Eh & Ef & ->)]].
    + unfold carries_now, pending_flow. rewrite Hpend, Ht. cbn. by rewrite length_fmap, Nat.sub_diag, app_nil_r.
    + destruct (inv_table _ _ Hu _ _ Hk) as (f & Hf & _).
      eapply carries_now_alter; [exact Ht|done|exact Eh|by eapply lookup_lt_Some|by rewrite Eh, length_alter].
    + unfold carries_now. rewrite Ht. cbn [ps_udp]. rewrite length_fmap, Eh, length_app. cbn [length].
      replace (length (flowHeap u) + 1 - length (flowHeap u))%nat with 1%nat by lia. cbn [replicate].
      rewrite fmap_app, <-(length_fmap lastActivity (flowHeap u)). by rewrite insert_app_r_alt, Nat.sub_diag by done.
  - rewrite Ht. cbn [ps_udp]. unfold udp_write. destruct (pending u) as [[[[q ends] dscp] payload]|]; [|done].
    destruct (flowHeap u !! q) as [f|]; [|done]. cbn [flowHeap]. symmetry. by apply fmap_activity_same.
  - unfold pump_reply. assert (p < length (flowHeap u))%nat as Hlt by (rewrite <-Hlen; by eapply lookup_lt_Some).
    destruct data as [|x data]; cbn [length Nat.eqb].
    + rewrite bool_decide_eq_true_2 by done. unfold carries_now. rewrite Ht. cbn [ps_udp]. by rewrite length_fmap, Nat.sub_diag, app_nil_r.
    + rewrite bool_decide_eq_false_2 by done. cbn [flowHeap].
      rewrite <-(fmap_activity_alter now p (flowHeap u) tr Ht Hlt). unfold carries_now.
      by rewrite Ht, length_fmap, Nat.sub_diag, app_nil_r.
  - rewrite Ht. cbn [ps_udp]. by rewrite (proj1 (pump_exit_heap p u)).
  - rewrite Ht. cbn [ps_udp flow_shutdown upd_flow flowHeap]. symmetry. by apply fmap_activity_same.
Qed.

Lemma proxy_run_inv t0 g tr :
  rtc (proxy_step c lag) (proxy_init t0, []) (g, tr) → proxy_inv c lag g ∧ traffic_ok g tr.
Proof.
  intros H. refine (rtc_invariant (proxy_step c lag) (λ x, proxy_inv c lag x.1 ∧ traffic_ok x.1 x.2) _ _ _ H _).
  - intros [g1 tr1] [g2 tr2] [H1 H2] Hs. cbn [fst snd] in *.
    split; [by apply (proxy_step_inv (g1, tr1) (g2, tr2))|by eapply proxy_step_traffic].
  - split; [|done]. split; cbn; [constructor|done|constructor|done|done].
Qed.

End inv.

(** [NewTPROXYListener] leaves no timeout unset. *)
Lemma listener_timeout c : tp_Enabled c = true → 0 < tp_UDPIdleTimeout (NewTPROXYListener c).
Proof.
  intros He. unfold NewTPROXYListener. rewrite He. cbn. destruct (Z.leb_spec (tp_UDPIdleTimeout c) 0); [unfold Second; lia|lia].
Qed.

(** C21: The UDP side of the proxy in time.  In every run of the accept loop and the reply
    pumps, with the clock they read, in which a pump that can go on does so within a time
    [lag] and a read returns within [lag] of its deadline: the flow table only points at
    open flows under their own key, whose pump is running; each datagram sent upstream went
    out on a flow of its own client and to exactly its own destination; with isolation on,
    no destination lies in the address pools; no flow stays in the table for longer than
    the idle timeout and three times [lag] after its last datagram, in either direction;
    and a pump at its test takes its flow for idle exactly when that datagram is at least
    the timeout ago. *)
Theorem proxy_flows c0 lag t0 g traffic :
  tp_Enabled c0 = true → 0 <= lag →
  let c := NewTPROXYListener c0 in
  rtc (proxy_step c lag) (proxy_init t0, []) (g, traffic) →
  let u := ps_udp g in
  (∀ k p, flows u !! k = Some p →
    ∃ f ph last, flowHeap u !! p = Some f ∧ f_closed f = false ∧ k = flow_key (f_src f) (f_dst f) ∧
      ps_pumps g !! p = Some ph ∧ running ph ∧ traffic !! p = Some last ∧
      0 <= ps_now g - last <= tp_UDPIdleTimeout c + 3 * lag ∧
      (pump_top c (ps_now g) f = PLeaving (ps_now g) ↔ tp_UDPIdleTimeout c <= ps_now g - last)) ∧
  (∀ p f, flowHeap u !! p = Some f → tp_EnforceIsolation c = true → inPool c (ap_addr (f_dst f)) = false) ∧
  (∀ p s d m l, (p, (s, d), m, l) ∈ sent u →
    (tp_EnforceIsolation c = true → inPool c (ap_addr d) = false) ∧
    ∃ f, flowHeap u !! p = Some f ∧ f_src f = s ∧ f_dst f = d).
Proof.
  intros He Hlag c Hrun u. pose proof (listener_timeout c0 He) as HT. fold c in HT.
  destruct (proxy_run_inv c lag Hlag ltac:(lia) t0 g traffic Hrun) as [Hi Ht].
  destruct (udp_flows_ok c u (pi_udp _ _ _ Hi)) as (Htab & Hiso & Hsent).
  split; [|done]. intros k p Hk. destruct (Htab k p Hk) as (f & Hf & Hc & Ek).
  destruct (pi_table _ _ _ Hi k p f Hk Hf) as (ph & Hph & Htime).
  destruct (flow_timely_running _ _ Hlag _ _ _ Htime) as [Hrn Hle].
  pose proof (Forall_lookup_1 _ _ _ _ (pi_past _ _ _ Hi) Hf) as Hpast. cbn in Hpast.
  exists f, ph, (lastActivity f). split_and!; try done; [by rewrite Ht, list_lookup_fmap; unfold u in Hf; rewrite Hf|lia|lia|].
  unfold pump_top, pump_idle. destruct (Z.ltb_spec (ps_now g) (lastActivity f + tp_UDPIdleTimeout c)); cbn [negb].
  - split; [done|]. intros E. lia.
  - split; [|done]. intros _. lia.
Qed.

(** A datagram at time 7 opens a flow; a minute later its read times out. *)
Definition sample_proxy : TPROXYConfig := NewTPROXYListener sample_tproxy.

Definition sample_flow : flow :=
  mkFlow (mkAP (Addr4 [# x0a; x42; x00; x05]) 8080) (mkAP (Addr4 [# x08; x08; x08; x08]) 53) 7 x00 false.

Definition sample_u1 : udpState :=
  match udp_accept sample_proxy 7 sample_raw (Some [sample_cmsg]) true [x01] udp_init with Ok u => u | _ => udp_init end.

Definition sample_u2 : udpState := udp_write sample_u1.

Lemma sample_u1_accept : udp_accept sample_proxy 7 sample_raw (Some [sample_cmsg]) true [x01] udp_init = Ok sample_u1.
Proof. vm_compute. reflexivity. Qed.

Lemma sample_u1_pumps : start_pumps 7 sample_u1 [] = [PTop 7].
Proof. vm_compute. reflexivity. Qed.

Lemma sample_u1_traffic : carries_now 7 (pending_flow sample_u1) sample_u1 [] = [7].
Proof. vm_compute. reflexivity. Qed.

Lemma sample_u2_flow : flowHeap sample_u2 !! 0%nat = Some sample_flow.
Proof. vm_compute. reflexivity. Qed.

Lemma sample_top : pump_top sample_proxy 7 sample_flow = PReading (7 + 60 * Second).
Proof. vm_compute. reflexivity. Qed.

Definition sample_end : proxyState := mkPS (9 + 60 * Second) sample_u2 [PTop (8 + 60 * Second)].

(** The read returns one unit of time after its deadline, and the pump goes on after another. *)
Lemma sample_proxy_run : rtc (proxy_step sample_proxy 1) (proxy_init 7, []) (sample_end, [7]).
Proof.
  pose proof (ps_accept sample_proxy 1 7 sample_raw (Some [sample_cmsg]) true [x01] udp_init sample_u1 [] [] eq_refl sample_u1_accept) as H1.
  rewrite sample_u1_pumps, sample_u1_traffic in H1. eapply rtc_l; [exact H1|].
  eapply rtc_l; [exact (ps_write sample_proxy 1 7 sample_u1 [PTop 7] [7])|]. fold sample_u2.
  pose proof (ps_top sample_proxy 1 7 0 7 sample_flow sample_u2 [PTop 7] [7] eq_refl sample_u2_flow) as H2.
  rewrite sample_top in H2. eapply rtc_l; [exact H2|]. cbn [insert list_insert].
  eapply rtc_l; [apply (ps_pass sample_proxy 1 7 (8 + 60 * Second)); [by apply Z.leb_le|apply Forall_singleton; by apply Z.leb_le]|].
  eapply rtc_l; [apply (ps_timeout sample_proxy 1 (8 + 60 * Second) 0 (7 + 60 * Second) sample_u2 [PReading (7 + 60 * Second)]);
    [reflexivity|by apply Z.leb_le]|]. cbn [insert list_insert].
  apply rtc_once, ps_pass; [by apply Z.leb_le|apply Forall_singleton; by apply Z.leb_le].
Qed.

Example proxy_flows_witness : pump_top sample_proxy (9 + 60 * Second) sample_flow = PLeaving (9 + 60 * Second).
Proof.
  destruct (proxy_flows sample_tproxy 1 7 sample_end [7] eq_refl ltac:(lia) sample_proxy_run) as (Ht & _).
  destruct (Ht (flow_key (f_src sample_flow) (f_dst sample_flow)) 0%nat ltac:(vm_compute; reflexivity))
    as (f & ph & last & Hf & _ & _ & _ & _ & Hl & _ & Htop).
  cbn [sample_end ps_udp ps_now] in Hf, Htop. rewrite sample_u2_flow in Hf. injection Hf as <-. injection Hl as <-.
  apply Htop. by apply Z.leb_le.
Defined.

(** ** The TCP side *)

(** What [Accept] returns to the accept loop: a connection with its local address, or an
    error, with whether the listener has been stopped and whether the error says so. *)
Inductive tcpAccept : Type := AccConn (local : string) | AccErr (stopped netClosed : bool).

(** The loop: the connections handed to [handleTCP], and whether it returned. *)
Fixpoint tcpAcceptLoop (evs : list tcpAccept) : list string * bool :=
  match evs with
  | [] => ([], false)
  | AccConn local :: evs' => let '(l, ret) := tcpAcceptLoop evs' in (local :: l, ret)
  | AccErr stopped netClosed :: evs' => if stopped || netClosed then ([], true) else tcpAcceptLoop evs'
  end.

(** The loop serves every connection that comes before it is stopped, goes on after any
    other error, and returns once it is stopped. *)
Lemma tcpAcceptLoop_ok evs1 evs2 stopped netClosed :
  Forall (λ e, match e with AccConn _ => True | AccErr s n => s || n = false end) evs1 → stopped || netClosed = true →
  tcpAcceptLoop (evs1 ++ AccErr stopped netClosed :: evs2) =
    (omap (λ e, match e with AccConn l => Some l | _ => None end) evs1, true).
Proof.
  intros H Hs. induction H as [|[local|s n] evs He _ IH]; cbn [app tcpAcceptLoop].
  - by rewrite Hs.
  - by rewrite IH.
  - by rewrite He, IH.
Qed.
