(* ===== verification/GoIO.v ===== *)
(** * Connections, randomness, and the state-and-error monad of the handshake

    A [net.Conn] is what is still to be received on it ([rx]), what has been
    sent on it ([tx]) and how many more bytes it will accept before it breaks
    ([room], [None] when it never does).  A peer that closes, stalls past the
    deadline or is cut off shows as a short [rx]; a broken connection as a small
    [room], and the write that crosses it sends only what fits.  How the kernel
    chunks the stream is not observable through [io.ReadFull].

    [crypto/rand] is a finite supply of bytes [rnd]: a read beyond it is the
    error return of [rand.Read].  [appst] is the state the program's callbacks
    work on (the address pools and the user database). *)

From S2P Require Import Prelude.

Record Conn : Type := mkConn { rx : list byte; tx : list byte; room : option nat }.

(** [io.ReadFull(c, buf)] with [len(buf) = n]; what is there is consumed also
    when it is too short. *)
Definition conn_ReadFull (n : nat) (c : Conn) : option (list byte) * Conn :=
  if (n <=? length (rx c))%nat
  then (Some (take n (rx c)), mkConn (drop n (rx c)) (tx c) (room c))
  else (None, mkConn [] (tx c) (room c)).

(** [c.Write(p)]: true when all of [p] was sent. *)
Definition conn_Write (p : list byte) (c : Conn) : bool * Conn :=
  match room c with
  | None => (true, mkConn (rx c) (tx c ++ p) None)
  | Some r =>
      if (length p <=? r)%nat
      then (true, mkConn (rx c) (tx c ++ p) (Some (r - length p)%nat))
      else (false, mkConn (rx c) (tx c ++ take r p) (Some 0%nat))
  end.

Record World (σ : Type) : Type := mkWorld { conn : Conn; rnd : list byte; appst : σ }.
Arguments mkWorld {σ}. Arguments conn {σ}. Arguments rnd {σ}. Arguments appst {σ}.

(** ** The monad *)

Definition M (S E A : Type) : Type := S → result E A * S.

#[global] Instance M_ret {S E} : MRet (M S E) := λ A a s, (Ok a, s).
#[global] Instance M_bind {S E} : MBind (M S E) := λ A B f m s,
  match m s with
  | (Ok a, s') => f a s'
  | (Err e, s') => (Err e, s')
  | (Panic, s') => (Panic, s')
  end.

Definition throw {S E A} (e : E) : M S E A := λ s, (Err e, s).

(** A pure call that may fail. *)
Definition lift {S E A} (m : result E A) : M S E A := λ s, (m, s).

(** [if err != nil { return ..., f(err) }]: the same call with its error mapped. *)
Definition with_err {S E F A} (f : E → F) (m : M S E A) : M S F A := λ s,
  match m s with
  | (Ok a, s') => (Ok a, s')
  | (Err e, s') => (Err (f e), s')
  | (Panic, s') => (Panic, s')
  end.

Inductive ioError : Type :=
| ERead                      (* EOF, unexpected EOF, deadline exceeded *)
| EWrite
| ERand
| ECipherInit
| EBodyTooLong (n : Z)       (* obfs: body exceeds max *)
| EFramedTooLong (n : Z).    (* obfs: framed body length exceeds max *)

Section io.
Context {σ : Type}.

Definition ReadFull (n : nat) : M (World σ) ioError (list byte) := λ w,
  let '(r, c) := conn_ReadFull n (conn w) in
  (match r with Some bs => Ok bs | None => Err ERead end, mkWorld c (rnd w) (appst w)).

Definition Write (p : list byte) : M (World σ) ioError unit := λ w,
  let '(b, c) := conn_Write p (conn w) in
  (if b then Ok tt else Err EWrite, mkWorld c (rnd w) (appst w)).

Definition rand_Read (n : nat) : M (World σ) ioError (list byte) := λ w,
  if (n <=? length (rnd w))%nat
  then (Ok (take n (rnd w)), mkWorld (conn w) (drop n (rnd w)) (appst w))
  else (Err ERand, mkWorld (conn w) [] (appst w)).

(** ** Equations on the success paths *)

Lemma ReadFull_app n a b w :
  rx (conn w) = a ++ b → length a = n →
  ReadFull n w = (Ok a, mkWorld (mkConn b (tx (conn w)) (room (conn w))) (rnd w) (appst w)).
Proof.
  intros Hrx Hn. unfold ReadFull, conn_ReadFull. rewrite Hrx.
  rewrite (proj2 (Nat.leb_le n _)) by (rewrite length_app; lia).
  by rewrite take_app_length', drop_app_length' by done.
Qed.

Lemma rand_Read_app n a b w :
  rnd w = a ++ b → length a = n → rand_Read n w = (Ok a, mkWorld (conn w) b (appst w)).
Proof.
  intros Hr Hn. unfold rand_Read. rewrite Hr.
  rewrite (proj2 (Nat.leb_le n _)) by (rewrite length_app; lia).
  by rewrite take_app_length', drop_app_length' by done.
Qed.

Lemma Write_None p w :
  room (conn w) = None →
  Write p w = (Ok tt, mkWorld (mkConn (rx (conn w)) (tx (conn w) ++ p) None) (rnd w) (appst w)).
Proof. intros Hr. unfold Write, conn_Write. by rewrite Hr. Qed.

(** A read takes a prefix off the input and touches nothing else. *)
Lemma ReadFull_inv n w r w' :
  ReadFull n w = (r, w') →
  ∃ a, rx (conn w) = a ++ rx (conn w') ∧ tx (conn w') = tx (conn w) ∧
    room (conn w') = room (conn w) ∧ rnd w' = rnd w ∧ appst w' = appst w ∧
    ((length a = n ∧ r = Ok a) ∨ ((length a < n)%nat ∧ r = Err ERead)).
Proof.
  unfold ReadFull, conn_ReadFull. destruct (_ <=? _)%nat eqn:Hn; bool_to_prop; intros [= <- <-].
  - exists (take n (rx (conn w))). cbn. rewrite take_drop, length_take. split_and!; auto.
    left. split; [lia|done].
  - exists (rx (conn w)). cbn. rewrite app_nil_r. split_and!; auto.
Qed.

End io.

Lemma bind_Ok {S E A B} (m : M S E A) (f : A → M S E B) s a s' :
  m s = (Ok a, s') → (m ≫= f) s = f a s'.
Proof. intros H. unfold mbind, M_bind. by rewrite H. Qed.

Lemma bind_Err {S E A B} (m : M S E A) (f : A → M S E B) s e s' :
  m s = (Err e, s') → (m ≫= f) s = (Err e, s').
Proof. intros H. unfold mbind, M_bind. by rewrite H. Qed.

Lemma bind_inv {S E A B} (m : M S E A) (f : A → M S E B) s r s' :
  (m ≫= f) s = (r, s') →
  (∃ a s1, m s = (Ok a, s1) ∧ f a s1 = (r, s')) ∨
  (∃ e, m s = (Err e, s') ∧ r = Err e) ∨ (m s = (Panic, s') ∧ r = Panic).
Proof.
  unfold mbind, M_bind. destruct (m s) as [[a|e|] s1]; [by eauto|..]; intros [= <- <-]; eauto.
Qed.

Lemma with_err_Ok {S E F A} (f : E → F) (m : M S E A) s a s' :
  m s = (Ok a, s') → with_err f m s = (Ok a, s').
Proof. intros H. unfold with_err. by rewrite H. Qed.

(** ** Calls that leave the callbacks' state alone *)

Definition keeps_app {σ E A} (m : M (World σ) E A) : Prop := ∀ w, appst (m w).2 = appst w.

Lemma keeps_ret {σ E A} (a : A) : keeps_app (σ := σ) (E := E) (mret a).
Proof. done. Qed.
Lemma keeps_throw {σ E A} (e : E) : keeps_app (σ := σ) (A := A) (throw e).
Proof. done. Qed.
Lemma keeps_lift {σ E A} (m : result E A) : keeps_app (σ := σ) (lift m).
Proof. done. Qed.
Lemma keeps_bind {σ E A B} (m : M (World σ) E A) (f : A → M (World σ) E B) :
  keeps_app m → (∀ a, keeps_app (f a)) → keeps_app (m ≫= f).
Proof.
  intros Hm Hf w. unfold mbind, M_bind. specialize (Hm w).
  destruct (m w) as [[a|e|] w1]; cbn in *; [by rewrite Hf|done..].
Qed.
Lemma keeps_with_err {σ E F A} (f : E → F) (m : M (World σ) E A) :
  keeps_app m → keeps_app (with_err f m).
Proof. intros Hm w. unfold with_err. specialize (Hm w). by destruct (m w) as [[] ?]. Qed.
Lemma keeps_ReadFull {σ} n : keeps_app (σ := σ) (ReadFull n).
Proof. intros w. unfold ReadFull. by destruct (conn_ReadFull _ _). Qed.
Lemma keeps_Write {σ} p : keeps_app (σ := σ) (Write p).
Proof. intros w. unfold Write. by destruct (conn_Write _ _). Qed.
Lemma keeps_rand_Read {σ} n : keeps_app (σ := σ) (rand_Read n).
Proof. intros w. unfold rand_Read. by destruct (_ <=? _)%nat. Qed.
#[export] Hint Resolve keeps_ret keeps_throw keeps_lift keeps_bind keeps_with_err keeps_ReadFull
  keeps_Write keeps_rand_Read : phose.

(** ** Postconditions *)

Definition wp {S E A} (m : M S E A) (s : S) (Q : result E A → S → Prop) : Prop := Q (m s).1 (m s).2.

Lemma wp_bind {S E A B} (m : M S E A) (f : A → M S E B) s Q :
  wp m s (λ r s1, match r with
                  | Ok a => wp (f a) s1 Q
                  | Err e => Q (Err e) s1
                  | Panic => Q Panic s1
                  end) → wp (m ≫= f) s Q.
Proof. unfold wp, mbind, M_bind. by destruct (m s) as [[] ?]. Qed.

Lemma wp_keeps {σ E A} (m : M (World σ) E A) w Q :
  keeps_app m → (∀ r w1, appst w1 = appst w → Q r w1) → wp m w Q.
Proof. intros Hm HQ. apply HQ, Hm. Qed.

(** A call whose errors all have the form [f e]. *)
Lemma wp_keeps_err {σ E F A} (f : E → F) (m : M (World σ) E A) w Q :
  keeps_app m →
  (∀ r w1, appst w1 = appst w → (∀ x, r = Err x → ∃ e, x = f e) → Q r w1) →
  wp (with_err f m) w Q.
Proof.
  intros Hm HQ. specialize (Hm w). unfold wp, with_err.
  destruct (m w) as [[a|e|] w1]; cbn in *; apply HQ; try done; intros x [= <-]; eauto.
Qed.

Lemma wp_any {S E A} (m : M S E A) s (Q : result E A → S → Prop) : (∀ r s1, Q r s1) → wp m s Q.
Proof. intros HQ. apply HQ. Qed.
