(* ===== verification/Obfs.v ===== *)
(** * obfs.go: the handshake obfuscation envelope

    [writeObfMsg] and [readObfMsg] in the monad of [GoIO].  HKDF and ChaCha20
    (golang.org/x/crypto) are the class [ObfsCrypto]: HKDF yields as many bytes
    as asked for up to its documented limit, and a ChaCha20 cipher is a keystream
    with a position, since consecutive [XORKeyStream] calls continue it. *)

From S2P Require Import Prelude GoIO.

Definition obfsSaltLen : nat := 16.
Definition obfsMaxBody : Z := 4096.
Definition obfsInfo : string := "packethose-obfs-v7".

Class ObfsCrypto : Type := {
  (* the first [n] bytes of hkdf.New(sha256.New, secret, salt, info) *)
  hkdf : list byte → list byte → list byte → nat → list byte;
  (* the keystream of chacha20.NewUnauthenticatedCipher(key, nonce) *)
  chacha20 : list byte → list byte → nat → byte;
  hkdf_length secret salt info n : (n <= 255 * 32)%nat → length (hkdf secret salt info n) = n
}.

Definition bxor (a b : byte) : byte := z2b (Z.lxor (b2z a) (b2z b)).

(** A [*chacha20.Cipher]: its keystream and how much of it is spent. *)
Record Cipher20 : Type := mkCipher20 { stream : nat → byte; pos : nat }.

Definition XORKeyStream (ciph : Cipher20) (src : list byte) : list byte * Cipher20 :=
  (imap (λ i b, bxor b (stream ciph (pos ciph + i))) src,
   mkCipher20 (stream ciph) (pos ciph + length src)).

Section obfs.
Context `{ObfsCrypto} {σ : Type}.

Definition obfsKeyFromServerPub (serverPub : list byte) : list byte :=
  hkdf serverPub [] (bytes_of (obfsInfo ++ "-key")) 32.

(** chacha20.KeySize = 32, chacha20.NonceSize = 12; the constructor refuses other
    lengths. *)
Definition obfsCipher (key salt : list byte) : result ioError Cipher20 :=
  let kn := hkdf key salt (bytes_of obfsInfo) (32 + 12) in
  if (length kn =? 32 + 12)%nat
  then Ok (mkCipher20 (chacha20 (take 32 kn) (drop 32 kn)) 0) else Err ECipherInit.

Definition writeObfMsg (key body : list byte) : M (World σ) ioError unit :=
  if obfsMaxBody <? Z.of_nat (length body) then throw (EBodyTooLong (Z.of_nat (length body)))
  else
    salt ← rand_Read obfsSaltLen;
    ciph ← lift (obfsCipher key salt);
    padByte ← rand_Read 1;
    let padLen := b2z (default x00 (padByte !! 0%nat)) in
    pad ← (if 0 <? padLen then rand_Read (Z.to_nat padLen) else mret []);
    let inner := be16 (Z.of_nat (length body)) ++ be16 padLen ++ body ++ pad in
    Write (salt ++ (XORKeyStream ciph inner).1).

Definition readObfMsg (key : list byte) : M (World σ) ioError (list byte) :=
  salt ← ReadFull obfsSaltLen;
  ciph ← lift (obfsCipher key salt);
  hdr ← ReadFull 4;
  let '(hdr, ciph) := XORKeyStream ciph hdr in
  let byte_at i := default x00 (hdr !! i) in
  let bodyLen := u16 (byte_at 0%nat) (byte_at 1%nat) in
  let padLen := u16 (byte_at 2%nat) (byte_at 3%nat) in
  if obfsMaxBody <? bodyLen then throw (EFramedTooLong bodyLen)
  else
    buf ← ReadFull (Z.to_nat (bodyLen + padLen));
    let '(buf, _) := XORKeyStream ciph buf in
    mret (take (Z.to_nat bodyLen) buf).

(** ** The keystream *)

Lemma bxor_involutive a b : bxor (bxor a b) b = a.
Proof.
  unfold bxor. apply (inj b2z). rewrite !b2z_z2b. change 256 with (2 ^ 8).
  apply Z.bits_inj'. intros n Hn. destruct (Z.lt_ge_cases n 8).
  - rewrite Z.mod_pow2_bits_low, Z.lxor_spec, Z.mod_pow2_bits_low, Z.lxor_spec by lia.
    by destruct (Z.testbit (b2z a) n), (Z.testbit (b2z b) n).
  - rewrite <-(Z.mod_small (b2z a) (2 ^ 8)) at 2 by apply b2z_range.
    by rewrite !Z.mod_pow2_bits_high by lia.
Qed.

Lemma length_XOR ciph l : length (XORKeyStream ciph l).1 = length l.
Proof. cbn. by rewrite length_imap. Qed.

Lemma XOR_state ciph l k :
  length l = length k → (XORKeyStream ciph l).2 = (XORKeyStream ciph k).2.
Proof. intros Hl. cbn. by rewrite Hl. Qed.

Lemma XOR_app ciph l k :
  (XORKeyStream ciph (l ++ k)).1 =
  (XORKeyStream ciph l).1 ++ (XORKeyStream (XORKeyStream ciph l).2 k).1.
Proof.
  cbn. rewrite imap_app. f_equal. apply imap_ext. intros i b _. cbn. do 2 f_equal. lia.
Qed.

(** Deciphering with the cipher in the same state restores the plaintext. *)
Lemma XOR_involutive ciph l : (XORKeyStream ciph (XORKeyStream ciph l).1).1 = l.
Proof.
  cbn. apply list_eq. intros i. rewrite !list_lookup_imap.
  destruct (l !! i); cbn; [|done]. by rewrite bxor_involutive.
Qed.

(** ** The wire format *)

Lemma obfsCipher_Ok key salt : ∃ ciph, obfsCipher key salt = Ok ciph.
Proof. unfold obfsCipher. rewrite hkdf_length by lia. eauto. Qed.

(** salt || ChaCha20(u16 bodyLen || u16 padLen || body || pad) *)
Definition envelope (key salt body pad : list byte) : list byte :=
  match obfsCipher key salt with
  | Ok ciph =>
      salt ++ (XORKeyStream ciph (be16 (Z.of_nat (length body)) ++
                                  be16 (Z.of_nat (length pad)) ++ body ++ pad)).1
  | _ => []
  end.

Lemma length_envelope key salt body pad :
  length (envelope key salt body pad) = (length salt + 4 + length body + length pad)%nat.
Proof.
  unfold envelope. destruct (obfsCipher_Ok key salt) as [ciph ->].
  rewrite length_app, length_XOR, !length_app. cbn. lia.
Qed.

Lemma writeObfMsg_envelope key body w salt pb pad rest :
  (length body <= 4096)%nat → room (conn w) = None →
  rnd w = salt ++ pb :: pad ++ rest → length salt = obfsSaltLen → length pad = Z.to_nat (b2z pb) →
  writeObfMsg key body w =
  (Ok tt, mkWorld (mkConn (rx (conn w)) (tx (conn w) ++ envelope key salt body pad) None) rest (appst w)).
Proof.
  intros Hb Hroom Hrnd Hsalt Hpad. unfold writeObfMsg, obfsMaxBody.
  destruct (4096 <? Z.of_nat (length body)) eqn:Hx; bool_to_prop; [lia|].
  rewrite (bind_Ok _ _ _ _ _ (rand_Read_app _ _ _ _ Hrnd Hsalt)).
  unfold envelope. destruct (obfsCipher_Ok key salt) as [ciph Hc]. rewrite Hc.
  rewrite (bind_Ok _ _ _ ciph (mkWorld (conn w) (pb :: pad ++ rest) (appst w))) by done.
  erewrite (bind_Ok (rand_Read 1) _ _ [pb]) by (by apply (rand_Read_app 1 [pb] (pad ++ rest))).
  change (default x00 ([pb] !! 0%nat)) with pb. cbn [conn appst].
  pose proof (b2z_range pb).
  erewrite (bind_Ok _ _ _ pad (mkWorld (conn w) rest (appst w))).
  - rewrite Write_None by done. cbn [conn rx tx rnd appst].
    by replace (Z.of_nat (length pad)) with (b2z pb) by lia.
  - destruct (0 <? b2z pb) eqn:Hz; bool_to_prop.
    + rewrite (rand_Read_app _ pad rest); done.
    + assert (length pad = 0%nat) as ->%nil_length_inv by lia. done.
Qed.

Lemma readObfMsg_envelope key body w salt pad rest :
  (length body <= 4096)%nat → Z.of_nat (length pad) < 65536 → length salt = obfsSaltLen →
  rx (conn w) = envelope key salt body pad ++ rest →
  readObfMsg key w =
  (Ok body, mkWorld (mkConn rest (tx (conn w)) (room (conn w))) (rnd w) (appst w)).
Proof.
  intros Hb Hpad Hsalt. unfold envelope, readObfMsg.
  destruct (obfsCipher_Ok key salt) as [ciph Hc]. rewrite Hc, <-app_assoc. intros Hrx.
  rewrite (bind_Ok _ _ _ _ _ (ReadFull_app _ _ _ _ Hrx Hsalt)).
  rewrite Hc. erewrite (bind_Ok (lift (Ok ciph)) _ _ ciph) by reflexivity.
  set (hdr := be16 (Z.of_nat (length body)) ++ be16 (Z.of_nat (length pad))).
  rewrite (app_assoc (be16 _) (be16 _)). fold hdr. rewrite XOR_app, <-app_assoc.
  erewrite bind_Ok by (apply ReadFull_app; [reflexivity|by rewrite length_XOR]).
  pose proof (XOR_involutive ciph hdr) as Hinv.
  destruct (XORKeyStream ciph (XORKeyStream ciph hdr).1) as [hdr' ciph'] eqn:E.
  assert (ciph' = (XORKeyStream ciph hdr).2) as ->.
  { change ciph' with ((hdr', ciph').2). rewrite <-E. apply XOR_state, length_XOR. }
  cbn [fst] in Hinv. subst hdr'.
  change (default x00 (hdr !! 0%nat)) with (z2b (Z.shiftr (wrap 16 (Z.of_nat (length body))) 8)).
  change (default x00 (hdr !! 1%nat)) with (z2b (wrap 16 (Z.of_nat (length body)))).
  change (default x00 (hdr !! 2%nat)) with (z2b (Z.shiftr (wrap 16 (Z.of_nat (length pad))) 8)).
  change (default x00 (hdr !! 3%nat)) with (z2b (wrap 16 (Z.of_nat (length pad)))).
  rewrite !u16_be16, !wrap_small by lia. unfold obfsMaxBody.
  destruct (4096 <? Z.of_nat (length body)) eqn:Hx; bool_to_prop; [lia|].
  erewrite bind_Ok by (apply ReadFull_app; [reflexivity|rewrite length_XOR, length_app; lia]).
  set (ciph2 := (XORKeyStream ciph hdr).2).
  pose proof (XOR_involutive ciph2 (body ++ pad)) as Hinv.
  destruct (XORKeyStream ciph2 (XORKeyStream ciph2 (body ++ pad)).1) as [buf ?].
  cbn [fst] in Hinv. subst buf. unfold mret, M_ret. by rewrite Nat2Z.id, take_app_length.
Qed.

Lemma keeps_readObfMsg key : keeps_app (readObfMsg key).
Proof.
  unfold readObfMsg. apply keeps_bind; [auto with phose|]. intros salt.
  apply keeps_bind; [auto with phose|]. intros ciph. apply keeps_bind; [auto with phose|]. intros hdr.
  destruct (XORKeyStream ciph hdr). destruct (_ <? _); [auto with phose|].
  apply keeps_bind; [auto with phose|]. intros buf. destruct (XORKeyStream _ buf). auto with phose.
Qed.

Lemma keeps_writeObfMsg key body : keeps_app (writeObfMsg key body).
Proof.
  unfold writeObfMsg. destruct (_ <? _); [auto with phose|].
  repeat (apply keeps_bind; [auto with phose|intros ?]); [destruct (_ <? _); auto with phose|auto with phose].
Qed.

(** Enough entropy splits into what one [writeObfMsg] draws. *)
Lemma rnd_split (r : list byte) :
  (16 + 1 + 255 <= length r)%nat →
  ∃ salt pb pad rest, r = salt ++ pb :: pad ++ rest ∧ length salt = obfsSaltLen ∧
    length pad = Z.to_nat (b2z pb).
Proof.
  intros Hr. destruct (lookup_lt_is_Some_2 r 16) as [pb Hpb]; [lia|].
  pose proof (b2z_range pb).
  exists (take 16 r), pb, (take (Z.to_nat (b2z pb)) (drop 17 r)), (drop (Z.to_nat (b2z pb)) (drop 17 r)).
  rewrite take_drop, take_drop_middle by done. split; [done|].
  unfold obfsSaltLen. rewrite !length_take, length_drop. lia.
Qed.

(** C17: A handshake message survives the envelope: on a connection that does
    not break and with entropy available, [writeObfMsg] sends one envelope of at
    most 255 padding bytes for any body of up to 4096 bytes, and [readObfMsg] with
    the same key returns that body and leaves the rest of the stream unread,
    whatever the salt and the padding were. *)
Theorem obfs_roundtrip key body w :
  (length body <= 4096)%nat → room (conn w) = None → (16 + 1 + 255 <= length (rnd w))%nat →
  ∃ msg rnd', writeObfMsg key body w =
      (Ok tt, mkWorld (mkConn (rx (conn w)) (tx (conn w) ++ msg) None) rnd' (appst w)) ∧
    (20 + length body <= length msg <= 20 + length body + 255)%nat ∧
    ∀ (w2 : World σ) rest, rx (conn w2) = msg ++ rest →
      readObfMsg key w2 =
      (Ok body, mkWorld (mkConn rest (tx (conn w2)) (room (conn w2))) (rnd w2) (appst w2)).
Proof.
  intros Hb Hroom Hlen.
  destruct (rnd_split (rnd w) Hlen) as (salt & pb & pad & rest & Hrnd & Hsalt & Hpad).
  pose proof (b2z_range pb).
  exists (envelope key salt body pad), rest. split_and!.
  - by eapply writeObfMsg_envelope.
  - rewrite length_envelope, Hsalt. unfold obfsSaltLen. lia.
  - rewrite length_envelope, Hsalt. unfold obfsSaltLen. lia.
  - intros w2 rest2 Hrx. by eapply readObfMsg_envelope; [..|exact Hrx]; [|lia|].
Qed.

(** On any input at all, [readObfMsg] returns a body of at most 4096 bytes
    or an error, never panics, takes at most 20 + 4096 + 65535 bytes off the
    stream, only 20 when the framed length is refused, and sends nothing. *)
Theorem readObfMsg_bounded key w :
  let '(r, w') := readObfMsg key w in
  ∃ a, rx (conn w) = a ++ rx (conn w') ∧ Z.of_nat (length a) <= 20 + 4096 + 65535 ∧
    tx (conn w') = tx (conn w) ∧ rnd w' = rnd w ∧ appst w' = appst w ∧
    match r with
    | Ok body => (length body <= 4096)%nat ∧ (20 + length body <= length a)%nat
    | Err (EFramedTooLong n) => 4096 < n ∧ length a = 20%nat
    | Err e => e = ERead
    | Panic => False
    end.
Proof.
  destruct (readObfMsg key w) as [r w'] eqn:Hr. unfold readObfMsg in Hr.
  apply bind_inv in Hr as [(salt & w1 & H1 & Hr)|[(e & H1 & ->)|(H1 & ->)]];
    apply ReadFull_inv in H1 as (a1 & Ha1 & Ht1 & _ & Hn1 & Hp1 & [[Hl1 E1]|[Hl1 E1]]);
    try discriminate E1; [injection E1 as ->|injection E1 as ->; exists a1; unfold obfsSaltLen in Hl1; split_and!; done || lia].
  destruct (obfsCipher_Ok key a1) as [ciph Hc]. rewrite Hc in Hr.
  erewrite (bind_Ok (lift (Ok ciph))) in Hr by reflexivity.
  apply bind_inv in Hr as [(hdr & w2 & H2 & Hr)|[(e & H2 & ->)|(H2 & ->)]];
    apply ReadFull_inv in H2 as (a2 & Ha2 & Ht2 & _ & Hn2 & Hp2 & [[Hl2 E2]|[Hl2 E2]]);
    try discriminate E2; [injection E2 as ->|injection E2 as ->; exists (a1 ++ a2);
      rewrite <-app_assoc, <-Ha2, length_app; unfold obfsSaltLen in *; split_and!; done || congruence || lia].
  destruct (XORKeyStream ciph a2) as [h ciph'].
  set (bl := u16 (default x00 (h !! 0%nat)) _) in Hr. set (pl := u16 (default x00 (h !! 2%nat)) _) in Hr.
  pose proof (u16_range (default x00 (h !! 0%nat)) (default x00 (h !! 1%nat))) as Rb. fold bl in Rb.
  pose proof (u16_range (default x00 (h !! 2%nat)) (default x00 (h !! 3%nat))) as Rp. fold pl in Rp.
  unfold obfsMaxBody, obfsSaltLen in *.
  destruct (4096 <? bl) eqn:Hx; bool_to_prop.
  { injection Hr as <- <-. exists (a1 ++ a2). rewrite <-app_assoc, <-Ha2, length_app.
    split_and!; done || congruence || lia. }
  apply bind_inv in Hr as [(buf & w3 & H3 & Hr)|[(e & H3 & ->)|(H3 & ->)]];
    apply ReadFull_inv in H3 as (a3 & Ha3 & Ht3 & _ & Hn3 & Hp3 & [[Hl3 E3]|[Hl3 E3]]);
    try discriminate E3; injection E3 as ->; exists (a1 ++ a2 ++ a3);
    rewrite <-!app_assoc.
  - pose proof (length_XOR ciph' a3) as Hl. destruct (XORKeyStream ciph' a3) as [buf ?].
    injection Hr as <- <-. cbn in Hl. rewrite <-Ha3, <-Ha2, !length_app, length_take.
    split_and!; done || congruence || lia.
  - rewrite <-Ha3, <-Ha2, !length_app. split_and!; done || congruence || lia.
Qed.

End obfs.

(** ** Witness: a toy key schedule and keystream *)

#[local] Program Instance demo_obfs : ObfsCrypto := {
  hkdf secret salt info n := take n (secret ++ salt ++ info ++ replicate n x5a);
  chacha20 key nonce i := bxor (default x00 (key !! (i mod 32)%nat)) (z2b (Z.of_nat i))
}.
Next Obligation. intros. cbn beta. rewrite length_take, !length_app, length_replicate. lia. Qed.

Definition demo_world : World unit := mkWorld (mkConn [] [] None) (replicate 272 x03) tt.

Lemma obfs_roundtrip_witness :
  room (conn demo_world) = None ∧
  ∃ msg rnd', writeObfMsg [x01; x02] [x68; x69] demo_world =
    (Ok tt, mkWorld (mkConn [] msg None) rnd' tt) ∧
  readObfMsg [x01; x02] (mkWorld (mkConn (msg ++ [xff]) [] None) [] tt) =
    (Ok [x68; x69], mkWorld (mkConn [xff] [] None) [] tt).
Proof.
  split; [reflexivity|].
  destruct (obfs_roundtrip [x01; x02] [x68; x69] demo_world) as (msg & rnd' & Hw & _ & Hr);
    [cbn; lia|reflexivity|vm_compute; lia|].
  exists msg, rnd'. split; [exact Hw|]. exact (Hr (mkWorld (mkConn (msg ++ [xff]) [] None) [] tt) [xff] eq_refl).
Defined.
