(* ===== verification/LaneCrypto.v ===== *)
(** * lane_crypto.go: per-direction frame ciphers

    [AEAD] is Go's interface [cipher.AEAD] (additional data is always nil here).
    Its implementations, AES-GCM and ChaCha20-Poly1305, are the class [AEADs]: two
    constructors by key, what key lengths they accept, and the round trip and
    length laws of the interface.  [frameAEAD] is the program's own: a 64-bit
    counter, wrapping, rendered little-endian into the first eight bytes of the
    nonce. *)

From S2P Require Import Prelude Config Sha256 IPPool.

Record AEAD : Type := mkAEAD {
  Seal : list byte → list byte → list byte;              (* nonce, plaintext *)
  Open : list byte → list byte → option (list byte);     (* nonce, ciphertext *)
  Overhead : nat
}.

(** What [cipher.AEAD] documents. *)
Record aead_ok (a : AEAD) : Prop := {
  open_seal n p : length n = 12%nat → Open a n (Seal a n p) = Some p;
  length_seal n p : length (Seal a n p) = (length p + Overhead a)%nat
}.

Definition aeadOverhead : nat := 16.

Class AEADs : Type := {
  newGCM : list byte → option AEAD;                      (* aes.NewCipher, cipher.NewGCM *)
  newChaCha20Poly1305 : list byte → option AEAD;
  newGCM_Some key : is_Some (newGCM key) ↔ length key ∈ [16; 24; 32]%nat;
  newChaCha_Some key : is_Some (newChaCha20Poly1305 key) ↔ length key = 32%nat;
  newGCM_ok key a : newGCM key = Some a → aead_ok a ∧ Overhead a = aeadOverhead;
  newChaCha_ok key a : newChaCha20Poly1305 key = Some a → aead_ok a ∧ Overhead a = aeadOverhead
}.

Definition keyLen (c : Cipher) : nat :=
  if bool_decide (c = CipherAESGCM) then 16
  else if bool_decide (c = CipherAES256GCM) then 32
  else if bool_decide (c = CipherChaCha) then 32
  else 0.

Record laneKeys : Type := mkKeys {
  encrypted : bool;
  kind : Cipher;
  k_tx : list byte;
  k_rx : list byte
}.

Record frameAEAD : Type := mkFrame { aead : AEAD; counter : Z; nonce : list byte }.

(** [binary.LittleEndian.PutUint64(f.nonce[:8], f.counter)] *)
Definition put_counter (f : frameAEAD) : list byte := le_bytes 8 (counter f) ++ drop 8 (nonce f).

Definition bump (f : frameAEAD) : frameAEAD :=
  mkFrame (aead f) (wrap 64 (counter f + 1)) (put_counter f).

Definition seal (f : frameAEAD) (plaintext : list byte) : list byte * frameAEAD :=
  let f' := bump f in (Seal (aead f') (nonce f') plaintext, f').

Definition open (f : frameAEAD) (ciphertext : list byte) : option (list byte) * frameAEAD :=
  let f' := bump f in (Open (aead f') (nonce f') ciphertext, f').

Definition overhead (f : frameAEAD) : nat := Overhead (aead f).

Section aeads.
Context `{AEADs}.

Definition newAEAD (c : Cipher) (key : list byte) : option AEAD :=
  if bool_decide (c = CipherAESGCM) || bool_decide (c = CipherAES256GCM) then newGCM key
  else if bool_decide (c = CipherChaCha) then newChaCha20Poly1305 key
  else None.                                             (* no cipher *)

Definition newFrameAEAD (c : Cipher) (key : list byte) : option frameAEAD :=
  match newAEAD c key with
  | Some a => Some (mkFrame a 0 (zeros 12))
  | None => None
  end.

(** A key of the cipher's own length always initialises the data path, except
    for the zero cipher, which has no data path. *)
Lemma newFrameAEAD_Some c key :
  length key = keyLen c → c ∈ [CipherAESGCM; CipherChaCha; CipherAES256GCM] →
  ∃ a, newFrameAEAD c key = Some (mkFrame a 0 (zeros 12)) ∧ aead_ok a ∧ Overhead a = aeadOverhead.
Proof.
  intros Hl Hc. unfold newFrameAEAD, newAEAD.
  rewrite !elem_of_cons in Hc. destruct Hc as [-> | [-> | [-> | []%not_elem_of_nil]]]; cbn in *.
  1: destruct (newGCM key) as [a|] eqn:E; [|apply eq_None_not_Some in E; destruct E; apply newGCM_Some; set_solver].
  2: destruct (newChaCha20Poly1305 key) as [a|] eqn:E;
    [|apply eq_None_not_Some in E; destruct E; by apply newChaCha_Some].
  3: destruct (newGCM key) as [a|] eqn:E; [|apply eq_None_not_Some in E; destruct E; apply newGCM_Some; set_solver].
  1,3: exists a; split; [done|by apply newGCM_ok in E].
  exists a; split; [done|by apply newChaCha_ok in E].
Qed.

End aeads.

(** [deriveClientID]: the first sixteen bytes of SHA-256 of the static key. *)
Definition deriveClientID (pub : list byte) : clientID :=
  array_of clientIDLen (take clientIDLen (sha256 pub)).

(** The Noise protocol name of the suite [noiseSuite] selects. *)
Definition noiseProtoName (c : Cipher) : string :=
  if bool_decide (c = CipherChaCha) then "Noise_IK_25519_ChaChaPoly_SHA256"
  else "Noise_IK_25519_AESGCM_SHA256".

(** ** Lockstep *)

Definition frame_wf (f : frameAEAD) : Prop :=
  length (nonce f) = 12%nat ∧ drop 8 (nonce f) = zeros 4 ∧ 0 <= counter f < 2 ^ 64.

Lemma length_put_counter f : length (nonce f) = 12%nat → length (put_counter f) = 12%nat.
Proof. intros Hl. unfold put_counter. rewrite length_app, length_le_bytes, length_drop. lia. Qed.

Lemma bump_wf f : frame_wf f → frame_wf (bump f).
Proof.
  intros (Hl & Hz & Hc). unfold frame_wf, bump. cbn [nonce counter]. split_and!.
  - by apply length_put_counter.
  - unfold put_counter. by rewrite drop_app_length' by (by rewrite length_le_bytes).
  - apply wrap_range. lia.
  - apply wrap_range. lia.
Qed.

Lemma open_seal_lockstep f p :
  aead_ok (aead f) → length (nonce f) = 12%nat → open f (seal f p).1 = (Some p, (seal f p).2).
Proof.
  intros Ha Hl. unfold open, seal, bump. cbn [aead nonce fst snd].
  rewrite (open_seal _ Ha); [done|]. by apply length_put_counter.
Qed.

(** The nonce of frame [i], counted from the cipher's state: the counter in little
    endian, then four zeros. *)
Definition frame_nonce (f : frameAEAD) (i : nat) : list byte := le_bytes 8 (wrap 64 (counter f + Z.of_nat i)) ++ zeros 4.

(** Frames sealed one after the other. *)
Fixpoint seal_all (f : frameAEAD) (ps : list (list byte)) : list (list byte) * frameAEAD :=
  match ps with
  | [] => ([], f)
  | p :: ps => let '(ct, f') := seal f p in let '(cts, f'') := seal_all f' ps in (ct :: cts, f'')
  end.

Lemma length_frame_nonce f i : length (frame_nonce f i) = 12%nat.
Proof. unfold frame_nonce. by rewrite length_app, length_le_bytes. Qed.

Lemma put_counter_nonce f : frame_wf f → put_counter f = frame_nonce f 0.
Proof.
  intros (_ & Hz & Hc). unfold put_counter, frame_nonce. rewrite Hz, Z.add_0_r. by rewrite wrap_small.
Qed.

Lemma frame_nonce_bump f i : frame_nonce (bump f) i = frame_nonce f (S i).
Proof.
  unfold frame_nonce, bump. cbn [counter]. do 2 f_equal. unfold wrap. rewrite Zplus_mod_idemp_l. f_equal. lia.
Qed.

(** What the two operations hand to the AEAD, and the state they leave. *)
Lemma seal_frame f p : frame_wf f → seal f p = (Seal (aead f) (frame_nonce f 0) p, bump f).
Proof. intros Hf. unfold seal. cbn [bump aead nonce]. by rewrite put_counter_nonce. Qed.

Lemma open_frame f ct : frame_wf f → open f ct = (Open (aead f) (frame_nonce f 0) ct, bump f).
Proof. intros Hf. unfold open. cbn [bump aead nonce]. by rewrite put_counter_nonce. Qed.

Lemma seal_all_frames f ps : frame_wf f →
  (seal_all f ps).1 = imap (λ i p, Seal (aead f) (frame_nonce f i) p) ps.
Proof.
  revert f. induction ps as [|p ps IH]; intros f Hf; [done|]. cbn [seal_all]. rewrite seal_frame by done.
  specialize (IH (bump f) (bump_wf f Hf)). destruct (seal_all (bump f) ps) as [cts f']. cbn [fst] in *. rewrite IH, imap_cons.
  f_equal. apply imap_ext. intros i q _. unfold compose. by rewrite frame_nonce_bump.
Qed.

Lemma frame_nonce_inj f i j : frame_wf f → Z.of_nat i < 2 ^ 64 → Z.of_nat j < 2 ^ 64 →
  frame_nonce f i = frame_nonce f j → i = j.
Proof.
  intros (_ & _ & Hc) Hi Hj [Heq _]%app_inj_1; [|by rewrite !length_le_bytes].
  apply le_bytes_inj in Heq; [|by apply wrap_range..]. unfold wrap in Heq.
  assert ((counter f + Z.of_nat i) mod 2 ^ 64 - (counter f + Z.of_nat j) mod 2 ^ 64 = 0) as H0 by lia.
  pose proof (Z.div_mod (counter f + Z.of_nat i) (2 ^ 64)).
  pose proof (Z.div_mod (counter f + Z.of_nat j) (2 ^ 64)). nia.
Qed.

(** C27: No nonce is used twice.  Sealing any sequence of plaintexts with one cipher hands
    the [i]-th of them to the AEAD under the [i]-th nonce from the cipher's counter on; of
    the first 2^64 of these nonces no two are equal, wherever the counter starts, and nonce
    2^64 is the first one again. *)
Theorem nonces_distinct f ps :
  frame_wf f →
  (seal_all f ps).1 = imap (λ i p, Seal (aead f) (frame_nonce f i) p) ps ∧
  (∀ i j, Z.of_nat i < 2 ^ 64 → Z.of_nat j < 2 ^ 64 → frame_nonce f i = frame_nonce f j ↔ i = j) ∧
  (∀ k, Z.of_nat k = 2 ^ 64 → frame_nonce f k = frame_nonce f 0).
Proof.
  intros Hf. split_and!; [by apply seal_all_frames|intros i j Hi Hj; split; [by apply frame_nonce_inj|by intros ->]|].
  intros k Hk. unfold frame_nonce. do 2 f_equal. rewrite Hk. unfold wrap.
  rewrite Z.add_0_r. rewrite <-(Z.mul_1_l (2 ^ 64)) at 1. by rewrite Z.mod_add.
Qed.

(** ** A toy instance of the AEAD interface: the tag is a copy of the nonce and
    four zeros, so that opening checks it. *)
Definition toy_aead (key : list byte) : AEAD := {|
  Seal n p := p ++ array_of 16 n;
  Open n c := if bool_decide (drop (length c - 16) c = vec_to_list (array_of 16 n)) && (16 <=? length c)%nat
              then Some (take (length c - 16) c) else None;
  Overhead := 16
|}.

Lemma toy_aead_ok key : aead_ok (toy_aead key).
Proof.
  split; cbn [Seal Open Overhead toy_aead].
  - intros n p _. rewrite !length_app, length_vec_to_list. replace (length p + 16 - 16)%nat with (length p) by lia.
    rewrite drop_app_length, take_app_length, bool_decide_eq_true_2 by done.
    by rewrite (proj2 (Nat.leb_le _ _)) by lia.
  - intros n p. by rewrite length_app, length_vec_to_list.
Qed.

#[local] Program Instance toy_aeads : AEADs := {
  newGCM key := if bool_decide (length key ∈ [16; 24; 32]%nat) then Some (toy_aead key) else None;
  newChaCha20Poly1305 key := if bool_decide (length key = 32%nat) then Some (toy_aead key) else None
}.
Next Obligation. intros key. cbn beta. case_bool_decide; split; try done; by intros [? [=]]. Qed.
Next Obligation. intros key. cbn beta. case_bool_decide; split; try done; by intros [? [=]]. Qed.
Next Obligation. intros key a. cbn beta. case_bool_decide; [|done]. intros [= <-]. split; [apply toy_aead_ok|done]. Qed.
Next Obligation. intros key a. cbn beta. case_bool_decide; [|done]. intros [= <-]. split; [apply toy_aead_ok|done]. Qed.

(** Two frames of the same plaintext are sealed under different nonces. *)
Lemma nonces_distinct_witness :
  let f := mkFrame (toy_aead []) 7 (zeros 12) in
  (seal_all f [[x45]; [x45]]).1 = [[x45] ++ array_of 16 (frame_nonce f 0); [x45] ++ array_of 16 (frame_nonce f 1)] ∧
  frame_nonce f 0 ≠ frame_nonce f 1.
Proof.
  assert (frame_wf (mkFrame (toy_aead []) 7 (zeros 12))) as Hf by (split_and!; reflexivity || (cbn; lia)).
  destruct (nonces_distinct _ [[x45]; [x45]] Hf) as (Hs & Hd & _). cbn beta zeta.
  split; [rewrite Hs; reflexivity|]. intros E. apply Hd in E; [discriminate E|lia|lia].
Defined.
