(* ===== verification/Lane.v ===== *)
(** * lane.go: the data path of one lane

    A lane copies packets from a TUN queue to the outer connection and back.  Each
    direction is a loop; here it runs over the results its blocking reads return:
    the packets (or bursts) read from the TUN with interruptions and errors among
    them, and the byte stream of the connection.  Writes to the connection go
    through [conn_Write], which may break part way; writes to the TUN follow a
    list of outcomes ([WNil] when the list is used up).

    Sending:   [tunToSock], [tunToSockBatch] (one frame per burst, [batch_loop]).
    Receiving: [sockToTun] iterates [sockToTun_iter]; its fuel is the length of
    the input, enough because every iteration that continues consumes a header. *)

From S2P Require Import Prelude GoIO Config LaneCrypto.

#[local] Abbreviation zlen l := (Z.of_nat (length l)).

Definition maxPkt : Z := 65535.
Definition aeadMax : Z := 32.
Definition hdrLen : Z := 3.
Definition frTypeSingle : byte := x00.
Definition frTypeBatch : byte := x01.
Definition maxBatch : Z := 32.
Definition maxFrame : Z := 60000.
Definition virtioNetHdrLen : Z := 10.

(** How a direction of the lane stands after the reads it was given. *)
Inductive txEnd : Type := TxRunning | TxStopped | TxPanic.

(** ** TUN to socket *)

Inductive tunRead : Type := RPkt (p : list byte) | RIntr | RErr.
Inductive batchRead : Type := BPkts (ps : list (list byte)) | BIntr | BErr.

Definition seal_opt (s : option frameAEAD) (payload : list byte) : list byte * option frameAEAD :=
  match s with
  | None => (payload, None)
  | Some f => let '(ct, f') := seal f payload in (ct, Some f')
  end.

(** The closure [flush]: one frame [type || len || payload] in one write.  The wire
    buffer has room for [hdrLen+maxPkt+aeadMax] bytes; slicing beyond it panics. *)
Definition flush (typ : byte) (payload : list byte) (s : option frameAEAD) (c : Conn)
    : txEnd * option frameAEAD * Conn :=
  let '(ct, s') := seal_opt s payload in
  if hdrLen + maxPkt + aeadMax <? hdrLen + zlen ct then (TxPanic, s', c)
  else
    let '(sent, c') := conn_Write (typ :: be16 (zlen ct) ++ ct) c in
    (if sent then TxRunning else TxStopped, s', c').

(** The read-one-send-one loop (a [PacketIO] that is not a [batchReader]). *)
Fixpoint tunToSock_loop (minRead : Z) (reads : list tunRead) (s : option frameAEAD) (c : Conn)
    : txEnd * option frameAEAD * Conn :=
  match reads with
  | [] => (TxRunning, s, c)
  | RIntr :: reads' => tunToSock_loop minRead reads' s c
  | RErr :: _ => (TxStopped, s, c)
  | RPkt p :: reads' =>
      if zlen p <? minRead then tunToSock_loop minRead reads' s c
      else match flush frTypeSingle p s c with
           | (TxRunning, s', c') => tunToSock_loop minRead reads' s' c'
           | stop => stop
           end
  end.

(** The coalescing loop over one burst; [plain] is the frame being built. *)
Fixpoint batch_loop (minRead : Z) (ps : list (list byte)) (plain : list byte)
    (s : option frameAEAD) (c : Conn) : txEnd * option frameAEAD * Conn :=
  match ps with
  | [] => if 0 <? zlen plain then flush frTypeBatch plain s c else (TxRunning, s, c)
  | p :: ps' =>
      if zlen p <? minRead then batch_loop minRead ps' plain s c
      else if maxFrame <? zlen plain + 2 + zlen p then
        if 0 <? zlen plain then
          match flush frTypeBatch plain s c with
          | (TxRunning, s', c') => batch_loop minRead ps' (be16 (zlen p) ++ p) s' c'
          | stop => stop
          end
        else batch_loop minRead ps' (be16 (zlen p) ++ p) s c
      else batch_loop minRead ps' (plain ++ be16 (zlen p) ++ p) s c
  end.

Fixpoint tunToSockBatch (minRead : Z) (reads : list batchRead) (s : option frameAEAD) (c : Conn)
    : txEnd * option frameAEAD * Conn :=
  match reads with
  | [] => (TxRunning, s, c)
  | BIntr :: reads' => tunToSockBatch minRead reads' s c
  | BErr :: _ => (TxStopped, s, c)
  | BPkts [p] :: reads' =>
      if zlen p <? minRead then tunToSockBatch minRead reads' s c
      else match flush frTypeSingle p s c with
           | (TxRunning, s', c') => tunToSockBatch minRead reads' s' c'
           | stop => stop
           end
  | BPkts ps :: reads' =>
      match batch_loop minRead ps [] s c with
      | (TxRunning, s', c') => tunToSockBatch minRead reads' s' c'
      | stop => stop
      end
  end.

(** The largest read the lane asks for, so that a sealed packet fits 16 bits. *)
Definition maxRead (s : option frameAEAD) : Z :=
  match s with None => maxPkt | Some f => maxPkt - Z.of_nat (overhead f) end.

(** What the device returns to the loop that serves it. *)
Inductive tunReads : Type :=
| ReadsOne (r : list tunRead)
| ReadsBatch (r : list batchRead).

Definition tunToSock (minRead : Z) (reads : tunReads) (s : option frameAEAD) (c : Conn)
    : txEnd * option frameAEAD * Conn :=
  match reads with
  | ReadsBatch r => tunToSockBatch minRead r s c
  | ReadsOne r => tunToSock_loop minRead r s c
  end.

(** ** Socket to TUN *)

Inductive wres : Type := WNil | WTransient | WFatal.   (* EIO, ENETDOWN, EAGAIN are transient *)

(** The TUN being written: the outcomes to come, and the packets it took. *)
Record Tun : Type := mkTun { outcomes : list wres; taken : list (list byte) }.

Definition writeTun (p : list byte) (t : Tun) : bool * Tun :=
  match outcomes t with
  | [] => (true, mkTun [] (taken t ++ [p]))
  | WNil :: o => (true, mkTun o (taken t ++ [p]))
  | WTransient :: o => (true, mkTun o (taken t))
  | WFatal :: o => (false, mkTun o (taken t))
  end.

Inductive rxEnd : Type :=
| RxFuel | RxEOF | RxOversize | RxShortBody | RxOpenFailed | RxMalformed | RxTunFatal.

(** The loop over the packets of a batch frame. *)
Fixpoint unbatch (fuel : nat) (pt : list byte) (t : Tun) : option rxEnd * Tun :=
  match pt with
  | b0 :: b1 :: pt =>
      match fuel with
      | O => (Some RxFuel, t)
      | S fuel =>
          let l := u16 b0 b1 in
          if zlen pt <? l then (Some RxMalformed, t)
          else match writeTun (take (Z.to_nat l) pt) t with
               | (true, t') => unbatch fuel (drop (Z.to_nat l) pt) t'
               | (false, t') => (Some RxTunFatal, t')
               end
      end
  | _ => (None, t)
  end.

Definition open_opt (o : option frameAEAD) (wire : list byte) : option (list byte) * option frameAEAD :=
  match o with
  | None => (Some wire, None)
  | Some f => let '(p, f') := open f wire in (p, Some f')
  end.

(** The state of the receiving loop: the cipher, the unread stream, the TUN. *)
Record rxState : Type := mkRx { r_open : option frameAEAD; r_in : list byte; r_tun : Tun }.

(** One iteration: [inl] continues, [inr] returns. *)
Definition sockToTun_iter (st : rxState) : rxState + rxEnd * rxState :=
  match r_in st with
  | typ :: b1 :: b2 :: rest =>
      let n := u16 b1 b2 in
      if n =? 0 then inl (mkRx (r_open st) rest (r_tun st))
      else if maxPkt + aeadMax <? n then inr (RxOversize, mkRx (r_open st) rest (r_tun st))
      else if zlen rest <? n then inr (RxShortBody, mkRx (r_open st) [] (r_tun st))
      else
        let wire := take (Z.to_nat n) rest in
        let rest := drop (Z.to_nat n) rest in
        match open_opt (r_open st) wire with
        | (None, o') => inr (RxOpenFailed, mkRx o' rest (r_tun st))
        | (Some pt, o') =>
            if bool_decide (typ = frTypeBatch) then
              match unbatch (length pt) pt (r_tun st) with
              | (None, t') => inl (mkRx o' rest t')
              | (Some e, t') => inr (e, mkRx o' rest t')
              end
            else
              match writeTun pt (r_tun st) with
              | (true, t') => inl (mkRx o' rest t')
              | (false, t') => inr (RxTunFatal, mkRx o' rest t')
              end
        end
  | _ => inr (RxEOF, mkRx (r_open st) [] (r_tun st))
  end.

Fixpoint sockToTun_fuel (fuel : nat) (st : rxState) : rxEnd * rxState :=
  match sockToTun_iter st with
  | inr r => r
  | inl st' => match fuel with O => (RxFuel, st') | S fuel => sockToTun_fuel fuel st' end
  end.

Definition sockToTun (st : rxState) : rxEnd * rxState := sockToTun_fuel (length (r_in st)) st.

(** ** runLane *)

(** [minRead] skips a bare virtio header. *)
Definition lane_minRead (pio : PacketIO) : Z := if VnetHdr pio then virtioNetHdrLen + 1 else 1.

(** Both ciphers of the lane, or the error that ends it before any I/O. *)
Definition lane_ciphers `{AEADs} (keys : laneKeys) : option (option frameAEAD * option frameAEAD) :=
  if encrypted keys then
    match newFrameAEAD (kind keys) (k_tx keys) with
    | None => None
    | Some s =>
        match newFrameAEAD (kind keys) (k_rx keys) with
        | None => None
        | Some o => Some (Some s, Some o)
        end
    end
  else Some (None, None).

(** The two directions share only the connection, one reading and one writing it;
    the lane returns when both have returned. *)
Definition runLane `{AEADs} (pio : PacketIO) (keys : laneKeys) (reads : tunReads) (tun : Tun) (c : Conn)
    : option ((txEnd * option frameAEAD * Conn) * (rxEnd * rxState)) :=
  match lane_ciphers keys with
  | None => None
  | Some (s, o) =>
      Some (tunToSock (lane_minRead pio) reads s c, sockToTun (mkRx o (rx c) tun))
  end.

(** ** The sender as a sequence of frames *)

(** A frame before sealing. *)
Definition planFrame : Type := byte * list byte.

Fixpoint send_all (fs : list planFrame) (s : option frameAEAD) (c : Conn) : txEnd * option frameAEAD * Conn :=
  match fs with
  | [] => (TxRunning, s, c)
  | (typ, p) :: fs' =>
      match flush typ p s c with
      | (TxRunning, s', c') => send_all fs' s' c'
      | stop => stop
      end
  end.

Lemma send_all_app fs gs s c :
  send_all (fs ++ gs) s c =
  match send_all fs s c with
  | (TxRunning, s', c') => send_all gs s' c'
  | stop => stop
  end.
Proof.
  revert s c. induction fs as [|[typ p] fs IH]; intros s c; cbn [send_all app]; [done|].
  destruct (flush typ p s c) as [[[] s'] c']; [apply IH|done|done].
Qed.

(** The plaintext of a batch frame. *)
Definition enc (g : list (list byte)) : list byte := mjoin ((λ p, be16 (zlen p) ++ p) <$> g).

Lemma enc_snoc g p : enc (g ++ [p]) = enc g ++ be16 (zlen p) ++ p.
Proof. unfold enc. rewrite fmap_app, join_app. cbn. by rewrite app_nil_r. Qed.

Lemma enc_nil_iff g : (0 <? zlen (enc g)) = false ↔ g = [].
Proof. destruct g; cbn; [done|]. split; [|done]. rewrite Z.ltb_ge. lia. Qed.

(** The packets of a burst, grouped into batch frames; [acc] is the frame being
    built. *)
Fixpoint groups (minRead : Z) (ps acc : list (list byte)) : list (list (list byte)) :=
  match ps with
  | [] => if bool_decide (acc = []) then [] else [acc]
  | p :: ps' =>
      if zlen p <? minRead then groups minRead ps' acc
      else if maxFrame <? zlen (enc acc) + 2 + zlen p then
        (if bool_decide (acc = []) then [] else [acc]) ++ groups minRead ps' [p]
      else groups minRead ps' (acc ++ [p])
  end.

Definition batch_frames (gs : list (list (list byte))) : list planFrame :=
  (λ g, (frTypeBatch, enc g)) <$> gs.

Lemma batch_loop_groups minRead ps acc s c :
  batch_loop minRead ps (enc acc) s c = send_all (batch_frames (groups minRead ps acc)) s c.
Proof.
  revert acc s c. induction ps as [|p ps IH]; intros acc s c; cbn [batch_loop groups].
  - destruct (0 <? zlen (enc acc)) eqn:E.
    + rewrite bool_decide_eq_false_2 by (intros ->; done). cbn.
      by destruct (flush _ _ _ _) as [[[] ?] ?].
    + apply enc_nil_iff in E as ->. done.
  - destruct (zlen p <? minRead); [apply IH|].
    assert (enc [p] = be16 (zlen p) ++ p) as Hp by (unfold enc; cbn; by rewrite app_nil_r).
    destruct (maxFrame <? _); [|rewrite <-enc_snoc; apply IH].
    destruct (0 <? zlen (enc acc)) eqn:E.
    + rewrite bool_decide_eq_false_2 by (intros ->; done). cbn [app batch_frames fmap list_fmap send_all].
      rewrite <-Hp. destruct (flush _ _ _ _) as [[[] ?] ?]; [apply IH|done|done].
    + apply enc_nil_iff in E as ->. rewrite bool_decide_eq_true_2 by done. cbn [app].
      rewrite <-Hp. apply IH.
Qed.

(** Which packets a burst carries, and the frames of a whole run of reads. *)
Definition carried (minRead : Z) (ps : list (list byte)) : list (list byte) :=
  filter (λ p, minRead <= zlen p) ps.

Lemma concat_groups minRead ps acc : mjoin (groups minRead ps acc) = acc ++ carried minRead ps.
Proof.
  revert acc. induction ps as [|p ps IH]; intros acc; cbn [groups].
  - unfold carried. rewrite filter_nil, app_nil_r. case_bool_decide; subst; cbn; [done|by rewrite app_nil_r].
  - unfold carried in *. rewrite filter_cons. destruct (zlen p <? minRead) eqn:E; bool_to_prop; case_decide; try lia.
    + apply IH.
    + destruct (maxFrame <? _); [|by rewrite IH, <-app_assoc].
      case_bool_decide; subst; cbn; rewrite IH; done.
Qed.

Fixpoint batch_plan (minRead : Z) (reads : list batchRead) : list planFrame :=
  match reads with
  | [] => []
  | BIntr :: reads' => batch_plan minRead reads'
  | BErr :: _ => []
  | BPkts [p] :: reads' =>
      (if zlen p <? minRead then [] else [(frTypeSingle, p)]) ++ batch_plan minRead reads'
  | BPkts ps :: reads' => batch_frames (groups minRead ps []) ++ batch_plan minRead reads'
  end.

Fixpoint one_plan (minRead : Z) (reads : list tunRead) : list planFrame :=
  match reads with
  | [] => []
  | RIntr :: reads' => one_plan minRead reads'
  | RErr :: _ => []
  | RPkt p :: reads' =>
      (if zlen p <? minRead then [] else [(frTypeSingle, p)]) ++ one_plan minRead reads'
  end.

Definition plan (minRead : Z) (reads : tunReads) : list planFrame :=
  match reads with ReadsOne r => one_plan minRead r | ReadsBatch r => batch_plan minRead r end.

(** The loops send the frames of the plan; only the device's error return can end
    them otherwise. *)
Definition same_run (a b : txEnd * option frameAEAD * Conn) : Prop :=
  a.1.2 = b.1.2 ∧ a.2 = b.2 ∧ (a.1.1 = b.1.1 ∨ (b.1.1 = TxRunning ∧ a.1.1 = TxStopped)).

Lemma tunToSockBatch_plan minRead reads s c :
  same_run (tunToSockBatch minRead reads s c) (send_all (batch_plan minRead reads) s c).
Proof.
  revert s c. induction reads as [|[ps| |] reads IH]; intros s c; [by split_and!; auto| |apply IH|by split_and!; auto].
  destruct ps as [|p [|p2 ps]].
  - cbn. apply IH.
  - cbn [tunToSockBatch batch_plan]. destruct (zlen p <? minRead); [apply IH|].
    cbn. destruct (flush _ _ _ _) as [[[] ?] ?]; [apply IH|by split_and!; auto..].
  - cbn [tunToSockBatch batch_plan]. rewrite send_all_app.
    rewrite <-(batch_loop_groups minRead _ []). change (enc []) with (@nil byte).
    destruct (batch_loop _ _ _ _ _) as [[[] ?] ?]; [apply IH|by split_and!; auto..].
Qed.

Lemma tunToSock_loop_plan minRead reads s c :
  same_run (tunToSock_loop minRead reads s c) (send_all (one_plan minRead reads) s c).
Proof.
  revert s c. induction reads as [|[p| |] reads IH]; intros s c; [by split_and!; auto| |apply IH|by split_and!; auto].
  cbn [tunToSock_loop one_plan]. destruct (zlen p <? minRead); [apply IH|].
  cbn. destruct (flush _ _ _ _) as [[[] ?] ?]; [apply IH|by split_and!; auto..].
Qed.

Lemma tunToSock_plan minRead reads s c :
  same_run (tunToSock minRead reads s c) (send_all (plan minRead reads) s c).
Proof. destruct reads; [apply tunToSock_loop_plan|apply tunToSockBatch_plan]. Qed.

(** ** The byte stream of a plan *)

Definition frame (typ : byte) (ct : list byte) : list byte := typ :: be16 (zlen ct) ++ ct.

Fixpoint wire_of (fs : list planFrame) (s : option frameAEAD) : list byte :=
  match fs with
  | [] => []
  | (typ, p) :: fs' => let '(ct, s') := seal_opt s p in frame typ ct ++ wire_of fs' s'
  end.

Definition cipher_ok (s : option frameAEAD) : Prop :=
  match s with None => True | Some f => aead_ok (aead f) ∧ frame_wf f end.

Definition s_overhead (s : option frameAEAD) : Z :=
  match s with None => 0 | Some f => Z.of_nat (overhead f) end.

Lemma seal_opt_spec s p ct s' :
  seal_opt s p = (ct, s') → cipher_ok s →
  cipher_ok s' ∧ s_overhead s' = s_overhead s ∧ zlen ct = zlen p + s_overhead s ∧
  open_opt s ct = (Some p, s').
Proof.
  destruct s as [f|]; cbn [seal_opt cipher_ok].
  - destruct (seal f p) as [ct' f'] eqn:E. intros [= <- <-] [Ha Hf].
    pose proof (open_seal_lockstep f p Ha (proj1 Hf)) as Ho. rewrite E in Ho. cbn [fst snd] in Ho.
    cbn [open_opt]. rewrite Ho. injection E as <- <-. cbn [cipher_ok s_overhead]. split_and!; try done.
    + by apply bump_wf.
    + rewrite (length_seal _ Ha). unfold overhead. cbn [aead bump]. lia.
  - intros [= <- <-] _. cbn. split_and!; try done. lia.
Qed.

(** A frame that fits the 16-bit length field once sealed. *)
Definition fits (ov : Z) (f : planFrame) : Prop := 0 < zlen f.2 ∧ zlen f.2 + ov <= 65535.

Lemma send_all_wire fs s c e s' c' :
  cipher_ok s → Forall (fits (s_overhead s)) fs → send_all fs s c = (e, s', c') →
  e ≠ TxPanic ∧ rx c' = rx c ∧
  ∃ k, tx c' = tx c ++ take k (wire_of fs s) ∧
    (room c = None → e = TxRunning ∧ room c' = None ∧ take k (wire_of fs s) = wire_of fs s).
Proof.
  revert s c. induction fs as [|[typ p] fs IH]; intros s c Hs Hf; cbn [send_all wire_of].
  - intros [= <- <- <-]. split_and!; [done..|]. exists 0%nat. rewrite app_nil_r. auto.
  - apply Forall_cons in Hf as [[H1 H2] Hf]. unfold flush.
    destruct (seal_opt s p) as [ct s1] eqn:E.
    destruct (seal_opt_spec _ _ _ _ E Hs) as (Hs1 & Ho1 & Hl & _).
    unfold hdrLen, maxPkt, aeadMax. cbn [snd] in *. destruct (_ <? _) eqn:Hbig; bool_to_prop; [lia|].
    change (typ :: be16 (zlen ct) ++ ct) with (frame typ ct). rewrite <-Ho1 in Hf. unfold conn_Write.
    destruct (room c) as [r|] eqn:Hr; [destruct (_ <=? _)%nat eqn:Hle; bool_to_prop|].
    + intros Hsend. destruct (IH _ _ Hs1 Hf Hsend) as (He & Hrx & k & Htx & _). cbn [tx rx room] in *.
      split_and!; [done|done|]. exists (length (frame typ ct) + k)%nat.
      by rewrite take_app_add, Htx, app_assoc.
    + intros [= <- <- <-]. split_and!; [done..|]. exists r. cbn [tx room]. by rewrite take_app_le by lia.
    + intros Hsend. destruct (IH _ _ Hs1 Hf Hsend) as (He & Hrx & k & Htx & Hall). cbn [tx rx room] in *.
      split_and!; [done|done|]. exists (length (frame typ ct) + k)%nat.
      rewrite take_app_add, Htx, app_assoc. split; [done|]. intros _.
      destruct Hall as (? & ? & ->); [done|]. auto.
Qed.

(** ** The receiver on such a stream *)

Definition deliver (ps : list (list byte)) (t : Tun) : Tun :=
  fold_left (λ t p, (writeTun p t).2) ps t.

(** The packets a TUN with these write outcomes takes. *)
Fixpoint accepted (o : list wres) (ps : list (list byte)) : list (list byte) :=
  match ps, o with
  | [], _ => []
  | p :: ps', [] => p :: accepted [] ps'
  | p :: ps', WNil :: o' => p :: accepted o' ps'
  | p :: ps', _ :: o' => accepted o' ps'
  end.

Definition no_fatal (t : Tun) : Prop := WFatal ∉ outcomes t.

Lemma writeTun_no_fatal p t :
  no_fatal t → writeTun p t = (true, deliver [p] t) ∧ no_fatal (deliver [p] t).
Proof.
  unfold no_fatal, deliver, writeTun. cbn. intros H.
  destruct (outcomes t) as [|[] o]; cbn; set_solver.
Qed.

Lemma deliver_app ps qs t : deliver (ps ++ qs) t = deliver qs (deliver ps t).
Proof. apply fold_left_app. Qed.

Lemma deliver_no_fatal ps t : no_fatal t → no_fatal (deliver ps t).
Proof.
  revert t. induction ps as [|p ps IH]; intros t Ht; [done|]. apply IH.
  by apply (writeTun_no_fatal p).
Qed.

Lemma taken_deliver ps t :
  no_fatal t → taken (deliver ps t) = taken t ++ accepted (outcomes t) ps.
Proof.
  revert t. induction ps as [|p ps IH]; intros t Ht; cbn [accepted]; [by rewrite app_nil_r|].
  change (deliver (p :: ps) t) with (deliver ps (deliver [p] t)).
  rewrite IH by (by apply writeTun_no_fatal). unfold no_fatal in Ht.
  unfold deliver, writeTun. cbn. destruct (outcomes t) as [|[] o]; cbn; rewrite <-?app_assoc; done.
Qed.

Lemma enc_cons p g : enc (p :: g) = be16 (zlen p) ++ p ++ enc g.
Proof. done. Qed.

Lemma unbatch_enc fuel g t :
  no_fatal t → Forall (λ p, zlen p < 65536) g → (length (enc g) <= fuel)%nat →
  unbatch fuel (enc g) t = (None, deliver g t).
Proof.
  revert g t. induction fuel as [|fuel IH]; intros [|p g] t Ht Hg Hf; try done.
  - rewrite enc_cons in Hf. cbn in Hf. lia.
  - apply Forall_cons in Hg as [Hp Hg]. rewrite enc_cons in *.
    unfold be16 in Hf |- *. cbn [app unbatch]. rewrite u16_be16, wrap_small by lia.
    rewrite length_app in *. destruct (_ <? _) eqn:E; bool_to_prop; [lia|].
    rewrite Nat2Z.id, take_app_length, drop_app_length.
    destruct (writeTun_no_fatal p t Ht) as [-> Ht'].
    change (deliver (p :: g) t) with (deliver g (deliver [p] t)). apply IH; [done|done|]. cbn in Hf.
    rewrite length_app in Hf. lia.
Qed.

(** The packets a frame of the plan carries. *)
Inductive carries : planFrame → list (list byte) → Prop :=
| carries_one p : carries (frTypeSingle, p) [p]
| carries_batch g : Forall (λ p, zlen p < 65536) g → carries (frTypeBatch, enc g) g.

Lemma iter_frame typ p ps s ct s' rest t :
  cipher_ok s → seal_opt s p = (ct, s') → fits (s_overhead s) (typ, p) →
  carries (typ, p) ps → no_fatal t →
  sockToTun_iter (mkRx s (frame typ ct ++ rest) t) = inl (mkRx s' rest (deliver ps t)).
Proof.
  intros Hs E [H1 H2] Hc Ht. destruct (seal_opt_spec _ _ _ _ E Hs) as (_ & Ho & Hl & Hopen).
  assert (0 <= s_overhead s) by (destruct s; cbn; lia). cbn [snd] in *.
  unfold sockToTun_iter, frame. cbn [r_in app]. unfold be16. cbn [app].
  rewrite u16_be16, wrap_small by lia. unfold maxPkt, aeadMax. rewrite length_app.
  rewrite (proj2 (Z.eqb_neq _ _)), !(proj2 (Z.ltb_ge _ _)) by lia.
  rewrite Nat2Z.id, take_app_length, drop_app_length. cbn [r_open r_tun]. rewrite Hopen.
  inversion Hc; subst; cbn [bool_decide].
  - rewrite bool_decide_eq_false_2 by done. by destruct (writeTun_no_fatal p t Ht) as [-> _].
  - rewrite bool_decide_eq_true_2 by done. by rewrite unbatch_enc.
Qed.

Lemma iter_short typ ct s k t :
  0 < zlen ct <= 65535 → (k < length (frame typ ct))%nat →
  ∃ e, sockToTun_iter (mkRx s (take k (frame typ ct)) t) = inr (e, mkRx s [] t).
Proof.
  intros Hct Hk. unfold frame, be16 in *. cbn [app length] in Hk.
  destruct k as [|[|[|k]]]; cbn [take app]; unfold sockToTun_iter; cbn [r_in r_open r_tun]; try by eauto.
  rewrite u16_be16, wrap_small by lia. unfold maxPkt, aeadMax.
  rewrite (proj2 (Z.eqb_neq _ _)), (proj2 (Z.ltb_ge _ _)) by lia.
  rewrite length_take, (proj2 (Z.ltb_lt _ _)) by lia. eauto.
Qed.

Lemma sockToTun_stop fuel st e st' :
  sockToTun_iter st = inr (e, st') → sockToTun_fuel fuel st = (e, st').
Proof. intros H. by destruct fuel; cbn; rewrite H. Qed.

Lemma unbatch_not_fuel fuel pt t :
  (length pt <= 2 * fuel)%nat → (unbatch fuel pt t).1 ≠ Some RxFuel.
Proof.
  revert pt t. induction fuel as [|fuel IH]; intros pt t Hl.
  - destruct pt as [|? [|? ?]]; cbn in *; done || lia.
  - destruct pt as [|b0 [|b1 pt]]; cbn [unbatch]; try done.
    destruct (_ <? _); [done|]. destruct (writeTun _ t) as [[] t']; [|done].
    apply IH. rewrite length_drop. cbn in Hl. lia.
Qed.

(** The fuel never runs out: an iteration stops for a reason of the code, or it
    consumed a header. *)
Lemma iter_not_fuel st st' : sockToTun_iter st ≠ inr (RxFuel, st').
Proof.
  unfold sockToTun_iter. destruct (r_in st) as [|typ [|b1 [|b2 rest]]]; try done.
  do 3 (destruct (_ =? _) || destruct (_ <? _); [done|]).
  destruct (open_opt _ _) as [[pt|] o']; [|done]. case_bool_decide.
  - pose proof (unbatch_not_fuel (length pt) pt (r_tun st) ltac:(lia)) as Hu.
    destruct (unbatch _ _ _) as [[e|] t']; [|done]. intros [= -> _]. done.
  - by destruct (writeTun _ _) as [[] ?].
Qed.

Lemma iter_consumes st st' :
  sockToTun_iter st = inl st' → (length (r_in st') + 3 <= length (r_in st))%nat.
Proof.
  unfold sockToTun_iter. destruct (r_in st) as [|typ [|b1 [|b2 rest]]]; try done.
  intros H. repeat case_match; simplify_eq; cbn; rewrite ?length_drop; lia.
Qed.

(** On any prefix of the stream of a plan, the receiver delivers the packets of
    the frames that are complete, in order, and stops at the end of the input. *)
Lemma recv_prefix fs pss s k fuel t :
  Forall2 carries fs pss → cipher_ok s → Forall (fits (s_overhead s)) fs → no_fatal t →
  (length (take k (wire_of fs s)) <= fuel)%nat →
  ∃ j e s', sockToTun_fuel fuel (mkRx s (take k (wire_of fs s)) t) =
      (e, mkRx s' [] (deliver (mjoin (take j pss)) t)) ∧ e ≠ RxFuel ∧
    ((length (wire_of fs s) <= k)%nat → take j pss = pss ∧ e = RxEOF).
Proof.
  intros Hc. revert s k fuel t.
  induction Hc as [|[typ p] ps fs pss Hc Hcs IH]; intros s k fuel t Hs Hf Ht; cbn [wire_of].
  - intros _. exists 0%nat, RxEOF, s. rewrite take_nil. split_and!; try done.
    by apply sockToTun_stop.
  - apply Forall_cons in Hf as [Hfit Hf].
    destruct (seal_opt s p) as [ct s1] eqn:E.
    destruct (seal_opt_spec _ _ _ _ E Hs) as (Hs1 & Ho1 & Hl & _). rewrite <-Ho1 in Hf.
    assert (0 < zlen ct <= 65535) as Hct by (destruct Hfit; cbn [snd] in *; destruct s; cbn in *; lia).
    destruct (decide (k < length (frame typ ct))%nat) as [Hk|Hk]; intros Hfuel.
    + rewrite take_app_le by lia. destruct (iter_short typ ct s k t Hct Hk) as [e He].
      exists 0%nat, e, s. split_and!; [by apply sockToTun_stop| |].
      * intros ->. by apply iter_not_fuel in He.
      * rewrite length_app. lia.
    + destruct (Nat.le_exists_sub (length (frame typ ct)) k) as (k' & -> & _); [lia|].
      rewrite Nat.add_comm, take_app_add in *.
      destruct fuel as [|fuel]; [rewrite length_app in Hfuel; cbn in Hfuel; lia|].
      cbn [sockToTun_fuel]. rewrite (iter_frame typ p ps s ct s1) by done.
      destruct (IH s1 k' fuel (deliver ps t) Hs1 Hf) as (j & e & s2 & -> & He & Hall);
        [by apply deliver_no_fatal|rewrite length_app in Hfuel; cbn in Hfuel; lia|].
      exists (S j), e, s2. split_and!; [by cbn; rewrite deliver_app|done|].
      rewrite length_app. intros Hlen. destruct Hall as [Hj ->]; [lia|]. cbn. by rewrite Hj.
Qed.

(** ** What a run of reads sends *)

Definition keep (minRead : Z) (p : list byte) : list (list byte) :=
  if zlen p <? minRead then [] else [p].

Fixpoint sent_one (minRead : Z) (reads : list tunRead) : list (list byte) :=
  match reads with
  | [] | RErr :: _ => []
  | RIntr :: reads' => sent_one minRead reads'
  | RPkt p :: reads' => keep minRead p ++ sent_one minRead reads'
  end.

Fixpoint sent_batch (minRead : Z) (reads : list batchRead) : list (list byte) :=
  match reads with
  | [] | BErr :: _ => []
  | BIntr :: reads' => sent_batch minRead reads'
  | BPkts ps :: reads' => carried minRead ps ++ sent_batch minRead reads'
  end.

(** The packets read before the device fails, those shorter than [minRead] left
    out. *)
Definition sent (minRead : Z) (reads : tunReads) : list (list byte) :=
  match reads with ReadsOne r => sent_one minRead r | ReadsBatch r => sent_batch minRead r end.

(** A read returns at most the [mr] bytes asked for; and a packet that shares a
    burst leaves room for its two-byte length. *)
Definition burst_ok (mr : Z) (r : batchRead) : Prop :=
  match r with
  | BPkts [p] => zlen p <= mr
  | BPkts ps => Forall (λ p, 2 + zlen p <= mr) ps
  | _ => True
  end.

Definition reads_ok (mr : Z) (reads : tunReads) : Prop :=
  match reads with
  | ReadsOne r => Forall (λ r, match r with RPkt p => zlen p <= mr | _ => True end) r
  | ReadsBatch r => Forall (burst_ok mr) r
  end.

Lemma length_enc_snoc g p : zlen (enc (g ++ [p])) = zlen (enc g) + 2 + zlen p.
Proof. rewrite enc_snoc, !length_app, length_be16. lia. Qed.

(** Every group makes a frame of at most [mr] bytes. *)
Lemma groups_fit mr minRead ps acc :
  maxFrame <= mr → mr <= 65535 → 1 <= minRead → Forall (λ p, 2 + zlen p <= mr) ps →
  zlen (enc acc) <= mr → Forall (λ p, zlen p < 65536) acc →
  Forall (λ g, 0 < zlen (enc g) <= mr ∧ Forall (λ p, zlen p < 65536) g) (groups minRead ps acc).
Proof.
  intros Hmf Hmr Hmin Hps. revert acc.
  assert (∀ acc, zlen (enc acc) <= mr → Forall (λ p, zlen p < 65536) acc →
    Forall (λ g, 0 < zlen (enc g) <= mr ∧ Forall (λ p, zlen p < 65536) g)
      (if bool_decide (acc = []) then [] else [acc])) as Hlast.
  { intros acc Ha Hacc. case_bool_decide; [constructor|]. apply Forall_singleton.
    split; [|done]. destruct (0 <? zlen (enc acc)) eqn:E; bool_to_prop; [lia|].
    exfalso. apply H, enc_nil_iff. by apply Z.ltb_ge. }
  induction Hps as [|p ps Hp Hps IH]; intros acc Ha Hacc; cbn [groups]; [by apply Hlast|].
  destruct (zlen p <? minRead); [by apply IH|].
  destruct (maxFrame <? _) eqn:E; bool_to_prop.
  - apply Forall_app. split; [by apply Hlast|]. apply IH; [|apply Forall_singleton; lia].
    rewrite <-(app_nil_l [p]), length_enc_snoc. cbn. lia.
  - apply IH; [rewrite length_enc_snoc; lia|]. apply Forall_app. split; [done|].
    apply Forall_singleton. lia.
Qed.

(** One frame for one packet. *)
Lemma keep_plan minRead mr ov p :
  1 <= minRead → mr = 65535 - ov → zlen p <= mr →
  ∃ pss, Forall2 carries (if zlen p <? minRead then [] else [(frTypeSingle, p)]) pss ∧
    mjoin pss = keep minRead p ∧ Forall (fits ov) (if zlen p <? minRead then [] else [(frTypeSingle, p)]).
Proof.
  intros Hmin -> Hp. unfold keep. destruct (_ <? _) eqn:E; bool_to_prop.
  - by exists [].
  - exists [[p]]. split_and!; [repeat constructor|done|]. apply Forall_singleton. split; cbn; lia.
Qed.

(** Plans compose. *)
Definition planned (ov : Z) (fs : list planFrame) (ps : list (list byte)) : Prop :=
  ∃ pss, Forall2 carries fs pss ∧ mjoin pss = ps ∧ Forall (fits ov) fs.

Lemma planned_app ov fs gs ps qs :
  planned ov fs ps → planned ov gs qs → planned ov (fs ++ gs) (ps ++ qs).
Proof.
  intros (pss & Hc & <- & Hf) (qss & Hd & <- & Hg). exists (pss ++ qss).
  split_and!; [by apply Forall2_app|by rewrite join_app|by apply Forall_app].
Qed.

Lemma planned_groups ov minRead ps :
  0 <= ov <= aeadMax → 1 <= minRead → Forall (λ p, 2 + zlen p <= 65535 - ov) ps →
  planned ov (batch_frames (groups minRead ps [])) (carried minRead ps).
Proof.
  intros Hov Hmin Hps. exists (groups minRead ps []). unfold aeadMax in Hov.
  assert (Forall (λ g, 0 < zlen (enc g) <= 65535 - ov ∧ Forall (λ p, zlen p < 65536) g)
    (groups minRead ps [])) as Hg.
  { apply groups_fit; try done; unfold maxFrame; cbn; lia. }
  split_and!.
  - unfold batch_frames. apply Forall2_fmap_l, Forall_Forall2_diag.
    eapply Forall_impl; [exact Hg|]. intros g [_ ?]. by constructor.
  - by rewrite concat_groups.
  - unfold batch_frames. apply Forall_fmap. eapply Forall_impl; [exact Hg|].
    intros g [? _]. unfold fits. cbn. lia.
Qed.

Lemma planned_plan ov minRead reads :
  0 <= ov <= aeadMax → 1 <= minRead → reads_ok (65535 - ov) reads →
  planned ov (plan minRead reads) (sent minRead reads).
Proof.
  intros Hov Hmin. destruct reads as [r|r]; cbn; intros Hr.
  - induction Hr as [|[p| |] r Hp _ IH]; cbn; try done; [by exists []| |by exists []].
    apply planned_app; [by eapply keep_plan|done].
  - induction Hr as [|[ps| |] r Hp _ IH]; cbn [batch_plan sent_batch]; try done; [by exists []| |by exists []].
    destruct ps as [|p [|p2 ps]].
    + apply (planned_app _ []); [by exists []|done].
    + apply planned_app; [|done]. cbn in Hp. unfold carried. rewrite filter_cons, filter_nil.
      destruct (keep_plan minRead (65535 - ov) ov p) as (pss & H1 & H2 & H3); try done.
      exists pss. split_and!; try done. rewrite H2. unfold keep.
      destruct (_ <? _) eqn:E; bool_to_prop; case_decide; done || lia.
    + apply planned_app; [|done]. by apply planned_groups.
Qed.

(** ** Receiving arbitrary input *)

Lemma sockToTun_fuel_enough n m st :
  (length (r_in st) <= n)%nat → (length (r_in st) <= m)%nat →
  sockToTun_fuel n st = sockToTun_fuel m st ∧ (sockToTun_fuel n st).1 ≠ RxFuel.
Proof.
  revert m st. induction n as [|n IH]; intros m st Hn Hm.
  - destruct (sockToTun_iter st) as [st'|[e st']] eqn:E.
    + apply iter_consumes in E. lia.
    + rewrite !(sockToTun_stop _ _ _ _ E). split; [done|]. intros [= ->]. by apply iter_not_fuel in E.
  - destruct (sockToTun_iter st) as [st'|[e st']] eqn:E.
    + destruct m as [|m]; [apply iter_consumes in E; lia|]. cbn [sockToTun_fuel]. rewrite E.
      apply iter_consumes in E. apply IH; lia.
    + rewrite !(sockToTun_stop _ _ _ _ E). split; [done|]. intros [= ->]. by apply iter_not_fuel in E.
Qed.

(** The complete frames of a byte stream: type and body, empty frames apart. *)
Fixpoint wire_frames (fuel : nat) (s : list byte) : list (byte * list byte) :=
  match fuel, s with
  | S fuel, typ :: b1 :: b2 :: rest =>
      let n := Z.to_nat (u16 b1 b2) in
      if (n =? 0)%nat then wire_frames fuel rest
      else if (length rest <? n)%nat then []
      else (typ, take n rest) :: wire_frames fuel (drop n rest)
  | _, _ => []
  end.

Definition stream_frames (s : list byte) : list (byte * list byte) := wire_frames (length s) s.

Lemma wire_frames_S fuel typ b1 b2 rest :
  wire_frames (S fuel) (typ :: b1 :: b2 :: rest) =
  let n := Z.to_nat (u16 b1 b2) in
  if (n =? 0)%nat then wire_frames fuel rest
  else if (length rest <? n)%nat then []
  else (typ, take n rest) :: wire_frames fuel (drop n rest).
Proof. done. Qed.

Lemma wire_frames_enough n m s :
  (length s <= n)%nat → (length s <= m)%nat → wire_frames n s = wire_frames m s.
Proof.
  revert m s. induction n as [|n IH]; intros [|m] [|typ [|b1 [|b2 rest]]] Hn Hm; cbn in Hn, Hm; try done; try lia.
  rewrite !wire_frames_S. cbn zeta. destruct (_ =? _)%nat; [apply IH; lia|]. destruct (_ <? _)%nat; [done|].
  f_equal. apply IH; rewrite length_drop; lia.
Qed.

Lemma stream_frames_cons typ b1 b2 rest :
  stream_frames (typ :: b1 :: b2 :: rest) =
  if u16 b1 b2 =? 0 then stream_frames rest
  else if zlen rest <? u16 b1 b2 then []
  else (typ, take (Z.to_nat (u16 b1 b2)) rest) :: stream_frames (drop (Z.to_nat (u16 b1 b2)) rest).
Proof.
  unfold stream_frames at 1. cbn [length]. rewrite wire_frames_S. cbn zeta. unfold stream_frames. pose proof (u16_range b1 b2).
  destruct (u16 b1 b2 =? 0) eqn:E0, (Z.to_nat (u16 b1 b2) =? 0)%nat eqn:E1; bool_to_prop; try lia.
  { apply wire_frames_enough; lia. }
  destruct (_ <? _) eqn:E2, (_ <? _)%nat eqn:E3; bool_to_prop; try lia; [done|].
  f_equal. apply wire_frames_enough; rewrite length_drop; lia.
Qed.

(** A frame the receiver opened: its type and ciphertext on the wire, the plaintext,
    and the packets cut from it. *)
Record rxFrame : Type := mkRxFrame { x_typ : byte; x_ct : list byte; x_pt : list byte; x_packets : list (list byte) }.

Definition on_wire (x : rxFrame) : byte * list byte := (x_typ x, x_ct x).

(** The frame's ciphertext opened under nonce [i] of the lane, and its packets are the
    plaintext itself or, in a batch, the entries its plaintext begins with, each after its
    16-bit length. *)
Definition opened (f : frameAEAD) (i : nat) (x : rxFrame) : Prop :=
  Open (aead f) (frame_nonce f i) (x_ct x) = Some (x_pt x) ∧
  if bool_decide (x_typ x = frTypeBatch)
  then Forall (λ p, zlen p < 65536) (x_packets x) ∧ ∃ tail, x_pt x = enc (x_packets x) ++ tail
  else x_packets x = [x_pt x].

(** What the TUN took came from the frames [xs], which open the stream [s] in order. *)
Definition accounts (f : frameAEAD) (s : list byte) (t t' : Tun) (xs : list rxFrame) : Prop :=
  (on_wire <$> xs) `prefix_of` stream_frames s ∧
  (∀ i x, xs !! i = Some x → opened f i x) ∧
  ∃ new, taken t' = taken t ++ new ∧ new `sublist_of` mjoin (x_packets <$> xs).

Lemma accounts_none f s t : accounts f s t t [].
Proof. split_and!; [apply prefix_nil|done|]. exists []. by rewrite app_nil_r. Qed.

Lemma accounts_cons f s t t' t'' x s' xs :
  stream_frames s = on_wire x :: stream_frames s' → opened f 0 x →
  (∃ new, taken t' = taken t ++ new ∧ new `sublist_of` x_packets x) →
  accounts (bump f) s' t' t'' xs → accounts f s t t'' (x :: xs).
Proof.
  intros Hs Hx (n1 & Hn1 & Hl1) (Hp & Ho & n2 & Hn2 & Hl2). split_and!.
  - rewrite Hs. cbn. by apply prefix_cons.
  - intros [|i] y; cbn; [by intros [= <-]|]. intros Hy%Ho. unfold opened in *.
    by rewrite frame_nonce_bump in Hy.
  - exists (n1 ++ n2). rewrite Hn2, Hn1, <-app_assoc. split; [done|]. cbn. by apply sublist_app.
Qed.

Lemma writeTun_taken p t : ∃ new, taken (writeTun p t).2 = taken t ++ new ∧ new `sublist_of` [p].
Proof.
  unfold writeTun. destruct (outcomes t) as [|[] ?]; cbn [snd taken];
    (exists [p]; done) || (exists []; rewrite app_nil_r; split; [done|apply sublist_nil_l]).
Qed.

Lemma unbatch_taken fuel pt t :
  ∃ g tail new, Forall (λ p, zlen p < 65536) g ∧ pt = enc g ++ tail ∧
    taken (unbatch fuel pt t).2 = taken t ++ new ∧ new `sublist_of` g.
Proof.
  assert (∀ pt t, ∃ g tail new, Forall (λ p, zlen p < 65536) g ∧ pt = enc g ++ tail ∧
    taken t = taken t ++ new ∧ new `sublist_of` g) as H0.
  { intros pt' t'. exists [], pt', []. by rewrite app_nil_r. }
  revert pt t. induction fuel as [|fuel IH]; intros [|b0 [|b1 pt]] t; cbn [unbatch]; try apply H0.
  destruct (_ <? _) eqn:E; [apply H0|]. bool_to_prop. set (p := take _ pt).
  pose proof (u16_range b0 b1). assert (zlen p = u16 b0 b1) as Hp by (unfold p; rewrite length_take; lia).
  assert (∀ g tail, drop (Z.to_nat (u16 b0 b1)) pt = enc g ++ tail → b0 :: b1 :: pt = enc (p :: g) ++ tail) as Hg.
  { intros g tail Hd. rewrite enc_cons, Hp, be16_u16. cbn [app]. do 2 f_equal.
    rewrite <-app_assoc, <-Hd. unfold p. by rewrite take_drop. }
  destruct (writeTun_taken p t) as (n1 & Hn1 & Hl1).
  destruct (writeTun p t) as [[] t']; cbn [snd] in *.
  - destruct (IH (drop (Z.to_nat (u16 b0 b1)) pt) t') as (g & tail & n2 & Hf & Hd & Hn2 & Hl2).
    exists (p :: g), tail, (n1 ++ n2). rewrite Hn2, Hn1, <-app_assoc.
    split_and!; [constructor; [lia|done]|by apply Hg|done|by apply (sublist_app n1 [p] n2 g)].
  - exists [p], (drop (Z.to_nat (u16 b0 b1)) pt), n1.
    split_and!; [apply Forall_singleton; lia|by apply Hg|done|done].
Qed.

(** One iteration: a frame that opens accounts for what it delivers; whatever ends the
    loop, or is skipped, delivers nothing else. *)
Lemma iter_accounts f st :
  frame_wf f → r_open st = Some f →
  match sockToTun_iter st with
  | inr (_, st') => ∃ xs, accounts f (r_in st) (r_tun st) (r_tun st') xs
  | inl st' => ∃ f', frame_wf f' ∧ r_open st' = Some f' ∧
      ∀ t xs, accounts f' (r_in st') (r_tun st') t xs → ∃ xs', accounts f (r_in st) (r_tun st) t xs'
  end.
Proof.
  intros Hf Ho. unfold sockToTun_iter.
  destruct (r_in st) as [|typ [|b1 [|b2 rest]]]; try by (exists []; apply accounts_none).
  pose proof (stream_frames_cons typ b1 b2 rest) as Hs.
  destruct (u16 b1 b2 =? 0).
  { exists f. split_and!; [done..|]. intros t xs Hx. exists xs. unfold accounts. by rewrite Hs. }
  destruct (maxPkt + aeadMax <? u16 b1 b2); [exists []; apply accounts_none|]. destruct (zlen rest <? u16 b1 b2); [exists []; apply accounts_none|].
  rewrite Ho. cbn [open_opt]. rewrite open_frame by done.
  destruct (Open _ _ _) as [pt|] eqn:E; [|exists []; apply accounts_none].
  set (ct := take _ rest) in *. case_bool_decide as Ht.
  - destruct (unbatch_taken (length pt) pt (r_tun st)) as (g & tail & new & Hg & Hpt & Hn & Hl).
    assert (opened f 0 (mkRxFrame typ ct pt g)) as Hx.
    { split; [done|]. cbn. rewrite bool_decide_eq_true_2 by done. split; [done|by exists tail]. }
    destruct (unbatch _ _ _) as [[e|] t']; cbn [snd] in Hn.
    + exists [mkRxFrame typ ct pt g]. eapply accounts_cons; [exact Hs|exact Hx|by exists new|apply accounts_none].
    + exists (bump f). split_and!; [by apply bump_wf|done|]. intros t xs Ha. exists (mkRxFrame typ ct pt g :: xs).
      eapply accounts_cons; [exact Hs|exact Hx|by exists new|exact Ha].
  - assert (opened f 0 (mkRxFrame typ ct pt [pt])) as Hx.
    { split; [done|]. cbn. by rewrite bool_decide_eq_false_2. }
    pose proof (writeTun_taken pt (r_tun st)) as Hn. destruct (writeTun _ _) as [[] t']; cbn [snd] in Hn.
    + exists (bump f). split_and!; [by apply bump_wf|done|]. intros t xs Ha. exists (mkRxFrame typ ct pt [pt] :: xs).
      eapply accounts_cons; [exact Hs|exact Hx|exact Hn|exact Ha].
    + exists [mkRxFrame typ ct pt [pt]]. eapply accounts_cons; [exact Hs|exact Hx|exact Hn|apply accounts_none].
Qed.

Lemma sockToTun_accounts n f st :
  frame_wf f → r_open st = Some f → ∃ xs, accounts f (r_in st) (r_tun st) (r_tun (sockToTun_fuel n st).2) xs.
Proof.
  revert f st. induction n as [|n IH]; intros f st Hf Ho; pose proof (iter_accounts f st Hf Ho) as Hi;
    cbn [sockToTun_fuel]; destruct (sockToTun_iter st) as [st'|[e st']]; try exact Hi;
    destruct Hi as (f' & Hf' & Ho' & Hi).
  - apply (Hi _ []), accounts_none.
  - destruct (IH f' st' Hf' Ho') as [xs Hx]. by eapply Hi.
Qed.

(** The peer's cipher, in the receiver's state [f], sealed [plains]; no frame of the stream
    opens under a nonce of the lane unless the peer sealed that very ciphertext under that
    nonce. *)
Definition no_forgery (f : frameAEAD) (plains : list (list byte)) (s : list byte) : Prop :=
  ∀ typ ct i pt, (typ, ct) ∈ stream_frames s → Open (aead f) (frame_nonce f i) ct = Some pt →
  ∃ j, frame_nonce f i = frame_nonce f j ∧ (seal_all f plains).1 !! j = Some ct.

Lemma prefix_lookups {A} (l k : list A) : (∀ i x, l !! i = Some x → k !! i = Some x) → l `prefix_of` k.
Proof.
  revert k. induction l as [|x l IH]; intros k Hl; [apply prefix_nil|].
  destruct k as [|y k]; [by specialize (Hl 0%nat x eq_refl)|].
  specialize (Hl 0%nat x eq_refl) as Hh. injection Hh as ->. apply prefix_cons, IH.
  intros i z Hz. by apply (Hl (S i)).
Qed.

Lemma length_stream_frames s : (length (stream_frames s) <= length s)%nat.
Proof.
  unfold stream_frames. assert (∀ n s, (length (wire_frames n s) <= n)%nat) as H; [|apply H].
  clear s. induction n as [|n IH]; intros [|typ [|b1 [|b2 rest]]]; cbn [wire_frames length]; try lia.
  destruct (_ =? _)%nat; [specialize (IH rest); lia|]. destruct (_ <? _)%nat; cbn [length]; [lia|].
  specialize (IH (drop (Z.to_nat (u16 b1 b2)) rest)). lia.
Qed.

Lemma accounts_in_order f s t t' xs plains :
  frame_wf f → aead_ok (aead f) → zlen s < 2 ^ 64 → zlen plains < 2 ^ 64 →
  accounts f s t t' xs → no_forgery f plains s → (x_pt <$> xs) `prefix_of` plains.
Proof.
  intros Hf Ha Hs Hpl (Hp & Ho & _) Hnf. apply prefix_lookups. intros i pt. rewrite list_lookup_fmap.
  destruct (xs !! i) as [x|] eqn:Hx; [|done]. cbn. intros [= <-]. destruct (Ho i x Hx) as [Hopen _].
  assert ((on_wire <$> xs) !! i = Some (on_wire x)) as Hw by (by rewrite list_lookup_fmap, Hx).
  pose proof (prefix_lookup_Some _ _ _ _ Hw Hp) as Hin.
  pose proof (lookup_lt_Some _ _ _ Hin) as Hi. pose proof (length_stream_frames s).
  destruct (Hnf (x_typ x) (x_ct x) i (x_pt x)) as (j & Hij & Hj); [by eapply list_elem_of_lookup_2|done|].
  rewrite seal_all_frames, list_lookup_imap in Hj by done.
  destruct (plains !! j) as [p|] eqn:Hj'; [|done]. cbn in Hj. injection Hj as Hct.
  pose proof (lookup_lt_Some _ _ _ Hj'). apply frame_nonce_inj in Hij; [|done|lia|lia]. subst j.
  rewrite <-Hct, (open_seal _ Ha) in Hopen by apply length_frame_nonce. by injection Hopen as <-.
Qed.

(** ** Theorems *)

(** The keys of the two ends of one lane: what one sends with, the other receives
    with. *)
Definition matching (kA kB : laneKeys) : Prop :=
  encrypted kA = encrypted kB ∧ kind kA = kind kB ∧ k_tx kA = k_rx kB ∧ k_rx kA = k_tx kB.

Definition lane_maxRead (k : laneKeys) : Z := if encrypted k then maxPkt - Z.of_nat aeadOverhead else maxPkt.

Lemma newAEAD_ok `{AEADs} c key a : newAEAD c key = Some a → aead_ok a ∧ Overhead a = aeadOverhead.
Proof.
  unfold newAEAD. destruct (_ || _); [apply newGCM_ok|]. case_bool_decide; [apply newChaCha_ok|done].
Qed.

Lemma newFrameAEAD_ok `{AEADs} c key f :
  newFrameAEAD c key = Some f → cipher_ok (Some f) ∧ overhead f = aeadOverhead.
Proof.
  unfold newFrameAEAD. destruct (newAEAD c key) as [a|] eqn:E; [|done]. intros [= <-].
  apply newAEAD_ok in E as [? ?]. split; [split; [done|]|done]. by split_and!.
Qed.

Lemma lane_ciphers_ok `{AEADs} k s o :
  lane_ciphers k = Some (s, o) →
  cipher_ok s ∧ s_overhead s = (if encrypted k then Z.of_nat aeadOverhead else 0).
Proof.
  unfold lane_ciphers. destruct (encrypted k); [|by intros [= <- <-]].
  destruct (newFrameAEAD (kind k) (k_tx k)) as [f|] eqn:E1; [|done].
  destruct (newFrameAEAD (kind k) (k_rx k)); [|done]. intros [= <- <-].
  apply newFrameAEAD_ok in E1 as [? Ho]. cbn. by rewrite Ho.
Qed.

Lemma lane_ciphers_matching `{AEADs} kA kB s o :
  matching kA kB → lane_ciphers kA = Some (s, o) → lane_ciphers kB = Some (o, s).
Proof.
  unfold matching, lane_ciphers. intros (-> & -> & -> & ->).
  destruct (encrypted kB); [|by intros [= <- <-]].
  destruct (newFrameAEAD (kind kB) (k_rx kB)), (newFrameAEAD (kind kB) (k_tx kB)); try done.
  by intros [= <- <-].
Qed.

Lemma lane_delivers `{AEADs} kA kB pioA pioB readsA readsB tA tB cA cB e s' cA' rA w :
  matching kA kB → reads_ok (lane_maxRead kA) readsA →
  no_fatal tB →
  runLane pioA kA readsA tA cA = Some ((e, s', cA'), rA) → tx cA' = tx cA ++ w → rx cB = w →
  e ≠ TxPanic ∧
  ∃ txB endB stB n, runLane pioB kB readsB tB cB = Some (txB, (endB, stB)) ∧
    taken (r_tun stB) =
      taken tB ++ accepted (outcomes tB) (take n (sent (lane_minRead pioA) readsA)) ∧
    (room cA = None →
      take n (sent (lane_minRead pioA) readsA) = sent (lane_minRead pioA) readsA ∧ endB = RxEOF).
Proof.
  intros Hm Hreads HtB. unfold runLane.
  destruct (lane_ciphers kA) as [[s o]|] eqn:Hc; [|done]. intros [= Hrun <-] Hw HrxB.
  rewrite (lane_ciphers_matching _ _ _ _ Hm Hc).
  destruct (lane_ciphers_ok _ _ _ Hc) as [Hs Hov].
  assert (1 <= lane_minRead pioA) as Hmin by (unfold lane_minRead, virtioNetHdrLen; destruct (VnetHdr pioA); lia).
  destruct (planned_plan (s_overhead s) (lane_minRead pioA) readsA) as (pss & Hcar & Hjoin & Hfit); [| |..].
  { rewrite Hov. unfold aeadMax, aeadOverhead. destruct (encrypted kA); lia. }
  { done. }
  { rewrite Hov. unfold lane_maxRead, maxPkt in Hreads. destruct (encrypted kA); [exact Hreads|].
    by rewrite Z.sub_0_r. }
  pose proof (tunToSock_plan (lane_minRead pioA) readsA s cA) as (_ & HcA & He).
  destruct (send_all (plan (lane_minRead pioA) readsA) s cA) as [[e0 s0] c0] eqn:Hsend.
  rewrite Hrun in HcA, He. cbn [fst snd] in HcA, He. subst c0.
  destruct (send_all_wire _ _ _ _ _ _ Hs Hfit Hsend) as (Hnp & _ & k & Htx' & Hall).
  split; [by destruct He as [->|[_ ->]]|]. rewrite Hw in Htx'. apply app_inv_head in Htx'.
  destruct (recv_prefix _ _ s k (length (rx cB)) tB Hcar Hs Hfit HtB) as (j & e1 & s1 & Hrecv & _ & Hfull);
    [by rewrite HrxB, Htx'|].
  rewrite <-Htx', <-HrxB in Hrecv.
  eexists _, e1, _, (length (mjoin (take j pss))). split; [unfold sockToTun; cbn [r_in]; by rewrite Hrecv|].
  cbn [r_tun]. rewrite taken_deliver by done.
  assert (take (length (mjoin (take j pss))) (sent (lane_minRead pioA) readsA) = mjoin (take j pss)) as ->.
  { assert (mjoin pss = mjoin (take j pss) ++ mjoin (drop j pss)) as E by (by rewrite <-join_app, take_drop).
    rewrite <-Hjoin, E. apply take_app_length. }
  split; [done|]. intros Hroom. destruct (Hall Hroom) as (_ & _ & Hk).
  destruct Hfull as [-> ->]; [|by rewrite Hjoin].
  apply (f_equal length) in Hk. rewrite length_take in Hk. lia.
Qed.

(** C3: End-to-end delivery over one lane, whatever the two devices and the
    cipher: if end A's connection never breaks, every packet A reads (those too
    short to be packets apart) reaches B's TUN exactly once and in order, frame
    by frame and across bursts coalesced into batch frames; if it breaks at any
    byte, B's TUN takes a prefix of them.  (A packet sharing a burst must leave
    room for its length field in a 16-bit frame.)  Neither end panics. *)
Theorem lane_delivery `{AEADs} kA kB pioA pioB readsA readsB tA tB cA cB e s' cA' rA :
  matching kA kB → reads_ok (lane_maxRead kA) readsA →
  tx cA = [] → no_fatal tB →
  runLane pioA kA readsA tA cA = Some ((e, s', cA'), rA) → rx cB = tx cA' →
  e ≠ TxPanic ∧
  ∃ txB endB stB n, runLane pioB kB readsB tB cB = Some (txB, (endB, stB)) ∧
    taken (r_tun stB) =
      taken tB ++ accepted (outcomes tB) (take n (sent (lane_minRead pioA) readsA)) ∧
    (room cA = None →
      take n (sent (lane_minRead pioA) readsA) = sent (lane_minRead pioA) readsA ∧ endB = RxEOF).
Proof.
  intros Hm Hreads Htx HtB Hrun HrxB. apply (lane_delivers kA kB pioA pioB readsA readsB tA tB cA cB e s' cA' rA (tx cA'));
    [done..|by rewrite Htx|done].
Qed.

(** The receive loop is total: on any byte stream, any cipher state and any
    TUN it returns, for a reason of the code (end of stream, short body, failed
    authentication, malformed batch, fatal TUN error), within as many iterations as
    the stream has bytes; a larger bound changes nothing. *)
Theorem sockToTun_total st n :
  (length (r_in st) <= n)%nat →
  sockToTun_fuel n st = sockToTun st ∧ (sockToTun st).1 ≠ RxFuel.
Proof.
  intros Hn. destruct (sockToTun_fuel_enough n (length (r_in st)) st Hn) as [E1 E2]; [done|].
  unfold sockToTun. by rewrite <-E1.
Qed.

(** C5: On an encrypted lane nothing unauthenticated reaches the TUN.  Whatever an attacker
    puts in the stream, the packets the receive loop delivers are, in order, packets cut
    from the first complete frames of that stream, the [i]-th of which the AEAD opened
    under the [i]-th nonce of the lane's counter: nothing is delivered from a frame that
    does not open, nor after one.  So where no forged ciphertext opens (what opens under a
    nonce is what the peer sealed under it), the plaintexts taken are the first plaintexts
    the peer sealed, none replayed, reordered or left out, for streams below 2^64 bytes.
    The type byte of a frame is not authenticated: it alone decides whether a plaintext is
    one packet or a batch. *)
Theorem sockToTun_authentic f st :
  frame_wf f → r_open st = Some f →
  ∃ xs new,
    (on_wire <$> xs) `prefix_of` stream_frames (r_in st) ∧
    (∀ i x, xs !! i = Some x → opened f i x) ∧
    taken (r_tun (sockToTun st).2) = taken (r_tun st) ++ new ∧
    new `sublist_of` mjoin (x_packets <$> xs) ∧
    (∀ plains, aead_ok (aead f) → zlen (r_in st) < 2 ^ 64 → zlen plains < 2 ^ 64 →
      no_forgery f plains (r_in st) → (x_pt <$> xs) `prefix_of` plains).
Proof.
  intros Hf Ho. destruct (sockToTun_accounts (length (r_in st)) f st Hf Ho) as [xs Hx].
  pose proof Hx as (Hp & Hop & new & Hn & Hl). exists xs, new. split_and!; try done.
  intros plains Ha Hs Hpl. by eapply accounts_in_order.
Qed.

(** C39: Why the length condition is there: on an open lane, a full-sized read
    (65535 bytes, as [maxRead] allows) that shares a burst with another packet
    makes a frame of 65537 bytes whose length field wraps to 1.  The receiver
    takes a one-byte frame, delivers nothing, and goes on to read the inside of the
    packet as frame headers. *)
Theorem batch_oversize_desync p q c t :
  zlen p = maxRead None → 1 <= zlen q <= 1500 → tx c = [] → room c = None →
  let '(_, _, c') := tunToSockBatch 1 [BPkts [p; q]] None c in
  ∃ rest, tx c' = [frTypeBatch; x00; x01; xff; xff] ++ p ++ rest ∧
    sockToTun_iter (mkRx None (tx c') t) = inl (mkRx None (xff :: p ++ rest) t).
Proof.
  unfold maxRead, maxPkt. intros Hp Hq Htx Hroom. cbn [tunToSockBatch batch_loop].
  assert (zlen (be16 (zlen q) ++ q) = 2 + zlen q) as Hl2 by (rewrite length_app, length_be16; lia).
  remember (be16 (zlen q) ++ q) as q2 eqn:E2. clear E2.
  unfold maxFrame. rewrite !(proj2 (Z.ltb_ge _ 1)) by lia. rewrite Hp.
  change (60000 <? zlen ([] : list byte) + 2 + 65535) with true.
  change (0 <? zlen ([] : list byte)) with false. change (be16 65535) with [xff; xff]. cbn [app].
  assert (zlen (xff :: xff :: p) = 65537) as Hl by (cbn [length]; lia). rewrite Hl.
  rewrite (proj2 (Z.ltb_lt 60000 _)) by lia. cbn [Z.ltb Z.compare].
  unfold flush at 1. cbn [seal_opt]. rewrite Hl. cbn -[be16]. unfold conn_Write at 1. rewrite Hroom.
  change (be16 65537) with [x00; x01]. cbn [app].
  rewrite (proj2 (Z.ltb_lt 0 (zlen q2))) by lia.
  unfold flush. cbn [seal_opt]. unfold hdrLen, maxPkt, aeadMax.
  change (3 + 65535 + 32 <? 3 + 65537) with false. cbn [seal_opt].
  rewrite (proj2 (Z.ltb_ge _ (3 + zlen q2))) by lia.
  unfold conn_Write. cbn [room tx]. rewrite Htx. cbn [app].
  eexists. split; [reflexivity|]. unfold sockToTun_iter. cbn [r_in]. change (u16 x00 x01) with 1.
  rewrite (proj2 (Z.ltb_ge (zlen (xff :: _)) 1)) by (cbn [length]; lia). reflexivity.
Qed.

(** ** Witnesses *)

Definition demo_lane_key : list byte := replicate 16 x11.
Definition demo_keysA : laneKeys := mkKeys true CipherAESGCM demo_lane_key (replicate 16 x22).
Definition demo_keysB : laneKeys := mkKeys true CipherAESGCM (replicate 16 x22) demo_lane_key.
Definition demo_pio : PacketIO := mkPIO false None true.
Definition demo_reads : tunReads :=
  ReadsBatch [BPkts [[x45; x01]]; BIntr; BPkts [[x45]; []; [x60; x02; x03]]].
Definition demo_conn : Conn := mkConn [] [] None.
Definition demo_tun : Tun := mkTun [] [].
#[local] Existing Instance toy_aeads.

Lemma lane_delivery_witness :
  matching demo_keysA demo_keysB ∧
  ∃ txA rA txB endB stB,
    runLane demo_pio demo_keysA demo_reads demo_tun demo_conn = Some (txA, rA) ∧
    runLane demo_pio demo_keysB (ReadsOne []) demo_tun (mkConn (tx txA.2) [] None) = Some (txB, (endB, stB)) ∧
    taken (r_tun stB) = [[x45; x01]; [x45]; [x60; x02; x03]].
Proof.
  split; [by split_and!|].
  destruct (runLane demo_pio demo_keysA demo_reads demo_tun demo_conn) as [[[[e s'] cA'] rA]|] eqn:E;
    [|discriminate E].
  destruct (lane_delivery demo_keysA demo_keysB demo_pio demo_pio demo_reads (ReadsOne []) demo_tun demo_tun
    demo_conn (mkConn (tx cA') [] None) e s' cA' rA) as (_ & txB & endB & stB & n & HB & Ht & Hall).
  - by split_and!.
  - cbn [reads_ok demo_reads]. rewrite !Forall_cons. cbn [burst_ok]. rewrite !Forall_cons.
    split_and!; done || apply Forall_nil_2.
  - reflexivity.
  - apply not_elem_of_nil.
  - exact E.
  - reflexivity.
  - exists (e, s', cA'), rA, txB, endB, stB. split; [reflexivity|]. split; [exact HB|].
    rewrite Ht. destruct (Hall eq_refl) as [-> _]. reflexivity.
Defined.

Lemma sockToTun_total_witness :
  (length (r_in (mkRx None [x00; x00; x01; x45; x07] demo_tun)) <= 9)%nat ∧
  (sockToTun (mkRx None [x00; x00; x01; x45; x07] demo_tun)).1 ≠ RxFuel.
Proof.
  assert (length (r_in (mkRx None [x00; x00; x01; x45; x07] demo_tun)) <= 9)%nat as Hl by (cbn; lia).
  split; [exact Hl|]. exact (proj2 (sockToTun_total _ _ Hl)).
Defined.

(** Two frames sealed with the lane's cipher, the first of them again, and one cut short:
    the replayed frame ends the loop, and the two packets are all that arrives. *)
Definition demo_frame : frameAEAD := mkFrame (toy_aead []) 0 (zeros 12).
Definition demo_plains : list (list byte) := [[x45; x46]; enc [[x60]; [x61; x62]]].
Definition demo_stream : list byte :=
  match (seal_all demo_frame demo_plains).1 with
  | [c1; c2] => frame frTypeSingle c1 ++ frame frTypeBatch c2 ++ frame frTypeSingle c1 ++ [x00; x00; x09; x45]
  | _ => []
  end.
Definition demo_rx : rxState := mkRx (Some demo_frame) demo_stream demo_tun.

(** Each ciphertext of the stream opens only under the nonce its tag carries. *)
Lemma demo_no_forgery : no_forgery demo_frame demo_plains demo_stream.
Proof.
  let l := eval vm_compute in (stream_frames demo_stream) in
    assert (stream_frames demo_stream = l) as E by (vm_compute; reflexivity).
  assert (∀ n ct pt, length n = 12%nat → Open (toy_aead []) n ct = Some pt →
    take 12 (drop (length ct - 16) ct) = n) as Htag.
  { intros n ct pt Hn. cbn [toy_aead Open]. case_bool_decide as Hd; [|done]. intros _. rewrite Hd.
    do 12 (destruct n as [|? n]; [discriminate Hn|]). by destruct n. }
  intros typ ct i pt Hin Hopen. apply Htag in Hopen; [|apply length_frame_nonce].
  rewrite E, !elem_of_cons in Hin.
  destruct Hin as [[= -> ->]|[[= -> ->]|[[= -> ->]|[]%not_elem_of_nil]]]; rewrite <-Hopen.
  - exists 0%nat. split; vm_compute; reflexivity.
  - exists 1%nat. split; vm_compute; reflexivity.
  - exists 0%nat. split; vm_compute; reflexivity.
Qed.

Lemma sockToTun_authentic_witness :
  taken (r_tun (sockToTun demo_rx).2) = [[x45; x46]; [x60]; [x61; x62]] ∧ (sockToTun demo_rx).1 = RxOpenFailed ∧
  ∃ xs, (on_wire <$> xs) `prefix_of` stream_frames demo_stream ∧ (∀ i x, xs !! i = Some x → opened demo_frame i x) ∧
    (x_pt <$> xs) `prefix_of` demo_plains ∧
    [[x45; x46]; [x60]; [x61; x62]] `sublist_of` mjoin (x_packets <$> xs).
Proof.
  assert (taken (r_tun (sockToTun demo_rx).2) = [[x45; x46]; [x60]; [x61; x62]]) as Ht by (vm_compute; reflexivity).
  split; [exact Ht|]. split; [vm_compute; reflexivity|].
  destruct (sockToTun_authentic demo_frame demo_rx) as (xs & new & Hp & Ho & Hn & Hl & Hall);
    [split_and!; reflexivity || (cbn; lia)|reflexivity|].
  exists xs. split; [exact Hp|]. split; [exact Ho|]. rewrite Ht in Hn. cbn [demo_rx demo_tun r_tun taken app] in Hn.
  subst new. split; [|exact Hl]. apply Hall; [apply toy_aead_ok|reflexivity|reflexivity|exact demo_no_forgery].
Defined.

(** The type byte is not authenticated: the same ciphertext read as a batch. *)
Example type_byte_decides :
  let rx typ := mkRx (Some demo_frame) (frame typ (seal demo_frame [x00; x01; x45]).1) demo_tun in
  taken (r_tun (sockToTun (rx frTypeSingle)).2) = [[x00; x01; x45]] ∧
  taken (r_tun (sockToTun (rx frTypeBatch)).2) = [[x45]].
Proof. vm_compute. done. Qed.

Lemma batch_oversize_desync_witness :
  let p := replicate (Z.to_nat 65535) x45 in
  zlen p = maxRead None ∧
  let '(_, _, c') := tunToSockBatch 1 [BPkts [p; [x45]]] None demo_conn in
  ∃ rest, tx c' = [frTypeBatch; x00; x01; xff; xff] ++ p ++ rest ∧
    sockToTun_iter (mkRx None (tx c') demo_tun) = inl (mkRx None (xff :: p ++ rest) demo_tun).
Proof.
  set (n := Z.to_nat 65535). intros p.
  assert (zlen p = maxRead None) as Hp
    by (unfold p; rewrite length_replicate; unfold n; rewrite Z2Nat.id by lia; reflexivity).
  split; [exact Hp|].
  apply (batch_oversize_desync p [x45] demo_conn demo_tun Hp); [cbn; lia|reflexivity|reflexivity].
Defined.
