(* ===== verification/Tun.v ===== *)
(** * tun_linux.go: the kernel TUN device

    Opening the queues of a device, the offload settings, and the batched read that
    feeds a lane.  The kernel is a state of any type with the two calls the code
    makes on it; every call the code issues is recorded, so that leaked descriptors
    show.  Reads run over the outcomes the system calls return. *)

From stdpp Require Import gmultiset.
From S2P Require Import Prelude Config GoIO LaneCrypto Lane.

Definition ifNamSize : nat := 16.
Definition iffTun : Z := 0x0001.
Definition iffNoPI : Z := 0x1000.
Definition iffMultiQueue : Z := 0x0100.
Definition iffVnetHdr : Z := 0x4000.

(** TUN_F_CSUM | TUN_F_TSO4 | TUN_F_TSO6. *)
Definition tunOffloadBase : Z := Z.lor (Z.lor 0x01 0x02) 0x04.
Definition tunFUSO4 : Z := 0x20.
Definition tunFUSO6 : Z := 0x40.

Record kernelTUN : Type := mkTUN {
  fd : Z;
  tun_vnetHdr : bool;
  usoOK : bool;
  nonblock : bool
}.

(** ** System calls on descriptors *)

(** A system call returns a value or an error number. *)
Inductive sysres (A : Type) : Type := Done (a : A) | Errno (e : Z).
Arguments Done {A} a.
Arguments Errno {A} e.

Definition succeeded {A} (r : sysres A) : bool := match r with Done _ => true | Errno _ => false end.

Inductive ioctlReq : Type :=
| TUNSETIFF (name : list byte) (flags : Z)
| TUNSETVNETHDRSZ (size : Z)
| TUNSETOFFLOAD (mask : Z).

Inductive sysEvent : Type :=
| EvOpen (fd : Z)                               (* the open succeeded *)
| EvIoctl (fd : Z) (req : ioctlReq) (done : bool)
| EvClose (fd : Z).

Inductive tunError : Type :=
| EQueueCount
| EQueue (i : nat) (e : tunError)
| EOpenTun (errno : Z)
| ESetIff (errno : Z)
| ESetHdrSize (errno : Z)
| ESetOffload (errno : Z)
| EUSONeedsHdr
| EUSOUnsupported.

Section kernel.
Context {W : Type}.

(** [open("/dev/net/tun")]; an ioctl returns the interface name left in its request. *)
Context (sys_open : W → sysres Z * W).
Context (sys_ioctl : Z → ioctlReq → W → sysres (list byte) * W).

Definition kstate : Type := W * list sysEvent.

Definition do_open (s : kstate) : sysres Z * kstate :=
  let '(r, w) := sys_open s.1 in
  (r, (w, match r with Done d => s.2 ++ [EvOpen d] | Errno _ => s.2 end)).

Definition do_ioctl (d : Z) (q : ioctlReq) (s : kstate) : sysres (list byte) * kstate :=
  let '(r, w) := sys_ioctl d q s.1 in (r, (w, s.2 ++ [EvIoctl d q (succeeded r)])).

Definition do_close (d : Z) (s : kstate) : kstate := (s.1, s.2 ++ [EvClose d]).

(** ** Offloads *)

Definition offload_mask (uso : bool) : Z :=
  if uso then Z.lor tunOffloadBase (Z.lor tunFUSO4 tunFUSO6) else tunOffloadBase.

Definition tunSetOffload (d : Z) (uso : bool) (s : kstate) : option Z * kstate :=
  let '(r, s') := do_ioctl d (TUNSETOFFLOAD (offload_mask uso)) s in
  (match r with Errno e => Some e | Done _ => None end, s').

Definition SetUSO (k : kernelTUN) (enable : bool) (s : kstate) : option tunError * kstate :=
  if negb (tun_vnetHdr k) then (if enable then Some EUSONeedsHdr else None, s)
  else if enable && negb (usoOK k) then (Some EUSOUnsupported, s)
  else let '(r, s') := tunSetOffload (fd k) enable s in (ESetOffload <$> r, s').

(** ** Opening *)

Definition if_flags (multiQueue vnetHdr : bool) : Z :=
  let f := Z.lor iffTun iffNoPI in
  let f := if multiQueue then Z.lor f iffMultiQueue else f in
  if vnetHdr then Z.lor f iffVnetHdr else f.

Fixpoint skip_nul (l : list byte) : list byte :=
  match l with b :: l' => if bool_decide (b = x00) then skip_nul l' else l | [] => [] end.

(** [bytes.TrimRight(name, "\x00")]. *)
Definition trim_nul (l : list byte) : list byte :=
  reverse (skip_nul (reverse l)).

Definition openTunQueue (name : string) (multiQueue vnetHdr : bool) (s : kstate)
    : result tunError (Z * string * bool) * kstate :=
  match do_open s with
  | (Done d, s) =>
      let req := TUNSETIFF (vec_to_list (array_of ifNamSize (bytes_of name))) (if_flags multiQueue vnetHdr) in
      match do_ioctl d req s with
      | (Done nm, s) =>
          let name' := string_of (trim_nul nm) in
          if vnetHdr then
            match do_ioctl d (TUNSETVNETHDRSZ virtioNetHdrLen) s with
            | (Done _, s) =>
                match tunSetOffload d false s with
                | (None, s) =>
                    match tunSetOffload d true s with
                    | (None, s) => (Ok (d, name', true), (tunSetOffload d false s).2)
                    | (Some _, s) => (Ok (d, name', false), s)
                    end
                | (Some e, s) => (Err (ESetOffload e), do_close d s)
                end
            | (Errno e, s) => (Err (ESetHdrSize e), do_close d s)
            end
          else (Ok (d, name', false), s)
      | (Errno e, s) => (Err (ESetIff e), do_close d s)
      end
  | (Errno e, s) => (Err (EOpenTun e), s)
  end.

Definition close_all (out : list kernelTUN) (s : kstate) : kstate :=
  foldl (λ s k, do_close (fd k) s) s out.

(** The loop that opens queue [i] and the [n] after it. *)
Fixpoint open_queues (name : string) (multiQueue vnetHdr : bool) (i n : nat) (out : list kernelTUN)
    (ifname : string) (s : kstate) : result tunError (list kernelTUN * string) * kstate :=
  match n with
  | O => (Ok (out, ifname), s)
  | S n' =>
      match openTunQueue name multiQueue vnetHdr s with
      | (Ok (d, nm, uso), s) =>
          open_queues name multiQueue vnetHdr (S i) n' (out ++ [mkTUN d vnetHdr uso false])
            (if bool_decide (ifname = EmptyString) then nm else ifname) s
      | (Err e, s) => (Err (EQueue i e), close_all out s)
      | (Panic, s) => (Panic, s)
      end
  end.

Definition OpenKernelTUN (name : string) (queues : Z) (vnetHdr : bool) (s : kstate)
    : result tunError (list kernelTUN * string) * kstate :=
  if queues <? 1 then (Err EQueueCount, s)
  else open_queues name (1 <? queues) vnetHdr 0 (Z.to_nat queues) [] EmptyString s.

(** ** Which descriptors stay open *)

Definition live_step (m : gmultiset Z) (e : sysEvent) : gmultiset Z :=
  match e with
  | EvOpen d => m ⊎ {[+ d +]}
  | EvIoctl _ _ _ => m
  | EvClose d => m ∖ {[+ d +]}
  end.

Definition live (l : list sysEvent) : gmultiset Z := foldl live_step ∅ l.

Definition fds (out : list kernelTUN) : gmultiset Z := list_to_set_disj (fd <$> out).

Lemma fds_nil : fds [] = ∅.
Proof. done. Qed.

Lemma fds_snoc out k : fds (out ++ [k]) = fds out ⊎ {[+ fd k +]}.
Proof.
  unfold fds. rewrite fmap_app, list_to_set_disj_app. cbn [fmap list_fmap list_to_set_disj].
  by rewrite (right_id_L ∅ (⊎)).
Qed.

Lemma live_snoc l e : live (l ++ [e]) = live_step (live l) e.
Proof. apply foldl_snoc. Qed.

Lemma do_ioctl_live d q s : live (do_ioctl d q s).2.2 = live s.2.
Proof. unfold do_ioctl. destruct (sys_ioctl d q s.1). cbn [snd]. by rewrite live_snoc. Qed.

Lemma tunSetOffload_live d uso s : live (tunSetOffload d uso s).2.2 = live s.2.
Proof.
  unfold tunSetOffload. pose proof (do_ioctl_live d (TUNSETOFFLOAD (offload_mask uso)) s) as H.
  by destruct (do_ioctl d _ s) as [r s'].
Qed.

Lemma do_close_live d s m : live s.2 = m ⊎ {[+ d +]} → live (do_close d s).2 = m.
Proof. intros H. unfold do_close. cbn [snd]. rewrite live_snoc. cbn. rewrite H. multiset_solver. Qed.

Lemma openTunQueue_live name multi vnet s :
  match openTunQueue name multi vnet s with
  | (Ok (d, _, uso), s') => live s'.2 = live s.2 ⊎ {[+ d +]} ∧ (uso = true → vnet = true)
  | (Err _, s') => live s'.2 = live s.2
  | (Panic, _) => False
  end.
Proof.
  unfold openTunQueue. destruct (do_open s) as [r s1] eqn:Ho.
  unfold do_open in Ho. destruct (sys_open s.1) as [r0 w]. simplify_eq/=.
  destruct r as [d|e]; [|done].
  assert (live (w, s.2 ++ [EvOpen d]).2 = live s.2 ⊎ {[+ d +]}) as H1 by apply live_snoc.
  revert H1. generalize (w, s.2 ++ [EvOpen d]). intros s1 H1.
  pose proof (do_ioctl_live d (TUNSETIFF (vec_to_list (array_of ifNamSize (bytes_of name))) (if_flags multi vnet)) s1) as H2.
  destruct (do_ioctl d _ s1) as [[nm|e] s2]; cbn [snd] in H2; [|apply do_close_live; by rewrite H2].
  destruct vnet; [|by rewrite H2].
  pose proof (do_ioctl_live d (TUNSETVNETHDRSZ virtioNetHdrLen) s2) as H3.
  destruct (do_ioctl d _ s2) as [[nm'|e] s3]; cbn [snd] in H3; [|apply do_close_live; congruence].
  pose proof (tunSetOffload_live d false s3) as H4.
  destruct (tunSetOffload d false s3) as [[e|] s4]; cbn [snd] in H4; [apply do_close_live; congruence|].
  pose proof (tunSetOffload_live d true s4) as H5.
  destruct (tunSetOffload d true s4) as [[e|] s5]; cbn [snd] in H5; (split; [|done]); [congruence|].
  rewrite tunSetOffload_live. congruence.
Qed.

Lemma close_all_live out s m : live s.2 = m ⊎ fds out → live (close_all out s).2 = m.
Proof.
  revert s m. induction out as [|k out IH]; intros s m H.
  { unfold fds in H. cbn in H. cbn. rewrite H. multiset_solver. }
  cbn [close_all foldl]. fold (close_all out (do_close (fd k) s)). apply IH.
  apply do_close_live. rewrite H. unfold fds. cbn [fmap list_fmap list_to_set_disj]. multiset_solver.
Qed.

Definition queue_ok (vnet : bool) (k : kernelTUN) : Prop :=
  tun_vnetHdr k = vnet ∧ nonblock k = false ∧ (usoOK k = true → vnet = true).

Lemma open_queues_spec name multi vnet n :
  ∀ i out ifname s m, live s.2 = m ⊎ fds out → Forall (queue_ok vnet) out →
  match open_queues name multi vnet i n out ifname s with
  | (Ok (qs, _), s') =>
      length qs = (length out + n)%nat ∧ live s'.2 = m ⊎ fds qs ∧ Forall (queue_ok vnet) qs
  | (Err _, s') => live s'.2 = m
  | (Panic, _) => False
  end.
Proof.
  induction n as [|n IH]; intros i out ifname s m Hs Hq; cbn [open_queues].
  { split_and!; [lia|done..]. }
  pose proof (openTunQueue_live name multi vnet s) as Hl.
  destruct (openTunQueue name multi vnet s) as [[[[d nm] uso]|e|] s']; [|apply close_all_live; congruence|done].
  destruct Hl as [Hl Hu]. set (k := mkTUN d vnet uso false).
  specialize (IH (S i) (out ++ [k]) (if bool_decide (ifname = EmptyString) then nm else ifname) s' m).
  assert (live s'.2 = m ⊎ fds (out ++ [k])) as Hs'.
  { by rewrite Hl, Hs, fds_snoc, (assoc_L (⊎)). }
  assert (Forall (queue_ok vnet) (out ++ [k])) as Hq' by (apply Forall_app; split; [done|by apply Forall_singleton]).
  specialize (IH Hs' Hq'). rewrite length_app, Nat.add_1_r, Nat.add_succ_comm in IH. exact IH.
Qed.

(** Opening leaves exactly its queues' descriptors open, and none when it fails. *)
Lemma OpenKernelTUN_spec name queues vnet s :
  match OpenKernelTUN name queues vnet s with
  | (Ok (qs, _), s') =>
      Z.of_nat (length qs) = queues ∧ live s'.2 = live s.2 ⊎ fds qs ∧ Forall (queue_ok vnet) qs
  | (Err e, s') => live s'.2 = live s.2 ∧ (queues < 1 ↔ e = EQueueCount) ∧ (queues < 1 → s' = s)
  | (Panic, _) => False
  end.
Proof.
  unfold OpenKernelTUN. destruct (Z.ltb_spec queues 1) as [Hlt|Hge]; [done|].
  pose proof (open_queues_spec name (1 <? queues) vnet (Z.to_nat queues) 0 [] EmptyString s (live s.2)) as H.
  destruct (open_queues _ _ _ _ _ _ _ s) as [[[qs nm]|e|] s'] eqn:E.
  - destruct H as (Hlen & Hl & Hq); [by rewrite fds_nil, (right_id_L ∅ (⊎))|constructor|].
    split_and!; [rewrite Hlen; cbn; lia|done..].
  - split; [apply H; [by rewrite fds_nil, (right_id_L ∅ (⊎))|constructor]|]. split; [|lia]. split; [lia|].
    intros ->. clear H. exfalso. revert E. generalize 0%nat, (@nil kernelTUN), EmptyString, s.
    induction (Z.to_nat queues) as [|n IH]; intros i out nm s0; cbn [open_queues]; [done|].
    destruct (openTunQueue _ _ _ s0) as [[[[d nm'] uso]|e|] s1]; [apply IH|done..].
  - apply H; [by rewrite fds_nil, (right_id_L ∅ (⊎))|constructor].
Qed.

(** Opening a device.  On success there is one queue per lane, each with the
    asked-for header mode and with UDP offload only where the header is on, and exactly
    their descriptors are open beyond those open before; on any failure, of whichever
    call, every descriptor opened on the way has been closed.  A count below one is
    refused without a system call. *)
Theorem OpenKernelTUN_no_leak name queues vnet s :
  match OpenKernelTUN name queues vnet s with
  | (Ok (qs, _), s') =>
      Z.of_nat (length qs) = queues ∧ live s'.2 = live s.2 ⊎ fds qs ∧ Forall (queue_ok vnet) qs
  | (Err e, s') => live s'.2 = live s.2 ∧ (queues < 1 ↔ e = EQueueCount) ∧ (queues < 1 → s' = s)
  | (Panic, _) => False
  end.
Proof. apply OpenKernelTUN_spec. Qed.

(** Enabling UDP offload is asked of the kernel only on a queue that supports it. *)
Lemma SetUSO_gated k enable s :
  match SetUSO k enable s with
  | (None, s') => (enable = true → tun_vnetHdr k = true ∧ usoOK k = true) ∧
      (tun_vnetHdr k = true → s'.2 = s.2 ++ [EvIoctl (fd k) (TUNSETOFFLOAD (offload_mask enable)) true])
  | (Some _, s') => s' = s ∨ s'.2 = s.2 ++ [EvIoctl (fd k) (TUNSETOFFLOAD (offload_mask enable)) false]
  end.
Proof.
  unfold SetUSO, tunSetOffload, do_ioctl. destruct (tun_vnetHdr k), enable, (usoOK k); cbn; try by auto.
  all: destruct (sys_ioctl _ _ _) as [[a|e] w]; cbn; auto.
Qed.

End kernel.

(** ** Reading *)

(** The outcome of one non-blocking read, and of one poll. *)
Inductive devRead : Type := DPkt (p : list byte) | DAgain | DIntr | DErr (errno : Z).
Inductive pollRes : Type := PReady | PIntr | PErr (errno : Z).

(** What the device has still to answer. *)
Record device : Type := mkDev { d_reads : list devRead; d_polls : list pollRes }.

(** [None]: still waiting when the answers run out. *)
Fixpoint read_first (cap : nat) (reads : list devRead) (polls : list pollRes)
    : option (sysres (list byte)) * device :=
  match reads with
  | [] => (None, mkDev [] polls)
  | DPkt p :: rs => (Some (Done (take cap p)), mkDev rs polls)
  | DAgain :: rs =>
      match polls with
      | [] => (None, mkDev rs [])
      | PErr e :: ps => (Some (Errno e), mkDev rs ps)
      | _ :: ps => read_first cap rs ps
      end
  | DIntr :: rs => read_first cap rs polls
  | DErr e :: rs => (Some (Errno e), mkDev rs polls)
  end.

(** The draining loop over the buffers left; a read with no answer to come finds
    the queue empty. *)
Fixpoint drain (caps : list nat) (reads : list devRead) : list (list byte) * list devRead :=
  match caps, reads with
  | cap :: caps', DPkt p :: rs => let '(ps, rs') := drain caps' rs in (take cap p :: ps, rs')
  | _ :: _, _ :: rs => ([], rs)                 (* EAGAIN or an error: stop *)
  | _, _ => ([], reads)
  end.

Inductive batchOut : Type :=
| RBlocked
| RFailed (errno : Z)
| RPackets (ps : list (list byte))
| RPanic.                                       (* no buffer: [bufs[0]] *)

(** [setnb] is the outcome of switching the descriptor to non-blocking mode. *)
Definition ReadBatch (setnb : option Z) (caps : list nat) (k : kernelTUN) (d : device)
    : batchOut * kernelTUN * device :=
  match (if nonblock k then None else setnb) with
  | Some e => (RFailed e, k, d)
  | None =>
      let k' := mkTUN (fd k) (tun_vnetHdr k) (usoOK k) true in
      match caps with
      | [] => (RPanic, k', d)
      | cap :: caps' =>
          match read_first cap (d_reads d) (d_polls d) with
          | (None, d') => (RBlocked, k', d')
          | (Some (Errno e), d') => (RFailed e, k', d')
          | (Some (Done p), d') =>
              let '(ps, rs) := drain caps' (d_reads d') in (RPackets (p :: ps), k', mkDev rs (d_polls d'))
          end
      end
  end.

(** [Read], without the batch: an interrupted read is repeated. *)
Fixpoint Read (cap : nat) (reads : list devRead) : option (sysres (list byte)) * list devRead :=
  match reads with
  | [] => (None, [])
  | DPkt p :: rs => (Some (Done (take cap p)), rs)
  | DIntr :: rs => Read cap rs
  | DAgain :: rs => (Some (Errno 11), rs)       (* EAGAIN *)
  | DErr e :: rs => (Some (Errno e), rs)
  end.

(** ** No packet is lost or reordered *)

Definition packet_of (r : devRead) : option (list byte) := match r with DPkt p => Some p | _ => None end.
Definition packets (rs : list devRead) : list (list byte) := omap packet_of rs.

Lemma packets_cons r rs :
  packets (r :: rs) = match packet_of r with Some p => [p] | None => [] end ++ packets rs.
Proof. unfold packets. cbn. by destruct (packet_of r). Qed.

Lemma read_first_spec cap polls reads r d :
  read_first cap reads polls = (r, d) →
  match r with
  | Some (Done p) => ∃ q, p = take cap q ∧ packets reads = q :: packets (d_reads d)
  | _ => packets reads = packets (d_reads d)
  end ∧ (length (d_reads d) + (if r is Some _ then 1 else 0) <= length reads)%nat.
Proof.
  revert polls. induction reads as [|x reads IH]; intros polls H; cbn [read_first] in H; [by simplify_eq|].
  rewrite packets_cons. destruct x as [p| | |e]; cbn [packet_of app]; simplify_eq/=.
  - split; [eauto|lia].
  - destruct polls as [|[| |e] ps]; simplify_eq/=; try (split; [done|lia]);
      destruct (IH ps H) as [H1 H2]; (split; [done|lia]).
  - destruct (IH polls H) as [H1 H2]. split; [done|lia].
  - split; [done|lia].
Qed.

Lemma drain_spec cap n reads :
  let '(ps, rs) := drain (replicate n cap) reads in
  (length ps <= n)%nat ∧ (length rs <= length reads)%nat ∧
  ∃ qs, ps = take cap <$> qs ∧ packets reads = qs ++ packets rs.
Proof.
  revert reads. induction n as [|n IH]; intros reads; cbn [replicate drain].
  { destruct reads; (split_and!; [done..|by exists []]). }
  destruct reads as [|r reads]; [split_and!; [cbn; lia..|by exists []]|].
  rewrite packets_cons. destruct r as [p| | |e]; cbn [packet_of app];
    try (split_and!; [cbn; lia..|by exists []]).
  specialize (IH reads). destruct (drain (replicate n cap) reads) as [ps rs].
  destruct IH as (H1 & H2 & qs & -> & Hq). split_and!; [cbn; lia..|]. exists (p :: qs). by rewrite Hq.
Qed.

(** The first read succeeds: its answers, up to a packet, hold no error, and no poll
    fails (a poll follows each [DAgain]). *)
Definition comes_first (reads : list devRead) (polls : list pollRes) (p : list byte) : Prop :=
  ∃ pre post, reads = pre ++ DPkt p :: post ∧ Forall (λ r, r = DAgain ∨ r = DIntr) pre ∧
    (length pre <= length polls)%nat ∧ Forall (λ r, ∀ e, r ≠ PErr e) polls.

Lemma read_first_live cap reads polls p :
  comes_first reads polls p → (read_first cap reads polls).1 = Some (Done (take cap p)).
Proof.
  intros (pre & post & -> & Hpre & Hlen & Hp). revert polls Hlen Hp.
  induction Hpre as [|r pre Hr Hpre IH]; intros polls Hlen Hp; [done|].
  cbn [app read_first length] in *. destruct Hr as [-> | ->]; [|apply IH; [lia|done]].
  destruct polls as [|q polls]; [cbn in Hlen; lia|]. apply Forall_cons in Hp as [Hq Hp].
  cbn in Hlen. destruct q as [| |e]; [apply IH; [lia|done]..|by destruct (Hq e)].
Qed.

Lemma ReadBatch_spec cap n k d o k' d' :
  ReadBatch None (replicate (S n) cap) k d = (o, k', d') →
  nonblock k' = true ∧
  match o with
  | RPackets ps => (1 <= length ps <= S n)%nat ∧ (length (d_reads d') < length (d_reads d))%nat ∧
      ∃ qs, ps = take cap <$> qs ∧ packets (d_reads d) = qs ++ packets (d_reads d')
  | RPanic => False
  | _ => packets (d_reads d) = packets (d_reads d')
  end.
Proof.
  unfold ReadBatch. replace (if nonblock k then None else None) with (@None Z) by by destruct (nonblock k).
  cbn [replicate]. destruct (read_first cap (d_reads d) (d_polls d)) as [r d1] eqn:Hr.
  apply read_first_spec in Hr as [Hr Hlen]. destruct r as [[p|e]|]; [|intros [= <- <- <-]; by rewrite Hr..].
  destruct Hr as (q & -> & Hq). pose proof (drain_spec cap n (d_reads d1)) as Hd.
  destruct (drain (replicate n cap) (d_reads d1)) as [ps rs]. destruct Hd as (H1 & H2 & qs & -> & H3).
  intros [= <- <- <-]. cbn [d_reads length] in *. split; [done|]. split_and!; [lia..|].
  exists (q :: qs). by rewrite Hq, H3.
Qed.

(** The calls of [tunToSockBatch], as the bursts its loop runs over. *)
Fixpoint drive (fuel : nat) (caps : list nat) (k : kernelTUN) (d : device) : list batchRead :=
  match fuel with
  | O => []
  | S fuel' =>
      match ReadBatch None caps k d with
      | (RPackets ps, k', d') => BPkts ps :: drive fuel' caps k' d'
      | (RFailed _, _, _) => [BErr]
      | _ => []
      end
  end.

Definition burst (b : batchRead) : list (list byte) := match b with BPkts ps => ps | _ => [] end.

Definition burst_ok (n : nat) (b : batchRead) : Prop :=
  match b with BPkts ps => (1 <= length ps <= n)%nat | BIntr => False | BErr => True end.

Lemma drive_spec cap n fuel k d :
  Forall (burst_ok (S n)) (drive fuel (replicate (S n) cap) k d) ∧
  ∃ qs rest, (drive fuel (replicate (S n) cap) k d ≫= burst) = take cap <$> qs ∧ packets (d_reads d) = qs ++ rest.
Proof.
  revert k d. induction fuel as [|fuel IH]; intros k d.
  { split; [constructor|]. by exists [], (packets (d_reads d)). }
  cbn [drive]. destruct (ReadBatch None (replicate (S n) cap) k d) as [[o k'] d'] eqn:Hr.
  apply ReadBatch_spec in Hr as [_ Ho].
  destruct o as [|e|ps|]; [..|done]; try (split; [repeat constructor|by exists [], (packets (d_reads d))]).
  destruct Ho as (Hl & _ & qs & -> & Hp). destruct (IH k' d') as (Hf & qs' & rest & Hq & Hr). split; [by constructor|].
  exists (qs ++ qs'), rest. cbn [mbind list_bind burst]. rewrite Hq, fmap_app. split; [done|].
  by rewrite Hp, Hr, (assoc_L (++)).
Qed.

(** No error among the answers, and enough of them to wait for each packet. *)
Definition quiet (d : device) : Prop :=
  Forall (λ r, ∀ e, r ≠ DErr e) (d_reads d) ∧ Forall (λ r, ∀ e, r ≠ PErr e) (d_polls d) ∧
  (length (d_reads d) <= length (d_polls d))%nat.

Lemma read_first_quiet cap reads polls :
  quiet (mkDev reads polls) →
  let '(r, d) := read_first cap reads polls in
  quiet d ∧ match r with Some (Done _) => True | Some (Errno _) => False | None => packets reads = [] end.
Proof.
  revert polls. induction reads as [|x reads IH]; intros polls (H1 & H2 & H3); cbn [d_reads d_polls] in *; [done|].
  apply Forall_cons in H1 as [Hx H1]. rewrite packets_cons. cbn [length] in H3.
  destruct x as [p| | |e]; cbn [read_first packet_of app].
  - split; [|done]. split_and!; cbn; [done..|lia].
  - destruct polls as [|q polls]; [cbn in H3; lia|]. apply Forall_cons in H2 as [Hq H2]. cbn in H3.
    destruct q as [| |e]; [| |by destruct (Hq e)]; apply IH; (split_and!; cbn; [done..|lia]).
  - apply IH. split_and!; cbn; [done..|lia].
  - by destruct (Hx e).
Qed.

Lemma drain_quiet caps reads polls :
  quiet (mkDev reads polls) → quiet (mkDev (drain caps reads).2 polls).
Proof.
  revert reads. induction caps as [|cap caps IH]; intros reads (H1 & H2 & H3); cbn [drain]; [by destruct reads|].
  cbn [d_reads d_polls] in *. destruct reads as [|r reads]; [done|]. apply Forall_cons in H1 as [Hr H1]. cbn in H3.
  assert (quiet (mkDev reads polls)) as Hq by (split_and!; cbn; [done..|lia]).
  destruct r as [p| | |e]; try done. specialize (IH reads Hq). by destruct (drain caps reads).
Qed.

Lemma drive_complete cap n fuel k d :
  quiet d → (length (d_reads d) <= fuel)%nat →
  (drive fuel (replicate (S n) cap) k d ≫= burst) = take cap <$> packets (d_reads d).
Proof.
  revert k d. induction fuel as [|fuel IH]; intros k [reads polls] Hq Hlen; cbn [d_reads] in *.
  { by destruct reads; [|cbn in Hlen; lia]. }
  cbn [drive]. destruct (ReadBatch None (replicate (S n) cap) k (mkDev reads polls)) as [[o k'] d'] eqn:Hr.
  pose proof (ReadBatch_spec _ _ _ _ _ _ _ Hr) as [_ Ho]. cbn [d_reads] in Ho. unfold ReadBatch in Hr.
  replace (if nonblock k then None else None) with (@None Z) in Hr by by destruct (nonblock k).
  cbn [replicate d_reads d_polls] in Hr.
  pose proof (read_first_quiet cap reads polls Hq) as Hf.
  destruct (read_first cap reads polls) as [r [rs ps]]. destruct Hf as [Hq' Hf].
  destruct r as [[p|e]|]; [|done|]; cycle 1.
  { simplify_eq. by rewrite Hf. }
  pose proof (drain_quiet (replicate n cap) rs ps Hq') as Hd.
  cbn [d_reads d_polls] in Hr. destruct (drain (replicate n cap) rs) as [qs rs'].
  injection Hr as <- <- <-. destruct Ho as (_ & Hlt & qs' & Heq & Hp). cbn [d_reads] in *.
  rewrite bind_cons. cbn [burst].
  rewrite (IH _ (mkDev rs' ps)) by (done || (cbn; lia)). by rewrite Hp, fmap_app, <-Heq.
Qed.

(** C33: The batched read of a queue.  A call returns between one packet and as many as
    there are buffers; over any sequence of calls the packets handed to the lane are
    the first ones the device produced, in order, none skipped or repeated, each cut to
    the buffer; interrupted and empty reads are invisible; and while the device reports
    no error, every packet it has is handed over. *)
Theorem ReadBatch_lossless cap n k d :
  let bursts := drive (length (d_reads d)) (replicate (S n) cap) k d in
  Forall (burst_ok (S n)) bursts
  ∧ (∃ qs rest, bursts ≫= burst = take cap <$> qs ∧ packets (d_reads d) = qs ++ rest)
  ∧ (quiet d → bursts ≫= burst = take cap <$> packets (d_reads d)).
Proof.
  cbn zeta. destruct (drive_spec cap n (length (d_reads d)) k d) as [H1 H2]. split_and!; [done..|].
  intros Hq. by apply drive_complete.
Qed.

(** A call that fails before the first packet leaves the packets in the device. *)
Lemma ReadBatch_first cap n k d p :
  comes_first (d_reads d) (d_polls d) p →
  ∃ ps k' d', ReadBatch None (replicate (S n) cap) k d = (RPackets (take cap p :: ps), k', d').
Proof.
  intros Hc. pose proof (read_first_live cap _ _ p Hc) as Hr. unfold ReadBatch.
  replace (if nonblock k then None else None) with (@None Z) by by destruct (nonblock k). cbn [replicate].
  destruct (read_first cap (d_reads d) (d_polls d)) as [r d1]. cbn [fst] in Hr. subst r.
  destruct (drain (replicate n cap) (d_reads d1)). eauto.
Qed.

Example ReadBatch_sample :
  drive 6 (replicate 2 4%nat) (mkTUN 3 false false false)
    (mkDev [DAgain; DIntr; DPkt [x01]; DPkt [x02; x03; x04; x05; x06]; DPkt [x07]; DAgain] [PReady; PReady])
  = [BPkts [[x01]; [x02; x03; x04; x05]]; BPkts [[x07]]].
Proof. vm_compute. reflexivity. Qed.
