(* ===== verification/Handshake.v ===== *)
(** * handshake.go: the Noise IK handshake over the envelope

    The wire layout of the two payloads, the authorizer, and both sides of the
    handshake in the monad of [GoIO].  flynn/noise is the class [NoiseIK]: its
    operations with the completeness of the IK pattern (two honest parties that
    agree on suite, prologue and keys finish with each other's payloads, the
    client's static key and equal transport keys).  The 32 random bytes of an
    ephemeral key are drawn from the same supply as the envelope's.  Deadlines are
    not represented beyond the read errors they cause. *)

From S2P Require Import Prelude Netip Users IPPool Config GoIO Obfs LaneCrypto Lane.

Definition hsVersion : byte := x07.
Definition addrSlotLen : nat := 17.
Definition clientPayloadLen : nat := 1 + 1 + 1 + addrSlotLen + addrSlotLen + 1.
Definition serverPayloadLen : nat :=
  1 + addrSlotLen + 1 + addrSlotLen + addrSlotLen + 1 + addrSlotLen + 1.
Definition hsFlagUSO : byte := x01.
Definition hsPrologue : list byte := bytes_of "packethose-v7".

Record laneIdentity : Type := mkIdent {
  keys : laneKeys;
  id_clientID : clientID;
  pubKey : list byte;
  laneCount : byte;
  userName : string;
  usoEnabled : bool;
  assigned4 : Addr; prefix4 : byte; peer4 : Addr;
  assigned6 : Addr; prefix6 : byte; peer6 : Addr
}.

Definition zeroKeys : laneKeys := mkKeys false CipherNone [] [].
Definition zeroID : clientID := array_of clientIDLen [].
Definition zeroIdentity : laneIdentity :=
  mkIdent zeroKeys zeroID [] x00 EmptyString false AddrZero x00 AddrZero AddrZero x00 AddrZero.

Definition hasAssignment (id : laneIdentity) : bool :=
  (negb (bool_decide (prefix4 id = x00)) && IsValid (assigned4 id)) ||
  (negb (bool_decide (prefix6 id = x00)) && IsValid (assigned6 id)).

(** ** Address slots *)

Definition encodeAddrSlot (a : Addr) : list byte :=
  if negb (IsValid a) || IsUnspecified a then zeros addrSlotLen
  else if Is4 a then x04 :: AsSlice a ++ zeros 12
  else if Is6 a then x06 :: AsSlice a
  else zeros addrSlotLen.

Definition decodeAddrSlot (b : list byte) : Addr :=
  if (length b <? addrSlotLen)%nat then AddrZero
  else
    let fam := default x00 (b !! 0%nat) in
    if bool_decide (fam = x04) then AddrFrom4 (array_of 4 (slice b 1 5))
    else if bool_decide (fam = x06) then AddrFrom16 (array_of 16 (slice b 1 17))
    else AddrZero.

Record AssignmentRequest : Type := mkReq { req_V4 : Addr; req_V6 : Addr }.

Record AssignmentResponse : Type := mkAsg {
  V4Addr : Addr; V4Prefix : byte; V4Peer : Addr;
  V6Addr : Addr; V6Prefix : byte; V6Peer : Addr
}.
Definition zeroAsg : AssignmentResponse := mkAsg AddrZero x00 AddrZero AddrZero x00 AddrZero.

(** ** Payloads *)

Inductive hsError : Type :=
| EIO (e : ioError)
| ENoise                          (* NewHandshakeState or WriteMessage failed *)
| EServerAuth                     (* client side: message 2 did not open *)
| EClientAuth                     (* server side: message 1 did not open *)
| EShortPayload
| EVersion (got : byte)
| EUser (e : userError)
| ECipherMismatch (client server : Cipher)
| EAssign (msg : string).

Definition usoFlag (uso : bool) : byte := if uso then hsFlagUSO else x00.

(** [b & hsFlagUSO != 0] *)
Definition has_uso (b : byte) : bool := negb (Z.land (b2z b) (b2z hsFlagUSO) =? 0).

Definition buildClientPayload (cipher : Cipher) (laneCount : byte) (req : AssignmentRequest)
    (uso : bool) : list byte :=
  [hsVersion; cipher; laneCount] ++ encodeAddrSlot (req_V4 req) ++ encodeAddrSlot (req_V6 req)
  ++ [usoFlag uso].

Definition parseClientPayload (p : list byte)
    : result hsError (Cipher * byte * AssignmentRequest * bool) :=
  if (length p <? clientPayloadLen)%nat then Err EShortPayload
  else
    let at_ i := default x00 (p !! i) in
    if negb (bool_decide (at_ 0%nat = hsVersion)) then Err (EVersion (at_ 0%nat))
    else Ok (at_ 1%nat, at_ 2%nat,
             mkReq (decodeAddrSlot (slice p 3 (3 + addrSlotLen)))
                   (decodeAddrSlot (slice p (3 + addrSlotLen) (3 + 2 * addrSlotLen))),
             has_uso (at_ (3 + 2 * addrSlotLen)%nat)).

Definition buildServerPayload (asg : AssignmentResponse) (uso : bool) : list byte :=
  [hsVersion] ++ encodeAddrSlot (V4Addr asg) ++ [V4Prefix asg] ++ encodeAddrSlot (V4Peer asg)
  ++ encodeAddrSlot (V6Addr asg) ++ [V6Prefix asg] ++ encodeAddrSlot (V6Peer asg) ++ [usoFlag uso].

Definition parseServerPayload (p : list byte) : result hsError (AssignmentResponse * bool) :=
  if (length p <? serverPayloadLen)%nat then Err EShortPayload
  else
    let at_ i := default x00 (p !! i) in
    if negb (bool_decide (at_ 0%nat = hsVersion)) then Err (EVersion (at_ 0%nat))
    else
      let pos1 := 1%nat in
      let pos2 := (pos1 + addrSlotLen)%nat in
      let pos3 := (pos2 + 1)%nat in
      let pos4 := (pos3 + addrSlotLen)%nat in
      let pos5 := (pos4 + addrSlotLen)%nat in
      let pos6 := (pos5 + 1)%nat in
      let pos7 := (pos6 + addrSlotLen)%nat in
      Ok (mkAsg (decodeAddrSlot (slice p pos1 (pos1 + addrSlotLen))) (at_ pos2)
                (decodeAddrSlot (slice p pos3 (pos3 + addrSlotLen)))
                (decodeAddrSlot (slice p pos4 (pos4 + addrSlotLen))) (at_ pos5)
                (decodeAddrSlot (slice p pos6 (pos6 + addrSlotLen))),
          has_uso (at_ pos7)).

(** ** The payloads' round trips *)

(** What an address slot conveys: no zone, and no unspecified address. *)
Definition slot_addr (a : Addr) : Addr :=
  if negb (IsValid a) || IsUnspecified a then AddrZero else withoutZone a.

Lemma length_encodeAddrSlot a : length (encodeAddrSlot a) = addrSlotLen.
Proof.
  unfold encodeAddrSlot. destruct (_ || _); [done|].
  destruct a; cbn [Is4 Is6]; [done|..]; cbn [length AsSlice]; rewrite ?length_app, length_vec_to_list; done.
Qed.

Lemma decode_encode_slot a : decodeAddrSlot (encodeAddrSlot a) = slot_addr a.
Proof.
  unfold decodeAddrSlot. rewrite length_encodeAddrSlot, Nat.ltb_irrefl.
  unfold encodeAddrSlot, slot_addr. destruct (_ || _) eqn:E; [done|].
  destruct a as [|b|b z]; [done|..]; cbn [Is4 Is6 AsSlice withoutZone lookup list_lookup default].
  - rewrite bool_decide_eq_true_2 by done. change (x04 :: ?l) with ([x04] ++ l).
    rewrite slice_app_mid by (by rewrite ?length_vec_to_list). by rewrite array_of_vec_to_list.
  - rewrite bool_decide_eq_false_2, bool_decide_eq_true_2 by done.
    rewrite <-(app_nil_r (vec_to_list b)). change (x06 :: ?l) with ([x06] ++ l).
    rewrite slice_app_mid by (by rewrite ?length_vec_to_list). unfold AddrFrom16.
    by rewrite array_of_vec_to_list.
Qed.

Lemma has_uso_flag u : has_uso (usoFlag u) = u.
Proof. by destruct u. Qed.

(** The byte after a prefix of known length. *)
Lemma at_app (l k : list byte) b i : length l = i → default x00 ((l ++ b :: k) !! i) = b.
Proof. intros <-. by rewrite list_lookup_middle. Qed.

Lemma length_buildClientPayload c n req u : length (buildClientPayload c n req u) = clientPayloadLen.
Proof. unfold buildClientPayload. rewrite !length_app, !length_encodeAddrSlot. done. Qed.

Lemma length_buildServerPayload asg u : length (buildServerPayload asg u) = serverPayloadLen.
Proof. unfold buildServerPayload. rewrite !length_app, !length_encodeAddrSlot. done. Qed.

Lemma parse_buildClient cipher lanes req uso rest :
  parseClientPayload (buildClientPayload cipher lanes req uso ++ rest) =
  Ok (cipher, lanes, mkReq (slot_addr (req_V4 req)) (slot_addr (req_V6 req)), uso).
Proof.
  unfold parseClientPayload. rewrite length_app, length_buildClientPayload.
  rewrite (proj2 (Nat.ltb_ge _ _)) by lia. unfold buildClientPayload. rewrite <-!app_assoc.
  pose proof (length_encodeAddrSlot (req_V4 req)) as L4. pose proof (length_encodeAddrSlot (req_V6 req)) as L6.
  rewrite <-!decode_encode_slot.
  remember (encodeAddrSlot (req_V4 req)) as s4. remember (encodeAddrSlot (req_V6 req)) as s6.
  rewrite bool_decide_eq_true_2 by done. cbn [negb].
  rewrite (slice_app_mid [hsVersion; cipher; lanes]) by (done || by rewrite L4).
  rewrite (app_assoc [hsVersion; cipher; lanes]), (slice_app_mid _ s6)
    by (rewrite ?length_app, ?L4, ?L6; done).
  rewrite (app_assoc _ s6).
  rewrite (at_app _ rest (usoFlag uso) (3 + 2 * addrSlotLen)) by (rewrite !length_app, L4, L6; done).
  by rewrite has_uso_flag.
Qed.

Lemma parse_buildServer asg uso rest :
  parseServerPayload (buildServerPayload asg uso ++ rest) =
  Ok (mkAsg (slot_addr (V4Addr asg)) (V4Prefix asg) (slot_addr (V4Peer asg))
            (slot_addr (V6Addr asg)) (V6Prefix asg) (slot_addr (V6Peer asg)), uso).
Proof.
  unfold parseServerPayload. rewrite length_app, length_buildServerPayload.
  rewrite (proj2 (Nat.ltb_ge _ _)) by lia. unfold buildServerPayload. rewrite <-!app_assoc.
  pose proof (length_encodeAddrSlot (V4Addr asg)) as La. pose proof (length_encodeAddrSlot (V4Peer asg)) as Lb.
  pose proof (length_encodeAddrSlot (V6Addr asg)) as Lc. pose proof (length_encodeAddrSlot (V6Peer asg)) as Ld.
  rewrite <-!decode_encode_slot.
  remember (encodeAddrSlot (V4Addr asg)) as a. remember (encodeAddrSlot (V4Peer asg)) as b.
  remember (encodeAddrSlot (V6Addr asg)) as c. remember (encodeAddrSlot (V6Peer asg)) as d.
  set (P := [hsVersion] ++ _).
  assert (∀ l m k i, P = l ++ m ++ k → length l = i → length m = addrSlotLen →
    slice P i (i + addrSlotLen) = m) as Hs by (intros * -> ? ?; apply slice_app_mid; congruence).
  assert (∀ l m k i, P = l ++ m :: k → length l = i → default x00 (P !! i) = m) as Ha
    by (intros * -> ?; by apply at_app).
  rewrite (Ha [] hsVersion _ 0%nat) by done. rewrite bool_decide_eq_true_2 by done. cbn [negb]. cbv zeta.
  rewrite (Hs [hsVersion] a _ _ eq_refl) by done.
  rewrite (Ha ([hsVersion] ++ a) (V4Prefix asg) _ _ eq_refl) by (by rewrite length_app, La).
  rewrite (Hs ([hsVersion] ++ a ++ [V4Prefix asg]) b (c ++ [V6Prefix asg] ++ d ++ [usoFlag uso] ++ rest))
    by (unfold P; rewrite <-?app_assoc, ?length_app, ?La; done).
  rewrite (Hs ([hsVersion] ++ a ++ [V4Prefix asg] ++ b) c ([V6Prefix asg] ++ d ++ [usoFlag uso] ++ rest))
    by (unfold P; rewrite <-?app_assoc, ?length_app, ?La, ?Lb; done).
  rewrite (Ha ([hsVersion] ++ a ++ [V4Prefix asg] ++ b ++ c) (V6Prefix asg) (d ++ [usoFlag uso] ++ rest))
    by (unfold P; rewrite <-?app_assoc, ?length_app, ?La, ?Lb, ?Lc; done).
  rewrite (Hs ([hsVersion] ++ a ++ [V4Prefix asg] ++ b ++ c ++ [V6Prefix asg]) d ([usoFlag uso] ++ rest))
    by (unfold P; rewrite <-?app_assoc, ?length_app, ?La, ?Lb, ?Lc; done).
  rewrite (Ha ([hsVersion] ++ a ++ [V4Prefix asg] ++ b ++ c ++ [V6Prefix asg] ++ d) (usoFlag uso) rest)
    by (unfold P; rewrite <-?app_assoc, ?length_app, ?La, ?Lb, ?Lc, ?Ld; done).
  by rewrite has_uso_flag.
Qed.

(** ** Authorization *)

Definition serverAuthorizer (users : option UserDB) (peerPub clientPub : list byte)
    : result userError string :=
  let peer :=
    if (0 <? length peerPub)%nat && bool_decide (clientPub = peerPub)
    then Ok EmptyString else Err ErrUnknownUser in
  match users with
  | Some db =>
      if negb (Empty db) then
        match LookupByKey users clientPub with
        | None => Err ErrUnknownUser
        | Some u => Ok (Name u)
        end
      else peer
  | None => peer
  end.

(** ** The Noise library *)

Inductive noiseCipherSuite : Type := SuiteChaChaPoly | SuiteAESGCM.

Definition noiseSuite (c : Cipher) : noiseCipherSuite :=
  if bool_decide (c = CipherChaCha) then SuiteChaChaPoly else SuiteAESGCM.

Record DHKey : Type := mkDHKey { dh_Private : list byte; dh_Public : list byte }.

Record NoiseConfig : Type := mkNoiseCfg {
  n_suite : noiseCipherSuite;
  n_initiator : bool;
  n_prologue : list byte;
  n_static : DHKey;
  n_peer : list byte                       (* PeerStatic; [] when not known *)
}.

Class NoiseIK : Type := {
  HandshakeState : Type;
  x25519_public : list byte → list byte;   (* of a 32-byte private key *)
  NewHandshakeState : NoiseConfig → option HandshakeState;
  (* with the ephemeral's random bytes; the two cipher states' keys on the last message *)
  WriteMessage : HandshakeState → list byte → list byte →
    option (list byte * option (list byte * list byte) * HandshakeState);
  ReadMessage : HandshakeState → list byte →
    option (list byte * option (list byte * list byte) * HandshakeState);
  PeerStatic : HandshakeState → list byte;
  (* hkdf.Expand(sha256.New, key, info) *)
  hkdf_expand : list byte → list byte → nat → list byte;

  hkdf_expand_length key info n : (n <= 255 * 32)%nat → length (hkdf_expand key info n) = n;
  x25519_public_length priv : length priv = 32%nat → length (x25519_public priv) = 32%nat;
  ik_complete suite prologue kc ks e1 e2 :
    dh_Public kc = x25519_public (dh_Private kc) → dh_Public ks = x25519_public (dh_Private ks) →
    length (dh_Private kc) = 32%nat → length (dh_Private ks) = 32%nat →
    length e1 = 32%nat → length e2 = 32%nat →
    ∃ i0 r0,
      NewHandshakeState (mkNoiseCfg suite true prologue kc (dh_Public ks)) = Some i0 ∧
      NewHandshakeState (mkNoiseCfg suite false prologue ks []) = Some r0 ∧
      (* a message is at most 65535 bytes *)
      ∀ p1 p2, Z.of_nat (length p1) <= 65535 - 96 → Z.of_nat (length p2) <= 65535 - 48 → ∃ m1 i1 r1 m2 r2 i2 k1 k2,
        WriteMessage i0 e1 p1 = Some (m1, None, i1) ∧ length m1 = (32 + 48 + length p1 + 16)%nat ∧
        ReadMessage r0 m1 = Some (p1, None, r1) ∧ PeerStatic r1 = dh_Public kc ∧
        WriteMessage r1 e2 p2 = Some (m2, Some (k1, k2), r2) ∧ length m2 = (32 + length p2 + 16)%nat ∧
        ReadMessage i1 m2 = Some (p2, Some (k1, k2), i2)
}.

Definition ephemeralLen : nat := 32.

Section handshake.
Context `{ObfsCrypto, NoiseIK} {σ : Type}.

(** A failed handshake returns the identity known so far with the error. *)
Definition hsFail : Type := laneIdentity * hsError.

Definition PublicFromPrivate (priv : list byte) : option (list byte) :=
  if (length priv =? 32)%nat then Some (x25519_public priv) else None.

Definition noiseStatic (priv : list byte) : option DHKey :=
  match PublicFromPrivate priv with
  | None => None
  | Some pub => Some (mkDHKey priv pub)
  end.

Definition transportKey (c : Cipher) (k : list byte) : list byte :=
  hkdf_expand k (bytes_of "packethose-transport-v7") (keyLen c).

(** [hs.WriteMessage(nil, payload)], and the cipher states of a last message. *)
Definition noise_Write (fail : hsError → hsFail) (hs : HandshakeState) (payload : list byte)
    : M (World σ) hsFail (list byte * option (list byte * list byte) * HandshakeState) :=
  e ← with_err (λ e, fail (EIO e)) (rand_Read ephemeralLen);
  lift (match WriteMessage hs e payload with Some r => Ok r | None => Err (fail ENoise) end).

(** The keys of both directions; the library returns none before the last
    message, and [transportKey] would then dereference nil. *)
Definition lane_keys (cipher : Cipher) (cs : option (list byte * list byte)) (initiator : bool)
    : result hsFail laneKeys :=
  match cs with
  | None => Panic
  | Some (k1, k2) =>
      Ok (if initiator then mkKeys true cipher (transportKey cipher k1) (transportKey cipher k2)
          else mkKeys true cipher (transportKey cipher k2) (transportKey cipher k1))
  end.

Definition initiateHandshake (static : DHKey) (serverPub : list byte) (cipher : Cipher)
    (localUSO : bool) (lanes : byte) (req : AssignmentRequest) : M (World σ) hsFail laneIdentity :=
  let fail e := (zeroIdentity, e) in
  let obfsKey := obfsKeyFromServerPub serverPub in
  hs ← lift (match NewHandshakeState (mkNoiseCfg (noiseSuite cipher) true hsPrologue static serverPub) with
             | Some hs => Ok hs | None => Err (fail ENoise) end);
  '(msg1, _, hs) ← noise_Write fail hs (buildClientPayload cipher lanes req localUSO);
  _ ← with_err (λ e, fail (EIO e)) (writeObfMsg obfsKey msg1);
  rawMsg2 ← with_err (λ e, fail (EIO e)) (readObfMsg obfsKey);
  '(payload2, cs, _) ← lift (match ReadMessage hs rawMsg2 with
                             | Some r => Ok r | None => Err (fail EServerAuth) end);
  '(asg, serverUSO) ← with_err fail (lift (parseServerPayload payload2));
  ks ← lift (lane_keys cipher cs true);
  mret (mkIdent ks (deriveClientID (dh_Public static)) (dh_Public static) lanes EmptyString
          (localUSO && serverUSO) (V4Addr asg) (V4Prefix asg) (V4Peer asg)
          (V6Addr asg) (V6Prefix asg) (V6Peer asg)).

(** The server's hooks: the authorizer reads the live user set, the assignment hook
    updates the pools. *)
Definition authFn : Type := σ → list byte → result userError string.
Definition assignHook : Type := string → clientID → AssignmentRequest → M σ string AssignmentResponse.

Definition run_auth (fail : hsError → hsFail) (authorize : authFn) (pub : list byte)
    : M (World σ) hsFail string := λ w,
  (match authorize (appst w) pub with Ok u => Ok u | Err e => Err (fail (EUser e)) | Panic => Panic end, w).

Definition run_assign (fail : hsError → hsFail) (assignFn : option assignHook) (user : string)
    (id : clientID) (req : AssignmentRequest) : M (World σ) hsFail AssignmentResponse := λ w,
  match assignFn with
  | None => (Ok zeroAsg, w)
  | Some f =>
      let '(r, a') := f user id req (appst w) in
      (match r with Ok asg => Ok asg | Err e => Err (fail (EAssign e)) | Panic => Panic end,
       mkWorld (conn w) (rnd w) a')
  end.

Definition acceptHandshake (static : DHKey) (cipher : Cipher) (localUSO : bool)
    (authorize : authFn) (assignFn : option assignHook) : M (World σ) hsFail laneIdentity :=
  let fail0 e := (zeroIdentity, e) in
  let obfsKey := obfsKeyFromServerPub (dh_Public static) in
  hs ← lift (match NewHandshakeState (mkNoiseCfg (noiseSuite cipher) false hsPrologue static []) with
             | Some hs => Ok hs | None => Err (fail0 ENoise) end);
  rawMsg1 ← with_err (λ e, fail0 (EIO e)) (readObfMsg obfsKey);
  '(payload1, _, hs) ← lift (match ReadMessage hs rawMsg1 with
                             | Some r => Ok r | None => Err (fail0 EClientAuth) end);
  let clientPub := PeerStatic hs in
  let cid := deriveClientID clientPub in
  let fail e := (mkIdent zeroKeys cid clientPub x00 EmptyString false
                   AddrZero x00 AddrZero AddrZero x00 AddrZero, e) in
  user ← run_auth fail authorize clientPub;
  '(pCipher, lanes, req, clientUSO) ← with_err fail (lift (parseClientPayload payload1));
  _ ← (if negb (bool_decide (pCipher = cipher)) then throw (fail (ECipherMismatch pCipher cipher))
       else mret tt);
  asg ← run_assign fail assignFn user cid req;
  '(msg2, cs, _) ← noise_Write fail hs (buildServerPayload asg localUSO);
  _ ← with_err (λ e, fail (EIO e)) (writeObfMsg obfsKey msg2);
  ks ← lift (lane_keys cipher cs false);
  mret (mkIdent ks cid clientPub lanes user (localUSO && clientUSO)
          (V4Addr asg) (V4Prefix asg) (V4Peer asg) (V6Addr asg) (V6Prefix asg) (V6Peer asg)).

End handshake.

(** ** Theorems *)

Section theorems.
Context `{ObfsCrypto, NoiseIK}.

Lemma noiseStatic_Some priv k :
  noiseStatic priv = Some k →
  dh_Private k = priv ∧ dh_Public k = x25519_public (dh_Private k) ∧ length (dh_Private k) = 32%nat.
Proof.
  unfold noiseStatic, PublicFromPrivate. destruct (_ =? _)%nat eqn:E; bool_to_prop; [|done].
  by intros [= <-].
Qed.

Lemma noise_Write_Ok {σ} fail hs (w : World σ) e rest payload r :
  rnd w = e ++ rest → length e = ephemeralLen → WriteMessage hs e payload = Some r →
  noise_Write fail hs payload w = (Ok r, mkWorld (conn w) rest (appst w)).
Proof.
  intros Hr He Hw. unfold noise_Write.
  rewrite (bind_Ok _ _ _ _ _ (with_err_Ok _ _ _ _ _ (rand_Read_app _ _ _ _ Hr He))).
  by rewrite Hw.
Qed.

(** The world with these bytes to receive. *)
Definition feed {σ} (m : list byte) (w : World σ) : World σ :=
  mkWorld (mkConn m (tx (conn w)) (room (conn w))) (rnd w) (appst w).

Definition slot_req (req : AssignmentRequest) : AssignmentRequest :=
  mkReq (slot_addr (req_V4 req)) (slot_addr (req_V6 req)).

(** The entropy of one handshake side: an ephemeral key and one envelope. *)
Definition hsEntropy : nat := ephemeralLen + (16 + 1 + 255).

Lemma hs_rnd_split (r : list byte) :
  (hsEntropy <= length r)%nat →
  ∃ e salt pb pad rest, r = e ++ salt ++ pb :: pad ++ rest ∧ length e = ephemeralLen ∧
    length salt = obfsSaltLen ∧ length pad = Z.to_nat (b2z pb).
Proof.
  unfold hsEntropy, ephemeralLen. intros Hr.
  destruct (rnd_split (drop 32 r)) as (salt & pb & pad & rest & E & Hs & Hp).
  { rewrite length_drop. lia. }
  exists (take 32 r), salt, pb, pad, rest. rewrite <-E, take_drop, length_take. split_and!; done || lia.
Qed.

Lemma initiate_run {σ} kc serverPub cipher uso lanes req (w : World σ)
    e salt pb pad rest i0 m1 i1 i2 k1 k2 m2 salt2 pad2 asg usoS more :
  rnd w = e ++ salt ++ pb :: pad ++ rest → length e = ephemeralLen → length salt = obfsSaltLen →
  length pad = Z.to_nat (b2z pb) → room (conn w) = None →
  NewHandshakeState (mkNoiseCfg (noiseSuite cipher) true hsPrologue kc serverPub) = Some i0 →
  WriteMessage i0 e (buildClientPayload cipher lanes req uso) = Some (m1, None, i1) →
  (length m1 <= 4096)%nat → (length m2 <= 4096)%nat →
  length salt2 = obfsSaltLen → Z.of_nat (length pad2) < 65536 →
  ReadMessage i1 m2 = Some (buildServerPayload asg usoS, Some (k1, k2), i2) →
  rx (conn w) = envelope (obfsKeyFromServerPub serverPub) salt2 m2 pad2 ++ more →
  initiateHandshake kc serverPub cipher uso lanes req w =
  (Ok (mkIdent (mkKeys true cipher (transportKey cipher k1) (transportKey cipher k2))
         (deriveClientID (dh_Public kc)) (dh_Public kc) lanes EmptyString (uso && usoS)
         (slot_addr (V4Addr asg)) (V4Prefix asg) (slot_addr (V4Peer asg))
         (slot_addr (V6Addr asg)) (V6Prefix asg) (slot_addr (V6Peer asg))),
   mkWorld (mkConn more (tx (conn w) ++ envelope (obfsKeyFromServerPub serverPub) salt m1 pad) None) rest (appst w)).
Proof.
  intros Hrnd He Hsalt Hpad Hroom Hi0 Hw1 Hl1 Hl2 Hs2 Hp2 Hr2 Hrx. unfold initiateHandshake.
  rewrite Hi0. erewrite (bind_Ok (lift (Ok i0))) by reflexivity.
  erewrite bind_Ok by (eapply noise_Write_Ok; [exact Hrnd|exact He|exact Hw1]). cbv beta iota.
  erewrite bind_Ok by (apply with_err_Ok; eapply writeObfMsg_envelope; [exact Hl1|done|reflexivity|done..]).
  erewrite bind_Ok by (apply with_err_Ok; eapply readObfMsg_envelope;
    [exact Hl2|exact Hp2|exact Hs2|exact Hrx]).
  rewrite Hr2. erewrite (bind_Ok (lift (Ok _))) by reflexivity. cbv beta iota.
  pose proof (parse_buildServer asg usoS []) as Hparse. rewrite app_nil_r in Hparse. rewrite Hparse.
  erewrite (bind_Ok (with_err _ _)) by reflexivity. cbv beta iota. cbn [lane_keys].
  erewrite (bind_Ok (lift (Ok _))) by reflexivity. cbv beta iota. done.
Qed.

Lemma accept_run {σ} ks cipher uso (authorize : authFn) (assignFn : option assignHook) (w : World σ)
    e salt pb pad rest r0 m1 r1 r2 k1 k2 m2 salt1 pad1 lanes req usoC user asg a' more :
  rnd w = e ++ salt ++ pb :: pad ++ rest → length e = ephemeralLen → length salt = obfsSaltLen →
  length pad = Z.to_nat (b2z pb) → room (conn w) = None →
  NewHandshakeState (mkNoiseCfg (noiseSuite cipher) false hsPrologue ks []) = Some r0 →
  (length m1 <= 4096)%nat → (length m2 <= 4096)%nat →
  length salt1 = obfsSaltLen → Z.of_nat (length pad1) < 65536 →
  rx (conn w) = envelope (obfsKeyFromServerPub (dh_Public ks)) salt1 m1 pad1 ++ more →
  ReadMessage r0 m1 = Some (buildClientPayload cipher lanes req usoC, None, r1) →
  authorize (appst w) (PeerStatic r1) = Ok user →
  match assignFn with
  | None => (Ok zeroAsg, appst w)
  | Some f => f user (deriveClientID (PeerStatic r1)) (slot_req req) (appst w)
  end = (Ok asg, a') →
  WriteMessage r1 e (buildServerPayload asg uso) = Some (m2, Some (k1, k2), r2) →
  acceptHandshake ks cipher uso authorize assignFn w =
  (Ok (mkIdent (mkKeys true cipher (transportKey cipher k2) (transportKey cipher k1))
         (deriveClientID (PeerStatic r1)) (PeerStatic r1) lanes user (uso && usoC)
         (V4Addr asg) (V4Prefix asg) (V4Peer asg) (V6Addr asg) (V6Prefix asg) (V6Peer asg)),
   mkWorld (mkConn more (tx (conn w) ++ envelope (obfsKeyFromServerPub (dh_Public ks)) salt m2 pad) None) rest a').
Proof.
  intros Hrnd He Hsalt Hpad Hroom Hr0 Hl1 Hl2 Hs1 Hp1 Hrx Hr1 Hauth Hasg Hw2. unfold acceptHandshake.
  rewrite Hr0. erewrite (bind_Ok (lift (Ok r0))) by reflexivity.
  erewrite bind_Ok by (apply with_err_Ok; eapply readObfMsg_envelope;
    [exact Hl1|exact Hp1|exact Hs1|exact Hrx]).
  rewrite Hr1. erewrite (bind_Ok (lift (Ok _))) by reflexivity. cbv beta iota.
  erewrite bind_Ok by (unfold run_auth; cbn [appst]; rewrite Hauth; reflexivity).
  pose proof (parse_buildClient cipher lanes req usoC []) as Hparse. rewrite app_nil_r in Hparse. rewrite Hparse.
  erewrite (bind_Ok (with_err _ _)) by reflexivity. cbv beta iota.
  rewrite bool_decide_eq_true_2 by done. cbn [negb]. erewrite bind_Ok by reflexivity.
  erewrite (bind_Ok (run_assign _ _ _ _ _) _ _ asg
    (mkWorld (mkConn more (tx (conn w)) (room (conn w))) (rnd w) a')).
  2: { unfold run_assign. cbn [appst conn rnd]. destruct assignFn as [f|].
       - fold (slot_req req). by rewrite Hasg.
       - by injection Hasg as <- <-. }
  erewrite bind_Ok by (eapply noise_Write_Ok; [exact Hrnd|exact He|exact Hw2]). cbv beta iota.
  erewrite bind_Ok by (apply with_err_Ok; eapply writeObfMsg_envelope; [exact Hl2|exact Hroom|reflexivity|done..]).
  cbn [lane_keys]. erewrite (bind_Ok (lift (Ok _))) by reflexivity. cbv beta iota. done.
Qed.
(** What the two sides know after a handshake. *)
Record agreed (kc : DHKey) (cipher : Cipher) (uso : bool) (lanes : byte) (user : string) (asg : AssignmentResponse)
    (idC idS : laneIdentity) : Prop := mkAgreed {
  ag_keys : matching (keys idC) (keys idS);
  ag_encrypted : encrypted (keys idC) = true ∧ kind (keys idC) = cipher;
  ag_uso : usoEnabled idC = uso ∧ usoEnabled idS = uso;
  ag_client : pubKey idS = dh_Public kc ∧ id_clientID idS = deriveClientID (dh_Public kc) ∧ id_clientID idC = id_clientID idS;
  ag_user : userName idS = user ∧ laneCount idS = lanes;
  ag_v4 : assigned4 idC = slot_addr (assigned4 idS) ∧ prefix4 idC = prefix4 idS ∧ peer4 idC = slot_addr (peer4 idS);
  ag_v6 : assigned6 idC = slot_addr (assigned6 idS) ∧ prefix6 idC = prefix6 idS ∧ peer6 idC = slot_addr (peer6 idS);
  ag_asg : assigned4 idS = V4Addr asg ∧ prefix4 idS = V4Prefix asg ∧ assigned6 idS = V6Addr asg ∧ prefix6 idS = V6Prefix asg
}.

Lemma handshake_agrees {σ τ} privC privS kc ks cipher usoC usoS lanes req
    (authorize : authFn) (assignFn : option assignHook) (wc : World σ) (ws : World τ) user asg a' :
  noiseStatic privC = Some kc → noiseStatic privS = Some ks →
  room (conn wc) = None → room (conn ws) = None →
  (hsEntropy <= length (rnd wc))%nat → (hsEntropy <= length (rnd ws))%nat →
  authorize (appst ws) (dh_Public kc) = Ok user →
  match assignFn with
  | None => (Ok zeroAsg, appst ws)
  | Some f => f user (deriveClientID (dh_Public kc)) (slot_req req) (appst ws)
  end = (Ok asg, a') →
  ∃ msg1 msg2 idC idS,
    (∀ more, ∃ r, initiateHandshake kc (dh_Public ks) cipher usoC lanes req (feed (msg2 ++ more) wc) =
       (Ok idC, mkWorld (mkConn more (tx (conn wc) ++ msg1) None) r (appst wc))) ∧
    (∀ more, ∃ r, acceptHandshake ks cipher usoS authorize assignFn (feed (msg1 ++ more) ws) =
       (Ok idS, mkWorld (mkConn more (tx (conn ws) ++ msg2) None) r a')) ∧
    agreed kc cipher (usoC && usoS) lanes user asg idC idS.
Proof.
  intros Hkc Hks Hrc Hrs Hec Hes Hauth Hasg.
  destruct (noiseStatic_Some _ _ Hkc) as (_ & Hpc & Hlc).
  destruct (noiseStatic_Some _ _ Hks) as (_ & Hps & Hls).
  destruct (hs_rnd_split _ Hec) as (e1 & salt1 & pb1 & pad1 & rest1 & Hr1 & He1 & Hs1 & Hd1).
  destruct (hs_rnd_split _ Hes) as (e2 & salt2 & pb2 & pad2 & rest2 & Hr2 & He2 & Hs2 & Hd2).
  destruct (ik_complete (noiseSuite cipher) hsPrologue kc ks e1 e2)
    as (i0 & r0 & Hi0 & Hr0 & Hrun); [done..|].
  destruct (Hrun (buildClientPayload cipher lanes req usoC) (buildServerPayload asg usoS))
    as (m1 & i1 & r1 & m2 & r2 & i2 & k1 & k2 & Hw1 & Hl1 & Hrd1 & Hpeer & Hw2 & Hl2 & Hrd2);
    [rewrite length_buildClientPayload; by compute|rewrite length_buildServerPayload; by compute|].
  rewrite length_buildClientPayload in Hl1. rewrite length_buildServerPayload in Hl2.
  assert (length m1 <= 4096)%nat as Hb1 by (rewrite Hl1; apply Nat.leb_le; reflexivity).
  assert (length m2 <= 4096)%nat as Hb2 by (rewrite Hl2; apply Nat.leb_le; reflexivity).
  pose proof (b2z_range pb1). pose proof (b2z_range pb2).
  set (okey := obfsKeyFromServerPub (dh_Public ks)).
  exists (envelope okey salt1 m1 pad1), (envelope okey salt2 m2 pad2).
  eexists _, _. split; [|split].
  - intros more. exists rest1. eapply initiate_run with (pad2 := pad2) (w := feed _ wc);
      [exact Hr1|done..|exact Hi0|exact Hw1|exact Hb1|exact Hb2|exact Hs2|lia|exact Hrd2|reflexivity].
  - intros more. exists rest2. eapply accept_run with (pad1 := pad1) (w := feed _ ws);
      [exact Hr2|done..|exact Hr0|exact Hb1|exact Hb2|exact Hs1|lia|reflexivity|exact Hrd1| | |exact Hw2];
      cbn [appst feed]; rewrite Hpeer; [exact Hauth|exact Hasg].
  - split; cbn; rewrite ?Hpeer; try done. split; [done|apply andb_comm].
Qed.

(** C4: A complete handshake between honest parties: with the same suite, on
    connections that do not break, a client the server authorizes and an
    assignment hook that succeeds, both sides finish and agree.  There are two
    messages such that the client, receiving the second, sends the first, and the
    server, receiving the first, sends the second, each leaving what follows on the
    stream to the lane; then the transport keys of the two sides match crosswise,
    segmentation offload is on exactly when both support it, the server knows the
    client by its static key, and the client has the addresses the server's hook
    assigned. *)
Theorem handshake_agreement {σ τ} privC privS kc ks cipher usoC usoS lanes req
    (authorize : authFn) (assignFn : option assignHook) (wc : World σ) (ws : World τ) user asg a' :
  noiseStatic privC = Some kc → noiseStatic privS = Some ks →
  room (conn wc) = None → room (conn ws) = None →
  (hsEntropy <= length (rnd wc))%nat → (hsEntropy <= length (rnd ws))%nat →
  authorize (appst ws) (dh_Public kc) = Ok user →
  match assignFn with
  | None => (Ok zeroAsg, appst ws)
  | Some f => f user (deriveClientID (dh_Public kc)) (slot_req req) (appst ws)
  end = (Ok asg, a') →
  ∃ msg1 msg2 idC idS,
    (∀ more, ∃ r, initiateHandshake kc (dh_Public ks) cipher usoC lanes req (feed (msg2 ++ more) wc) =
       (Ok idC, mkWorld (mkConn more (tx (conn wc) ++ msg1) None) r (appst wc))) ∧
    (∀ more, ∃ r, acceptHandshake ks cipher usoS authorize assignFn (feed (msg1 ++ more) ws) =
       (Ok idS, mkWorld (mkConn more (tx (conn ws) ++ msg2) None) r a')) ∧
    agreed kc cipher (usoC && usoS) lanes user asg idC idS.
Proof. apply handshake_agrees. Qed.

(** Message 1 as the server finds it: the bytes of the first envelope, opened with the key
    of the server's own public key, are a message the Noise responder accepts; [pub] is the
    static key the library reports for its sender, and the payload asks for [req] under the
    server's own cipher. *)
Definition client_hello {σ} (static : DHKey) (cipher : Cipher) (w : World σ)
    (pub : list byte) (lanes : byte) (req : AssignmentRequest) (usoC : bool) : Prop :=
  ∃ hs0 raw w0 payload cs hs1,
    NewHandshakeState (mkNoiseCfg (noiseSuite cipher) false hsPrologue static []) = Some hs0 ∧
    readObfMsg (obfsKeyFromServerPub (dh_Public static)) w = (Ok raw, w0) ∧
    ReadMessage hs0 raw = Some (payload, cs, hs1) ∧ pub = PeerStatic hs1 ∧
    parseClientPayload payload = Ok (cipher, lanes, req, usoC).

(** The hook's state changed by one call of the hook, for the key message 1 proved, that
    the authorizer accepted in the state before. *)
Definition by_hook {σ} (static : DHKey) (cipher : Cipher) (authorize : authFn) (f : assignHook)
    (w w' : World σ) (pub : list byte) : Prop :=
  ∃ lanes req usoC user, client_hello static cipher w pub lanes req usoC ∧
    authorize (appst w) pub = Ok user ∧ appst w' = (f user (deriveClientID pub) req (appst w)).2.

Lemma keeps_noise_Write {σ} fail hs payload : keeps_app (σ := σ) (noise_Write fail hs payload).
Proof. unfold noise_Write. apply keeps_bind; auto with phose. Qed.

(** The outcomes of a server-side handshake, by the step it stops at. *)
Lemma accept_spec {σ} static cipher uso (authorize : authFn) (f : assignHook) (w : World σ) :
  let '(r, w') := acceptHandshake static cipher uso authorize (Some f) w in
  match r with
  | Ok id =>
      authorize (appst w) (pubKey id) = Ok (userName id) ∧
      id_clientID id = deriveClientID (pubKey id) ∧ encrypted (keys id) = true ∧
      ∃ req usoC asg, client_hello static cipher w (pubKey id) (laneCount id) req usoC ∧
        usoEnabled id = uso && usoC ∧
        f (userName id) (id_clientID id) req (appst w) = (Ok asg, appst w') ∧
        assigned4 id = V4Addr asg ∧ assigned6 id = V6Addr asg ∧
        prefix4 id = V4Prefix asg ∧ prefix6 id = V6Prefix asg
  | Err (id, _) =>
      appst w' = appst w ∨
      by_hook static cipher authorize f w w' (pubKey id) ∧ id_clientID id = deriveClientID (pubKey id)
  | Panic => appst w' = appst w ∨ ∃ pub, by_hook static cipher authorize f w w' pub
  end.
Proof.
  match goal with |- let '(r, w') := ?m w in @?Q r w' => enough (wp m w Q) as Hwp end.
  { unfold wp in Hwp. by destruct (acceptHandshake _ _ _ _ _ w) as [r w']. }
  unfold acceptHandshake. apply wp_bind. unfold lift at 1, wp at 1. cbn [fst snd].
  destruct (NewHandshakeState _) as [hs0|] eqn:Hnew; [|by left].
  apply wp_bind. unfold with_err at 1, wp at 1.
  pose proof (keeps_readObfMsg (obfsKeyFromServerPub (dh_Public static)) w) as E1.
  destruct (readObfMsg _ w) as [[raw|e|] w1] eqn:Hread; cbn [fst snd] in E1 |- *; [|by left..].
  apply wp_bind. unfold lift at 1, wp at 1. cbn [fst snd].
  destruct (ReadMessage hs0 raw) as [[[payload cs1] hs]|] eqn:Hmsg; [|by left].
  apply wp_bind. unfold run_auth at 1, wp at 1. cbn [fst snd]. rewrite E1.
  destruct (authorize (appst w) (PeerStatic hs)) as [user|e|] eqn:Hauth; [|by left..].
  apply wp_bind. unfold lift at 1, with_err at 1, wp at 1.
  destruct (parseClientPayload payload) as [[[[pc lanes] req] usoC]|e|] eqn:Hparse; cbn [fst snd]; [|by left..].
  apply wp_bind. case_bool_decide as Hpc; cbn [negb]; [|by left]. subst pc. unfold mret at 1, M_ret, wp at 1. cbn [fst snd].
  assert (client_hello static cipher w (PeerStatic hs) lanes req usoC) as Hhello
    by (exists hs0, raw, w1, payload, cs1, hs; done).
  apply wp_bind. unfold run_assign at 1, wp at 1. rewrite E1.
  destruct (f user (deriveClientID (PeerStatic hs)) req (appst w)) as [ra a'] eqn:Hf.
  assert (∀ w', appst w' = a' → by_hook static cipher authorize f w w' (PeerStatic hs)) as Ha.
  { intros w' Hw'. exists lanes, req, usoC, user. by rewrite Hf, Hw'. }
  destruct ra as [asg|e|]; cbn [fst snd]; [|by right; split; [apply Ha|]|by right; eexists; apply Ha].
  apply wp_bind. unfold noise_Write at 1.
  apply wp_bind, wp_keeps_err; [apply keeps_rand_Read|]. intros [eph|x|] w5 E5 Hx; cbn [appst] in E5.
  2: { destruct (Hx x eq_refl) as [e ->]. by right; split; [apply Ha|]. }
  2: { by right; eexists; apply Ha. }
  unfold lift at 1, wp at 1. cbn [fst snd].
  destruct (WriteMessage hs eph _) as [[[msg2 cs] ?]|]; cbn [fst snd]; [|by right; split; [apply Ha|]].
  apply wp_bind, wp_keeps_err; [apply keeps_writeObfMsg|]. intros [[]|x|] w6 E6 Hx6; rewrite E5 in E6.
  2: { destruct (Hx6 x eq_refl) as [e ->]. by right; split; [apply Ha|]. }
  2: { by right; eexists; apply Ha. }
  apply wp_bind. unfold lift, wp. cbn [fst snd].
  destruct cs as [[k1 k2]|]; cbn [lane_keys]; [|by right; eexists; apply Ha].
  cbn. split_and!; try done. exists req, usoC, asg. by rewrite E6.
Qed.

(** C9: No allocation without authorization: whatever bytes a peer sends, the
    assignment hook runs at most once, and only for the static key that the Noise library
    reports for the message 1 it accepted on this connection, once the authorizer has
    accepted that key, and with the request message 1 carries.  An accepted connection
    carries that key, its user, the lane count it asked for and the addresses the hook
    returned, and a failure after an allocation returns the identity to release it under. *)
Theorem acceptHandshake_authorized {σ} static cipher uso (authorize : authFn) (f : assignHook) (w : World σ) :
  let '(r, w') := acceptHandshake static cipher uso authorize (Some f) w in
  match r with
  | Ok id =>
      authorize (appst w) (pubKey id) = Ok (userName id) ∧
      id_clientID id = deriveClientID (pubKey id) ∧ encrypted (keys id) = true ∧
      ∃ req usoC asg, client_hello static cipher w (pubKey id) (laneCount id) req usoC ∧
        usoEnabled id = uso && usoC ∧
        f (userName id) (id_clientID id) req (appst w) = (Ok asg, appst w') ∧
        assigned4 id = V4Addr asg ∧ assigned6 id = V6Addr asg ∧
        prefix4 id = V4Prefix asg ∧ prefix6 id = V6Prefix asg
  | Err (id, _) =>
      appst w' = appst w ∨
      by_hook static cipher authorize f w w' (pubKey id) ∧ id_clientID id = deriveClientID (pubKey id)
  | Panic => appst w' = appst w ∨ ∃ pub, by_hook static cipher authorize f w w' pub
  end.
Proof. apply accept_spec. Qed.

Lemma lane_keys_usable `{AEADs} cipher cs init ks :
  lane_keys cipher cs init = Ok ks →
  is_Some (lane_ciphers ks) ↔ cipher ∈ [CipherAESGCM; CipherChaCha; CipherAES256GCM].
Proof.
  intros Hks. destruct cs as [[k1 k2]|]; [|done].
  assert (∃ a b, ks = mkKeys true cipher (transportKey cipher a) (transportKey cipher b)) as (a & b & ->).
  { cbn in Hks. injection Hks as <-. destruct init; eauto. }
  assert (∀ k, length (transportKey cipher k) = keyLen cipher) as Hlen.
  { intros k. apply hkdf_expand_length. unfold keyLen. repeat case_bool_decide; lia. }
  unfold lane_ciphers. cbn [encrypted kind k_tx k_rx]. split.
  - intros [x Hx]. destruct (newFrameAEAD cipher (transportKey cipher a)) eqn:E; [|done].
    unfold newFrameAEAD, newAEAD in E. rewrite !elem_of_cons.
    repeat case_bool_decide; auto; done.
  - intros Hc. destruct (newFrameAEAD_Some cipher _ (Hlen a) Hc) as (f & -> & _).
    destruct (newFrameAEAD_Some cipher _ (Hlen b) Hc) as (g & -> & _). eauto.
Qed.

(** Steps over a call whatever it does. *)
Ltac wp_skip pat := apply wp_bind, wp_any; intros [pat|?|] ?; [|exact I..].

(** Without an assignment hook: what an accepted handshake establishes. *)
Lemma accept_none_spec {σ} static cipher uso (authorize : authFn) (w : World σ) :
  match (acceptHandshake static cipher uso authorize None w).1 with
  | Ok id => authorize (appst w) (pubKey id) = Ok (userName id) ∧
             id_clientID id = deriveClientID (pubKey id) ∧ encrypted (keys id) = true
  | _ => True
  end.
Proof.
  match goal with |- match _ with Ok id => @?Q id | _ => _ end =>
    enough (wp (acceptHandshake static cipher uso authorize None) w
      (λ r _, match r with Ok id => Q id | _ => True end)) by done end.
  unfold acceptHandshake. apply wp_bind, wp_keeps; [apply keeps_lift|]. intros [r0|?|] w0 E0; [|exact I..].
  apply wp_bind, wp_keeps; [apply keeps_with_err, keeps_readObfMsg|]. intros [raw|?|] w1 E1; [|exact I..].
  apply wp_bind, wp_keeps; [apply keeps_lift|]. intros [[[payload ?] hs]|?|] w2 E2; [|exact I..].
  apply wp_bind. unfold run_auth at 1, wp at 1. cbn [fst snd].
  destruct (authorize (appst w2) (PeerStatic hs)) as [user|e|] eqn:Hauth; [|exact I..].
  wp_skip ipattern:([[[pc ln] rq] uc]). wp_skip u1. wp_skip asg. wp_skip ipattern:([[m2 cs] hs2]). wp_skip u2.
  apply wp_bind. unfold lift, wp. cbn [fst snd].
  destruct cs as [[k1 k2]|]; cbn [lane_keys]; [|exact I]. cbn.
  split_and!; [congruence|done|done].
Qed.

Lemma hs_keys_usable `{AEADs} {σ} static peerPub cipher uso lanes req authorize assignFn (w : World σ) :
  let usable r := match r with
    | Ok id => is_Some (lane_ciphers (keys id)) ↔
               cipher ∈ [CipherAESGCM; CipherChaCha; CipherAES256GCM]
    | _ => True
    end in
  usable (initiateHandshake static peerPub cipher uso lanes req w).1 ∧
  usable (acceptHandshake static cipher uso authorize assignFn w).1.
Proof.
  intros usable. split.
  - enough (wp (initiateHandshake static peerPub cipher uso lanes req) w (λ r _, usable r)) by done.
    unfold initiateHandshake. wp_skip hs. wp_skip ipattern:([[m1 c1] hs1]). wp_skip u1. wp_skip raw.
    wp_skip ipattern:([[p2 cs] hs2]). wp_skip ipattern:([asg u2]).
    apply wp_bind. unfold lift, wp. cbn [fst snd].
    destruct (lane_keys cipher cs true) as [ks|e|] eqn:E; [|done..]. by apply (lane_keys_usable _ _ _ _ E).
  - enough (wp (acceptHandshake static cipher uso authorize assignFn) w (λ r _, usable r)) by done.
    unfold acceptHandshake. wp_skip hs. wp_skip raw. wp_skip ipattern:([[p1 c1] hs1]). wp_skip user.
    wp_skip ipattern:([[[pc ln] rq] uc]). wp_skip u1. wp_skip asg. wp_skip ipattern:([[m2 cs] hs2]). wp_skip u2.
    apply wp_bind. unfold lift, wp. cbn [fst snd].
    destruct (lane_keys cipher cs false) as [ks|e|] eqn:E; [|done..]. by apply (lane_keys_usable _ _ _ _ E).
Qed.

(** The keys of a finished handshake, on either side, start the data path of
    the lane exactly when the configured cipher is one of the three suites.  The
    zero cipher, which a configuration that leaves the field unset has, completes
    the handshake but can never carry a packet. *)
Theorem handshake_keys_usable `{AEADs} {σ} static peerPub cipher uso lanes req authorize assignFn (w : World σ) :
  let usable r := match r with
    | Ok id => is_Some (lane_ciphers (keys id)) ↔
               cipher ∈ [CipherAESGCM; CipherChaCha; CipherAES256GCM]
    | _ => True
    end in
  usable (initiateHandshake static peerPub cipher uso lanes req w).1 ∧
  usable (acceptHandshake static cipher uso authorize assignFn w).1.
Proof. apply hs_keys_usable. Qed.

(** Both payloads survive the wire: a server that parses a client's payload, or
    a client that parses a server's, gets back every field, the addresses without
    their zones and with unspecified ones as absent; extra bytes after the payload,
    for later versions, are ignored. *)
Theorem payload_roundtrip cipher lanes req uso asg rest :
  parseClientPayload (buildClientPayload cipher lanes req uso ++ rest) =
    Ok (cipher, lanes, slot_req req, uso) ∧
  parseServerPayload (buildServerPayload asg uso ++ rest) =
    Ok (mkAsg (slot_addr (V4Addr asg)) (V4Prefix asg) (slot_addr (V4Peer asg))
              (slot_addr (V6Addr asg)) (V6Prefix asg) (slot_addr (V6Peer asg)), uso).
Proof. split; [apply parse_buildClient|apply parse_buildServer]. Qed.

(** Parsing rejects exactly the payloads that are too short or of another
    version, and no parser panics on any input. *)
Theorem payload_rejects p :
  (is_ok (parseClientPayload p) = true ↔ (clientPayloadLen <= length p)%nat ∧ p !! 0%nat = Some hsVersion) ∧
  (is_ok (parseServerPayload p) = true ↔ (serverPayloadLen <= length p)%nat ∧ p !! 0%nat = Some hsVersion) ∧
  parseClientPayload p ≠ Panic ∧ parseServerPayload p ≠ Panic.
Proof.
  unfold parseClientPayload, parseServerPayload.
  assert (∀ n, (1 <= n)%nat → (n <= length p)%nat → ∃ b, p !! 0%nat = Some b) as Hat.
  { intros n ? ?. apply lookup_lt_is_Some_2. lia. }
  split_and!; try (repeat case_match; done).
  all: destruct (_ <? _)%nat eqn:E; bool_to_prop; [split; [done|lia]|].
  all: edestruct Hat as [b Hb]; [|exact E|]; [unfold clientPayloadLen, serverPayloadLen; lia|].
  all: rewrite Hb; cbn [default]; case_bool_decide; cbn [negb is_ok]; naive_solver.
Qed.

(** The authorizer admits exactly the configured identities: with users
    configured, a key is admitted as the one user that has it; the single peer key
    counts only when there are none. *)
Theorem serverAuthorizer_correct us db peerPub clientPub name :
  NewUserDB us = Ok db →
  serverAuthorizer (Some db) peerPub clientPub = Ok name ↔
  (∃ u, u ∈ us ∧ PublicKey u = clientPub ∧ Name u = name) ∨
  (us = [] ∧ peerPub ≠ [] ∧ clientPub = peerPub ∧ name = EmptyString).
Proof.
  intros (_ & Hrep & _)%NewUserDB_Ok. unfold serverAuthorizer.
  destruct (Empty db) eqn:He; cbn [negb].
  - apply (Empty_spec _ _ Hrep) in He as ->.
    destruct (_ && _) eqn:E; bool_to_prop.
    + split; [|set_solver]. intros [= <-]. right. split_and!; try done. by destruct peerPub; cbn in *; [lia|].
    + split; [done|]. intros [(u & Hu & _)|(_ & Hp & -> & _)]; [set_solver|].
      destruct E as [E|E]; bool_to_prop; [|done]. destruct peerPub; cbn in *; [done|lia].
  - assert (us ≠ []) as Hne by (intros E; apply (Empty_spec _ _ Hrep) in E; congruence).
    destruct (LookupByKey (Some db) clientPub) as [u|] eqn:Hl.
    + pose proof (proj1 (LookupByKey_spec _ _ _ _ Hrep) Hl) as [Hu Hk]. split.
      * intros [= <-]. left. eauto.
      * intros [(u' & Hu' & Hk' & <-)|[? _]]; [|done].
        pose proof (proj2 (LookupByKey_spec _ _ clientPub u' Hrep) (conj Hu' Hk')). by simplify_eq.
    + split; [done|]. intros [(u' & Hu' & Hk' & <-)|[? _]]; [|done].
      pose proof (proj2 (LookupByKey_spec _ _ clientPub u' Hrep) (conj Hu' Hk')). congruence.
Qed.

End theorems.

(** ** Witnesses: a toy Noise

    Message 1 carries the ephemeral bytes, the static key and the payload in clear;
    message 2 the ephemeral bytes and the payload; the transport keys are read off
    message 2. *)
Inductive toyHS : Type := TInit (pub : list byte) | TInit1 | TResp | TResp1 (peer : list byte) | TDone.

Definition toy_write (hs : toyHS) (e p : list byte) : option (list byte * option (list byte * list byte) * toyHS) :=
  match hs with
  | TInit pub => Some (e ++ pub ++ zeros 16 ++ p ++ zeros 16, None, TInit1)
  | TResp1 _ => Some (e ++ p ++ zeros 16, Some (e, reverse e), TDone)
  | _ => None
  end.

Definition toy_read (hs : toyHS) (m : list byte) : option (list byte * option (list byte * list byte) * toyHS) :=
  match hs with
  | TResp =>
      if (96 <=? length m)%nat
      then Some (slice m 80 (length m - 16), None, TResp1 (slice m 32 64)) else None
  | TInit1 =>
      if (48 <=? length m)%nat
      then Some (slice m 32 (length m - 16), Some (take 32 m, reverse (take 32 m)), TDone) else None
  | _ => None
  end.

Definition toy_peer (hs : toyHS) : list byte := match hs with TResp1 peer => peer | _ => [] end.

Definition toy_new (cfg : NoiseConfig) : option toyHS :=
  Some (if n_initiator cfg then TInit (dh_Public (n_static cfg)) else TResp).

#[local] Program Instance toy_noise : NoiseIK := {
  HandshakeState := toyHS;
  x25519_public priv := priv;
  NewHandshakeState := toy_new;
  WriteMessage := toy_write;
  ReadMessage := toy_read;
  PeerStatic := toy_peer;
  hkdf_expand key info n := take n (key ++ info ++ zeros n)
}.
Next Obligation. intros. cbn beta. rewrite length_take, !length_app. unfold zeros. rewrite length_replicate. lia. Qed.
Next Obligation. by intros. Qed.
Next Obligation.
  intros suite prologue kc ks e1 e2 Hpc _ Hlc _ He1 He2. cbn beta.
  exists (TInit (dh_Public kc)), TResp. split_and!; [done..|]. intros p1 p2 _ _.
  cbn [toy_write]. rewrite <-Hpc in Hlc.
  eexists _, _, (TResp1 (dh_Public kc)), _, TDone, TDone, _, _.
  split; [reflexivity|]. split; [rewrite !length_app, He1, Hlc; cbn; lia|].
  assert (∀ q, length (e2 ++ q ++ zeros 16) = (48 + length q)%nat) as Hl2
    by (intros; rewrite !length_app, He2; cbn; lia).
  assert (length (e1 ++ dh_Public kc ++ zeros 16 ++ p1 ++ zeros 16) = (96 + length p1)%nat) as Hl1
    by (rewrite !length_app, He1, Hlc; cbn; lia).
  split_and!; try reflexivity.
  - cbn [toy_read]. rewrite Hl1, (proj2 (Nat.leb_le _ _)) by lia.
    rewrite (slice_app_mid e1 (dh_Public kc) _ 32 64) by lia.
    replace (e1 ++ dh_Public kc ++ zeros 16 ++ p1 ++ zeros 16)
      with ((e1 ++ dh_Public kc ++ zeros 16) ++ p1 ++ zeros 16) by (by rewrite <-!app_assoc).
    rewrite slice_app_mid; [done|rewrite !length_app, He1, Hlc; done|lia].
  - rewrite Hl2. lia.
  - cbn [toy_read]. rewrite Hl2, (proj2 (Nat.leb_le _ _)) by lia.
    rewrite (slice_app_mid e2 p2) by lia. by rewrite take_app_length' by lia.
Qed.
#[local] Existing Instance demo_obfs.

Definition demo_privC : list byte := replicate 32 xaa.
Definition demo_privS : list byte := replicate 32 xcc.
Definition demo_peer (σ : Type) (a : σ) : World σ :=
  mkWorld (mkConn [] [] None) (replicate 304 x03) a.
Definition demo_asg : AssignmentResponse :=
  mkAsg (addr_10_66_0 x05) x1d (addr_10_66_0 x01) AddrZero x00 AddrZero.
Definition demo_hook : @assignHook nat := λ _ _ _ n, (Ok demo_asg, S n).

Lemma handshake_agreement_witness :
  noiseStatic demo_privC = Some (mkDHKey demo_privC demo_privC) ∧
  ∃ idC idS wc' ws' m1 m2,
    initiateHandshake (mkDHKey demo_privC demo_privC) demo_privS CipherAESGCM true x02
      (mkReq AddrZero AddrZero) (feed (m2 ++ [x01]) (demo_peer unit tt)) = (Ok idC, wc') ∧
    acceptHandshake (mkDHKey demo_privS demo_privS) CipherAESGCM true
      (λ _ pub, serverAuthorizer (Some demo_db) [] pub) (Some demo_hook) (feed (m1 ++ []) (demo_peer nat 0%nat))
      = (Ok idS, ws') ∧
    matching (keys idC) (keys idS) ∧ userName idS = "alice"%string ∧ appst ws' = 1%nat ∧ rx (conn wc') = [x01].
Proof.
  split; [reflexivity|].
  destruct (handshake_agreement demo_privC demo_privS (mkDHKey demo_privC demo_privC)
    (mkDHKey demo_privS demo_privS) CipherAESGCM true true x02 (mkReq AddrZero AddrZero)
    (λ _ pub, serverAuthorizer (Some demo_db) [] pub) (Some demo_hook)
    (demo_peer unit tt) (demo_peer nat 0%nat) "alice" demo_asg 1%nat)
    as (m1 & m2 & idC & idS & HC & HS & Hag).
  - reflexivity.
  - reflexivity.
  - reflexivity.
  - reflexivity.
  - apply Nat.leb_le. reflexivity.
  - apply Nat.leb_le. reflexivity.
  - vm_compute. reflexivity.
  - reflexivity.
  - destruct (HC [x01]) as [rc Hc]. destruct (HS []) as [rs Hs]. destruct Hag as [Hm _ _ _ [Hu _] _ _ _].
    eexists idC, idS, _, _, m1, m2. split; [exact Hc|]. split; [exact Hs|]. split; [exact Hm|]. split; [exact Hu|].
    split; reflexivity.
Defined.

(** What a client sends before it waits for the answer. *)
Definition demo_msg1 : list byte :=
  tx (conn (initiateHandshake (mkDHKey demo_privC demo_privC) demo_privS CipherAESGCM true x02
    (mkReq (addr_10_66_0 x07) AddrZero) (demo_peer unit tt)).2).

Lemma acceptHandshake_authorized_witness :
  let ks := mkDHKey demo_privS demo_privS in
  let w := feed demo_msg1 (demo_peer nat 0%nat) in
  ∃ id w' req usoC,
    acceptHandshake ks CipherAESGCM true (λ _ pub, serverAuthorizer (Some demo_db) [] pub) (Some demo_hook) w = (Ok id, w') ∧
    pubKey id = demo_privC ∧ appst w' = 1%nat ∧ client_hello ks CipherAESGCM w demo_privC x02 req usoC.
Proof.
  intros ks w.
  pose proof (acceptHandshake_authorized ks CipherAESGCM true
    (λ _ pub, serverAuthorizer (Some demo_db) [] pub) demo_hook w) as Hacc.
  assert (∃ id w', acceptHandshake ks CipherAESGCM true (λ _ pub, serverAuthorizer (Some demo_db) [] pub)
    (Some demo_hook) w = (Ok id, w') ∧ pubKey id = demo_privC ∧ laneCount id = x02 ∧ appst w' = 1%nat)
    as (id & w' & E & Hpub & Hl & Ha) by (eexists _, _; split; [vm_compute; reflexivity|split_and!; reflexivity]).
  rewrite E in Hacc. destruct Hacc as (_ & _ & _ & req & usoC & asg & Hello & _). rewrite Hpub, Hl in Hello.
  exists id, w', req, usoC. split_and!; assumption.
Defined.

Lemma serverAuthorizer_correct_witness :
  NewUserDB [alice; bob] = Ok demo_db ∧
  serverAuthorizer (Some demo_db) [] (replicate 32 xbb) = Ok "bob"%string.
Proof.
  split; [exact demo_db_Ok|].
  apply (serverAuthorizer_correct [alice; bob] demo_db [] (replicate 32 xbb) "bob" demo_db_Ok).
  left. exists bob. split; [|split; reflexivity]. apply elem_of_cons. right. apply list_elem_of_singleton. reflexivity.
Defined.
