(* ===== verification/MultiClient.v ===== *)
(** * multiclient_linux.go and sessionpio.go: sessions over the shared TUN

    [mcState] keeps the session table and the address index as maps to a heap of
    sessions, beside the two address pools and the live user database (the
    holder's current pointer).  A function of the code that holds [m.mu]
    throughout is one function here; where the code releases the lock and then
    goes on ([acquireSession] after a refused quota, [collect] before it tears its
    victims down, [runTunReader] between the lookup and the send), the rest is a pending task of the step relation [mc_step], so
    that other goroutines' steps can come between.  Metrics, logging and the
    [ip] commands are left out; contexts are the session's [closed] flag. *)

From S2P Require Import Prelude Netip Users IPPool RateLimit Config GoIO Obfs LaneCrypto Lane Handshake.

Definition outboundCap : nat := 256.

Record session : Type := mkSession {
  s_id : clientID;
  s_user : string;
  s_a4 : Addr;
  s_a6 : Addr;
  s_lanes : Z;
  outbound : list (list byte);       (* the buffered channel, oldest first *)
  closed : bool;
  nextLane : Z;
  active : Z;
  lastSeen : Z;
  isClosed : bool
}.

Record mcState : Type := mkMC {
  userDB : option UserDB;
  pool4 : option ipPool;
  pool6 : option ipPool;
  heap : list session;
  sessions : gmap clientID nat;
  ipIndex : gmap Addr nat
}.

Definition set_pools (m : mcState) (p4 p6 : option ipPool) : mcState :=
  mkMC (userDB m) p4 p6 (heap m) (sessions m) (ipIndex m).
Definition set_heap (m : mcState) (h : list session) : mcState :=
  mkMC (userDB m) (pool4 m) (pool6 m) h (sessions m) (ipIndex m).
Definition set_db (m : mcState) (db : option UserDB) : mcState :=
  mkMC db (pool4 m) (pool6 m) (heap m) (sessions m) (ipIndex m).

(** ** Address assignment (the closure [assignFn] of [handleConn]) *)

(** One family: the pool's answer and the pool after it; [None] is a refusal, which
    is only logged. *)
Definition assign_family (pool : option ipPool) (user : string) (id : clientID) (pref : Addr)
    (db : option UserDB) : result string (option Addr * option ipPool) :=
  match pool with
  | None => Ok (None, None)
  | Some p =>
      match AllocateFor p user id pref db with
      | Ok (a, p') => Ok (Some a, Some p')
      | Err _ => Ok (None, Some p)
      | Panic => Panic
      end
  end.

Definition assignFn (cfg : ServerConfig) : @assignHook mcState := λ user id req m,
  let db := userDB m in
  match assign_family (pool4 m) user id (req_V4 req) db with
  | Ok (r4, p4) =>
      match assign_family (pool6 m) user id (req_V6 req) db with
      | Ok (r6, p6) =>
          let pick {A} (r : option Addr) (f : Addr → A) (d : A) := match r with Some a => f a | None => d end in
          (Ok (mkAsg (pick r4 (λ a, a) AddrZero) (pick r4 (λ _, z2b (pfx_bits (Subnet cfg))) x00)
                     (pick r4 (λ _, ServerIP cfg) AddrZero)
                     (pick r6 (λ a, a) AddrZero) (pick r6 (λ _, z2b (pfx_bits (Subnet6 cfg))) x00)
                     (pick r6 (λ _, ServerIP6 cfg) AddrZero)),
           set_pools m p4 p6)
      | Err e => (Err e, set_pools m p4 (pool6 m))
      | Panic => (Panic, set_pools m p4 (pool6 m))
      end
  | Err e => (Err e, m)
  | Panic => (Panic, m)
  end.

(** ** Sessions *)

Definition releaseAll (id : clientID) (m : mcState) : mcState :=
  set_pools m ((λ p, Release p id) <$> pool4 m) ((λ p, Release p id) <$> pool6 m).

Definition releaseOrphan (id : clientID) (m : mcState) : mcState :=
  if bool_decide (is_Some (sessions m !! id)) then m else releaseAll id m.

Definition clamp_lanes (n : byte) : Z :=
  let l := b2z n in
  let l := if l <? 1 then 1 else l in
  if 64 <? l then 64 else l.

Definition claim_family (pool : option ipPool) (id : clientID) (a : Addr) : option ipPool :=
  if IsValid a then (λ p, Claim p id a) <$> pool else pool.

Definition index_addr (a : Addr) (p : nat) (ix : gmap Addr nat) : gmap Addr nat :=
  if IsValid a then <[a := p]> ix else ix.

(** The new session, entered in the table and the index, its addresses claimed. *)
Definition open_session (ident : laneIdentity) (now : Z) (m : mcState) : nat * mcState :=
  let id := id_clientID ident in
  let p := length (heap m) in
  let s := mkSession id (userName ident) (assigned4 ident) (assigned6 ident)
             (clamp_lanes (laneCount ident)) [] false 0 0 now false in
  (p, mkMC (userDB m)
        (claim_family (pool4 m) id (assigned4 ident)) (claim_family (pool6 m) id (assigned6 ident))
        (heap m ++ [s]) (<[id := p]> (sessions m))
        (index_addr (assigned6 ident) p (index_addr (assigned4 ident) p (ipIndex m)))).

(** What [acquireSession] does under [m.mu]: the session found or opened, or the
    quota error. *)
Definition acquire_locked (ident : laneIdentity) (now : Z) (m : mcState)
    : result userError (nat * bool) * mcState :=
  match sessions m !! id_clientID ident with
  | Some p => (Ok (p, false), m)
  | None =>
      let enter m := let '(p, m') := open_session ident now m in (Ok (p, true), m') in
      match userDB m with
      | Some db =>
          if negb (Empty db) then
            match AcquireSlot (userDB m) (userName ident) with
            | (Some e, _) => (Err e, m)
            | (None, db') => enter (set_db m db')
            end
          else enter m
      | None => enter m
      end
  end.

Definition acquireSession (ident : laneIdentity) (now : Z) (m : mcState)
    : result userError (nat * bool) * mcState :=
  match acquire_locked ident now m with
  | (Err e, m') => (Err e, releaseAll (id_clientID ident) m')
  | r => r
  end.

Definition upd_session (f : session → session) (p : nat) (m : mcState) : mcState :=
  set_heap m (alter f p (heap m)).

(** A lane starts: it takes the next queue number. *)
Definition lane_up (nqueues now : Z) (p : nat) (m : mcState) : option Z * mcState :=
  ((λ s, nextLane s mod nqueues) <$> heap m !! p,
   upd_session (λ s, mkSession (s_id s) (s_user s) (s_a4 s) (s_a6 s) (s_lanes s) (outbound s)
                       (closed s) (nextLane s + 1) (active s + 1) now (isClosed s)) p m).

(** The deferred function when the lane ends. *)
Definition lane_down (now : Z) (p : nat) (m : mcState) : mcState :=
  upd_session (λ s, mkSession (s_id s) (s_user s) (s_a4 s) (s_a6 s) (s_lanes s) (outbound s)
                      (closed s) (nextLane s) (active s - 1) now (isClosed s)) p m.

(** ** Collection and tear-down *)

Definition unindex (a : Addr) (ix : gmap Addr nat) : gmap Addr nat :=
  if IsValid a then delete a ix else ix.

(** The range loop of [collect], over the table in the order [order]; it returns
    the victims, still to be torn down once the lock is released. *)
Fixpoint collect_loop (idle now : Z) (order : list clientID) (m : mcState) : list nat * mcState :=
  match order with
  | [] => ([], m)
  | id :: order' =>
      match sessions m !! id with
      | None => collect_loop idle now order' m
      | Some p =>
          match heap m !! p with
          | None => collect_loop idle now order' m
          | Some s =>
              if (active s =? 0) && (idle <? Sub now (lastSeen s)) then
                let m' := mkMC (userDB m) (pool4 m) (pool6 m) (heap m) (delete id (sessions m))
                            (unindex (s_a6 s) (unindex (s_a4 s) (ipIndex m))) in
                let '(vs, m'') := collect_loop idle now order' m' in (p :: vs, m'')
              else collect_loop idle now order' m
          end
      end
  end.

(** [s.isClosed = true], and [close(s.closed)]. *)
Definition mark_closed (s : session) : session :=
  mkSession (s_id s) (s_user s) (s_a4 s) (s_a6 s) (s_lanes s) (outbound s) true
    (nextLane s) (active s) (lastSeen s) true.

(** One step: [isClosed] is read by no other function, and the closed channel and the
    releases, which the code does after the session's own lock, each take a lock of their
    own and give something back; between them the code is in a state with the same tables
    and less given back. *)
Definition tearDown (p : nat) (m : mcState) : mcState :=
  match heap m !! p with
  | None => m
  | Some s =>
      if isClosed s then m
      else
        let m := upd_session mark_closed p m in
        let m := releaseAll (s_id s) m in
        if bool_decide (s_user s = EmptyString) then m
        else set_db m (ReleaseSlot (userDB m) (s_user s))
  end.

Definition collect (idle now : Z) (order : list clientID) (m : mcState) : mcState :=
  let '(vs, m') := collect_loop idle now order m in fold_left (λ m p, tearDown p m) vs m'.

(** The locked part of [tearDownAll]: the victims and the emptied tables. *)
Definition clear_tables (order : list clientID) (m : mcState) : list nat * mcState :=
  (omap (λ id, sessions m !! id) order,
   mkMC (userDB m) (pool4 m) (pool6 m) (heap m) ∅ ∅).

Definition tearDownAll (order : list clientID) (m : mcState) : mcState :=
  let '(vs, m') := clear_tables order m in fold_left (λ m p, tearDown p m) vs m'.

(** ** Packets *)

Definition innerDst (pkt : list byte) (vnetHdr : bool) : option Addr :=
  let short := vnetHdr && (Z.of_nat (length pkt) <? virtioNetHdrLen) in
  let pkt := if vnetHdr then drop (Z.to_nat virtioNetHdrLen) pkt else pkt in
  if short then None
  else match pkt with
       | [] => None
       | b :: _ =>
           if Z.shiftr (b2z b) 4 =? 4 then
             if (length pkt <? 20)%nat then None else Some (AddrFrom4 (array_of 4 (slice pkt 16 20)))
           else if Z.shiftr (b2z b) 4 =? 6 then
             if (length pkt <? 40)%nat then None else Some (AddrFrom16 (array_of 16 (slice pkt 24 40)))
           else None
       end.

Definition push_outbound (pkt : list byte) (s : session) : session :=
  mkSession (s_id s) (s_user s) (s_a4 s) (s_a6 s) (s_lanes s) (outbound s ++ [pkt])
    (closed s) (nextLane s) (active s) (lastSeen s) (isClosed s).

(** One iteration of [runTunReader], in two parts: the session of the destination, found
    under [m.mu], and the send after the lock is released, by when the session may have
    left the tables.  When both the channel has room and the session is closed, the
    select may take either case: [prefer] chooses. *)
Definition dispatch_lookup (vnetHdr : bool) (pkt : list byte) (m : mcState) : option nat :=
  if (length pkt =? 0)%nat then None
  else match innerDst pkt vnetHdr with
       | None => None
       | Some dst => ipIndex m !! dst
       end.

Definition dispatch_send (prefer : bool) (pkt : list byte) (p : nat) (m : mcState) : mcState :=
  match heap m !! p with
  | None => m
  | Some s =>
      if (length (outbound s) <? outboundCap)%nat && (negb (closed s) || prefer)
      then upd_session (push_outbound pkt) p m else m
  end.

(** The iteration with nothing in between. *)
Definition dispatch (vnetHdr prefer : bool) (pkt : list byte) (m : mcState) : mcState :=
  match dispatch_lookup vnetHdr pkt m with
  | None => m
  | Some p => dispatch_send prefer pkt p m
  end.

(** [sessionPIO.Read] into a buffer of [n] bytes.  [PBlock]: neither case of the
    select is ready.  [prefer] chooses when both are. *)
Inductive pioRead : Type := PPkt (p : list byte) | PEOF | PShort | PBlock.

Definition pop_outbound (rest : list (list byte)) (s : session) : session :=
  mkSession (s_id s) (s_user s) (s_a4 s) (s_a6 s) (s_lanes s) rest
    (closed s) (nextLane s) (active s) (lastSeen s) (isClosed s).

Definition sessionPIO_Read (n : Z) (prefer : bool) (p : nat) (m : mcState) : pioRead * mcState :=
  match heap m !! p with
  | None => (PBlock, m)
  | Some s =>
      match outbound s with
      | [] => (if closed s then PEOF else PBlock, m)
      | pkt :: rest =>
          if closed s && negb prefer then (PEOF, m)
          else (if n <? Z.of_nat (length pkt) then PShort else PPkt pkt,
                upd_session (pop_outbound rest) p m)
      end
  end.

(** ** A connection, from handshake to running lane *)

Inductive connOutcome : Type :=
| ConnRejected
| ConnLane (p : nat) (isNew : bool) (queueIdx : option Z) (ident : laneIdentity).

Definition on_app (f : mcState → mcState) (w : World mcState) : World mcState :=
  mkWorld (conn w) (rnd w) (f (appst w)).

Definition handleConn `{ObfsCrypto, NoiseIK} (cfg : ServerConfig) (static : DHKey) (nqueues now : Z)
    (w : World mcState) : result Empty_set connOutcome * World mcState :=
  let db := userDB (appst w) in
  match acceptHandshake static (cfg_Cipher cfg) false
          (λ _ pub, serverAuthorizer db (PeerPublicKey cfg) pub) (Some (assignFn cfg)) w with
  | (Panic, w') => (Panic, w')
  | (Err (ident, _), w') =>
      (Ok ConnRejected,
       if bool_decide (id_clientID ident = zeroID) then w' else on_app (releaseOrphan (id_clientID ident)) w')
  | (Ok ident, w') =>
      if negb (hasAssignment ident) then (Ok ConnRejected, w')
      else
        match acquireSession ident now (appst w') with
        | (Ok (p, isNew), m') =>
            let '(q, m'') := lane_up nqueues now p m' in
            (Ok (ConnLane p isNew q ident), on_app (λ _, m'') w')
        | (Err _, m') => (Ok ConnRejected, on_app (λ _, m') w')
        | (Panic, m') => (Panic, on_app (λ _, m') w')
        end
  end.

(** ** Interleavings *)

(** What a goroutine still has to do after it released [m.mu]. *)
Inductive task : Type :=
| TearDown (p : nat)              (* a victim of [collect] or [tearDownAll] *)
| ReleaseFor (id : clientID)      (* [releaseAll] after a refused quota *)
| Deliver (prefer : bool) (pkt : list byte) (p : nat).   (* the send of [runTunReader] *)

Definition run_task (t : task) (m : mcState) : mcState :=
  match t with
  | TearDown p => tearDown p m
  | ReleaseFor id => releaseAll id m
  | Deliver prefer pkt p => dispatch_send prefer pkt p m
  end.

Definition task_id (t : task) (m : mcState) : option clientID :=
  match t with TearDown p => s_id <$> heap m !! p | ReleaseFor id => Some id | Deliver _ _ _ => None end.

(** The client whose resources the task gives back has no live session: nobody reconnected
    in between. *)
Definition task_quiet (t : task) (m : mcState) : Prop :=
  ∀ id, task_id t m = Some id → sessions m !! id = None.

(** The addresses of the identity still belong to its client in the pools, or have
    become free again; nobody else was given them since the handshake. *)
Definition still_ours (pool : option ipPool) (id : clientID) (a : Addr) : Prop :=
  IsValid a = true →
  ∃ p, pool = Some p ∧ Contains (subnet p) a = true ∧
    (byClient p !! id = Some a ∨ (byClient p !! id = None ∧ a ∉ used p)).

Definition ident_fresh (ident : laneIdentity) (m : mcState) : Prop :=
  still_ours (pool4 m) (id_clientID ident) (assigned4 ident) ∧
  still_ours (pool6 m) (id_clientID ident) (assigned6 ident) ∧
  (IsValid (assigned4 ident) = true → Is4 (assigned4 ident) = true) ∧
  (IsValid (assigned6 ident) = true → Is6 (assigned6 ident) = true).

(** One step of one goroutine.  With [quiet] set, the two windows the code leaves
    open are not hit: a task runs while its client has no new session, and a
    session opens while its addresses are still its client's.  [reload] allows
    [Server.ReloadUsers] to swap the user database. *)
Inductive mc_step (cfg : ServerConfig) (quiet reload : bool) : mcState * list task → mcState * list task → Prop :=
| step_assign user id req asg m m' ts :
    assignFn cfg user id req m = (Ok asg, m') → mc_step cfg quiet reload (m, ts) (m', ts)
| step_acquire_ok ident now r m m' ts :
    (quiet = true → sessions m !! id_clientID ident = None → ident_fresh ident m) →
    acquire_locked ident now m = (Ok r, m') → mc_step cfg quiet reload (m, ts) (m', ts)
| step_acquire_err ident now e m m' ts :
    acquire_locked ident now m = (Err e, m') →
    mc_step cfg quiet reload (m, ts) (m', ReleaseFor (id_clientID ident) :: ts)
| step_orphan id m ts : mc_step cfg quiet reload (m, ts) (releaseOrphan id m, ts)
| step_lane_up nq now p q m m' ts : lane_up nq now p m = (q, m') → mc_step cfg quiet reload (m, ts) (m', ts)
| step_lane_down now p m ts : mc_step cfg quiet reload (m, ts) (lane_down now p m, ts)
| step_collect idle now order vs m m' ts :
    collect_loop idle now order m = (vs, m') → mc_step cfg quiet reload (m, ts) (m', (TearDown <$> vs) ++ ts)
| step_clear order vs m m' ts :
    (∀ id, is_Some (sessions m !! id) → id ∈ order) → NoDup order →
    clear_tables order m = (vs, m') → mc_step cfg quiet reload (m, ts) (m', (TearDown <$> vs) ++ ts)
| step_task t m ts1 ts2 :
    (quiet = true → task_quiet t m) →
    mc_step cfg quiet reload (m, ts1 ++ t :: ts2) (run_task t m, ts1 ++ ts2)
| step_lookup prefer pkt p m ts :
    dispatch_lookup (sv_VnetHdr cfg) pkt m = Some p → mc_step cfg quiet reload (m, ts) (m, Deliver prefer pkt p :: ts)
| step_read n prefer p r m m' ts :
    sessionPIO_Read n prefer p m = (r, m') → mc_step cfg quiet reload (m, ts) (m', ts)
| step_reload db m ts : reload = true → mc_step cfg quiet reload (m, ts) (set_db m db, ts).

(** The state the accept loop starts in. *)
Definition mc_init (db : option UserDB) (p4 p6 : option ipPool) : mcState :=
  mkMC db p4 p6 [] ∅ ∅.

(** ** Invariants of every interleaving *)

Definition addr_of (s : session) (a : Addr) : Prop := IsValid a = true ∧ (a = s_a4 s ∨ a = s_a6 s).

(** The table and the index point to live sessions, each under its own id and its
    own addresses. *)
Record tables_ok (m : mcState) : Prop := {
  tb_session id p : sessions m !! id = Some p →
    ∃ s, heap m !! p = Some s ∧ s_id s = id ∧ isClosed s = false ∧ closed s = false;
  tb_index a p : ipIndex m !! a = Some p →
    ∃ s, heap m !! p = Some s ∧ sessions m !! s_id s = Some p ∧ addr_of s a
}.

(** Channels are bounded. *)
Definition queues_ok (m : mcState) : Prop :=
  Forall (λ s, (length (outbound s) <= outboundCap)%nat) (heap m).

(** A session waiting to be torn down is in no table. *)
Definition tasks_ok (m : mcState) (ts : list task) : Prop :=
  ∀ p, TearDown p ∈ ts → (p < length (heap m))%nat ∧ ∀ id, sessions m !! id ≠ Some p.

Definition mc_weak (st : mcState * list task) : Prop :=
  tables_ok st.1 ∧ queues_ok st.1 ∧ tasks_ok st.1 st.2.

(** ** Steps that leave the tables alone *)

(** What stays of a session while its lanes come and go. *)
Definition same_session (s s' : session) : Prop :=
  s_id s' = s_id s ∧ s_a4 s' = s_a4 s ∧ s_a6 s' = s_a6 s ∧ isClosed s' = isClosed s ∧ closed s' = closed s.

Definition same_tables (m m' : mcState) : Prop :=
  sessions m' = sessions m ∧ ipIndex m' = ipIndex m ∧ length (heap m') = length (heap m) ∧
  ∀ id p s, sessions m !! id = Some p → heap m !! p = Some s →
    ∃ s', heap m' !! p = Some s' ∧ same_session s s'.

Lemma same_session_refl s : same_session s s.
Proof. done. Qed.
#[local] Hint Resolve same_session_refl : phose.

Lemma same_tables_heap m m' :
  sessions m' = sessions m → ipIndex m' = ipIndex m → heap m' = heap m → same_tables m m'.
Proof. intros H1 H2 H3. split_and!; try done; [by rewrite H3|]. intros. rewrite H3. eauto with phose. Qed.

Lemma same_tables_upd f p m :
  (∀ s, same_session s (f s)) → same_tables m (upd_session f p m).
Proof.
  intros Hf. split_and!; try done; cbn; [by rewrite length_alter|]. intros id q s _ Hs.
  destruct (decide (q = p)) as [->|Hne].
  - exists (f s). by rewrite list_lookup_alter_eq, Hs.
  - exists s. by rewrite list_lookup_alter_ne.
Qed.

(** ... also when a session that is in no table changes in any way. *)
Lemma same_tables_upd_dead f p m :
  (∀ id, sessions m !! id ≠ Some p) → same_tables m (upd_session f p m).
Proof.
  intros Hp. split_and!; try done; cbn; [by rewrite length_alter|]. intros id q s Hq Hs.
  exists s. rewrite list_lookup_alter_ne by (intros ->; by apply (Hp id)). by split.
Qed.

Lemma same_tables_trans m1 m2 m3 : same_tables m1 m2 → same_tables m2 m3 → same_tables m1 m3.
Proof.
  intros (E1 & E2 & E3 & H1) (F1 & F2 & F3 & H2). split_and!; try congruence.
  intros id p s Hp Hs. destruct (H1 id p s Hp Hs) as (s' & Hs' & A1 & A2 & A3 & A4 & A5).
  destruct (H2 id p s') as (s'' & Hs'' & B1 & B2 & B3 & B4 & B5); [congruence|done|].
  exists s''. split; [done|]. split_and!; congruence.
Qed.

Lemma tables_ok_same m m' : same_tables m m' → tables_ok m → tables_ok m'.
Proof.
  intros (E1 & E2 & E3 & H) [Hs Hi]. split.
  - intros id p. rewrite E1. intros Hp. destruct (Hs id p Hp) as (s & Hh & Hid & Hc1 & Hc2).
    destruct (H id p s Hp Hh) as (s' & Hh' & A1 & A2 & A3 & A4 & A5). exists s'. split_and!; congruence.
  - intros a p. rewrite E2. intros Hp. destruct (Hi a p Hp) as (s & Hh & Ht & Hv & Ha).
    destruct (H _ _ s Ht Hh) as (s' & Hh' & A1 & A2 & A3 & _). exists s'. rewrite E1, A1.
    split_and!; [done|done|]. split; [done|]. by rewrite A2, A3.
Qed.

Lemma tasks_ok_same m m' ts : same_tables m m' → tasks_ok m ts → tasks_ok m' ts.
Proof. intros (E1 & _ & E3 & _) Ht p Hp. rewrite E1, E3. by apply Ht. Qed.

Lemma queues_ok_upd f p m :
  (∀ s, (length (outbound s) <= outboundCap)%nat → (length (outbound (f s)) <= outboundCap)%nat) →
  queues_ok m → queues_ok (upd_session f p m).
Proof. intros Hf Hq. unfold queues_ok. cbn. apply Forall_alter; [done|]. auto. Qed.

Lemma tasks_ok_app m ts1 ts2 : tasks_ok m (ts1 ++ ts2) ↔ tasks_ok m ts1 ∧ tasks_ok m ts2.
Proof. unfold tasks_ok. setoid_rewrite elem_of_app. naive_solver. Qed.

(** ** The operations on the tables *)

Lemma assignFn_tables cfg user id req m r m' :
  assignFn cfg user id req m = (r, m') →
  sessions m' = sessions m ∧ ipIndex m' = ipIndex m ∧ heap m' = heap m ∧ userDB m' = userDB m.
Proof.
  unfold assignFn. destruct (assign_family (pool4 m) _ _ _ _) as [[]| |]; [|by intros [= <- <-]..].
  destruct (assign_family (pool6 m) _ _ _ _) as [[]| |]; by intros [= <- <-].
Qed.

(** A session just opened is live, under its own id and addresses. *)
Lemma index_addr_Some a p ix b q :
  index_addr a p ix !! b = Some q ↔ (IsValid a = true ∧ b = a ∧ q = p) ∨
    ((IsValid a = true → b ≠ a) ∧ ix !! b = Some q).
Proof.
  unfold index_addr. destruct (IsValid a); [|naive_solver].
  rewrite lookup_insert_Some. naive_solver.
Qed.

Lemma unindex_Some a ix b q :
  unindex a ix !! b = Some q ↔ (IsValid a = true → b ≠ a) ∧ ix !! b = Some q.
Proof.
  unfold unindex. destruct (IsValid a); [|naive_solver]. rewrite lookup_delete_Some. naive_solver.
Qed.

Lemma open_session_tables ident now m p m' :
  tables_ok m → sessions m !! id_clientID ident = None →
  open_session ident now m = (p, m') → tables_ok m'.
Proof.
  intros [Hs Hi] Hnone [= <- <-]. split; cbn.
  - intros id q [[<- <-]|[Hne Hq]]%lookup_insert_Some.
    + eexists. by rewrite list_lookup_middle.
    + destruct (Hs id q Hq) as (s & Hh & ?). exists s. split; [|done]. by apply lookup_app_l_Some.
  - intros a q. rewrite !index_addr_Some.
    intros [(Hv & -> & ->)|[_ [(Hv & -> & ->)|[_ Hq]]]].
    + eexists. rewrite list_lookup_middle by done. split; [done|]. cbn. rewrite lookup_insert_eq.
      split; [done|]. by split; auto.
    + eexists. rewrite list_lookup_middle by done. split; [done|]. cbn. rewrite lookup_insert_eq.
      split; [done|]. by split; auto.
    + destruct (Hi a q Hq) as (s & Hh & Ht & Ha). exists s. split; [by apply lookup_app_l_Some|].
      split; [|done]. rewrite lookup_insert_ne; [done|]. congruence.
Qed.

(** The session [s] at [p] leaves the tables. *)
Definition drop_session (p : nat) (s : session) (m : mcState) : mcState :=
  mkMC (userDB m) (pool4 m) (pool6 m) (heap m) (delete (s_id s) (sessions m))
    (unindex (s_a6 s) (unindex (s_a4 s) (ipIndex m))).

Lemma drop_session_tables p s m :
  tables_ok m → heap m !! p = Some s → sessions m !! s_id s = Some p → tables_ok (drop_session p s m).
Proof.
  intros [Hs Hi] Hh Hp. split; cbn.
  - intros id q [_ Hq]%lookup_delete_Some. by apply Hs.
  - intros a q. rewrite !unindex_Some. intros (H6 & H4 & Hq).
    destruct (Hi a q Hq) as (s' & Hh' & Ht & Hv & Ha). exists s'. split; [done|]. split; [|by split].
    rewrite lookup_delete_ne; [done|]. intros E. rewrite <-E, Hp in Ht. injection Ht as <-.
    rewrite Hh in Hh'. injection Hh' as <-. destruct Ha as [-> | ->]; [by apply H4|by apply H6].
Qed.

(** A relation on states that dropping a session keeps, [collect_loop] keeps. *)
Lemma collect_loop_ind (P : list nat → mcState → Prop) idle now order m vs m' :
  (∀ vs m p s, P vs m → tables_ok m → heap m !! p = Some s → sessions m !! s_id s = Some p →
     active s = 0 → idle < Sub now (lastSeen s) → P (vs ++ [p]) (drop_session p s m)) →
  tables_ok m → P [] m → collect_loop idle now order m = (vs, m') → P vs m' ∧ tables_ok m'.
Proof.
  intros Hdrop. assert (∀ vs0 vs m, tables_ok m → P vs0 m → collect_loop idle now order m = (vs, m') →
    P (vs0 ++ vs) m' ∧ tables_ok m') as Hgen; [|intros Hm HP H; by apply (Hgen [] vs m)].
  clear m vs. induction order as [|id order IH]; intros vs0 vs m Hm HP; cbn [collect_loop].
  - intros [= <- <-]. by rewrite app_nil_r.
  - destruct (sessions m !! id) as [p|] eqn:Hp; [|by apply IH].
    destruct (tb_session _ Hm _ _ Hp) as (s & Hh & <- & _). rewrite Hh.
    destruct (_ && _) eqn:Hst; [|by apply IH]. bool_to_prop.
    destruct (collect_loop _ _ _ _) as [vs1 m1] eqn:E. intros [= <- <-].
    rewrite cons_middle, app_assoc. eapply IH; [|by apply Hdrop|exact E].
    by eapply drop_session_tables.
Qed.

(** What [acquire_locked] can do. *)
Lemma acquire_locked_inv ident now m r m' :
  acquire_locked ident now m = (r, m') →
  (∃ p, sessions m !! id_clientID ident = Some p ∧ r = Ok (p, false) ∧ m' = m) ∨
  (sessions m !! id_clientID ident = None ∧ ∃ e, r = Err e ∧ m' = m) ∨
  (sessions m !! id_clientID ident = None ∧ ∃ p db, r = Ok (p, true) ∧
     open_session ident now (set_db m db) = (p, m') ∧
     match userDB m with
     | Some d => if Empty d then db = userDB m else AcquireSlot (Some d) (userName ident) = (None, db)
     | None => db = userDB m
     end).
Proof.
  unfold acquire_locked. destruct (sessions m !! _) as [p|] eqn:Hp; [intros [= <- <-]; eauto|].
  assert (set_db m (userDB m) = m) as Hm by (by destruct m).
  destruct (userDB m) as [d|] eqn:Hd.
  - destruct (Empty d) eqn:He; cbn [negb].
    + destruct (open_session ident now m) as [p m1] eqn:E. intros [= <- <-].
      right; right. split; [done|]. exists p, (Some d). by rewrite Hm.
    + destruct (AcquireSlot (Some d) (userName ident)) as [[e|] db'] eqn:Ha.
      * intros [= <- <-]. right; left. eauto.
      * destruct (open_session ident now _) as [p m1] eqn:E. intros [= <- <-].
        right; right. split; [done|]. by exists p, db'.
  - destruct (open_session ident now m) as [p m1] eqn:E. intros [= <- <-].
    right; right. split; [done|]. exists p, None. by rewrite Hm.
Qed.

Lemma open_session_heap ident now m p m' :
  open_session ident now m = (p, m') →
  p = length (heap m) ∧ ∃ s, heap m' = heap m ++ [s] ∧ outbound s = [] ∧ isClosed s = false ∧
    s_user s = userName ident ∧ s_id s = id_clientID ident ∧
    s_a4 s = assigned4 ident ∧ s_a6 s = assigned6 ident ∧
    sessions m' = <[id_clientID ident := p]> (sessions m) ∧ userDB m' = userDB m.
Proof. intros [= <- <-]. split; [done|]. eexists. by split_and!. Qed.

Lemma tearDown_inv p m :
  tearDown p m = m ∨
  ∃ s db, heap m !! p = Some s ∧ isClosed s = false ∧
    tearDown p m = set_db (releaseAll (s_id s) (upd_session mark_closed p m)) db ∧
    db = (if bool_decide (s_user s = EmptyString) then userDB m else ReleaseSlot (userDB m) (s_user s)).
Proof.
  unfold tearDown. destruct (heap m !! p) as [s|]; [|by left].
  destruct (isClosed s) eqn:Hc; [by left|]. right.
  exists s, (if bool_decide (s_user s = EmptyString) then userDB m else ReleaseSlot (userDB m) (s_user s)).
  split_and!; [done|done| |done]. by case_bool_decide.
Qed.

Lemma tearDown_same p m :
  (∀ id, sessions m !! id ≠ Some p) → same_tables m (tearDown p m).
Proof.
  intros Hp. destruct (tearDown_inv p m) as [->|(s & db & _ & _ & -> & _)]; [by apply same_tables_heap|].
  eapply same_tables_trans; [by apply (same_tables_upd_dead mark_closed p)|by apply same_tables_heap].
Qed.

Lemma tearDown_queues p m : queues_ok m → queues_ok (tearDown p m).
Proof.
  intros Hq. destruct (tearDown_inv p m) as [->|(s & db & _ & _ & -> & _)]; [done|].
  unfold queues_ok. cbn. apply Forall_alter; [done|]. done.
Qed.

Lemma dispatch_lookup_Some vnet pkt m p :
  dispatch_lookup vnet pkt m = Some p → ∃ dst, innerDst pkt vnet = Some dst ∧ ipIndex m !! dst = Some p.
Proof.
  unfold dispatch_lookup. destruct (_ =? _)%nat; [done|]. destruct (innerDst pkt vnet) as [dst|]; [|done]. by exists dst.
Qed.

Lemma send_cases prefer pkt p m :
  (dispatch_send prefer pkt p m = m ∧
   ∀ s, heap m !! p = Some s → (outboundCap <= length (outbound s))%nat ∨ closed s = true) ∨
  ∃ s, heap m !! p = Some s ∧ (length (outbound s) < outboundCap)%nat ∧
    dispatch_send prefer pkt p m = upd_session (push_outbound pkt) p m.
Proof.
  unfold dispatch_send. destruct (heap m !! p) as [s|] eqn:Hs; [|by left].
  destruct (_ && _) eqn:E.
  - right. exists s. bool_to_prop. done.
  - left. split; [done|]. intros ? [= <-]. apply andb_false_iff in E as [E|[E _]%orb_false_iff].
    + left. by apply Nat.ltb_ge.
    + right. by apply negb_false_iff.
Qed.

Lemma read_cases n prefer p m r m' :
  sessionPIO_Read n prefer p m = (r, m') →
  m' = m ∨ ∃ s pkt rest, heap m !! p = Some s ∧ outbound s = pkt :: rest ∧
    m' = upd_session (pop_outbound rest) p m.
Proof.
  unfold sessionPIO_Read. destruct (heap m !! p) as [s|] eqn:?; [|intros [= <- <-]; by left].
  destruct (outbound s) as [|pkt rest] eqn:?; [intros [= <- <-]; by left|].
  destruct (_ && _); intros [= <- <-]; [by left|]. right. by exists s, pkt, rest.
Qed.

(** Appending to, or dropping from, one queue at [p]. *)
Lemma queues_ok_one f p s m :
  heap m !! p = Some s → (length (outbound (f s)) <= outboundCap)%nat →
  queues_ok m → queues_ok (upd_session f p m).
Proof.
  intros Hs Hf Hq. unfold queues_ok. cbn. apply Forall_lookup. intros i x.
  destruct (decide (i = p)) as [->|Hne].
  - rewrite list_lookup_alter_eq, Hs. by intros [= <-].
  - rewrite list_lookup_alter_ne by done. intros Hx. apply (Forall_lookup_1 _ _ _ _ Hq Hx).
Qed.

Lemma weak_same m m' ts : same_tables m m' → queues_ok m' → mc_weak (m, ts) → mc_weak (m', ts).
Proof.
  intros Hs Hq (Ht & _ & Hts). split_and!; [by eapply tables_ok_same|done|by eapply tasks_ok_same].
Qed.

Lemma weak_open ident now m p m' ts :
  mc_weak (m, ts) → sessions m !! id_clientID ident = None →
  open_session ident now m = (p, m') → mc_weak (m', ts).
Proof.
  intros (Ht & Hq & Hts) Hn Ho. cbn [fst snd] in *.
  pose proof (open_session_heap _ _ _ _ _ Ho) as (-> & s & Eh & Es & _ & _ & _ & _ & _ & Esess & _).
  split_and!; cbn [fst snd].
  - by eapply open_session_tables.
  - unfold queues_ok. rewrite Eh. apply Forall_app. split; [done|]. apply Forall_singleton. rewrite Es. cbn. lia.
  - intros p Hp. destruct (Hts p Hp) as [Hlt Hno]. rewrite Eh, length_app, Esess. split; [lia|].
    intros id [[_ E]|[_ E]]%lookup_insert_Some; [lia|by apply (Hno id)].
Qed.

Lemma weak_collect idle now order vs m m' ts :
  mc_weak (m, ts) → collect_loop idle now order m = (vs, m') → mc_weak (m', (TearDown <$> vs) ++ ts).
Proof.
  intros (Ht & Hq & Hts) H. cbn [fst snd] in *.
  apply (collect_loop_ind (λ vs m, queues_ok m ∧ tasks_ok m ((TearDown <$> vs) ++ ts))) in H
    as [[Hq' Hts'] Ht']; [done| |done|done].
  intros vs0 m0 p s [Hq0 Hts0] Ht0 Hh Hp _ _. split; [done|].
  intros p0. rewrite fmap_app, <-app_assoc, !elem_of_app. cbn.
  intros [Hp0|[[= ->]%list_elem_of_singleton|Hp0]].
  1,3: destruct (Hts0 p0) as [Hlt Hno]; [by rewrite elem_of_app; auto|];
       split; [done|]; intros id [_ E]%lookup_delete_Some; by apply (Hno id).
  split; [by eapply lookup_lt_Some|]. intros id [Hne E]%lookup_delete_Some.
  destruct (tb_session _ Ht0 _ _ E) as (s' & Hh' & Hid & _). congruence.
Qed.

Lemma weak_clear order vs m m' ts :
  mc_weak (m, ts) → clear_tables order m = (vs, m') → mc_weak (m', (TearDown <$> vs) ++ ts).
Proof.
  intros (Ht & Hq & Hts) [= <- <-]. cbn [fst snd] in *. split_and!; cbn [fst snd].
  - split; intros ? ? E; cbn [sessions ipIndex] in E; by rewrite lookup_empty in E.
  - done.
  - apply tasks_ok_app. split.
    + intros p (v & [= ->] & Hv)%list_elem_of_fmap. apply list_elem_of_omap in Hv as (id & _ & Hid).
      destruct (tb_session _ Ht _ _ Hid) as (s & Hs & _). split; [by eapply lookup_lt_Some|].
      intros id' E.
      cbn [sessions] in E. by rewrite lookup_empty in E.
    + intros p Hp. destruct (Hts p Hp) as [Hlt _]. split; [done|]. intros id' E.
      cbn [sessions] in E. by rewrite lookup_empty in E.
Qed.

Lemma task_same t m ts : tasks_ok m ts → t ∈ ts → same_tables m (run_task t m).
Proof.
  intros Hts Ht. destruct t as [p|id|prefer pkt p]; cbn; [|by apply same_tables_heap|].
  - apply tearDown_same. intros id. by apply (Hts p).
  - destruct (send_cases prefer pkt p m) as [[-> _]|(s & _ & _ & ->)]; [by apply same_tables_heap|by apply same_tables_upd].
Qed.

Lemma send_queues prefer pkt p m : queues_ok m → queues_ok (dispatch_send prefer pkt p m).
Proof.
  intros Hq. destruct (send_cases prefer pkt p m) as [[-> _]|(s & Hs & Hlt & ->)]; [done|].
  eapply queues_ok_one; [exact Hs| |done]. cbn. rewrite length_app. cbn. lia.
Qed.

Lemma weak_task t m ts1 ts2 : mc_weak (m, ts1 ++ t :: ts2) → mc_weak (run_task t m, ts1 ++ ts2).
Proof.
  intros (Ht & Hq & Hts). cbn [fst snd] in *.
  assert (same_tables m (run_task t m)) as Hsame by (eapply task_same; [exact Hts|set_solver]).
  split_and!; cbn [fst snd]; [by eapply tables_ok_same| |].
  - destruct t as [p|id|prefer pkt p]; [by apply tearDown_queues|done|by apply send_queues].
  - eapply tasks_ok_same; [exact Hsame|]. intros p Hp. apply Hts. set_solver.
Qed.

Lemma weak_read n prefer p r m m' ts :
  sessionPIO_Read n prefer p m = (r, m') → mc_weak (m, ts) → mc_weak (m', ts).
Proof.
  intros H Hw. destruct (read_cases _ _ _ _ _ _ H) as [->|(s & pkt & rest & Hs & Ho & ->)]; [done|].
  eapply weak_same; [by apply same_tables_upd| |exact Hw].
  destruct Hw as (_ & Hq & _). eapply queues_ok_one; [exact Hs| |done]. cbn.
  pose proof (Forall_lookup_1 _ _ _ _ Hq Hs) as Hl. cbn in Hl. rewrite Ho in Hl. cbn in Hl. lia.
Qed.

Lemma mc_step_weak cfg q r st st' : mc_step cfg q r st st' → mc_weak st → mc_weak st'.
Proof.
  intros Hstep Hw. destruct Hstep as [? ? ? ? ? ? ? H|ident now res m m' ts _ H|? ? ? ? ? ts H| | ? ? ? ? ? ? ? H|
    | ? ? ? ? ? ? ? H|? ? ? ? ? _ _ H| |prefer pkt p m ts _| ? ? ? ? ? ? ? H|db m ts _].
  - apply assignFn_tables in H as (E1 & E2 & E3 & _).
    apply (weak_same m); [by apply same_tables_heap| |exact Hw]. unfold queues_ok. rewrite E3. apply Hw.
  - apply acquire_locked_inv in H as [(p & _ & _ & ->)|[(_ & e & [=] & _)|(Hn & p & db & _ & Ho & _)]]; [done|].
    apply (weak_open _ _ _ _ _ ts) in Ho; [done| |done].
    apply (weak_same m); [by apply same_tables_heap|apply Hw|exact Hw].
  - apply acquire_locked_inv in H as [(p & _ & [=] & _)|[(_ & e' & _ & ->)|(Hn & p & db & [=] & _)]].
    destruct Hw as (? & ? & Hts). split_and!; [done..|]. intros p [[=]|Hp]%elem_of_cons. by apply Hts.
  - unfold releaseOrphan. case_bool_decide; [done|].
    apply (weak_same m); [by apply same_tables_heap|apply Hw|exact Hw].
  - injection H as <- <-. eapply weak_same; [by apply same_tables_upd| |exact Hw].
    apply queues_ok_upd; [done|apply Hw].
  - eapply weak_same; [by apply same_tables_upd| |exact Hw]. apply queues_ok_upd; [done|apply Hw].
  - by eapply weak_collect.
  - by eapply weak_clear.
  - by apply weak_task.
  - destruct Hw as (? & ? & Hts). split_and!; [done..|]. intros p' [[=]|Hp]%elem_of_cons. by apply Hts.
  - by eapply weak_read.
  - apply (weak_same m); [by apply same_tables_heap|apply Hw|exact Hw].
Qed.

(** ** Ownership *)

Definition owns (pool : option ipPool) (id : clientID) (a : Addr) : Prop :=
  IsValid a = true → ∃ q, pool = Some q ∧ byClient q !! id = Some a.

Definition families (s : session) : Prop :=
  (IsValid (s_a4 s) = true → Is4 (s_a4 s) = true) ∧ (IsValid (s_a6 s) = true → Is6 (s_a6 s) = true).

(** Pools are well formed, every live session owns its addresses in them, and the
    index routes each of these addresses to it. *)
Record owned_ok (m : mcState) : Prop := {
  oo_pool4 q : pool4 m = Some q → pool_wf q;
  oo_pool6 q : pool6 m = Some q → pool_wf q;
  oo_own id p s : sessions m !! id = Some p → heap m !! p = Some s →
    owns (pool4 m) id (s_a4 s) ∧ owns (pool6 m) id (s_a6 s) ∧ families s;
  oo_index id p s a : sessions m !! id = Some p → heap m !! p = Some s → addr_of s a →
    ipIndex m !! a = Some p
}.

Lemma owns_inj pool id1 id2 a :
  (∀ q, pool = Some q → pool_wf q) → IsValid a = true → owns pool id1 a → owns pool id2 a → id1 = id2.
Proof.
  intros Hwf Hv H1 H2. destruct (H1 Hv) as (q & -> & E1), (H2 Hv) as (q' & [= <-] & E2).
  destruct (Hwf q eq_refl) as [_ Ho]. by eapply (ow_inj _ Ho).
Qed.

(** No address belongs to two live sessions. *)
Lemma live_distinct m id1 p1 s1 id2 p2 s2 a :
  owned_ok m → sessions m !! id1 = Some p1 → heap m !! p1 = Some s1 → addr_of s1 a →
  sessions m !! id2 = Some p2 → heap m !! p2 = Some s2 → addr_of s2 a → id1 = id2.
Proof.
  intros Ho S1 H1 [Hv A1] S2 H2 [_ A2].
  destruct (oo_own _ Ho _ _ _ S1 H1) as (O1 & O1' & F1 & F1').
  destruct (oo_own _ Ho _ _ _ S2 H2) as (O2 & O2' & F2 & F2').
  destruct A1 as [-> | ->], A2 as [E|E]; rewrite E in *.
  - by apply (owns_inj _ _ _ _ (oo_pool4 _ Ho) Hv).
  - exfalso. specialize (F1 Hv). specialize (F2' Hv). by destruct (s_a6 s2).
  - exfalso. specialize (F1' Hv). specialize (F2 Hv). by destruct (s_a4 s2).
  - by apply (owns_inj _ _ _ _ (oo_pool6 _ Ho) Hv).
Qed.

Lemma owned_same m m' :
  same_tables m m' → tables_ok m → pool4 m' = pool4 m → pool6 m' = pool6 m → owned_ok m → owned_ok m'.
Proof.
  intros (E1 & E2 & _ & Hh) Ht P4 P6 [H4 H6 Hown Hidx].
  assert (∀ id p s', sessions m' !! id = Some p → heap m' !! p = Some s' →
    ∃ s, sessions m !! id = Some p ∧ heap m !! p = Some s ∧ s_a4 s' = s_a4 s ∧ s_a6 s' = s_a6 s) as Hback.
  { intros id p s' Hs Hs'. rewrite E1 in Hs. destruct (tb_session _ Ht _ _ Hs) as (s & Hp & _).
    destruct (Hh _ _ _ Hs Hp) as (s'' & Hp' & A1 & A2 & A3 & _). simplify_eq. eauto. }
  split; rewrite ?P4, ?P6; try done.
  - intros id p s' Hs Hp'. destruct (Hback _ _ _ Hs Hp') as (s & Hs' & Hp & A4 & A6).
    unfold families. rewrite A4, A6. by eapply Hown.
  - intros id p s' a Hs Hp' [Hv Ha]. destruct (Hback _ _ _ Hs Hp') as (s & Hs' & Hp & A4 & A6).
    rewrite E2. eapply Hidx; [done..|]. split; [done|]. by rewrite <-A4, <-A6.
Qed.

(** A change of the pools that keeps what live clients own. *)
Definition keeps_owners (live : clientID → Prop) (o o' : option ipPool) : Prop :=
  match o, o' with
  | Some q, Some q' =>
      (pool_wf q → pool_wf q') ∧
      ∀ id a, pool_wf q → live id → byClient q !! id = Some a → byClient q' !! id = Some a
  | None, None => True
  | _, _ => False
  end.

Lemma keeps_owners_owns live o o' id a :
  (∀ q, o = Some q → pool_wf q) → keeps_owners live o o' → live id → owns o id a → owns o' id a.
Proof.
  intros Hwf Hk Hl Ho Hv. destruct (Ho Hv) as (q & -> & E). destruct o' as [q'|]; [|done].
  exists q'. split; [done|]. apply Hk; auto.
Qed.

Lemma keeps_owners_wf live o o' :
  keeps_owners live o o' → (∀ q, o = Some q → pool_wf q) → ∀ q, o' = Some q → pool_wf q.
Proof. intros Hk Hwf q ->. destruct o as [q0|]; [|done]. apply Hk; auto. Qed.

Lemma keeps_owners_refl live o : keeps_owners live o o.
Proof. by destruct o. Qed.

Lemma owned_pools m p4 p6 :
  let live id := is_Some (sessions m !! id) in
  keeps_owners live (pool4 m) p4 → keeps_owners live (pool6 m) p6 →
  owned_ok m → owned_ok (set_pools m p4 p6).
Proof.
  intros live K4 K6 [H4 H6 Hown Hidx]. split; cbn.
  - by eapply keeps_owners_wf.
  - by eapply keeps_owners_wf.
  - intros id p s Hs Hp. destruct (Hown _ _ _ Hs Hp) as (O4 & O6 & F).
    assert (live id) by (by exists p).
    split_and!; [by eapply keeps_owners_owns, O4|by eapply keeps_owners_owns, O6|exact F].
  - done.
Qed.

Lemma assign_family_keeps live o user id pref db r o' :
  assign_family o user id pref db = Ok (r, o') → keeps_owners live o o'.
Proof.
  unfold assign_family. destruct o as [q|]; [|by intros [= <- <-]].
  destruct (AllocateFor q user id pref db) as [[a q']|e|] eqn:E; [|intros [= <- <-]; by split|done].
  intros [= <- <-]. split; [intros Hw; by eapply AllocateFor_wf|].
  intros id' b Hw _ Hb. destruct (AllocateFor_Ok _ _ _ _ _ _ _ (proj1 Hw) E) as [[_ ->]|(Hn & -> & _)]; [done|].
  cbn. rewrite lookup_insert_ne; [done|]. congruence.
Qed.

Lemma Release_keeps (live : clientID → Prop) o id :
  (¬ live id) → keeps_owners live o ((λ p, Release p id) <$> o).
Proof.
  intros Hl. destruct o as [q|]; [|done]. cbn. split; [by apply Release_wf|].
  intros id' a _ Hl' Ha. unfold Release. destruct (byClient q !! id) eqn:E; [|done]. cbn.
  rewrite lookup_delete_ne; [done|]. by intros ->.
Qed.

Lemma claim_keeps live o id a :
  still_ours o id a → keeps_owners live o (claim_family o id a) ∧
  ((∀ q, o = Some q → pool_wf q) → owns (claim_family o id a) id a).
Proof.
  unfold claim_family, still_ours, owns. intros Hs. destruct (IsValid a); [|by split; [apply keeps_owners_refl|]].
  destruct (Hs eq_refl) as (q & -> & Hc & Hcase). cbn. split; [split|].
  - intros Hw. destruct Hcase as [Hown|[Hn Hu]]; [by rewrite (Claim_own _ _ _ (proj2 Hw) Hown)|].
    rewrite (Claim_take _ _ _ (proj1 Hw) Hc). by apply take_addr_wf.
  - intros id' b Hw _ Hb. rewrite (Claim_take _ _ _ (proj1 Hw) Hc). cbn.
    destruct (decide (id' = id)) as [->|Hne]; [|by rewrite lookup_insert_ne].
    rewrite lookup_insert_eq. destruct Hcase as [E|[E _]]; congruence.
  - intros Hw _. eexists. split; [done|]. rewrite (Claim_take _ _ _ (proj1 (Hw q eq_refl)) Hc). cbn.
    by rewrite lookup_insert_eq.
Qed.

Lemma owned_open ident now m p m' :
  tables_ok m → owned_ok m → sessions m !! id_clientID ident = None → ident_fresh ident m →
  open_session ident now m = (p, m') → owned_ok m'.
Proof.
  intros Ht Ho Hn (F4 & F6 & V4 & V6) Hopen.
  set (id := id_clientID ident) in *. set (live := λ id' : clientID, id' ≠ id).
  destruct (claim_keeps live _ _ _ F4) as [K4 O4]. destruct (claim_keeps live _ _ _ F6) as [K6 O6].
  assert (∀ a q, (a = assigned4 ident ∨ a = assigned6 ident) → IsValid a = true →
    ipIndex m !! a = Some q → False) as Hfree.
  { intros a q Ha Hv Hq. destruct (tb_index _ Ht _ _ Hq) as (s & Hs & Hp & Hsa).
    destruct (oo_own _ Ho _ _ _ Hp Hs) as (W4 & W6 & G4 & G6).
    assert (∀ pool, (∀ q, pool = Some q → pool_wf q) → still_ours pool id a → owns pool (s_id s) a → False) as Hx.
    { intros pool Hw Hso Hown. destruct (Hso Hv) as (q0 & -> & _ & Hc).
      destruct (Hown Hv) as (? & [= <-] & Eb). destruct (Hw q0 eq_refl) as [_ Hwf].
      destruct Hc as [Hc|[Hc Hu]]; [|by destruct (ow_used _ Hwf _ _ Eb)].
      assert (s_id s = id) as E by (by eapply (ow_inj _ Hwf)). rewrite E in Hp. congruence. }
    destruct Hsa as [_ [E|E]], Ha as [-> | ->].
    - rewrite <-E in W4. by apply (Hx (pool4 m) (oo_pool4 _ Ho)).
    - rewrite <-E in G4. specialize (V6 Hv). specialize (G4 Hv). by destruct (assigned6 ident).
    - rewrite <-E in G6. specialize (V4 Hv). specialize (G6 Hv). by destruct (assigned4 ident).
    - rewrite <-E in W6. by apply (Hx (pool6 m) (oo_pool6 _ Ho)). }
  injection Hopen as <- <-. split; cbn [pool4 pool6 sessions heap ipIndex].
  - eapply keeps_owners_wf; [exact K4|apply Ho].
  - eapply keeps_owners_wf; [exact K6|apply Ho].
  - intros id' q s [[<- <-]|[Hne Hq]]%lookup_insert_Some.
    + rewrite list_lookup_middle by done. intros [= <-]. cbn.
      split_and!; [apply O4, Ho|apply O6, Ho|by split].
    + destruct (tb_session _ Ht _ _ Hq) as (s' & Hs' & _). rewrite lookup_app_l by (by eapply lookup_lt_Some).
      intros Hs. destruct (oo_own _ Ho _ _ _ Hq Hs) as (W4 & W6 & G).
      split_and!; [exact (keeps_owners_owns live _ _ _ _ (oo_pool4 _ Ho) K4 (not_eq_sym Hne) W4)
        |exact (keeps_owners_owns live _ _ _ _ (oo_pool6 _ Ho) K6 (not_eq_sym Hne) W6)|done].
  - intros id' q s a. rewrite !index_addr_Some.
    intros [[<- <-]|[Hne Hq]]%lookup_insert_Some.
    + rewrite list_lookup_middle by done. intros [= <-] [Hv Ha]. cbn in Ha.
      destruct (decide (a = assigned6 ident)) as [->|N6]; [by left|right]. split; [done|].
      destruct Ha as [-> | ->]; [by left|done].
    + destruct (tb_session _ Ht _ _ Hq) as (s' & Hs' & _). rewrite lookup_app_l by (by eapply lookup_lt_Some).
      intros Hs Ha. pose proof (oo_index _ Ho _ _ _ _ Hq Hs Ha) as Hi.
      destruct Ha as [Hv Ha]. right.
      split; [intros _ ->; by apply (Hfree _ _ (or_intror eq_refl) Hv Hi)|].
      right. split; [intros _ ->; by apply (Hfree _ _ (or_introl eq_refl) Hv Hi)|done].
Qed.

Lemma owned_drop p s m :
  tables_ok m → owned_ok m → heap m !! p = Some s → sessions m !! s_id s = Some p →
  owned_ok (drop_session p s m).
Proof.
  intros Ht Ho Hs Hp. split; cbn; try apply Ho.
  - intros id q s' [_ Hq]%lookup_delete_Some. by apply (oo_own _ Ho).
  - intros id q s' a [Hne Hq]%lookup_delete_Some Hs' Ha.
    rewrite !unindex_Some. pose proof (oo_index _ Ho _ _ _ _ Hq Hs' Ha) as Hi.
    assert (∀ b, IsValid b = true → b = s_a4 s ∨ b = s_a6 s → a ≠ b) as Hd.
    { intros b Hv Hb ->. apply Hne. by eapply (live_distinct m _ _ s _ _ s'). }
    split_and!; auto.
Qed.

Lemma owned_release id m : sessions m !! id = None → owned_ok m → owned_ok (releaseAll id m).
Proof.
  intros Hn. apply owned_pools; apply Release_keeps; by rewrite Hn; intros [? ?].
Qed.

Lemma owned_tearDown p m :
  tables_ok m → owned_ok m → (∀ id, sessions m !! id ≠ Some p) → task_quiet (TearDown p) m →
  owned_ok (tearDown p m).
Proof.
  intros Ht Ho Hp Hquiet.
  destruct (tearDown_inv p m) as [->|(s & db & Hs & _ & -> & _)]; [done|].
  set (m1 := upd_session mark_closed p m).
  assert (owned_ok m1) as Ho1 by (eapply owned_same; [by apply (same_tables_upd_dead mark_closed p)|done..]).
  assert (owned_ok (releaseAll (s_id s) m1)) as Ho2.
  { apply owned_release; [|done]. apply Hquiet. cbn. by rewrite Hs. }
  by destruct Ho2; split.
Qed.

Lemma mc_step_owned cfg r st st' :
  mc_step cfg true r st st' → mc_weak st → owned_ok st.1 → owned_ok st'.1.
Proof.
  intros Hstep (Ht & _ & Hts) Ho.
  destruct Hstep as [? ? ? ? m m' ts H|ident now res m m' ts Hf H|? ? ? ? ? ts H|id m ts| ? ? ? ? m ? ? H|
    ? ? m ?| ? ? ? ? ? ? ? H|? ? m m' ? _ _ H|t m ts1 ts2 Hquiet|prefer pkt p m ts _| ? ? ? ? ? ? ? H|db m ts _]; cbn [fst snd] in *.
  - unfold assignFn in H. destruct (assign_family (pool4 m) _ _ _ _) as [[r4 p4]| |] eqn:E4; [|done..].
    destruct (assign_family (pool6 m) _ _ _ _) as [[r6 p6]| |] eqn:E6; [|done..]. injection H as _ <-.
    apply owned_pools; [by eapply assign_family_keeps..|done].
  - apply acquire_locked_inv in H as [(p & _ & _ & ->)|[(_ & e & [=] & _)|(Hn & p & db & _ & Hop & _)]]; [done|].
    assert (same_tables m (set_db m db)) as Hsame by (by apply same_tables_heap).
    eapply (owned_open ident now (set_db m db)); [|by eapply owned_same|done|by apply Hf|exact Hop].
    by eapply tables_ok_same.
  - by apply acquire_locked_inv in H as [(p & _ & [=] & _)|[(_ & e' & _ & ->)|(Hn & p & db & [=] & _)]].
  - unfold releaseOrphan. case_bool_decide as Hl; [done|]. apply owned_release; [|done].
    by apply eq_None_not_Some.
  - injection H as <- <-. eapply owned_same; [by apply same_tables_upd|done..].
  - eapply owned_same; [by apply same_tables_upd|done..].
  - apply (collect_loop_ind (λ _ m, owned_ok m)) in H as [H _]; [done| |done|done].
    intros. by apply owned_drop.
  - injection H as <- <-. split; cbn; try apply Ho; intros; cbn in *; by rewrite lookup_empty in *.
  - assert (t ∈ ts1 ++ t :: ts2) as Hin by set_solver. destruct t as [p|id|prefer pkt p]; cbn.
    + apply owned_tearDown; [done|done|by apply Hts|by apply Hquiet].
    + apply owned_release; [|done]. by apply Hquiet.
    + destruct (send_cases prefer pkt p m) as [[-> _]|(s & _ & _ & ->)]; [done|].
      eapply owned_same; [by apply same_tables_upd|done..].
  - done.
  - destruct (read_cases _ _ _ _ _ _ H) as [->|(? & ? & ? & _ & _ & ->)]; [done|].
    eapply owned_same; [by apply same_tables_upd|done..].
  - apply (owned_same m); [by apply same_tables_heap|done..].
Qed.

(** ** Quotas *)

(** The sessions of a user that have not been torn down. *)
Definition open_sessions (n : string) (h : list session) : nat :=
  length (filter (λ s, s_user s = n ∧ isClosed s = false) h).

#[local] Arguments open_sessions : simpl never.

(** The database counts them, and only configured users have sessions. *)
Definition quota_inv (us : list User) (m : mcState) : Prop :=
  ∃ d, userDB m = Some d ∧ represents d us ∧ quota_ok d ∧
    (∀ n, n ∈ (Name <$> us) → active_of d n = Some (Z.of_nat (open_sessions n (heap m)))) ∧
    Forall (λ s, s_user s ∈ (Name <$> us)) (heap m).

Lemma alter_out {A} (f : A → A) p (l : list A) : l !! p = None → alter f p l = l.
Proof.
  intros Hp. apply list_eq. intros i. destruct (decide (i = p)) as [->|Hne].
  - by rewrite list_lookup_alter_eq, Hp.
  - by rewrite list_lookup_alter_ne.
Qed.

Lemma alter_insert {A} (f : A → A) p (l : list A) x : l !! p = Some x → alter f p l = <[p := f x]> l.
Proof.
  intros Hp. apply list_eq. intros i. destruct (decide (i = p)) as [->|Hne].
  - rewrite list_lookup_alter_eq, list_lookup_insert_eq, Hp by (by eapply lookup_lt_Some). done.
  - by rewrite list_lookup_alter_ne, list_lookup_insert_ne.
Qed.

Lemma open_sessions_snoc n h s :
  open_sessions n (h ++ [s]) =
  (open_sessions n h + if bool_decide (s_user s = n ∧ isClosed s = false) then 1 else 0)%nat.
Proof.
  unfold open_sessions. rewrite filter_app, length_app, filter_cons, filter_nil.
  case_bool_decide; case_decide; done.
Qed.

Lemma open_sessions_alter n f p h s :
  h !! p = Some s → s_user (f s) = s_user s →
  (open_sessions n (alter f p h) + (if bool_decide (s_user s = n ∧ isClosed s = false) then 1 else 0) =
   open_sessions n h + (if bool_decide (s_user s = n ∧ isClosed (f s) = false) then 1 else 0))%nat.
Proof.
  intros Hp Hu. unfold open_sessions.
  rewrite (alter_insert f p h s Hp).
  rewrite insert_take_drop by (by eapply lookup_lt_Some).
  pose proof (take_drop_middle h p s Hp) as Eh.
  remember (take p h) as l. remember (drop (S p) h) as r. clear Heql Heqr Hp. subst h.
  rewrite !filter_app, !length_app, !filter_cons, Hu.
  repeat case_bool_decide; repeat case_decide; cbn [length]; done || lia.
Qed.

Lemma quota_same us m m' :
  userDB m' = userDB m → (∀ n, open_sessions n (heap m') = open_sessions n (heap m)) →
  Forall (λ s, s_user s ∈ (Name <$> us)) (heap m') → quota_inv us m → quota_inv us m'.
Proof.
  intros E Hn Hu (d & Hd & Hrep & Hq & Hc & _). exists d. rewrite E. split_and!; try done.
  intros n Hin. rewrite Hn. by apply Hc.
Qed.

(** Changes of one session that neither close it nor rename it. *)
Lemma quota_upd us f p m :
  (∀ s, s_user (f s) = s_user s ∧ isClosed (f s) = isClosed s) →
  quota_inv us m → quota_inv us (upd_session f p m).
Proof.
  intros Hf Hinv. pose proof Hinv as (d & _ & _ & _ & _ & Hu).
  eapply quota_same; [..|exact Hinv]; [done| |].
  - intros n. cbn. destruct (heap m !! p) as [s|] eqn:Hp.
    + pose proof (open_sessions_alter n f p _ s Hp (proj1 (Hf s))) as H.
      rewrite (bool_decide_ext (_ ∧ isClosed (f s) = false) (s_user s = n ∧ isClosed s = false)) in H
        by (by rewrite (proj2 (Hf s))). lia.
    + by rewrite alter_out.
  - cbn. apply Forall_alter; [done|]. intros s _ Hs. by rewrite (proj1 (Hf s)).
Qed.

Lemma quota_heap us m m' :
  userDB m' = userDB m → heap m' = heap m → quota_inv us m → quota_inv us m'.
Proof.
  intros E1 E2 Hi. pose proof Hi as (d & _ & _ & _ & _ & Hu).
  eapply quota_same; [done|by rewrite E2|by rewrite E2|done].
Qed.

(** The database after one slot operation for a user of the list. *)
Definition moved (us : list User) (n : string) (k : Z) (d d' : UserDB) : Prop :=
  represents d' us ∧ quota_ok d' ∧
  ∀ n' x, active_of d n' = Some x → active_of d' n' = Some (if decide (n' = n) then x + k else x).

Lemma bump_moved us d n p k :
  represents d us → byName d !! n = Some p → quota_ok (bump_active d p k) →
  moved us n k d (bump_active d p k).
Proof.
  intros Hrep Hp Hq. split_and!; [by apply bump_active_rep|done|].
  intros n' x Hx. rewrite (active_of_bump _ us n) by done. case_decide; by rewrite Hx.
Qed.

Lemma byName_user us d n p : represents d us → byName d !! n = Some p → n ∈ (Name <$> us).
Proof.
  intros Hrep (u & Hu & <-)%(rep_name _ _ Hrep). apply list_elem_of_fmap_2. by eapply list_elem_of_lookup_2.
Qed.

Lemma AcquireSlot_moved us d n db :
  represents d us → quota_ok d → AcquireSlot (Some d) n = (None, db) →
  n ∈ (Name <$> us) ∧ ∃ d', db = Some d' ∧ moved us n 1 d d'.
Proof.
  intros Hrep Hq Ha. pose proof (slot_step_inv d us (OpAcquire n) Hrep Hq) as [_ Hs].
  unfold slot_step in Hs. cbn in Ha, Hs. destruct (byName d !! n) as [p|] eqn:Hp; [|done].
  destruct (entries d !! p) as [e|] eqn:He; [|done]. destruct (_ && _); [done|]. injection Ha as <-.
  split; [by eapply byName_user|]. eexists. split; [done|]. by apply bump_moved.
Qed.

Lemma ReleaseSlot_moved us d n x :
  represents d us → quota_ok d → active_of d n = Some x → 0 < x →
  ∃ d', ReleaseSlot (Some d) n = Some d' ∧ moved us n (-1) d d'.
Proof.
  intros Hrep Hq Hx Hpos. pose proof (slot_step_inv d us (OpRelease n) Hrep Hq) as [_ Hs].
  unfold slot_step in Hs. unfold active_of in Hx. cbn in Hs |- *. destruct (byName d !! n) as [p|] eqn:Hp; [|done].
  cbn in Hx. destruct (entries d !! p) as [e|] eqn:He; [|done]. injection Hx as <-.
  rewrite (proj2 (Z.ltb_lt _ _)) in Hs |- * by done. eexists. split; [done|]. by apply bump_moved.
Qed.

Lemma quota_open us ident now m p m' db :
  us ≠ [] → quota_inv us m →
  match userDB m with
  | Some d => if Empty d then db = userDB m else AcquireSlot (Some d) (userName ident) = (None, db)
  | None => db = userDB m
  end →
  open_session ident now (set_db m db) = (p, m') → quota_inv us m'.
Proof.
  intros Hne (d & Hd & Hrep & Hq & Hc & Hu) Hacq Hopen. rewrite Hd in Hacq.
  destruct (Empty d) eqn:He; [by apply (Empty_spec _ _ Hrep) in He|].
  destruct (AcquireSlot_moved _ _ _ _ Hrep Hq Hacq) as (Hn & d' & -> & Hrep' & Hq' & Hact).
  destruct (open_session_heap _ _ _ _ _ Hopen) as (_ & s & Eh & _ & Ec & Eu & _ & _ & _ & _ & Edb).
  exists d'. rewrite Edb, Eh. split_and!; try done.
  - intros n' Hn'. rewrite (Hact _ _ (Hc n' Hn')), open_sessions_snoc, Ec, Eu. f_equal.
    case_decide; case_bool_decide; naive_solver lia.
  - apply Forall_app. split; [done|]. apply Forall_singleton. by rewrite Eu.
Qed.

Lemma quota_tearDown us p m :
  EmptyString ∉ (Name <$> us) → quota_inv us m → quota_inv us (tearDown p m).
Proof.
  intros Hnames (d & Hd & Hrep & Hq & Hc & Hu).
  destruct (tearDown_inv p m) as [->|(s & db & Hs & Hcl & -> & Edb)]; [by exists d|].
  pose proof (Forall_lookup_1 _ _ _ _ Hu Hs) as Hsu. cbn in Hsu.
  assert (s_user s ≠ EmptyString) as Hne by congruence.
  rewrite bool_decide_eq_false_2 in Edb by done.
  assert (0 < Z.of_nat (open_sessions (s_user s) (heap m))) as Hpos.
  { unfold open_sessions. assert (s ∈ filter (λ s', s_user s' = s_user s ∧ isClosed s' = false) (heap m)) as Hin.
    { apply list_elem_of_filter. split; [done|]. by eapply list_elem_of_lookup_2. }
    destruct (filter _ _); [by apply not_elem_of_nil in Hin|]. cbn. lia. }
  rewrite Hd in Edb.
  destruct (ReleaseSlot_moved _ _ _ _ Hrep Hq (Hc _ Hsu) Hpos) as (d' & Er & Hrep' & Hq' & Hact).
  exists d'. cbn. split_and!; [congruence|done|done| |].
  - intros n' Hn'. rewrite (Hact _ _ (Hc n' Hn')).
    pose proof (open_sessions_alter n' mark_closed p _ s Hs eq_refl) as Ho. cbn in Ho.
    f_equal. revert Ho. rewrite (bool_decide_eq_false_2 (_ ∧ true = false)) by naive_solver.
    case_decide; case_bool_decide; intros; naive_solver lia.
  - apply Forall_alter; [done|]. done.
Qed.

Lemma mc_step_quota us cfg q st st' :
  us ≠ [] → EmptyString ∉ (Name <$> us) → mc_step cfg q false st st' → mc_weak st →
  quota_inv us st.1 → quota_inv us st'.1.
Proof.
  intros Hne Hnames Hstep (Ht & _ & _) Hi.
  destruct Hstep as [? ? ? ? m m' ts H|ident now res m m' ts _ H|? ? ? ? ? ts H|id m ts| ? ? ? ? m ? ? H|
    ? ? m ?| ? ? ? ? ? ? ? H|? ? m m' ? _ _ H|t m ts1 ts2 _|prefer pkt p m ts _| ? ? ? ? ? ? ? H|db m ts [=]]; cbn [fst snd] in *.
  - apply assignFn_tables in H as (_ & _ & E3 & E4). by eapply quota_heap.
  - apply acquire_locked_inv in H as [(p & _ & _ & ->)|[(_ & e & [=] & _)|(Hn & p & db & _ & Hop & Hdb)]]; [done|].
    by eapply quota_open.
  - by apply acquire_locked_inv in H as [(p & _ & [=] & _)|[(_ & e' & _ & ->)|(Hn & p & db & [=] & _)]].
  - unfold releaseOrphan. case_bool_decide; [done|]. by apply (quota_heap us m).
  - injection H as <- <-. by apply quota_upd.
  - by apply quota_upd.
  - apply (collect_loop_ind (λ _ m, quota_inv us m)) in H as [H _]; [done| |done|done].
    intros vs0 m0 p s Hq _ _ _ _ _. by apply (quota_heap us m0).
  - injection H as <- <-. by apply (quota_heap us m).
  - destruct t as [p|id|prefer pkt p]; cbn; [by apply quota_tearDown|by apply (quota_heap us m)|].
    destruct (send_cases prefer pkt p m) as [[-> _]|(s & _ & _ & ->)]; [done|by apply quota_upd].
  - done.
  - destruct (read_cases _ _ _ _ _ _ H) as [->|(? & ? & ? & _ & _ & ->)]; [done|]. by apply quota_upd.
Qed.

(** ** Packets and their sessions *)

(** The packet is addressed to the session. *)
Definition mine (vnet : bool) (s : session) (pkt : list byte) : Prop :=
  ∃ dst, innerDst pkt vnet = Some dst ∧ addr_of s dst.

(** What is queued, or found its session and waits to be sent, is the session's own. *)
Definition mail_ok (vnet : bool) (st : mcState * list task) : Prop :=
  (∀ p s, heap st.1 !! p = Some s → Forall (mine vnet s) (outbound s)) ∧
  (∀ prefer pkt p, Deliver prefer pkt p ∈ st.2 → ∃ s, heap st.1 !! p = Some s ∧ mine vnet s pkt).

(** Sessions stay in the heap with their addresses; a queue gains at most the packet of a
    pending send. *)
Definition mail_kept (m m' : mcState) (new : nat → list byte → Prop) : Prop :=
  (∀ p s, heap m !! p = Some s → ∃ s', heap m' !! p = Some s' ∧ s_a4 s' = s_a4 s ∧ s_a6 s' = s_a6 s) ∧
  (∀ p s', heap m' !! p = Some s' → outbound s' = [] ∨
     ∃ s, heap m !! p = Some s ∧ s_a4 s' = s_a4 s ∧ s_a6 s' = s_a6 s ∧
       ∀ pkt, pkt ∈ outbound s' → pkt ∈ outbound s ∨ new p pkt).

Lemma mail_kept_heap m m' new : heap m' = heap m → mail_kept m m' new.
Proof. intros E. unfold mail_kept. rewrite E. split; [by eauto|]. intros p s' Hs. right. exists s'. auto. Qed.

Lemma mail_kept_upd f p m (new : nat → list byte → Prop) :
  (∀ s, s_a4 (f s) = s_a4 s ∧ s_a6 (f s) = s_a6 s) →
  (∀ s pkt, heap m !! p = Some s → pkt ∈ outbound (f s) → pkt ∈ outbound s ∨ new p pkt) →
  mail_kept m (upd_session f p m) new.
Proof.
  intros Hf Hn. split; cbn; intros q s Hs; (destruct (decide (q = p)) as [->|Hne];
    [rewrite list_lookup_alter_eq in *|rewrite list_lookup_alter_ne in * by done]).
  - rewrite Hs. eexists. split; [done|apply Hf].
  - by exists s.
  - destruct (heap m !! p) as [s0|] eqn:E; [|done]. injection Hs as <-. right. exists s0.
    split_and!; [done|apply Hf..|]. eauto.
  - right. exists s. auto.
Qed.

Lemma mail_ok_kept vnet m m' ts ts' :
  mail_ok vnet (m, ts) →
  mail_kept m m' (λ p pkt, ∃ prefer, Deliver prefer pkt p ∈ ts) →
  (∀ prefer pkt p, Deliver prefer pkt p ∈ ts' → Deliver prefer pkt p ∈ ts ∨
     ∃ s, heap m !! p = Some s ∧ mine vnet s pkt) →
  mail_ok vnet (m', ts').
Proof.
  intros [Hq Ht] [Hf Hb] Hts. cbn [fst snd] in *.
  assert (∀ s s' pkt, s_a4 s' = s_a4 s → s_a6 s' = s_a6 s → mine vnet s pkt → mine vnet s' pkt) as Hm.
  { intros s s' pkt E4 E6 (dst & Hd & Hv & Ha). exists dst. split; [done|]. split; [done|]. by rewrite E4, E6. }
  split; cbn [fst snd].
  - intros p s' Hs'. destruct (Hb p s' Hs') as [->|(s & Hs & E4 & E6 & Hin)]; [apply Forall_nil_2|].
    apply Forall_forall. intros pkt [Hp|[prefer Hp]]%Hin.
    + eapply Hm; [done..|]. by eapply Forall_forall; [apply (Hq p)|].
    + destruct (Ht _ _ _ Hp) as (s0 & Hs0 & Hmine). simplify_eq. by eapply Hm.
  - intros prefer pkt p Hp. assert (∃ s, heap m !! p = Some s ∧ mine vnet s pkt) as (s & Hs & Hmine)
      by (destruct (Hts _ _ _ Hp) as [Hp'|?]; [by apply (Ht prefer)|done]).
    destruct (Hf p s Hs) as (s' & Hs' & E4 & E6). exists s'. split; [done|]. by eapply Hm.
Qed.

Lemma run_task_mail t m ts1 ts2 :
  mail_kept m (run_task t m) (λ p pkt, ∃ prefer, Deliver prefer pkt p ∈ ts1 ++ t :: ts2).
Proof.
  destruct t as [p|id|prefer pkt p]; cbn [run_task].
  - destruct (tearDown_inv p m) as [->|(s & db & _ & _ & -> & _)]; [by apply mail_kept_heap|].
    apply (mail_kept_upd mark_closed p m); [done|by left].
  - by apply mail_kept_heap.
  - destruct (send_cases prefer pkt p m) as [[-> _]|(s & _ & _ & ->)]; [by apply mail_kept_heap|].
    apply mail_kept_upd; [done|]. intros s' pkt' _. cbn. rewrite elem_of_app, list_elem_of_singleton.
    intros [?| ->]; [by left|right]. exists prefer. set_solver.
Qed.

Lemma mc_step_mail cfg q r st st' :
  mc_step cfg q r st st' → mc_weak st → mail_ok (sv_VnetHdr cfg) st → mail_ok (sv_VnetHdr cfg) st'.
Proof.
  intros Hstep (Ht & _ & _) Hm.
  assert (∀ m m' ts, mail_ok (sv_VnetHdr cfg) (m, ts) → heap m' = heap m → mail_ok (sv_VnetHdr cfg) (m', ts)) as Hheap.
  { intros m m' ts H0 E. eapply mail_ok_kept; [exact H0|by apply mail_kept_heap|by auto]. }
  assert (∀ f p m ts, mail_ok (sv_VnetHdr cfg) (m, ts) → (∀ s, s_a4 (f s) = s_a4 s ∧ s_a6 (f s) = s_a6 s) →
    (∀ s pkt, heap m !! p = Some s → pkt ∈ outbound (f s) → pkt ∈ outbound s) →
    mail_ok (sv_VnetHdr cfg) (upd_session f p m, ts)) as Hupd.
  { intros f p m ts H0 Hf Hin. eapply mail_ok_kept; [exact H0|apply mail_kept_upd; [done|by eauto]|by auto]. }
  destruct Hstep as [? ? ? ? m m' ts H|ident now res m m' ts _ H|? ? ? ? ? ts H|id m ts| ? ? ? ? m ? ? H|
    ? ? m ?| ? ? ? vs m m' ts H|? vs m m' ts _ _ H|t m ts1 ts2 _|prefer pkt p m ts Hl| ? ? p ? m ? ? H|db m ts _].
  - apply assignFn_tables in H as (_ & _ & E & _). by eapply Hheap.
  - apply acquire_locked_inv in H as [(p & _ & _ & ->)|[(_ & e & [=] & _)|(Hn & p & db & _ & Hop & _)]]; [done|].
    apply open_session_heap in Hop as (_ & s & Eh & Es & _). cbn in Eh. eapply mail_ok_kept; [exact Hm| |by auto].
    split; rewrite Eh; [intros q' s' Hs'; exists s'; split; [by apply lookup_app_l_Some|done]|].
    intros q' s' [Hs'|[_ Hs']]%lookup_app_Some; [right; exists s'; auto|left].
    apply list_lookup_singleton_Some in Hs' as [_ <-]. done.
  - apply acquire_locked_inv in H as [(p & _ & [=] & _)|[(_ & e' & _ & ->)|(Hn & p & db & [=] & _)]].
    eapply mail_ok_kept; [exact Hm|by apply mail_kept_heap|]. intros ? ? ? [[=]|?]%elem_of_cons. by left.
  - unfold releaseOrphan. case_bool_decide; [done|]. by apply (Hheap m).
  - injection H as <- <-. by apply Hupd.
  - by apply Hupd.
  - apply (collect_loop_ind (λ _ m', heap m' = heap m)) in H as [H _]; [|by intros; cbn|done|done].
    eapply mail_ok_kept; [exact Hm|by apply mail_kept_heap|].
    intros ? ? ? [(? & [=] & _)%list_elem_of_fmap|?]%elem_of_app. by left.
  - injection H as <- <-. eapply mail_ok_kept; [exact Hm|by apply mail_kept_heap|].
    intros ? ? ? [(? & [=] & _)%list_elem_of_fmap|?]%elem_of_app. by left.
  - eapply mail_ok_kept; [exact Hm|apply run_task_mail|]. intros. left. set_solver.
  - eapply mail_ok_kept; [exact Hm|by apply mail_kept_heap|]. intros prefer' pkt' p' [[= -> -> ->]|?]%elem_of_cons; [right|by left].
    apply dispatch_lookup_Some in Hl as (dst & Hd & Hi). destruct (tb_index _ Ht _ _ Hi) as (s & Hs & _ & Ha).
    exists s. split; [done|]. by exists dst.
  - destruct (read_cases _ _ _ _ _ _ H) as [->|(s & pkt & rest & Hs & Ho & ->)]; [done|]. apply Hupd; [done|done|].
    intros s' pkt' Hs' Hin. cbn in Hin. simplify_eq. rewrite Ho. by apply elem_of_cons; right.
  - by apply (Hheap m).
Qed.

Lemma mc_init_weak db p4 p6 : mc_weak (mc_init db p4 p6, []).
Proof.
  split_and!; [|by apply Forall_nil_2|].
  - split; intros ? ? E; cbn [fst mc_init sessions ipIndex] in E; by rewrite lookup_empty in E.
  - intros p Hp. by apply not_elem_of_nil in Hp.
Qed.

Lemma mc_run_weak cfg q r db p4 p6 st :
  rtc (mc_step cfg q r) (mc_init db p4 p6, []) st → mc_weak st.
Proof.
  intros Hr. refine (rtc_invariant _ mc_weak _ _ _ Hr (mc_init_weak _ _ _)).
  intros a b Ha Hs. by eapply mc_step_weak.
Qed.

Lemma mc_run_mail cfg q r db p4 p6 st :
  rtc (mc_step cfg q r) (mc_init db p4 p6, []) st → mc_weak st ∧ mail_ok (sv_VnetHdr cfg) st.
Proof.
  intros Hr. refine (rtc_invariant _ (λ st, mc_weak st ∧ mail_ok (sv_VnetHdr cfg) st) _ _ _ Hr _).
  - intros a b [Hw Hm] Hs. split; [by eapply mc_step_weak|by eapply mc_step_mail].
  - split; [apply mc_init_weak|]. split; cbn; [done|]. intros ? ? ? []%not_elem_of_nil.
Qed.

Lemma mc_init_owned db p4 p6 :
  (∀ q, p4 = Some q → pool_wf q) → (∀ q, p6 = Some q → pool_wf q) → owned_ok (mc_init db p4 p6).
Proof.
  intros H4 H6. split; cbn [mc_init pool4 pool6]; try done;
    intros * E; cbn [sessions] in E; by rewrite lookup_empty in E.
Qed.

Lemma mc_run_owned cfg r db p4 p6 st :
  (∀ q, p4 = Some q → pool_wf q) → (∀ q, p6 = Some q → pool_wf q) →
  rtc (mc_step cfg true r) (mc_init db p4 p6, []) st → mc_weak st ∧ owned_ok st.1.
Proof.
  intros H4 H6 Hr. refine (rtc_invariant _ (λ st, mc_weak st ∧ owned_ok st.1) _ _ _ Hr _).
  - intros a b [Hw Hown] Hs. split; [by eapply mc_step_weak|by eapply mc_step_owned].
  - split; [apply mc_init_weak|by apply mc_init_owned].
Qed.

(** ** Theorems *)

(** C6: One address, one session.  In every interleaving that does not tear a
    session down, or open one, across a change of the same client's allocation (see
    [mc_step]), live sessions have pairwise distinct addresses, each owned by its
    client in the pool, and a packet read from the TUN for such an address is queued
    to exactly that session, unless its queue is full (with nothing between the lookup and
    the send). *)
Theorem session_ownership cfg db p4 p6 r m ts :
  (∀ q, p4 = Some q → pool_wf q) → (∀ q, p6 = Some q → pool_wf q) →
  rtc (mc_step cfg true r) (mc_init db p4 p6, []) (m, ts) →
  (∀ id p s, sessions m !! id = Some p → heap m !! p = Some s →
     s_id s = id ∧ owns (pool4 m) id (s_a4 s) ∧ owns (pool6 m) id (s_a6 s)) ∧
  (∀ id1 id2 p1 p2 s1 s2 a, sessions m !! id1 = Some p1 → heap m !! p1 = Some s1 → addr_of s1 a →
     sessions m !! id2 = Some p2 → heap m !! p2 = Some s2 → addr_of s2 a → id1 = id2) ∧
  (∀ id p s a vnet prefer pkt, sessions m !! id = Some p → heap m !! p = Some s → addr_of s a →
     innerDst pkt vnet = Some a → (length (outbound s) < outboundCap)%nat →
     dispatch vnet prefer pkt m = upd_session (push_outbound pkt) p m).
Proof.
  intros H4 H6 Hr.
  destruct (mc_run_owned _ _ _ _ _ _ H4 H6 Hr) as [(Ht & _ & _) Ho]. cbn [fst] in Ht, Ho. split_and!.
  - intros id p s Hs Hp. destruct (tb_session _ Ht _ _ Hs) as (s' & Hp' & Hid & _). simplify_eq.
    destruct (oo_own _ Ho _ _ _ Hs Hp) as (? & ? & _). auto.
  - intros. by eapply (live_distinct m id1 p1 s1 id2 p2 s2 a).
  - intros id p s a vnet prefer pkt Hs Hp Ha Hd Hlen. unfold dispatch, dispatch_lookup, dispatch_send.
    destruct (length pkt =? 0)%nat eqn:E0; bool_to_prop.
    { apply nil_length_inv in E0 as ->. by destruct vnet. }
    rewrite Hd, (oo_index _ Ho _ _ _ _ Hs Hp Ha), Hp.
    destruct (tb_session _ Ht _ _ Hs) as (s' & Hp' & _ & _ & Hc). simplify_eq.
    by rewrite (proj2 (Nat.ltb_lt _ _) Hlen), Hc.
Qed.

(** C12: Isolation and backpressure, in every interleaving: the lookup for a packet read
    from the TUN finds only a live session that holds the packet's destination address;
    the send that follows, whatever happened in between, either changes nothing (the
    queue is full, or the session was closed) or appends the packet to that one session's
    queue, whose addresses include the packet's destination; every queue, of a live
    session or of one already torn down, holds at most 256 packets, all addressed to its
    own session.  (A session collected between lookup and send still gets the packet.) *)
Theorem dispatch_isolated cfg q r db p4 p6 m ts :
  rtc (mc_step cfg q r) (mc_init db p4 p6, []) (m, ts) →
  (∀ pkt p, dispatch_lookup (sv_VnetHdr cfg) pkt m = Some p →
     ∃ s, heap m !! p = Some s ∧ sessions m !! s_id s = Some p ∧ isClosed s = false ∧ mine (sv_VnetHdr cfg) s pkt) ∧
  (∀ prefer pkt p, Deliver prefer pkt p ∈ ts →
     ∃ s, heap m !! p = Some s ∧ mine (sv_VnetHdr cfg) s pkt ∧
       let m' := dispatch_send prefer pkt p m in
       (m' = m ∧ ((outboundCap <= length (outbound s))%nat ∨ closed s = true)) ∨
       m' = set_heap m (<[p := push_outbound pkt s]> (heap m))) ∧
  (∀ p s, heap m !! p = Some s →
     (length (outbound s) <= outboundCap)%nat ∧ Forall (mine (sv_VnetHdr cfg) s) (outbound s)).
Proof.
  intros Hr. destruct (mc_run_mail _ _ _ _ _ _ _ Hr) as [(Ht & Hq & _) [Hm Hd]]. cbn [fst snd] in *. split_and!.
  - intros pkt p (dst & Hdst & Hi)%dispatch_lookup_Some. destruct (tb_index _ Ht _ _ Hi) as (s & Hs & Hp & Ha).
    destruct (tb_session _ Ht _ _ Hp) as (s' & Hs' & _ & Hc & _). simplify_eq.
    exists s. split_and!; try done. by exists dst.
  - intros prefer pkt p Hin. destruct (Hd _ _ _ Hin) as (s & Hs & Hmine). exists s. split_and!; try done.
    destruct (send_cases prefer pkt p m) as [[E Hf]|(s' & Hs' & _ & E)]; [left; auto|right].
    rewrite E. unfold upd_session. f_equal. by apply alter_insert.
  - intros p s Hs. split; [exact (Forall_lookup_1 _ _ _ _ Hq Hs)|by apply (Hm p)].
Qed.

Lemma quota_init us db p4 p6 : NewUserDB us = Ok db → quota_inv us (mc_init (Some db) p4 p6).
Proof.
  intros (Hv & Hrep & He)%NewUserDB_Ok. exists db. split_and!; [done|done| | |by apply Forall_nil_2].
  - unfold quota_ok. rewrite He, Forall_fmap. apply Forall_true. intros u; simpl. lia.
  - intros n (u & -> & Hu)%list_elem_of_fmap. apply list_elem_of_lookup in Hu as [p Hp].
    unfold active_of. rewrite (proj2 (rep_name _ _ Hrep _ _) (ex_intro _ u (conj Hp eq_refl))). cbn.
    by rewrite He, list_lookup_fmap, Hp.
Qed.

(** C11: Quotas are exact, in every interleaving without a reload of the users: the
    database's count of a user is the number of that user's sessions not yet torn
    down, and it never exceeds the user's maximum. *)
Theorem quota_enforced us db cfg q p4 p6 m ts u :
  NewUserDB us = Ok db → u ∈ us →
  rtc (mc_step cfg q false) (mc_init (Some db) p4 p6, []) (m, ts) →
  ∃ d, userDB m = Some d ∧
    active_of d (Name u) = Some (Z.of_nat (open_sessions (Name u) (heap m))) ∧
    (0 < MaxConcurrent u → Z.of_nat (open_sessions (Name u) (heap m)) <= MaxConcurrent u).
Proof.
  intros Hdb Hu Hr. destruct (NewUserDB_Ok _ _ Hdb) as ((Hok & Hnd & _) & _ & _).
  assert (mc_weak (m, ts) ∧ quota_inv us m) as [_ (d & Hd & Hrep & Hq & Hc & _)].
  { refine (rtc_invariant _ (λ st, mc_weak st ∧ quota_inv us st.1) _ _ _ Hr _).
    - intros a b [Hw Hi] Hs. split; [by eapply mc_step_weak|]. eapply mc_step_quota; [| |exact Hs|done|done].
      + intros ->. by apply not_elem_of_nil in Hu.
      + intros (u' & E & Hu')%list_elem_of_fmap. apply (proj1 (Forall_forall _ _) Hok) in Hu' as (? & _). congruence.
    - split; [apply mc_init_weak|by apply quota_init]. }
  exists d. assert (Name u ∈ Name <$> us) as Hn by (by apply list_elem_of_fmap_2).
  split_and!; [done|by apply Hc|]. intros Hmax.
  apply list_elem_of_lookup in Hu as [p Hp].
  pose proof (Hc _ Hn) as Ha. unfold active_of in Ha.
  rewrite (proj2 (rep_name _ _ Hrep _ _) (ex_intro _ u (conj Hp eq_refl))) in Ha. cbn in Ha.
  destruct (entries d !! p) as [e|] eqn:He; [|done]. cbn in Ha. injection Ha as <-.
  assert (e_u e = u) as <-.
  { rewrite <-(rep_entries _ _ Hrep), list_lookup_fmap, He in Hp. by injection Hp. }
  by apply (Forall_lookup_1 _ _ _ _ Hq He).
Qed.


(** ** Rejected connections *)

Definition owner_addr (o : option ipPool) (c : clientID) : option Addr := o ≫= λ q, byClient q !! c.

(** A client owns an address in one of the pools. *)
Definition allocated (m : mcState) (c : clientID) (a : Addr) : Prop :=
  owner_addr (pool4 m) c = Some a ∨ owner_addr (pool6 m) c = Some a.

Definition pools_wf (m : mcState) : Prop :=
  (∀ q, pool4 m = Some q → pool_wf q) ∧ (∀ q, pool6 m = Some q → pool_wf q).

Lemma assign_family_spec o user id pref db r o' :
  (∀ q, o = Some q → pool_wf q) → assign_family o user id pref db = Ok (r, o') →
  (∀ c, c ≠ id → owner_addr o' c = owner_addr o c) ∧ (r = None → o' = o) ∧
  (∀ a, r = Some a → IsValid a = true ∧ is_Some o).
Proof.
  intros Hwf. unfold assign_family. destruct o as [q|]; [|by intros [= <- <-]].
  specialize (Hwf q eq_refl).
  destruct (AllocateFor q user id pref db) as [[a q']|e|] eqn:E; [|by intros [= <- <-]|done].
  intros [= <- <-].
  assert (Contains (subnet q) a = true ∧ ∀ c, c ≠ id → byClient q' !! c = byClient q !! c) as [Hc Hb].
  { destruct (AllocateFor_Ok _ _ _ _ _ _ _ (proj1 Hwf) E) as [[Ha ->]|(_ & -> & _ & Hc & _)].
    - split; [by apply (ow_used _ (proj2 Hwf) id)|done].
    - split; [done|]. intros c Hne. cbn. by rewrite lookup_insert_ne. }
  split_and!; [done|done|]. intros ? [= <-]. split; [|done].
  pose proof (familyMatch_Contains _ _ (proj1 Hwf) Hc) as Hf. unfold familyMatch in Hf. by destruct (IsValid a).
Qed.

Lemma assignFn_alloc cfg user id req m r m' c a :
  pools_wf m → assignFn cfg user id req m = (r, m') → c ≠ id → allocated m' c a → allocated m c a.
Proof.
  intros [W4 W6] H Hne. unfold assignFn in H.
  destruct (assign_family (pool4 m) _ _ _ _) as [[r4 o4]|e|] eqn:E4; [|by injection H as <- <-..].
  destruct (assign_family_spec _ _ _ _ _ _ _ W4 E4) as (K4 & _).
  destruct (assign_family (pool6 m) _ _ _ _) as [[r6 o6]|e|] eqn:E6; injection H as <- <-; unfold allocated;
    cbn [set_pools pool4 pool6]; rewrite K4 by done; try done.
  destruct (assign_family_spec _ _ _ _ _ _ _ W6 E6) as (K6 & _). by rewrite K6.
Qed.

Lemma releaseAll_alloc id m c a : allocated (releaseAll id m) c a → c ≠ id ∧ allocated m c a.
Proof.
  unfold allocated, owner_addr, releaseAll. cbn.
  assert (∀ o : option ipPool, ((λ p, Release p id) <$> o) ≫= (λ q, byClient q !! c) = Some a →
    c ≠ id ∧ o ≫= (λ q, byClient q !! c) = Some a) as H; [|intros [?%H|?%H]; naive_solver].
  intros [q|]; cbn; [|done]. unfold Release. destruct (byClient q !! id) eqn:E; cbn.
  - intros [? ?]%lookup_delete_Some. auto.
  - intros Hc. split; [congruence|done].
Qed.

(** A refusal by both pools leaves them as they were. *)
Lemma assignFn_none cfg user id req m asg m' :
  pools_wf m →
  (is_Some (pool4 m) → 0 < pfx_bits (Subnet cfg) < 256) →
  (is_Some (pool6 m) → 0 < pfx_bits (Subnet6 cfg) < 256) →
  assignFn cfg user id req m = (Ok asg, m') →
  (V4Prefix asg = x00 ∨ IsValid (V4Addr asg) = false) →
  (V6Prefix asg = x00 ∨ IsValid (V6Addr asg) = false) → m' = m.
Proof.
  intros [W4 W6] B4 B6 H. unfold assignFn in H.
  destruct (assign_family (pool4 m) _ _ _ _) as [[r4 o4]|e|] eqn:E4; [|done..].
  destruct (assign_family (pool6 m) _ _ _ _) as [[r6 o6]|e|] eqn:E6; [|done..].
  destruct (assign_family_spec _ _ _ _ _ _ _ W4 E4) as (_ & N4 & S4).
  destruct (assign_family_spec _ _ _ _ _ _ _ W6 E6) as (_ & N6 & S6).
  assert (∀ z, 0 < z < 256 → z2b z ≠ x00) as Hz.
  { intros z Hz E. apply (f_equal b2z) in E. rewrite b2z_z2b_small in E by lia. cbn in E. unfold b2z in E. cbn in E. lia. }
  injection H as <- <-. cbn. intros P4 P6.
  destruct r4 as [a4|]; cbn in P4.
  { destruct (S4 a4 eq_refl) as [Hv Hs]. destruct P4 as [P4|P4]; [by apply Hz in P4; [|apply B4]|congruence]. }
  destruct r6 as [a6|]; cbn in P6.
  { destruct (S6 a6 eq_refl) as [Hv Hs]. destruct P6 as [P6|P6]; [by apply Hz in P6; [|apply B6]|congruence]. }
  rewrite N4, N6 by done. by destruct m.
Qed.

Lemma not_hasAssignment id :
  hasAssignment id = false →
  (prefix4 id = x00 ∨ IsValid (assigned4 id) = false) ∧ (prefix6 id = x00 ∨ IsValid (assigned6 id) = false).
Proof.
  unfold hasAssignment. intros [H4 H6]%orb_false_iff.
  apply andb_false_iff in H4, H6. rewrite !negb_false_iff, !bool_decide_eq_true in H4, H6. done.
Qed.

(** C10: A rejected connection leaks nothing: whatever the peer sent and wherever the
    handshake or the quota stopped it, an address that is allocated after a rejected
    connection was allocated before, or belongs to a client with a live session.
    (The configured prefixes have between 1 and 255 bits, and the all-zero client
    id, which the code takes for "unknown", is excepted.) *)
Theorem handleConn_no_leak `{ObfsCrypto, NoiseIK} cfg static nq now w w' c a :
  pools_wf (appst w) →
  (is_Some (pool4 (appst w)) → 0 < pfx_bits (Subnet cfg) < 256) →
  (is_Some (pool6 (appst w)) → 0 < pfx_bits (Subnet6 cfg) < 256) →
  handleConn cfg static nq now w = (Ok ConnRejected, w') → c ≠ zeroID →
  allocated (appst w') c a → allocated (appst w) c a ∨ is_Some (sessions (appst w') !! c).
Proof.
  intros Hwf B4 B6. unfold handleConn.
  pose proof (accept_spec static (cfg_Cipher cfg) false
    (λ _ pub, serverAuthorizer (userDB (appst w)) (PeerPublicKey cfg) pub) (assignFn cfg) w) as Hspec.
  destruct (acceptHandshake _ _ _ _ _ w) as [[ident|[ident e]|] w1]; [| |done].
  - destruct Hspec as (_ & _ & _ & req & usoC & asg & _ & _ & Hf & A4 & A6 & P4 & P6).
    destruct (hasAssignment ident) eqn:Hh; cbn [negb].
    + destruct (acquireSession ident now (appst w1)) as [[[p isNew]|e|] m'] eqn:Hacq; [|intros [= <-] Hc|done].
      { destruct (lane_up nq now p m'). done. }
      cbn [on_app appst]. unfold acquireSession in Hacq.
      destruct (acquire_locked ident now (appst w1)) as [[r|e'|] m1] eqn:Hl; [done| |done].
      injection Hacq as <- <-.
      apply acquire_locked_inv in Hl as [(p & _ & [=] & _)|[(_ & ? & _ & ->)|(Hn & p & db & [=] & _)]].
      intros [Hne Ha]%releaseAll_alloc. left. by eapply assignFn_alloc.
    + intros [= <-] _ Ha. left. apply not_hasAssignment in Hh as [H4 H6].
      rewrite A4, P4 in H4. rewrite A6, P6 in H6. by rewrite (assignFn_none _ _ _ _ _ _ _ Hwf B4 B6 Hf H4 H6) in Ha.
  - intros [= <-] Hz. 
    assert (∀ c a, allocated (appst w1) c a → c ≠ id_clientID ident → allocated (appst w) c a) as Hold.
    { intros c0 a0 Ha Hne. destruct Hspec as [E|[(lanes & req & usoC & user & _ & _ & E) Hid]]; [by rewrite <-E|]. rewrite <-Hid in E.
      destruct (assignFn cfg user (id_clientID ident) req (appst w)) as [rr mm] eqn:Hf. cbn in E. subst mm.
      by eapply assignFn_alloc. }
    case_bool_decide as Hid; [rewrite <-Hid in Hz; eauto|]. cbn [on_app appst]. unfold releaseOrphan.
    case_bool_decide as Hlive.
    + intros Ha. destruct (decide (c = id_clientID ident)) as [->|]; eauto.
    + intros [Hne Ha]%releaseAll_alloc. left. by apply Hold.
Qed.

(** ** Oversize packets *)

(** What the lane's read of a session's queue returns to [tunToSock]. *)
Definition pio_event (r : pioRead) : option tunRead :=
  match r with
  | PPkt p => Some (RPkt p)
  | PEOF | PShort => Some RErr
  | PBlock => None
  end.

(** C40: A packet the shared TUN delivers that is larger than the lane's read buffer
    ends the lane's sending side: [runTunReader] reads up to 65545 bytes, but a
    lane asks for [maxRead] (65519 when encrypted), [sessionPIO.Read] then drops the
    packet and returns an error, and [tunToSock] returns, for that lane and for all
    packets behind it. *)
Theorem oversize_packet_stops_lane sl minRead reads c prefer p s pkt rest m :
  heap m !! p = Some s → closed s = false → outbound s = pkt :: rest →
  maxRead sl < Z.of_nat (length pkt) →
  let '(r, m') := sessionPIO_Read (maxRead sl) prefer p m in
  r = PShort ∧ outbound <$> heap m' !! p = Some rest ∧
  ∃ ev, pio_event r = Some ev ∧ tunToSock minRead (ReadsOne (ev :: reads)) sl c = (TxStopped, sl, c).
Proof.
  intros Hs Hc Ho Hlen. unfold sessionPIO_Read. rewrite Hs, Ho, Hc. cbn [andb].
  rewrite (proj2 (Z.ltb_lt _ _)) by done. split_and!; [done| |by exists RErr].
  cbn. by rewrite list_lookup_alter_eq, Hs.
Qed.

(** ** Witnesses *)

Definition demo_mccfg : ServerConfig :=
  mkServerCfg ":4500" 1 [] (replicate 32 xcc) [] [alice; bob] CipherAESGCM EmptyString
    EmptyString demo_cfg false demo_prefix PrefixZero (addr_10_66_0 x01) AddrZero EmptyString false 0 zeroNFT zeroTPROXY.
Definition mc0 : mcState := mc_init (Some demo_db) (Some demo_pool) None.
Definition demo_asg1 : AssignmentResponse :=
  mkAsg (addr_10_66_0 x05) x1d (addr_10_66_0 x01) AddrZero x00 AddrZero.
Definition mc1 : mcState := (assignFn demo_mccfg "alice" (cid 1) (mkReq AddrZero AddrZero) mc0).2.
Definition demo_ident : laneIdentity :=
  mkIdent zeroKeys (cid 1) [] x01 "alice" false (addr_10_66_0 x05) x1d (addr_10_66_0 x01) AddrZero x00 AddrZero.
Definition mc2 : mcState := (acquire_locked demo_ident 0 mc1).2.

Lemma mc1_assign :
  assignFn demo_mccfg "alice" (cid 1) (mkReq AddrZero AddrZero) mc0 = (Ok demo_asg1, mc1).
Proof. apply injective_projections; [vm_compute; reflexivity|reflexivity]. Qed.

Lemma mc2_acquire : acquire_locked demo_ident 0 mc1 = (Ok (0%nat, true), mc2).
Proof. apply injective_projections; [vm_compute; reflexivity|reflexivity]. Qed.

Lemma demo_ident_fresh : ident_fresh demo_ident mc1.
Proof.
  split_and!; [|by intros [=]|done|by intros [=]]. intros _.
  exists (default demo_pool (pool4 mc1)). split_and!.
  - assert (is_Some (pool4 mc1)) as [q ->] by (apply (bool_decide_unpack _); vm_compute; exact I). done.
  - vm_compute. reflexivity.
  - left. vm_compute. reflexivity.
Qed.

Lemma mc2_reachable quiet : rtc (mc_step demo_mccfg quiet false) (mc0, []) (mc2, []).
Proof.
  eapply rtc_l; [eapply step_assign, mc1_assign|].
  eapply rtc_once, step_acquire_ok; [intros _ _; exact demo_ident_fresh|exact mc2_acquire].
Qed.

Lemma demo_pools_wf : pools_wf mc0.
Proof. split; [|done]. intros q [= <-]. apply demo_pool_wf. Qed.

(** An IPv4 header to 10.66.0.5. *)
Definition demo_pkt : list byte :=
  [x45] ++ zeros 15 ++ [x0a; x42; x00; x05].

Definition demo_session : session :=
  mkSession (cid 1) "alice" (addr_10_66_0 x05) AddrZero 1 [] false 0 0 0 false.

Lemma session_ownership_witness :
  rtc (mc_step demo_mccfg true false) (mc0, []) (mc2, []) ∧
  dispatch false true demo_pkt mc2 = upd_session (push_outbound demo_pkt) 0 mc2.
Proof.
  split; [exact (mc2_reachable true)|].
  destruct (session_ownership demo_mccfg (Some demo_db) (Some demo_pool) None false mc2 []
    (proj1 demo_pools_wf) (proj2 demo_pools_wf) (mc2_reachable true)) as (_ & _ & H).
  apply (H (cid 1) 0%nat demo_session (addr_10_66_0 x05)).
  - vm_compute. reflexivity.
  - vm_compute. reflexivity.
  - split; [reflexivity|left; reflexivity].
  - vm_compute. reflexivity.
  - cbn. unfold outboundCap. lia.
Defined.

Lemma quota_enforced_witness :
  NewUserDB [alice; bob] = Ok demo_db ∧
  Z.of_nat (open_sessions "alice" (heap mc2)) <= 2.
Proof.
  split; [exact demo_db_Ok|].
  destruct (quota_enforced [alice; bob] demo_db demo_mccfg false (Some demo_pool) None mc2 [] alice demo_db_Ok)
    as (d & _ & _ & H).
  - apply elem_of_cons. left. reflexivity.
  - exact (mc2_reachable false).
  - apply H. reflexivity.
Defined.

(** The session goes idle and is collected; before it is torn down, the client
    reconnects. *)
Definition mc3 : mcState := (collect_loop (90 * Second) (91 * Second) [cid 1] mc2).2.
Definition mc4 : mcState := (acquire_locked demo_ident (91 * Second) mc3).2.
Definition demo_q4 : ipPool := default demo_pool (pool4 mc4).

Lemma mc3_collect : collect_loop (90 * Second) (91 * Second) [cid 1] mc2 = ([0%nat], mc3).
Proof. apply injective_projections; [vm_compute; reflexivity|reflexivity]. Qed.

(** A packet for the session is read before the collection and sent after it. *)
Definition demo_late : mcState * list task := (mc3, [TearDown 0; Deliver true demo_pkt 0]).

Lemma demo_late_reachable : rtc (mc_step demo_mccfg false false) (mc0, []) demo_late.
Proof.
  eapply rtc_r; [eapply rtc_r; [exact (mc2_reachable false)|eapply (step_lookup _ _ _ true demo_pkt 0%nat)]|].
  - vm_compute. reflexivity.
  - eapply (step_collect _ _ _ (90 * Second) (91 * Second) [cid 1] [0%nat]), mc3_collect.
Qed.

(** The session it reaches is in no table any more; the packet is its own. *)
Lemma dispatch_isolated_witness :
  rtc (mc_step demo_mccfg false false) (mc0, []) demo_late ∧ sessions mc3 = ∅ ∧
  outbound <$> heap (dispatch_send true demo_pkt 0 mc3) !! 0%nat = Some [demo_pkt] ∧
  ∃ s, heap mc3 !! 0%nat = Some s ∧ mine false s demo_pkt.
Proof.
  split; [exact demo_late_reachable|]. split; [vm_compute; reflexivity|]. split; [vm_compute; reflexivity|].
  destruct (dispatch_isolated demo_mccfg false false (Some demo_db) (Some demo_pool) None mc3 _ demo_late_reachable)
    as (_ & Hd & _).
  destruct (Hd true demo_pkt 0%nat) as (s & Hs & Hm & _); [|exists s; split; assumption].
  apply elem_of_cons. right. apply elem_of_cons. left. reflexivity.
Defined.

Lemma mc4_reachable : rtc (mc_step demo_mccfg true false) (mc0, []) (mc4, [TearDown 0]).
Proof.
  eapply rtc_r; [eapply rtc_r; [exact (mc2_reachable true)|eapply step_collect, mc3_collect]|].
  eapply (step_acquire_ok _ _ _ demo_ident (91 * Second) (1%nat, true)).
  - intros _ _. split_and!; [|by intros [=]|done|by intros [=]]. intros _.
    exists (default demo_pool (pool4 mc3)). split_and!; [|vm_compute; reflexivity|left; vm_compute; reflexivity].
    assert (is_Some (pool4 mc3)) as [q ->] by (apply (bool_decide_unpack _); vm_compute; exact I). done.
  - apply injective_projections; [vm_compute; reflexivity|reflexivity].
Qed.

Lemma mc4_pool : pool4 mc4 = Some demo_q4.
Proof.
  unfold demo_q4. assert (is_Some (pool4 mc4)) as [q ->]; [|done].
  apply (bool_decide_unpack _). vm_compute. exact I.
Qed.

Lemma demo_q4_wf : pool_wf demo_q4.
Proof.
  apply (oo_pool4 mc4); [|exact mc4_pool].
  exact (proj2 (mc_run_owned _ _ _ _ _ _ (proj1 demo_pools_wf) (proj2 demo_pools_wf) mc4_reachable)).
Qed.

Definition demo_session4 : session :=
  mkSession (cid 1) "alice" (addr_10_66_0 x05) AddrZero 1 [] false 0 0 (91 * Second) false.


#[local] Existing Instance demo_obfs.
#[local] Existing Instance toy_noise.

(** A peer that sends nothing is rejected. *)
Definition demo_silent : World mcState := mkWorld (mkConn [] [] None) [] mc1.

Lemma handleConn_no_leak_witness :
  (handleConn demo_mccfg (mkDHKey demo_privS demo_privS) 4 0 demo_silent).1 = Ok ConnRejected ∧
  (allocated mc1 (cid 1) (addr_10_66_0 x05) ∨
   is_Some (sessions (appst (handleConn demo_mccfg (mkDHKey demo_privS demo_privS) 4 0 demo_silent).2) !! cid 1)).
Proof.
  assert ((handleConn demo_mccfg (mkDHKey demo_privS demo_privS) 4 0 demo_silent).1 = Ok ConnRejected) as H1
    by (vm_compute; reflexivity).
  split; [exact H1|].
  apply (handleConn_no_leak demo_mccfg (mkDHKey demo_privS demo_privS) 4 0 demo_silent
           (handleConn demo_mccfg (mkDHKey demo_privS demo_privS) 4 0 demo_silent).2 (cid 1) (addr_10_66_0 x05)).
  - split; [|intros q [=]].
    intros q Hq. apply (oo_pool4 mc1); [|exact Hq].
    refine (proj2 (mc_run_owned demo_mccfg false (Some demo_db) (Some demo_pool) None (mc1, [])
              (proj1 demo_pools_wf) (proj2 demo_pools_wf) _)).
    eapply rtc_once, step_assign, mc1_assign.
  - intros _. split; reflexivity.
  - intros [q [=]].
  - apply injective_projections; [exact H1|reflexivity].
  - intros E. apply (f_equal vec_to_list) in E. vm_compute in E. discriminate E.
  - left. vm_compute. reflexivity.
Defined.

Definition demo_big : mcState :=
  mkMC None None None
    [mkSession (cid 1) EmptyString AddrZero AddrZero 1 [replicate (Z.to_nat 65536) x45] false 0 0 0 false] ∅ ∅.

Lemma oversize_packet_stops_lane_witness :
  maxRead None < Z.of_nat (length (replicate (Z.to_nat 65536) x45)) ∧
  (sessionPIO_Read (maxRead None) true 0 demo_big).1 = PShort.
Proof.
  assert (maxRead None < Z.of_nat (length (replicate (Z.to_nat 65536) x45))) as Hl
    by (rewrite length_replicate, Z2Nat.id by lia; reflexivity).
  split; [exact Hl|].
  pose proof (oversize_packet_stops_lane None 1 [] (mkConn [] [] None) true 0 _ _ [] demo_big
    eq_refl eq_refl eq_refl Hl) as H.
  destruct (sessionPIO_Read (maxRead None) true 0 demo_big) as [r m']. exact (proj1 H).
Defined.
