(* ===== verification/Supervisor.v ===== *)
(** * supervisor.go and client.go: lane supervision and the single-client accept loop

    [runSupervised] is run over the outcomes of its blocking calls: a failed
    acquisition (with the jitter drawn and whether the sleep was cut short), a
    connection that came up and went down, or the end of the context.  Its
    observable actions (waits, assignment callbacks, offload toggles) are
    collected in a trace. *)

From S2P Require Import Prelude Netip Users RateLimit Config GoIO Obfs LaneCrypto Lane IPPool Handshake.

Definition Millisecond : Z := 1000000.
Definition backoffInitial : Z := 250 * Millisecond.
Definition backoffMax : Z := 30 * Second.

(** [time.Duration] is an int64. *)
Definition nextBackoff (d : Z) : Z :=
  let n := swrap 64 (d * 2) in
  if backoffMax <? n then backoffMax else n.

(** [rand.Int63n(int64(d/4) + 1)] draws [r] with [0 <= r <= d/4]; the timer runs for
    [d + r]. *)
Definition jitter_ok (d r : Z) : Prop := 0 <= r <= Z.quot d 4.
Definition sleepJitter (d r : Z) : Z := swrap 64 (d + r).

Record Assignment : Type := mkAssignment {
  a_V4Addr : Addr; a_V4Prefix : byte; a_V4Peer : Addr;
  a_V6Addr : Addr; a_V6Prefix : byte; a_V6Peer : Addr
}.

Definition HasV4 (a : Assignment) : bool := negb (bool_decide (a_V4Prefix a = x00)) && IsValid (a_V4Addr a).
Definition HasV6 (a : Assignment) : bool := negb (bool_decide (a_V6Prefix a = x00)) && IsValid (a_V6Addr a).

Definition assignment_of (id : laneIdentity) : Assignment :=
  mkAssignment (assigned4 id) (prefix4 id) (peer4 id) (assigned6 id) (prefix6 id) (peer6 id).

Inductive supEvent : Type :=
| CtxDone                                   (* seen at the top of the loop or after src failed *)
| SrcFailed (r : Z) (woke : bool)           (* the jitter drawn; false: the sleep was cut short *)
| SrcConn (ident : laneIdentity).           (* a lane came up and went down *)

Inductive supAction : Type :=
| Waited (d : Z)
| EnabledUSO
| Assigned (a : Assignment)
| LaneRan (ident : laneIdentity).

(** The loop; [notify] is [onAssign != nil].  It returns the actions, whether it
    has returned, and the backoff it would use next. *)
Fixpoint runSupervised (pio : PacketIO) (notify : bool) (evs : list supEvent) (backoff : Z)
    (notified : bool) : list supAction * bool * Z :=
  match evs with
  | [] => ([], false, backoff)
  | CtxDone :: _ => ([], true, backoff)
  | SrcFailed r woke :: evs' =>
      let wait := Waited (sleepJitter backoff r) in
      if negb woke then ([wait], true, backoff)
      else
        let '(acts, ret, b) := runSupervised pio notify evs' (nextBackoff backoff) notified in
        (wait :: acts, ret, b)
  | SrcConn ident :: evs' =>
      let uso := if usoEnabled ident && bool_decide (is_Some (uso pio)) then [EnabledUSO] else [] in
      let call := negb notified && notify && hasAssignment ident in
      let '(acts, ret, b) := runSupervised pio notify evs' backoffInitial (notified || call) in
      (uso ++ (if call then [Assigned (assignment_of ident)] else []) ++ LaneRan ident :: acts, ret, b)
  end.

(** [Client.Run]'s [onAssign]: the calls of all lanes go through one [sync.Once]. *)
Definition assignOnce (calls : list Assignment) : list Assignment := take 1 calls.

(** The lanes of [Client.Run]: lane [i] is supervised on queue [i], over the outcomes
    [evs i]; [None] is the panic of an index out of range.  [Run] returns when all have. *)
Definition client_lanes (c : ClientConfig) (evs : nat → list supEvent) : option (list (list supAction * bool)) :=
  mapM (λ i : nat, (λ pio, (runSupervised pio true (evs i) backoffInitial false).1) <$> cl_Queues c !! i)
    (seq 0 (Z.to_nat (cl_Lanes c))).

(** The [OnAssigned] callbacks, when the calls of the lanes come in the order [calls]. *)
Definition client_notified (callback : bool) (calls : list Assignment) : list Assignment :=
  if callback then assignOnce calls else [].

(** ** The client's connection source *)

Definition AssignmentRequest_of (c : ClientConfig) : AssignmentRequest :=
  mkReq (if IsValid (RequestIP c) && Is4 (RequestIP c) then RequestIP c else AddrZero)
        (if IsValid (RequestIP6 c) && Is6 (RequestIP6 c) then RequestIP6 c else AddrZero).

Section source.
Context `{ObfsCrypto, NoiseIK} {σ : Type}.

(** [NewClient]: the session identifier is fixed by the static key, zero in open mode. *)
Record Client : Type := mkClient { cli_cfg : ClientConfig; cli_clientID : clientID }.

Inductive clientError : Type := EClientConfig (e : configError) | EClientKey.

Definition NewClient (cfg : ClientConfig) : result clientError Client :=
  match ClientConfig_Validate cfg with
  | Some e => Err (EClientConfig e)
  | None =>
      if cl_keyed cfg then
        match PublicFromPrivate (cl_StaticPrivateKey cfg) with
        | None => Err EClientKey
        | Some pub => Ok (mkClient cfg (deriveClientID pub))
        end
      else Ok (mkClient cfg zeroID)
  end.

(** A validated client is constructed, and its identifier is the one the server derives
    from the key proved in the handshake. *)
Lemma NewClient_Ok cfg : ClientConfig_Validate cfg = None →
  ∃ c, NewClient cfg = Ok c ∧ cli_cfg c = cfg ∧
    (∀ k, noiseStatic (cl_StaticPrivateKey cfg) = Some k → cli_clientID c = deriveClientID (dh_Public k)).
Proof.
  intros Hv. unfold NewClient. rewrite Hv. apply ClientConfig_Validate_ok in Hv as [_ _ Hk]. unfold cl_keyed.
  destruct Hk as [[-> _]|[Hk _]].
  - eexists. split; [done|]. split; [done|]. intros k Hs%noiseStatic_Some. cbn in *. destruct Hs as (E & _ & Hl).
    rewrite E in Hl. discriminate.
  - rewrite Hk. cbn [Nat.ltb Nat.leb pubKeyLen]. unfold noiseStatic.
    destruct (PublicFromPrivate (cl_StaticPrivateKey cfg)) as [pub|] eqn:Hp; [eexists; split; [done|]; split; [done|]; by intros k [= <-]|].
    unfold PublicFromPrivate in Hp. by rewrite Hk in Hp.
Qed.

Inductive srcError : Type := EDial | EStaticKey | EHandshake (e : hsError).

(** One call of the source, after the dial; [None] is a failed dial. *)
Definition clientSource (privKey serverPub : list byte) (cipher : Cipher) (uso : bool) (lanes : byte)
    (req : AssignmentRequest) (dialed : bool) : M (World σ) srcError laneIdentity :=
  if negb dialed then throw EDial
  else if (length serverPub =? 0)%nat then
    mret (mkIdent zeroKeys zeroID [] lanes EmptyString false AddrZero x00 AddrZero AddrZero x00 AddrZero)
  else match noiseStatic privKey with
       | None => throw EStaticKey
       | Some static =>
           with_err (λ f : hsFail, EHandshake f.2) (initiateHandshake static serverPub cipher uso lanes req)
       end.

(** ** The accept loop *)

Inductive acceptOutcome : Type :=
| RejectedIP | RateLimited | Ready (ident : laneIdentity) | HandshakeFailed (e : hsError) | AcceptPanic.

Context {Limiter : Type} (NewLimiter : SpecFloat.spec_float → Z → Limiter)
  (AllowN : Limiter → Z → Z → bool * Limiter).

(** One accepted connection from [ip]; [authorize = None] is open mode. *)
Definition accept_one (allow ip : string) (static : DHKey) (cipher : Cipher) (uso : bool)
    (authorize : option authFn) (gcOrder evictOrder : list string) (now : Z)
    (limiter : option (connLimiter (Limiter := Limiter))) (w : World σ)
    : acceptOutcome * option connLimiter * World σ :=
  if negb (bool_decide (allow = EmptyString)) && negb (bool_decide (ip = allow))
  then (RejectedIP, limiter, w)
  else
    let '(ok, limiter') := allowIP NewLimiter AllowN gcOrder evictOrder now ip limiter in
    if negb ok then (RateLimited, limiter', w)
    else match authorize with
         | None => (Ready zeroIdentity, limiter', w)
         | Some auth =>
             match acceptHandshake static cipher uso auth None w with
             | (Ok ident, w') => (Ready ident, limiter', w')
             | (Err (_, e), w') => (HandshakeFailed e, limiter', w')
             | (Panic, w') => (AcceptPanic, limiter', w')
             end
         end.

Lemma accept_one_ready allow ip static cipher uso authorize gcO evO now lim (w : World σ) ident lim' w' :
  accept_one allow ip static cipher uso authorize gcO evO now lim w = (Ready ident, lim', w') →
  (allow = EmptyString ∨ ip = allow) ∧
  (allowIP NewLimiter AllowN gcO evO now ip lim).1 = true ∧
  match authorize with
  | None => ident = zeroIdentity
  | Some auth => auth (appst w) (pubKey ident) = Ok (userName ident) ∧
                 id_clientID ident = deriveClientID (pubKey ident) ∧ encrypted (keys ident) = true
  end.
Proof.
  unfold accept_one. destruct (_ && _) eqn:Ha; [done|].
  destruct (allowIP _ _ _ _ _ _ _) as [[] l'] eqn:Hl; cbn [negb]; [|done].
  intros H1. split_and!; [|done|].
  - bool_to_prop. destruct Ha as [Ha|Ha]; bool_to_prop; auto.
  - destruct authorize as [auth|]; [|by injection H1 as <- _ _].
    pose proof (accept_none_spec static cipher uso auth w) as Hs.
    destruct (acceptHandshake _ _ _ _ _ w) as [[id|[? ?]|] w1]; [|done..]. by injection H1 as <- _ _.
Qed.

(** The accept loop's gates, in order: a connection becomes a lane only when its
    source address passes the allow list and the rate limiter, and, unless the
    server runs without keys, when its handshake proved a client key that the
    authorizer accepts; such a lane is encrypted. *)
Theorem accept_gates allow ip static cipher uso authorize gcO evO now lim (w : World σ) ident lim' w' :
  accept_one allow ip static cipher uso authorize gcO evO now lim w = (Ready ident, lim', w') →
  (allow = EmptyString ∨ ip = allow) ∧
  (allowIP NewLimiter AllowN gcO evO now ip lim).1 = true ∧
  match authorize with
  | None => ident = zeroIdentity
  | Some auth => auth (appst w) (pubKey ident) = Ok (userName ident) ∧
                 id_clientID ident = deriveClientID (pubKey ident) ∧ encrypted (keys ident) = true
  end.
Proof. apply accept_one_ready. Qed.

End source.

(** ** The backoff schedule *)

(** The base wait of the [k]-th consecutive failure. *)
Definition base_wait (k : nat) : Z := Z.min (backoffInitial * 2 ^ Z.of_nat k) backoffMax.

Definition failures (rs : list Z) : list supEvent := (λ r, SrcFailed r true) <$> rs.

Definition schedule (k : nat) (rs : list Z) : list supAction :=
  imap (λ i r, Waited (base_wait (k + i) + r)) rs.

Lemma base_wait_bounds k : backoffInitial <= base_wait k <= backoffMax.
Proof.
  unfold base_wait. pose proof (Z.pow_pos_nonneg 2 (Z.of_nat k) ltac:(lia) ltac:(lia)).
  unfold backoffInitial, backoffMax, Millisecond, Second. lia.
Qed.

Lemma nextBackoff_base k : nextBackoff (base_wait k) = base_wait (S k).
Proof.
  pose proof (base_wait_bounds k) as Hb. unfold nextBackoff.
  rewrite swrap_small by (unfold backoffInitial, backoffMax, Millisecond, Second in Hb; lia).
  unfold base_wait in *. rewrite Nat2Z.inj_succ, Z.pow_succ_r by lia.
  pose proof (Z.pow_pos_nonneg 2 (Z.of_nat k) ltac:(lia) ltac:(lia)).
  unfold backoffInitial, backoffMax, Millisecond, Second in *.
  destruct (Z.ltb_spec (30 * 1000000000) (Z.min (250 * 1000000 * 2 ^ Z.of_nat k) (30 * 1000000000) * 2)); lia.
Qed.

Lemma sleepJitter_base k r : jitter_ok (base_wait k) r →
  sleepJitter (base_wait k) r = base_wait k + r ∧ base_wait k <= sleepJitter (base_wait k) r <= base_wait k + base_wait k / 4.
Proof.
  unfold jitter_ok, sleepJitter. pose proof (base_wait_bounds k) as Hb.
  unfold backoffInitial, backoffMax, Millisecond, Second in Hb.
  rewrite Z.quot_div_nonneg by lia. intros Hr.
  pose proof (Z.div_le_upper_bound (base_wait k) 4 (base_wait k) ltac:(lia) ltac:(lia)).
  rewrite swrap_small by lia. lia.
Qed.

Lemma run_failures pio notify k rs nf :
  (∀ i r, rs !! i = Some r → jitter_ok (base_wait (k + i)) r) →
  runSupervised pio notify (failures rs) (base_wait k) nf = (schedule k rs, false, base_wait (k + length rs)).
Proof.
  revert k. induction rs as [|r rs IH]; intros k Hj; [by cbn; rewrite Nat.add_0_r|].
  cbn [failures fmap list_fmap runSupervised negb]. rewrite nextBackoff_base.
  change ((λ r, SrcFailed r true) <$> rs) with (failures rs). rewrite IH.
  2:{ intros i r' Hi. replace (S k + i)%nat with (k + S i)%nat by lia. by apply Hj. }
  destruct (sleepJitter_base k r) as [-> _]; [specialize (Hj 0%nat r eq_refl); by rewrite Nat.add_0_r in Hj|].
  unfold schedule. rewrite imap_cons. cbn [length].
  rewrite Nat.add_0_r, Nat.add_succ_r. do 3 f_equal. apply imap_ext. intros i x _. cbn.
  by rewrite Nat.add_succ_r.
Qed.

Lemma run_app pio notify evs1 b nf acts b' :
  runSupervised pio notify evs1 b nf = (acts, false, b') →
  ∃ nf', ∀ evs2, runSupervised pio notify (evs1 ++ evs2) b nf =
    let '(acts2, ret, b2) := runSupervised pio notify evs2 b' nf' in (acts ++ acts2, ret, b2).
Proof.
  revert b nf acts. induction evs1 as [|[|r []|id] evs IH]; intros b nf acts; cbn [runSupervised negb].
  - intros [= <- <-]. exists nf. intros e. cbn [app]. by destruct (runSupervised _ _ e _ _) as [[]].
  - done.
  - destruct (runSupervised pio notify evs _ _) as [[a1 r1] b1] eqn:E. intros [= <- -> <-].
    destruct (IH _ _ _ E) as [nf' H']. exists nf'. intros e. cbn [app runSupervised negb].
    rewrite H'. by destruct (runSupervised _ _ e _ _) as [[]].
  - done.
  - destruct (runSupervised pio notify evs _ _) as [[a1 r1] b1] eqn:E. intros [= <- -> <-].
    destruct (IH _ _ _ E) as [nf' H']. exists nf'. intros e. cbn [app runSupervised negb].
    rewrite H'. destruct (runSupervised _ _ e _ _) as [[]]. by rewrite <-!app_assoc.
Qed.

(** C30: The retry schedule of a lane.  The [k]-th consecutive failure waits between
    [w] and [w + w/4] for [w = min (250ms * 2^k) 30s] without overflowing the
    duration, from the start of the supervisor and again after every connection
    that came up, whatever happened before it. *)
Theorem backoff_schedule pio notify nf rs :
  (∀ k r, rs !! k = Some r → jitter_ok (base_wait k) r) →
  runSupervised pio notify (failures rs) backoffInitial nf = (schedule 0 rs, false, base_wait (length rs)) ∧
  (∀ pre ident acts b, runSupervised pio notify pre backoffInitial nf = (acts, false, b) →
    ∃ up, Forall (λ a, match a with Waited _ => False | _ => True end) up ∧
      runSupervised pio notify (pre ++ SrcConn ident :: failures rs) backoffInitial nf =
        (acts ++ up ++ schedule 0 rs, false, base_wait (length rs))) ∧
  (∀ k d, schedule 0 rs !! k = Some (Waited d) →
    base_wait k <= d <= base_wait k + base_wait k / 4 ∧ d <= backoffMax + backoffMax / 4).
Proof.
  intros Hj. assert (base_wait 0 = backoffInitial) as H0 by reflexivity. split_and!.
  - rewrite <-H0. by apply run_failures.
  - intros pre ident acts b Hpre. destruct (run_app _ _ _ _ _ _ _ Hpre) as [nf' Happ]. setoid_rewrite Happ.
    cbn [runSupervised]. rewrite <-H0, run_failures by done. cbn [Nat.add].
    match goal with |- context [acts ++ ?u ++ ?c ++ _ :: _] => exists (u ++ c ++ [LaneRan ident]) end.
    split; [|by rewrite <-!app_assoc].
    rewrite !Forall_app. split_and!; [by case_match; auto|by case_match; auto|auto].
  - intros k d. unfold schedule. rewrite list_lookup_imap. destruct (rs !! k) as [r|] eqn:Hk; [|done].
    intros [= <-]. destruct (sleepJitter_base k r (Hj k r Hk)) as [He Hb]. cbn [Nat.add]. rewrite <-He.
    split; [done|]. pose proof (base_wait_bounds k).
    pose proof (Z.div_le_mono (base_wait k) backoffMax 4). lia.
Qed.

Lemma backoff_schedule_witness :
  jitter_ok (base_wait 0) 62500000 ∧ jitter_ok (base_wait 1) 0 ∧
  runSupervised (mkPIO false None false) true (failures [62500000; 0]) backoffInitial false =
    ([Waited 312500000; Waited 500000000], false, 1000000000).
Proof.
  assert (∀ k r, [62500000; 0] !! k = Some r → jitter_ok (base_wait k) r) as H.
  { intros [|[|k]] r [= <-]; unfold jitter_ok; vm_compute; split; discriminate. }
  split; [by apply (H 0%nat)|]. split; [by apply (H 1%nat)|].
  exact (proj1 (backoff_schedule (mkPIO false None false) true false [62500000; 0] H)).
Defined.

(** ** Address notification *)

(** The connections a supervisor brings up before it returns. *)
Fixpoint reached (evs : list supEvent) : list laneIdentity :=
  match evs with
  | SrcFailed _ true :: evs' => reached evs'
  | SrcConn ident :: evs' => ident :: reached evs'
  | _ => []
  end.

Definition notifications (acts : list supAction) : list Assignment :=
  omap (λ a, match a with Assigned x => Some x | _ => None end) acts.

(** The assignments offered over a list of connections, in order. *)
Definition offered (ids : list laneIdentity) : list Assignment :=
  assignment_of <$> filter (λ id, hasAssignment id = true) ids.

Lemma notifications_spec pio notify evs b nf :
  notifications (runSupervised pio notify evs b nf).1.1 =
  if negb nf && notify then take 1 (offered (reached evs)) else [].
Proof.
  revert b nf. induction evs as [|[|r []|id] evs IH]; intros b nf; cbn [runSupervised negb reached].
  1,2,4: by repeat case_match.
  - specialize (IH (nextBackoff b) nf). by destruct (runSupervised _ _ evs _ _) as [[]].
  - set (c := _ && hasAssignment id). specialize (IH backoffInitial (nf || c)).
    destruct (runSupervised _ _ evs _ _) as [[acts ?] ?]. cbn [fst] in *. unfold notifications in *.
    rewrite !omap_app. cbn [omap list_omap]. rewrite IH. unfold c, offered. rewrite filter_cons.
    destruct (usoEnabled id && _), nf, notify, (hasAssignment id) eqn:Ha; cbn; try done;
      by (rewrite decide_False by done) || (rewrite decide_True by done).
Qed.

Lemma supervised_returns pio notify evs b nf : CtxDone ∈ evs → (runSupervised pio notify evs b nf).1.2 = true.
Proof.
  revert b nf. induction evs as [|[|r []|id] evs IH]; intros b nf; cbn [runSupervised negb]; [by intros []%elem_of_nil|done|..].
  - intros [[=]|Hin]%elem_of_cons. specialize (IH (nextBackoff b) nf Hin). by destruct (runSupervised _ _ evs _ _) as [[]].
  - done.
  - intros [[=]|Hin]%elem_of_cons.
    match goal with |- context [runSupervised pio notify evs ?b' ?nf'] => specialize (IH b' nf' Hin) end.
    by destruct (runSupervised _ _ evs _ _) as [[]].
Qed.

Lemma client_lanes_lookup c evs : Z.of_nat (length (cl_Queues c)) = cl_Lanes c →
  ∃ lanes, client_lanes c evs = Some lanes ∧ length lanes = length (cl_Queues c) ∧
    ∀ i pio, cl_Queues c !! i = Some pio → lanes !! i = Some (runSupervised pio true (evs i) backoffInitial false).1.
Proof.
  intros Hl. unfold client_lanes. replace (Z.to_nat (cl_Lanes c)) with (length (cl_Queues c)) by lia.
  exists (imap (λ i pio, (runSupervised pio true (evs i) backoffInitial false).1) (cl_Queues c)). split_and!.
  - apply mapM_Some. apply Forall2_same_length_lookup. split; [by rewrite length_seq, length_imap|].
    intros i k x [-> Hi]%lookup_seq. rewrite list_lookup_imap. cbn [Nat.add].
    destruct (cl_Queues c !! i) as [pio|]; [|done]. by intros [= <-].
  - by rewrite length_imap.
  - intros i pio Hi. by rewrite list_lookup_imap, Hi.
Qed.

Lemma once_notified (calls : list Assignment) (per : list (list Assignment)) :
  calls ≡ₚ mjoin per → length (assignOnce calls) = if bool_decide (Exists (λ l, l ≠ []) per) then 1%nat else 0%nat.
Proof.
  intros Hp. unfold assignOnce. rewrite length_take, Hp. clear Hp calls. induction per as [|l per IH]; [done|].
  change (mjoin (l :: per)) with (l ++ mjoin per). rewrite length_app. destruct l as [|a l].
  - change (length (@nil Assignment) + length (mjoin per))%nat with (length (mjoin per)). rewrite IH.
    repeat case_bool_decide; rewrite Exists_cons in *; naive_solver.
  - rewrite bool_decide_eq_true_2; [cbn; lia|]. by left.
Qed.

(** The lanes of a client.  A validated configuration has a queue for every lane, so
    [Client.Run] indexes none out of range; every lane returns once it sees the end of
    the context, so [Run] does; lane [i] reports exactly the first assignment that a
    connection it brings up carries; and in whatever order the lanes' reports come, the
    [OnAssigned] callback runs once when some lane was offered an address and never
    otherwise. *)
Theorem client_lanes_correct c evs calls :
  ClientConfig_Validate c = None →
  ∃ lanes, client_lanes c evs = Some lanes ∧ Z.of_nat (length lanes) = cl_Lanes c ∧
    (∀ (i : nat) acts ret, lanes !! i = Some (acts, ret) →
       notifications acts = take 1 (offered (reached (evs i))) ∧ (CtxDone ∈ evs i → ret = true)) ∧
    (calls ≡ₚ mjoin ((λ l, notifications l.1) <$> lanes) → ∀ callback,
       length (client_notified callback calls) =
         if callback && bool_decide (Exists (λ i, offered (reached (evs i)) ≠ []) (seq 0 (Z.to_nat (cl_Lanes c)))) then 1%nat else 0%nat).
Proof.
  intros [_ [_ Hl] _]%ClientConfig_Validate_ok. destruct (client_lanes_lookup c evs Hl) as (lanes & Hrun & Hlen & Hlk).
  assert (∀ (i : nat) l, lanes !! i = Some l → ∃ pio, l = (runSupervised pio true (evs i) backoffInitial false).1) as Hat.
  { intros i l Hi. destruct (lookup_lt_is_Some_2 (cl_Queues c) i) as [pio Hp]; [apply lookup_lt_Some in Hi; lia|].
    exists pio. rewrite (Hlk i pio Hp) in Hi. by injection Hi. }
  exists lanes. split; [done|]. split; [lia|]. split.
  - intros i acts ret Hi. destruct (Hat i _ Hi) as [pio E]. split.
    + change acts with (acts, ret).1. by rewrite E, notifications_spec.
    + intros Hin. change ret with (acts, ret).2. by rewrite E, supervised_returns.
  - intros Hp callback. unfold client_notified. destruct callback; cbn [andb]; [|done]. rewrite (once_notified _ _ Hp).
    erewrite bool_decide_ext; [reflexivity|]. rewrite !Exists_exists. setoid_rewrite list_elem_of_fmap. setoid_rewrite elem_of_seq. split.
    + intros (x & (l & -> & [i Hi]%list_elem_of_lookup) & Hx). exists i. destruct (Hat i l Hi) as [pio ->].
      rewrite notifications_spec in Hx. apply lookup_lt_Some in Hi. split; [lia|]. intros E. by rewrite E in Hx.
    + intros (i & Hi & Hx). destruct (lookup_lt_is_Some_2 lanes i) as [l Hl']; [lia|]. exists (notifications l.1).
      split; [exists l; split; [done|by eapply list_elem_of_lookup_2]|]. destruct (Hat i l Hl') as [pio ->].
      rewrite notifications_spec. by destruct (offered _).
Qed.

(** The server's answer in the demonstration: 10.66.0.5/24, no IPv6. *)
Definition demo_offer : laneIdentity :=
  mkIdent zeroKeys zeroID [] x01 EmptyString false (Addr4 [# x0a; x42; x00; x05]) x18 (Addr4 [# x0a; x42; x00; x01])
          AddrZero x00 AddrZero.

Definition demo_lanes_client : ClientConfig :=
  mkClientCfg "198.51.100.7:443" 2 [mkPIO false None false; mkPIO false None false] [] [] CipherAESGCM AddrZero AddrZero.

(** Two lanes are offered an address; the callback runs once. *)
Lemma client_lanes_correct_witness :
  length (client_notified true [assignment_of demo_offer; assignment_of demo_offer]) = 1%nat.
Proof.
  destruct (client_lanes_correct demo_lanes_client (λ _, [SrcFailed 0 true; SrcConn demo_offer; CtxDone])
    [assignment_of demo_offer; assignment_of demo_offer] ltac:(reflexivity)) as (lanes & E & _ & _ & Hc).
  refine (Hc _ true). vm_compute in E. injection E as <-. reflexivity.
Defined.

#[local] Existing Instance demo_obfs.
#[local] Existing Instance toy_noise.

(** The first message of a client with alice's key, and the server that reads it. *)
Definition demo_hello : list byte :=
  tx (conn (initiateHandshake (mkDHKey demo_privC demo_privC) demo_privS CipherAESGCM true x02
    (mkReq AddrZero AddrZero) (demo_peer unit tt)).2).

Definition demo_accept : acceptOutcome * option (connLimiter (Limiter := Z)) * World unit :=
  accept_one demoNew demoAllowN "10.0.0.1" demo_ip (mkDHKey demo_privS demo_privS) CipherAESGCM true
    (Some (λ _ pub, serverAuthorizer (Some demo_db) [] pub)) [] [] 1000 (Some (newConnLimiter demo_cfg))
    (feed demo_hello (demo_peer unit tt)).

Lemma accept_gates_witness :
  ∃ ident lim' w', demo_accept = (Ready ident, lim', w') ∧
    serverAuthorizer (Some demo_db) [] (pubKey ident) = Ok "alice"%string ∧ encrypted (keys ident) = true.
Proof.
  destruct demo_accept as [[o lim'] w'] eqn:E.
  assert (∃ ident, o = Ready ident ∧ userName ident = "alice"%string) as (ident & -> & Hu).
  { replace o with demo_accept.1.1 by (by rewrite E). vm_compute. eauto. }
  exists ident, lim', w'. split; [done|].
  destruct (accept_gates demoNew demoAllowN _ _ _ _ _ _ _ _ _ _ _ _ _ _ E) as (_ & _ & Ha & _ & He).
  rewrite Hu in Ha. exact (conj Ha He).
Defined.
