(* ===== verification/ServerPool.v ===== *)
(** * supervisor.go, server.go: the pool of a single-client server

    The accept loop admits connections and hands them through a bounded channel to the
    supervisors of the lanes.  The loop, the lanes and the end of the context are
    interleaved steps; a connection is the number of its acceptance.  Admission is
    [Supervisor.accept_one], and what a lane does with a connection is [Lane.runLane],
    which closes it in the end. *)

From stdpp Require Import relations sorting.
From S2P Require Import Prelude Netip Users Keys NetipText AddrText IPPool RateLimit Config Nft NftStats Metrics MultiAccept GoIO Obfs LaneCrypto Lane Handshake Supervisor.

Inductive laneState : Type := LIdle | LServing (a : nat * laneIdentity) | LStopped.

Definition serving (l : laneState) : option (nat * laneIdentity) := match l with LServing a => Some a | _ => None end.

Section pool.
Context `{ObfsCrypto, NoiseIK} {σ : Type}.
Context {Limiter : Type} (NewLimiter : SpecFloat.spec_float → Z → Limiter)
  (AllowN : Limiter → Z → Z → bool * Limiter).

(** [blocked] is the connection the accept loop is sending to the channel; [handed]
    records, in order, what the lanes received from it. *)
Record poolState : Type := mkPool {
  sp_limiter : option (connLimiter (Limiter := Limiter));
  sp_metrics : option Metrics;
  accepted : nat;
  blocked : option (nat * laneIdentity);
  ready : list (nat * laneIdentity);
  lanes : list laneState;
  handed : list nat;
  closedConns : list nat;
  ctxDone : bool;
  loopDone : bool
}.

(** Run's set-up: the pool's capacity is the number of lanes. *)
Definition newServerPool (cfg : ServerConfig) (m : option Metrics) : poolState :=
  mkPool (Some (newConnLimiter (RateLimit cfg))) m 0 None [] (replicate (Z.to_nat (Lanes cfg)) LIdle) [] [] false false.

(** The configuration the accept loop runs with. *)
Record acceptCfg : Type := mkAC {
  ac_allow : string; ac_static : DHKey; ac_cipher : Cipher; ac_uso : bool; ac_authorize : option (authFn (σ := σ))
}.

(** An accepted connection; [None] when the handshake panics. *)
Definition pool_accept (c : acceptCfg) (remote : string) (gcO evO : list string) (now : Z) (w : World σ)
    (s : poolState) : option poolState :=
  let '(o, lim, _) := accept_one NewLimiter AllowN (ac_allow c) (remoteIP remote) (ac_static c) (ac_cipher c) (ac_uso c)
                        (ac_authorize c) gcO evO now (sp_limiter s) w in
  let m := incAccept (sp_metrics s) in
  let n := accepted s in
  let refuse m := Some (mkPool lim m (S n) (blocked s) (ready s) (lanes s) (handed s) (closedConns s ++ [n])
                          (ctxDone s) (loopDone s)) in
  match o with
  | RejectedIP => refuse m
  | RateLimited => refuse (incRateLimited m)
  | HandshakeFailed _ => refuse (incHandshakeFail m)
  | Ready ident =>
      Some (mkPool lim (match ac_authorize c with None => m | Some _ => incHandshakeOK m end) (S n)
              (Some (n, ident)) (ready s) (lanes s) (handed s) (closedConns s) (ctxDone s) (loopDone s))
  | AcceptPanic => None
  end.

(** The send completes when the channel has room. *)
Definition pool_send (cap : nat) (s : poolState) : option poolState :=
  match blocked s with
  | Some a =>
      if (length (ready s) <? cap)%nat
      then Some (mkPool (sp_limiter s) (sp_metrics s) (accepted s) None (ready s ++ [a]) (lanes s) (handed s)
                   (closedConns s) (ctxDone s) (loopDone s))
      else None
  | None => None
  end.

(** The end of the context: a pending connection is closed, and the loop returns. *)
Definition pool_loop_end (s : poolState) : option poolState :=
  if ctxDone s then
    Some (mkPool (sp_limiter s) (sp_metrics s) (accepted s) None (ready s) (lanes s) (handed s)
            (closedConns s ++ option_list (fst <$> blocked s)) (ctxDone s) true)
  else None.

(** [source]: an idle lane receives the first connection waiting. *)
Definition pool_source (i : nat) (s : poolState) : option poolState :=
  match lanes s !! i, ready s with
  | Some LIdle, a :: r =>
      Some (mkPool (sp_limiter s) (sp_metrics s) (accepted s) (blocked s) r (<[i := LServing a]> (lanes s))
              (handed s ++ [a.1]) (closedConns s) (ctxDone s) (loopDone s))
  | _, _ => None
  end.

(** [runLane] returned, having closed its connection. *)
Definition pool_lane_down (i : nat) (s : poolState) : option poolState :=
  match lanes s !! i with
  | Some (LServing a) =>
      Some (mkPool (sp_limiter s) (sp_metrics s) (accepted s) (blocked s) (ready s) (<[i := LIdle]> (lanes s))
              (handed s) (closedConns s ++ [a.1]) (ctxDone s) (loopDone s))
  | _ => None
  end.

(** An idle supervisor returns when the context is done. *)
Definition pool_lane_stop (i : nat) (s : poolState) : option poolState :=
  match lanes s !! i with
  | Some LIdle =>
      if ctxDone s
      then Some (mkPool (sp_limiter s) (sp_metrics s) (accepted s) (blocked s) (ready s) (<[i := LStopped]> (lanes s))
                   (handed s) (closedConns s) (ctxDone s) (loopDone s))
      else None
  | _ => None
  end.

Definition pool_cancel (s : poolState) : poolState :=
  mkPool (sp_limiter s) (sp_metrics s) (accepted s) (blocked s) (ready s) (lanes s) (handed s) (closedConns s) true (loopDone s).

Inductive pool_step (c : acceptCfg) (cap : nat) : poolState → poolState → Prop :=
| step_accepted remote gcO evO now w s s' :
    loopDone s = false → blocked s = None → pool_accept c remote gcO evO now w s = Some s' → pool_step c cap s s'
| step_send s s' : pool_send cap s = Some s' → pool_step c cap s s'
| step_loop_end s s' : pool_loop_end s = Some s' → pool_step c cap s s'
| step_source i s s' : pool_source i s = Some s' → pool_step c cap s s'
| step_down i s s' : pool_lane_down i s = Some s' → pool_step c cap s s'
| step_lane_stop i s s' : pool_lane_stop i s = Some s' → pool_step c cap s s'
| step_cancel s : pool_step c cap s (pool_cancel s).

(** ** The invariant *)

(** The admitted connections that are still open. *)
Definition entries (s : poolState) : list (nat * laneIdentity) :=
  option_list (blocked s) ++ ready s ++ omap serving (lanes s).

(** The order in which connections pass through the channel. *)
Definition passage (s : poolState) : list nat := handed s ++ (ready s).*1 ++ option_list (fst <$> blocked s).

Definition admissible (c : acceptCfg) (ident : laneIdentity) : Prop :=
  match ac_authorize c with
  | None => ident = zeroIdentity
  | Some auth => (∃ st, auth st (pubKey ident) = Ok (userName ident)) ∧
                 id_clientID ident = deriveClientID (pubKey ident) ∧ encrypted (keys ident) = true
  end.

Record pool_ok (c : acceptCfg) (cap n : nat) (s : poolState) : Prop := mkPoolOk {
  po_places : closedConns s ++ (entries s).*1 ≡ₚ seq 0 (accepted s);
  po_order : passage s `sublist_of` seq 0 (accepted s);
  po_gates : Forall (λ a, admissible c a.2) (entries s);
  po_cap : (length (ready s) ≤ cap)%nat;
  po_lanes : length (lanes s) = n;
  po_done : loopDone s = true → blocked s = None
}.

(** Replacing the state of one lane. *)
Lemma serving_insert (ls : list laneState) (i : nat) l l' : ls !! i = Some l →
  option_list (serving l) ++ omap serving (<[i := l']> ls) ≡ₚ option_list (serving l') ++ omap serving ls.
Proof.
  intros Hi. rewrite insert_take_drop by by eapply lookup_lt_Some. rewrite <-(take_drop_middle ls i l Hi) at 3.
  rewrite !omap_app. cbn. destruct (serving l) as [a|], (serving l') as [b|]; cbn; try done.
  - rewrite <-!Permutation_middle. apply perm_swap.
  - by rewrite <-Permutation_middle.
  - by rewrite <-Permutation_middle.
Qed.

Lemma seq_snoc n : seq 0 (S n) = seq 0 n ++ [n].
Proof. by rewrite seq_S. Qed.

Lemma fmap_option_list {A B} (f : A → B) (o : option A) : f <$> option_list o = option_list (f <$> o).
Proof. by destruct o. Qed.

(** The accept step: the new connection is closed, or waits to be sent. *)
Lemma pool_accept_ok c cap n remote gcO evO now w s s' :
  loopDone s = false → blocked s = None → pool_accept c remote gcO evO now w s = Some s' →
  pool_ok c cap n s → pool_ok c cap n s'.
Proof.
  intros Hl Hb Hs [H1 H2 H3 H4 H5 H6]. unfold pool_accept in Hs.
  destruct (accept_one _ _ _ _ _ _ _ _ _ _ _ _ w) as [[o lim] w'] eqn:Ho.
  unfold passage, entries in *. rewrite Hb in *. cbn [option_list fmap option_fmap option_map app] in *. rewrite app_nil_r in H2.
  assert (∀ m, pool_ok c cap n (mkPool lim m (S (accepted s)) None (ready s) (lanes s) (handed s)
            (closedConns s ++ [accepted s]) (ctxDone s) (loopDone s))) as Hrefuse.
  { intros m. split; unfold passage, entries;
      cbn [closedConns blocked ready lanes handed accepted loopDone option_list fmap option_fmap option_map app]; try done; rewrite seq_snoc.
    - rewrite <-H1, <-!app_assoc. apply Permutation_app_head, Permutation_app_comm.
    - rewrite app_nil_r. by apply sublist_inserts_r. }
  destruct o as [| |ident|e|]; try (injection Hs as <-); try done.
  split; unfold passage, entries; cbn [closedConns blocked ready lanes handed accepted loopDone option_list fmap option_fmap option_map app]; try done.
  - rewrite seq_snoc, <-H1, !(fmap_app fst (option_list _)).
    cbn -[seq]. rewrite <-Permutation_middle. apply Permutation_cons_append.
  - rewrite seq_snoc, app_assoc. by apply sublist_app.
  - constructor; [|done]. unfold admissible. cbn [snd].
    pose proof (accept_one_ready NewLimiter AllowN _ _ _ _ _ _ _ _ _ _ _ _ _ _ Ho) as (_ & _ & Hg).
    destruct (ac_authorize c) as [auth|]; [|done]. destruct Hg as (Hg1 & Hg2 & Hg3). eauto.
  - congruence.
Qed.

Ltac solve_places := rewrite ?fmap_app; cbn [option_list option_rect fmap list_fmap]; solve_Permutation.

(** The lane steps: a connection moves from the channel to a lane, and from there to
    the closed ones. *)
Lemma pool_source_ok c cap n i s s' : pool_source i s = Some s' → pool_ok c cap n s → pool_ok c cap n s'.
Proof.
  unfold pool_source. destruct (lanes s !! i) as [[|a|]|] eqn:Hi; try done. destruct (ready s) as [|a r] eqn:Hr; [done|].
  intros [= <-] [H1 H2 H3 H4 H5 H6]. unfold passage, entries in *. rewrite Hr in *.
  pose proof (serving_insert (lanes s) i LIdle (LServing a) Hi) as Hsv. cbn in Hsv.
  split; unfold passage, entries; cbn [closedConns blocked ready lanes handed accepted loopDone]; try done.
  - rewrite <-H1, Hsv. solve_places.
  - by rewrite <-app_assoc.
  - rewrite Hsv. rewrite ?Forall_app, ?Forall_cons in *. naive_solver.
  - cbn in H4. lia.
  - by rewrite length_insert.
Qed.

Lemma pool_down_ok c cap n i s s' : pool_lane_down i s = Some s' → pool_ok c cap n s → pool_ok c cap n s'.
Proof.
  unfold pool_lane_down. destruct (lanes s !! i) as [[|a|]|] eqn:Hi; try done.
  intros [= <-] [H1 H2 H3 H4 H5 H6]. unfold passage, entries in *.
  pose proof (serving_insert (lanes s) i (LServing a) LIdle Hi) as Hsv. cbn in Hsv.
  split; unfold passage, entries; cbn [closedConns blocked ready lanes handed accepted loopDone]; try done.
  - rewrite <-H1, <-Hsv. solve_places.
  - revert H3. rewrite <-Hsv, !Forall_app, Forall_cons. naive_solver.
  - by rewrite length_insert.
Qed.

Lemma pool_stop_ok c cap n i s s' : pool_lane_stop i s = Some s' → pool_ok c cap n s → pool_ok c cap n s'.
Proof.
  unfold pool_lane_stop. destruct (lanes s !! i) as [[|a|]|] eqn:Hi; try done. destruct (ctxDone s); [|done].
  intros [= <-] [H1 H2 H3 H4 H5 H6]. unfold passage, entries in *.
  pose proof (serving_insert (lanes s) i LIdle LStopped Hi) as Hsv. cbn in Hsv.
  split; unfold passage, entries; cbn [closedConns blocked ready lanes handed accepted loopDone]; try done.
  - by rewrite Hsv.
  - by rewrite Hsv.
  - by rewrite length_insert.
Qed.

Lemma pool_send_ok c cap n s s' : pool_send cap s = Some s' → pool_ok c cap n s → pool_ok c cap n s'.
Proof.
  unfold pool_send. destruct (blocked s) as [a|] eqn:Hb; [|done]. destruct (Nat.ltb_spec (length (ready s)) cap) as [Hlt|]; [|done].
  intros [= <-] [H1 H2 H3 H4 H5 H6]. unfold passage, entries in *. rewrite Hb in *.
  split; unfold passage, entries; cbn [closedConns blocked ready lanes handed accepted loopDone]; try done.
  - rewrite <-H1. solve_places.
  - revert H2. cbn. by rewrite fmap_app, app_nil_r.
  - cbn in *. rewrite ?Forall_app, ?Forall_cons, ?Forall_app, ?Forall_nil in *. naive_solver.
  - rewrite length_app. cbn. lia.
Qed.

Lemma pool_loop_end_ok c cap n s s' : pool_loop_end s = Some s' → pool_ok c cap n s → pool_ok c cap n s'.
Proof.
  unfold pool_loop_end. destruct (ctxDone s); [|done]. intros [= <-] [H1 H2 H3 H4 H5 H6]. unfold passage, entries in *.
  split; unfold passage, entries; cbn [closedConns blocked ready lanes handed accepted loopDone]; try done.
  - rewrite <-H1. destruct (blocked s); solve_places.
  - etrans; [|exact H2]. cbn. rewrite app_nil_r, app_assoc. by apply sublist_inserts_r.
  - revert H3. rewrite !Forall_app. naive_solver.
Qed.

Lemma pool_step_ok c cap n s s' : pool_step c cap s s' → pool_ok c cap n s → pool_ok c cap n s'.
Proof.
  intros [remote gcO evO now w s0 s1 Hl Hb Hs| | |i s0 s1 Hs|i s0 s1 Hs|i s0 s1 Hs|s0];
    eauto using pool_send_ok, pool_loop_end_ok, pool_source_ok, pool_down_ok, pool_stop_ok, pool_accept_ok.
  intros [H1 H2 H3 H4 H5 H6]. by split.
Qed.

Lemma length_serving (ls : list laneState) : (length (omap serving ls) ≤ length ls)%nat.
Proof. induction ls as [|[|a|] ls IH]; cbn; lia. Qed.

Lemma serving_idle n : omap serving (replicate n LIdle) = [].
Proof. by induction n. Qed.

Lemma newServerPool_ok c cfg m cap : pool_ok c cap (Z.to_nat (Lanes cfg)) (newServerPool cfg m).
Proof.
  split; unfold passage, entries; cbn [newServerPool closedConns blocked ready lanes handed accepted loopDone];
    rewrite ?serving_idle; cbn; try done; [apply Nat.le_0_l|by rewrite length_replicate].
Qed.

Lemma pool_run_ok c cfg m cap s : rtc (pool_step c cap) (newServerPool cfg m) s → pool_ok c cap (Z.to_nat (Lanes cfg)) s.
Proof.
  intros Hr. eapply (rtc_invariant (pool_step c cap) (pool_ok c cap (Z.to_nat (Lanes cfg)))); [|exact Hr|apply newServerPool_ok].
  intros a b Ha Hs. by eapply pool_step_ok.
Qed.

(** C29: The pool of a single-client server, in every interleaving of its accept loop,
    its lanes and the end of the context.  Every accepted connection is in exactly one
    place: closed, waiting to be sent, in the channel, or on one lane; so at most twice
    as many as there are lanes, and one more, are open.  Connections reach the lanes in
    the order they were accepted, each at most once, and only if they passed the gates:
    with keys configured, an open connection's client proved a key that is authorized,
    and its lane is encrypted.  When the loop and every lane have returned, what is still
    open is exactly what is left in the channel: those connections are never closed. *)
Theorem pool_conservation c cfg m s :
  let n := Z.to_nat (Lanes cfg) in
  rtc (pool_step c n) (newServerPool cfg m) s →
  closedConns s ++ (entries s).*1 ≡ₚ seq 0 (accepted s) ∧
  (length (entries s) ≤ 2 * n + 1)%nat ∧
  handed s `sublist_of` seq 0 (accepted s) ∧
  (∀ a, a ∈ entries s → admissible c a.2) ∧
  (loopDone s = true → Forall (λ l, l = LStopped) (lanes s) →
     closedConns s ++ (ready s).*1 ≡ₚ seq 0 (accepted s)).
Proof.
  intros n Hr. destruct (pool_run_ok c cfg m n s Hr) as [H1 H2 H3 H4 H5 H6]. split_and!; [done| | | |].
  - unfold entries. rewrite !length_app.
    pose proof (length_serving (lanes s)) as Ho. rewrite H5 in Ho. destruct (blocked s); cbn; lia.
  - etrans; [|exact H2]. by apply sublist_inserts_r.
  - intros a Ha. by rewrite Forall_forall in H3; apply H3.
  - intros Hd Hs. rewrite <-H1. unfold entries. rewrite (H6 Hd). cbn [option_list option_rect app].
    assert (omap serving (lanes s) = []) as ->.
    { clear -Hs. induction Hs as [|l ls -> _ IH]; [done|exact IH]. }
    by rewrite app_nil_r.
Qed.

End pool.

#[local] Existing Instance demo_obfs.
#[local] Existing Instance toy_noise.

(** A server of one lane without keys: a connection waits in the channel when the context
    ends, and the loop and the lane return. *)
Definition demo_open : ServerConfig :=
  mkServerCfg "0.0.0.0:443" 1 [mkPIO false None false] [] [] [] CipherAESGCM EmptyString EmptyString
    demo_cfg false PrefixZero PrefixZero AddrZero AddrZero EmptyString false 0 zeroNFT zeroTPROXY.

Definition demo_ac : acceptCfg (σ := unit) := mkAC EmptyString (mkDHKey [] []) CipherAESGCM false None.

Definition demo_left : option (poolState (Limiter := Z)) :=
  s ← pool_accept demoNew demoAllowN demo_ac "10.0.0.1:4000" [] [] 1000 (demo_peer unit tt) (newServerPool demo_open None);
  s ← pool_send 1 s;
  s ← pool_loop_end (pool_cancel s);
  pool_lane_stop 0 s.

Example pool_conservation_witness :
  ∃ s, demo_left = Some s ∧ closedConns s ++ (ready s).*1 ≡ₚ seq 0 (accepted s) ∧ (ready s).*1 = [0%nat].
Proof.
  destruct demo_left as [s|] eqn:E; [|by vm_compute in E]. exists s. split; [done|].
  assert (rtc (pool_step demoNew demoAllowN demo_ac 1) (newServerPool demo_open None) s) as Hr.
  { unfold demo_left in E. apply bind_Some in E as (s1 & E1 & E). apply bind_Some in E as (s2 & E2 & E).
    apply bind_Some in E as (s3 & E3 & E).
    eapply rtc_l; [by eapply step_accepted|]. eapply rtc_l; [by apply step_send|]. eapply rtc_l; [apply step_cancel|].
    eapply rtc_l; [by apply step_loop_end|]. by eapply rtc_once, step_lane_stop. }
  destruct (pool_conservation demoNew demoAllowN demo_ac demo_open None s Hr) as (_ & _ & _ & _ & H).
  revert H. vm_compute in E. injection E as <-. intros H. split; [|reflexivity].
  apply H; [reflexivity|]. by repeat constructor.
Defined.
