(* ===== verification/Server.v ===== *)
(** * server.go: construction, mode selection and reload

    [NewServer] validates the configuration and builds the user database;
    [server_setup] is the part of [Run] that decides the mode and builds what that
    mode needs: the two address pools in multi-client mode, the authorizer in
    single-client mode.  The sockets, rules and proxy that [Run] starts beside it
    are in [ServerRun].  The theorems connect the configuration
    to the pools and authorizers of the other files. *)

From S2P Require Import Prelude Netip Users IPPool RateLimit Config GoIO Obfs LaneCrypto Lane Handshake Supervisor.

Record Server : Type := mkServer {
  sv_cfg : ServerConfig;
  sv_users : option UserDB;        (* the initial set, for the pool reservations *)
  sv_userDB : option UserDB        (* the holder's current pointer *)
}.

Inductive serverError : Type :=
| EConfig (e : configError)
| EUserList (e : userError)
| EServerKey
| EPool4 (e : poolError)
| EPool6 (e : poolError).

Definition NewServer (cfg : ServerConfig) : result serverError Server :=
  match ServerConfig_Validate cfg with
  | Some e => Err (EConfig e)
  | None =>
      if (0 <? length (cfg_Users cfg))%nat then
        match NewUserDB (cfg_Users cfg) with
        | Ok db => Ok (mkServer cfg (Some db) (Some db))
        | Err e => Err (EUserList e)
        | Panic => Panic
        end
      else Ok (mkServer cfg None None)
  end.

Definition ReloadUsers (users : list User) (s : Server) : result serverError unit * Server :=
  match NewUserDB users with
  | Ok db => (Ok tt, mkServer (sv_cfg s) (sv_users s) (Some db))
  | Err e => (Err (EUserList e), s)
  | Panic => (Panic, s)
  end.

(** One family of the startup: the server's address and the reservations are
    reserved in a pool over the subnet. *)
Definition family_pool (sn : Prefix) (serverIP : Addr) (res : gset Addr)
    : result poolError (option ipPool) :=
  if pfx_IsValid sn then
    match newIPPool sn (serverIP :: elements res) with
    | Ok p => Ok (Some p)
    | Err e => Err e
    | Panic => Panic
    end
  else Ok None.

Section setup.
Context `{NoiseIK}.

Inductive serverMode : Type :=
| MultiMode (static : DHKey) (p4 p6 : option ipPool)
| SingleMode (static : option DHKey) (authorize : option (list byte → result userError string)).

Definition server_setup (s : Server) : result serverError serverMode :=
  let cfg := sv_cfg s in
  if pfx_IsValid (Subnet cfg) || pfx_IsValid (Subnet6 cfg) then
    match noiseStatic (StaticPrivateKey cfg) with
    | None => Err EServerKey
    | Some static =>
        let '(res4, res6) := AllReservations (sv_users s) in
        match family_pool (Subnet cfg) (ServerIP cfg) res4 with
        | Panic => Panic
        | Err e => Err (EPool4 e)
        | Ok p4 =>
            match family_pool (Subnet6 cfg) (ServerIP6 cfg) res6 with
            | Panic => Panic
            | Err e => Err (EPool6 e)
            | Ok p6 => Ok (MultiMode static p4 p6)
            end
        end
    end
  else if sv_keyed cfg then
    match noiseStatic (StaticPrivateKey cfg) with
    | None => Err EServerKey
    | Some static => Ok (SingleMode (Some static) (Some (serverAuthorizer (sv_userDB s) (PeerPublicKey cfg))))
    end
  else Ok (SingleMode None None).

(** ** What startup establishes *)

Definition families_wf (cfg : ServerConfig) : Prop := prefix_wf (Subnet cfg) ∧ prefix_wf (Subnet6 cfg).

(** The pool of one family when the server starts: empty, well formed, on the
    masked subnet, with the server's address and that family's user reservations
    set aside. *)
Definition fresh_pool (sn : Prefix) (serverIP : Addr) (us : list User) (is4 : bool) (o : option ipPool) : Prop :=
  if pfx_IsValid sn then
    ∃ p, o = Some p ∧ pool_wf p ∧ subnet p = Masked sn ∧ byClient p = ∅ ∧ serverIP ∈ reserved p ∧
      ∀ u r, u ∈ us → r ∈ Reserved u → Is4 r = is4 → r ∈ reserved p
  else o = None.

(** The server's database comes from its configured user list. *)
Definition users_of (us : list User) (db : option UserDB) : Prop :=
  match db with Some d => NewUserDB us = Ok d | None => us = [] end.

Lemma NewServer_Ok cfg s :
  NewServer cfg = Ok s →
  server_ok cfg ∧ sv_cfg s = cfg ∧ users_of (cfg_Users cfg) (sv_users s) ∧ sv_userDB s = sv_users s.
Proof.
  unfold NewServer. destruct (ServerConfig_Validate cfg) eqn:Hv; [done|].
  apply ServerConfig_Validate_ok in Hv.
  destruct (0 <? length (cfg_Users cfg))%nat eqn:Hu.
  - destruct (NewUserDB (cfg_Users cfg)) eqn:Hdb; [|done..]. by intros [= <-].
  - apply empty_length in Hu. by intros [= <-].
Qed.

Lemma reservations_dom us db r u :
  users_of us db → u ∈ us → r ∈ Reserved u →
  IsValid r = true ∧ r ∈ (if Is4 r then (AllReservations db).1 else (AllReservations db).2).
Proof.
  destruct db as [d|]; cbn [users_of]; [|intros ->; set_solver].
  intros (Hv & Hrep & _)%NewUserDB_Ok Hu Hr.
  assert (Name u ≠ EmptyString ∧ IsValid r = true) as [Hn Hval].
  { destruct Hv as (Hok & _). rewrite Forall_forall in Hok. destruct (Hok u Hu) as (? & _ & _ & Hrs).
    rewrite Forall_forall in Hrs. auto. }
  split; [done|].
  assert (ReservationOwner (Some d) r = Name u) as E by (apply (owner_spec us d r Hv Hrep); eauto).
  cbn [ReservationOwner AllReservations] in *. rewrite Hval in E. cbn [negb] in E.
  destruct (Is4 r); apply elem_of_dom; destruct (_ !! r) as [n|] eqn:El; eauto; cbn in E; by rewrite <-E in Hn.
Qed.

Lemma family_pool_spec sn ip us db (is4 : bool) :
  prefix_wf sn → users_of us db → (pfx_IsValid sn = true → IsValid ip = true) →
  match family_pool sn ip (if is4 then (AllReservations db).1 else (AllReservations db).2) with
  | Ok o => fresh_pool sn ip us is4 o
  | Err _ => pfx_IsValid sn = true ∧ BitLen (pfx_addr sn) - pfx_bits sn < 2
  | Panic => False
  end.
Proof.
  intros Hwf Hus Hip. unfold family_pool, fresh_pool. destruct (pfx_IsValid sn) eqn:Hv; [|done].
  set (res := if is4 then (AllReservations db).1 else (AllReservations db).2).
  pose proof (newIPPool_spec sn (ip :: elements res) Hwf) as Hp.
  destruct (newIPPool sn (ip :: elements res)) as [p|e|]; [|split; [done|by destruct Hp; [congruence|]]|done].
  destruct Hp as (Hpw & Hsn & _ & Hbc & Hr). exists p. split_and!; try done; [apply Hr; [left|auto]|].
  intros u r Hu Hin H4. destruct (reservations_dom us db r u Hus Hu Hin) as [Hval Hdom].
  apply Hr; [|done]. right. apply elem_of_elements. unfold res. by rewrite <-H4.
Qed.

(** The prefix of a configured family has the server address' width. *)
Lemma Contains_BitLen sn a : prefix_wf sn → Contains sn a = true → BitLen (pfx_addr sn) = BitLen a.
Proof. intros Hwf Hc. apply (Contains_spec sn a Hwf) in Hc as (_ & _ & -> & _). done. Qed.

Lemma server_startup_spec cfg s :
  families_wf cfg → NewServer cfg = Ok s →
  match server_setup s with
  | Ok (MultiMode static p4 p6) =>
      multi_client cfg = true ∧ dh_Private static = StaticPrivateKey cfg ∧
      fresh_pool (Subnet cfg) (ServerIP cfg) (cfg_Users cfg) true p4 ∧
      fresh_pool (Subnet6 cfg) (ServerIP6 cfg) (cfg_Users cfg) false p6
  | Ok (SingleMode static auth) =>
      multi_client cfg = false ∧
      if bool_decide (StaticPrivateKey cfg = []) then static = None ∧ auth = None
      else (dh_Private <$> static) = Some (StaticPrivateKey cfg) ∧
           auth = Some (serverAuthorizer (sv_users s) (PeerPublicKey cfg))
  | Err (EPool4 _) => pfx_IsValid (Subnet cfg) = true ∧ 30 < pfx_bits (Subnet cfg)
  | Err (EPool6 _) => pfx_IsValid (Subnet6 cfg) = true ∧ 126 < pfx_bits (Subnet6 cfg)
  | _ => False
  end.
Proof.
  intros [Hw4 Hw6] ([_ Hkey Hm _] & Hcfg & Hus & Hdb)%NewServer_Ok. unfold server_setup. rewrite Hcfg.
  fold (multi_client cfg).
  assert (StaticPrivateKey cfg ≠ [] → ∃ k, noiseStatic (StaticPrivateKey cfg) = Some k ∧
            dh_Private k = StaticPrivateKey cfg) as Hstat.
  { intros Hne. destruct Hkey as [?|Hl]; [done|]. unfold noiseStatic, PublicFromPrivate.
    rewrite Hl. cbn. eauto. }
  destruct (multi_client cfg) eqn:Hmc; cycle 1.
  { unfold sv_keyed. destruct (0 <? length (StaticPrivateKey cfg))%nat eqn:Hk.
    - apply nonempty_length in Hk as Hk. destruct (Hstat Hk) as (k & -> & Hp).
      rewrite bool_decide_eq_false_2 by done. cbn. by rewrite Hp, Hdb.
    - apply empty_length in Hk as ->. by rewrite bool_decide_eq_true_2. }
  destruct (Hm eq_refl) as (Hne & _ & H4 & H6). destruct (Hstat Hne) as (k & -> & Hp).
  destruct (AllReservations (sv_users s)) as [res4 res6] eqn:Hres.
  pose proof (family_pool_spec (Subnet cfg) (ServerIP cfg) _ _ true Hw4 Hus (λ E, Is4_valid _ (proj1 (H4 E)))) as F4.
  pose proof (family_pool_spec (Subnet6 cfg) (ServerIP6 cfg) _ _ false Hw6 Hus (λ E, Is6_valid _ (proj1 (H6 E)))) as F6.
  rewrite Hres in F4, F6. cbn [fst snd] in F4, F6.
  destruct (family_pool (Subnet cfg) _ res4) as [p4|e4|]; [|destruct F4 as [E Hb]|done].
  - destruct (family_pool (Subnet6 cfg) _ res6) as [p6|e6|]; [done|destruct F6 as [E Hb]|done].
    split; [done|]. destruct (H6 E) as [Hi Hc]. rewrite (Contains_BitLen _ _ Hw6 Hc) in Hb.
    destruct (ServerIP6 cfg); cbn in *; try done; lia.
  - split; [done|]. destruct (H4 E) as [Hi Hc]. rewrite (Contains_BitLen _ _ Hw4 Hc) in Hb.
    destruct (ServerIP cfg); cbn in *; try done; lia.
Qed.

(** Startup, for a configuration [NewServer] accepts.  The mode follows the
    configured subnets; in multi-client mode each configured family gets an empty
    well-formed pool over its subnet in which the server's own address and that
    family's user reservations are set aside; a keyed single-client server always
    has an authorizer.  Startup fails only for a prefix longer than /30 (IPv4) or
    /126 (IPv6), never for the key, and never panics. *)
Theorem server_startup cfg s :
  families_wf cfg → NewServer cfg = Ok s →
  match server_setup s with
  | Ok (MultiMode static p4 p6) =>
      multi_client cfg = true ∧ dh_Private static = StaticPrivateKey cfg ∧
      fresh_pool (Subnet cfg) (ServerIP cfg) (cfg_Users cfg) true p4 ∧
      fresh_pool (Subnet6 cfg) (ServerIP6 cfg) (cfg_Users cfg) false p6
  | Ok (SingleMode static auth) =>
      multi_client cfg = false ∧
      if bool_decide (StaticPrivateKey cfg = []) then static = None ∧ auth = None
      else (dh_Private <$> static) = Some (StaticPrivateKey cfg) ∧
           auth = Some (serverAuthorizer (sv_users s) (PeerPublicKey cfg))
  | Err (EPool4 _) => pfx_IsValid (Subnet cfg) = true ∧ 30 < pfx_bits (Subnet cfg)
  | Err (EPool6 _) => pfx_IsValid (Subnet6 cfg) = true ∧ 126 < pfx_bits (Subnet6 cfg)
  | _ => False
  end.
Proof. apply server_startup_spec. Qed.

End setup.

(** ** The server's own address *)

(** An allocation that cannot legitimately yield [a]: no user database, or a valid
    one (at any slot counts, of this or a later user list) in which nobody reserves
    [a], and an authorized user by name. *)
Definition keeps_off (a : Addr) (op : pool_op) : Prop :=
  match op with
  | OpAllocate user _ _ (Some d) =>
      user ≠ EmptyString ∧ ∃ us, users_valid us ∧ represents d us ∧ ∀ u, u ∈ us → a ∉ Reserved u
  | _ => True
  end.

Definition withheld (a : Addr) (p : ipPool) : Prop :=
  pool_wf p ∧ a ∈ reserved p ∧ ∀ id, byClient p !! id ≠ Some a.

Lemma granted_not_reserved p user id pref db a :
  keeps_off a (OpAllocate user id pref db) → a ∈ reserved p → ¬ granted p user id pref db a.
Proof.
  intros Hk Hr Hg.
  assert (∀ d, db = Some d → user ≠ EmptyString ∧ ¬ ReservationOwner (Some d) a = user ∧ a ∉ ReservedFor (Some d) user)
    as Hd.
  { intros d ->. destruct Hk as (Hne & us & Hv & Hrep & Hno). split_and!; [done| |].
    - intros (u & Hu & _ & Ha)%(proj1 (owner_spec us d a Hv Hrep)); [by eapply Hno|done].
    - intros (u & Hu & _ & Ha)%(ReservedFor_spec us d user a Hrep). by eapply Hno. }
  destruct Hg as [Hp|a [d Hdb] _ Ha _ _|a _ (_ & Hnr & _)];
    [|destruct (Hd d Hdb) as (_ & _ & Hn); by rewrite Hdb in Ha|done].
  destruct (preferredOK_spec _ _ _ _ Hp) as (_ & _ & _ & Hown). destruct (Hown Hr) as (d & Hdb & E).
  destruct (Hd d Hdb) as (_ & Hn & _). rewrite Hdb in E. by apply Hn.
Qed.

Lemma withheld_step a p op : keeps_off a op → withheld a p → withheld a (pool_step p op).
Proof.
  intros Hk (Hwf & Hr & Hno). split; [by apply pool_step_wf|].
  destruct op as [user id pref db|id]; cbn [pool_step].
  - destruct (AllocateFor p user id pref db) as [[b p']| |] eqn:E; [|done..].
    destruct (AllocateFor_Ok _ _ _ _ _ _ _ (proj1 Hwf) E) as [[_ ->]|(_ & -> & Hg & _)]; [done|].
    split; [done|]. intros c. cbn [take_addr byClient]. rewrite lookup_insert_Some. intros [[<- ->]|[_ Hc]].
    + by eapply granted_not_reserved.
    + by apply (Hno c).
  - unfold Release. destruct (byClient p !! id) as [b|]; [|done]. split; [done|].
    intros c. cbn [byClient]. rewrite lookup_delete_Some. intros [_ Hc]. by apply (Hno c).
Qed.

Lemma withheld_run a p ops : Forall (keeps_off a) ops → withheld a p → withheld a (foldl pool_step p ops).
Proof.
  intros Hf. revert p. induction Hf as [|op ops Hop _ IH]; intros p Hw; cbn [foldl]; [done|].
  by apply IH, withheld_step.
Qed.

(** C20: The server's own tunnel address is never given to a client.  Starting from
    the pools [Run] builds, after any sequence of allocations and releases, with
    any user databases that may be swapped in meanwhile, no client holds the
    server's IPv4 or IPv6 address, as long as no user reserves it and, where a
    database is present, clients are authorized by name. *)
Theorem server_address_withheld `{NoiseIK} cfg s static p4 p6 ops4 ops6 id :
  families_wf cfg → NewServer cfg = Ok s → server_setup s = Ok (MultiMode static p4 p6) →
  Forall (keeps_off (ServerIP cfg)) ops4 → Forall (keeps_off (ServerIP6 cfg)) ops6 →
  (∀ p, p4 = Some p → byClient (foldl pool_step p ops4) !! id ≠ Some (ServerIP cfg)) ∧
  (∀ p, p6 = Some p → byClient (foldl pool_step p ops6) !! id ≠ Some (ServerIP6 cfg)).
Proof.
  intros Hwf Hs Hset H4 H6. pose proof (server_startup_spec cfg s Hwf Hs) as Hst. rewrite Hset in Hst.
  destruct Hst as (_ & _ & F4 & F6).
  assert (∀ sn ip us b o p, fresh_pool sn ip us b o → o = Some p → withheld ip p) as Hfresh.
  { intros sn ip us b o p Hf ->. unfold fresh_pool in Hf. destruct (pfx_IsValid sn); [|done].
    destruct Hf as (q & [= <-] & Hq & _ & Hb & Hin & _). split_and!; try done. intros c. by rewrite Hb. }
  split; intros p Hp; eapply withheld_run; eauto.
Qed.

(** ** Single-client mode without a server key *)

(** A configuration gap.  [Validate] accepts a single-client server with
    configured users or a peer key but no key of its own; such a server starts
    without an authorizer, and its accept loop hands any connection that passes the
    allow list and the rate limiter to a lane in the clear, with no handshake: the
    user list is never consulted. *)
Theorem keyless_server_open `{ObfsCrypto, NoiseIK} {σ Limiter : Type} NewLimiter AllowN cfg s gcO evO now ip
    (lim : option (connLimiter (Limiter := Limiter))) (w : World σ) :
  NewServer cfg = Ok s → multi_client cfg = false → StaticPrivateKey cfg = [] →
  (AllowIP cfg = EmptyString ∨ ip = AllowIP cfg) →
  ∃ static auth, server_setup s = Ok (SingleMode static auth) ∧
    ∀ dh uso, accept_one NewLimiter AllowN (AllowIP cfg) ip dh (cfg_Cipher cfg) uso
      ((λ f _ pub, f pub) <$> auth) gcO evO now lim w =
    (let '(ok, lim') := allowIP NewLimiter AllowN gcO evO now ip lim in
     (if ok then Ready zeroIdentity else RateLimited, lim', w)).
Proof.
  intros (_ & Hcfg & _)%NewServer_Ok Hm Hk Hip. exists None, None. split.
  - unfold server_setup. rewrite Hcfg. fold (multi_client cfg). rewrite Hm. unfold sv_keyed. by rewrite Hk.
  - intros dh u. unfold accept_one. cbn [fmap option_fmap option_map].
    assert (negb (bool_decide (AllowIP cfg = EmptyString)) && negb (bool_decide (ip = AllowIP cfg)) = false) as ->.
    { destruct Hip as [-> | ->]; [done|]. rewrite (bool_decide_eq_true_2 (AllowIP cfg = AllowIP cfg)) by done.
      apply andb_false_r. }
    by destruct (allowIP _ _ _ _ _ _ _) as [[] ?].
Qed.

(** ** Witnesses *)

#[local] Existing Instance demo_obfs.
#[local] Existing Instance toy_noise.

(** Alice is configured, on 10.66.0.0/29 with the server at 10.66.0.1 ... *)
Definition demo_multi : ServerConfig :=
  mkServerCfg "0.0.0.0:443" 0 [] demo_privS [] [alice; bob] CipherAESGCM EmptyString EmptyString
    demo_cfg false demo_prefix PrefixZero (addr_10_66_0 x01) AddrZero EmptyString false 0 zeroNFT zeroTPROXY.

(** ... and in single-client mode, with the server key forgotten. *)
Definition demo_keyless : ServerConfig :=
  mkServerCfg "0.0.0.0:443" 1 [mkPIO false None false] [] [] [alice] CipherAESGCM EmptyString EmptyString
    demo_cfg false PrefixZero PrefixZero AddrZero AddrZero EmptyString false 0 zeroNFT zeroTPROXY.

Definition demo_server : Server := mkServer demo_multi (Some demo_db) (Some demo_db).

Lemma demo_server_Ok : NewServer demo_multi = Ok demo_server.
Proof.
  unfold NewServer. replace (ServerConfig_Validate demo_multi) with (@None configError) by (vm_compute; reflexivity).
  cbn [demo_multi cfg_Users length Nat.ltb Nat.leb]. by rewrite demo_db_Ok.
Qed.

Lemma demo_families_wf : families_wf demo_multi.
Proof. split; [apply PrefixFrom_wf|discriminate 1]. Qed.

Lemma demo_setup_Ok : server_setup demo_server = Ok (MultiMode (mkDHKey demo_privS demo_privS) (Some demo_pool) None).
Proof.
  assert (elements (AllReservations (Some demo_db)).1 = [addr_10_66_0 x05]) as Hres by (vm_compute; reflexivity).
  unfold server_setup. cbn [demo_server sv_cfg sv_users demo_multi Subnet Subnet6 ServerIP StaticPrivateKey].
  replace (noiseStatic demo_privS) with (Some (mkDHKey demo_privS demo_privS)) by reflexivity.
  destruct (AllReservations (Some demo_db)) as [res4 res6]. cbn [fst] in Hres.
  unfold family_pool. rewrite Hres, demo_pool_Ok. reflexivity.
Qed.

Lemma server_startup_witness :
  families_wf demo_multi ∧ NewServer demo_multi = Ok demo_server ∧
  fresh_pool demo_prefix (addr_10_66_0 x01) [alice; bob] true (Some demo_pool).
Proof.
  split; [exact demo_families_wf|]. split; [exact demo_server_Ok|].
  pose proof (server_startup demo_multi demo_server demo_families_wf demo_server_Ok) as Hs.
  rewrite demo_setup_Ok in Hs. exact (proj1 (proj2 (proj2 Hs))).
Defined.

Lemma server_address_withheld_witness :
  NewServer demo_multi = Ok demo_server ∧
  byClient (foldl pool_step demo_pool [OpAllocate "alice" (cid 1) (addr_10_66_0 x01) (Some demo_db); OpFree (cid 2)])
    !! cid 1 ≠ Some (addr_10_66_0 x01).
Proof.
  split; [exact demo_server_Ok|].
  refine (proj1 (server_address_withheld demo_multi demo_server _ _ _ _ [] (cid 1)
    demo_families_wf demo_server_Ok demo_setup_Ok _ _) _ eq_refl); [|constructor].
  constructor; [|by repeat constructor]. destruct (NewUserDB_Ok _ _ demo_db_Ok) as (Hv & Hr & _).
  split; [discriminate|]. exists [alice; bob]. split; [exact Hv|]. split; [exact Hr|].
  intros u [->|[->|[]%not_elem_of_nil]%elem_of_cons]%elem_of_cons Ha; [|by apply not_elem_of_nil in Ha].
  apply list_elem_of_singleton in Ha. discriminate Ha.
Defined.

Definition alice_db : UserDB := default emptyDB (ok (NewUserDB [alice])).

Lemma alice_db_Ok : NewUserDB [alice] = Ok alice_db.
Proof. apply ok_default. vm_compute. reflexivity. Qed.

Lemma demo_keyless_Ok : NewServer demo_keyless = Ok (mkServer demo_keyless (Some alice_db) (Some alice_db)).
Proof.
  unfold NewServer. replace (ServerConfig_Validate demo_keyless) with (@None configError) by (vm_compute; reflexivity).
  cbn [demo_keyless cfg_Users length Nat.ltb Nat.leb]. by rewrite alice_db_Ok.
Qed.

Lemma keyless_server_open_witness :
  NewServer demo_keyless = Ok (mkServer demo_keyless (Some alice_db) (Some alice_db)) ∧
  ∃ static auth, server_setup (mkServer demo_keyless (Some alice_db) (Some alice_db)) = Ok (SingleMode static auth) ∧
    accept_one demoNew demoAllowN EmptyString demo_ip (mkDHKey [] []) CipherAESGCM false
      ((λ f _ pub, f pub) <$> auth) [] [] 1000 None (demo_peer unit tt) = (Ready zeroIdentity, None, demo_peer unit tt).
Proof.
  split; [exact demo_keyless_Ok|].
  destruct (keyless_server_open demoNew demoAllowN demo_keyless _ [] [] 1000 demo_ip None (demo_peer unit tt)
    demo_keyless_Ok eq_refl eq_refl (or_introl eq_refl)) as (static & auth & Hset & Hacc).
  exists static, auth. split; [exact Hset|]. exact (Hacc (mkDHKey [] []) false).
Defined.
