(* ===== verification/Tunnel.v ===== *)
(** * The tunnel end to end

    The composition of the components: a client's connection source and lane
    ([Supervisor.clientSource], [Lane.runLane]) on one side of a TCP connection, and on
    the other side a server in single-client mode ([Supervisor.accept_one] with what
    [Server.server_setup] built) or in multi-client mode ([MultiClient.handleConn] and
    the session's queue).  Each side is run on the byte stream the other side sends; the
    theorems say that such streams exist and what comes out of the two TUN devices. *)

From S2P Require Import Prelude Netip Users IPPool RateLimit Config GoIO Obfs LaneCrypto Lane Handshake MultiClient Supervisor Server.

(** ** Both directions of a lane *)

Section duplex.
Context `{AEADs}.

(** On an unbroken connection a lane sends the frames of its plan, whatever it receives. *)
Lemma lane_sends pio k reads t rxb pre s o :
  lane_ciphers k = Some (s, o) → reads_ok (lane_maxRead k) reads →
  ∃ e s' c r, runLane pio k reads t (mkConn rxb pre None) = Some ((e, s', c), r) ∧
    tx c = pre ++ wire_of (plan (lane_minRead pio) reads) s.
Proof.
  intros Hc Hreads. unfold runLane. rewrite Hc. destruct (lane_ciphers_ok _ _ _ Hc) as [Hs Hov].
  destruct (planned_plan (s_overhead s) (lane_minRead pio) reads) as (pss & _ & _ & Hfit).
  { rewrite Hov. unfold aeadMax, aeadOverhead. destruct (encrypted k); lia. }
  { unfold lane_minRead, virtioNetHdrLen. destruct (VnetHdr pio); lia. }
  { rewrite Hov. unfold lane_maxRead, maxPkt in Hreads. destruct (encrypted k); [exact Hreads|by rewrite Z.sub_0_r]. }
  pose proof (tunToSock_plan (lane_minRead pio) reads s (mkConn rxb pre None)) as (_ & HcA & _).
  destruct (send_all _ s _) as [[e0 s0] c0] eqn:Hsend.
  destruct (send_all_wire _ _ _ _ _ _ Hs Hfit Hsend) as (_ & _ & n & Htx & Hall).
  destruct (Hall eq_refl) as (_ & _ & Hn). rewrite Hn in Htx.
  destruct (tunToSock _ _ _ _) as [[e s'] c] eqn:E. cbn [snd] in HcA. subst c0.
  eexists _, _, _, _. by split.
Qed.

(** What a device takes of the packets its peer sent, in order. *)
Definition received (t : Tun) (ps : list (list byte)) : list (list byte) := taken t ++ accepted (outcomes t) ps.

(** Two lanes with matching keys, each on the stream the other sends after some bytes
    of its own: both devices take all that the other side sent. *)
Lemma lane_duplex kA kB pioA pioB readsA readsB tA tB :
  matching kA kB → is_Some (lane_ciphers kA) →
  reads_ok (lane_maxRead kA) readsA → reads_ok (lane_maxRead kA) readsB → no_fatal tA → no_fatal tB →
  ∃ wA wB, ∀ preA preB, ∃ eA sA cA stA eB sB cB stB,
    runLane pioA kA readsA tA (mkConn wB preA None) = Some ((eA, sA, cA), (RxEOF, stA)) ∧ tx cA = preA ++ wA ∧
    runLane pioB kB readsB tB (mkConn wA preB None) = Some ((eB, sB, cB), (RxEOF, stB)) ∧ tx cB = preB ++ wB ∧
    taken (r_tun stB) = received tB (sent (lane_minRead pioA) readsA) ∧
    taken (r_tun stA) = received tA (sent (lane_minRead pioB) readsB).
Proof.
  intros Hm [[s o] Hc] HrA HrB HtA HtB.
  assert (matching kB kA) as Hm' by (destruct Hm as (? & ? & ? & ?); by split_and!).
  pose proof (lane_ciphers_matching _ _ _ _ Hm Hc) as HcB.
  assert (lane_maxRead kB = lane_maxRead kA) as Hmax by (unfold lane_maxRead; by rewrite (proj1 Hm)).
  assert (reads_ok (lane_maxRead kB) readsB) as HrB' by by rewrite Hmax.
  set (wA := wire_of (plan (lane_minRead pioA) readsA) s). set (wB := wire_of (plan (lane_minRead pioB) readsB) o).
  exists wA, wB. intros preA preB.
  destruct (lane_sends pioA kA readsA tA wB preA s o Hc HrA) as (eA & sA & cA & rA & HA & HtxA).
  destruct (lane_sends pioB kB readsB tB wA preB o s HcB HrB') as (eB & sB & cB & rB & HB & HtxB).
  destruct (lane_delivers kA kB pioA pioB readsA readsB tA tB (mkConn wB preA None) (mkConn wA preB None) _ _ _ _ wA
    Hm HrA HtB HA HtxA eq_refl) as (_ & txB & endB & stB & n & HB' & HkB & HallB).
  destruct (lane_delivers kB kA pioB pioA readsB readsA tB tA (mkConn wA preB None) (mkConn wB preA None) _ _ _ _ wB
    Hm' HrB' HtA HB HtxB eq_refl) as (_ & txA & endA & stA & n' & HA' & HkA & HallA).
  destruct (HallB eq_refl) as [EB ->]. destruct (HallA eq_refl) as [EA ->]. rewrite EB in HkB. rewrite EA in HkA.
  rewrite HB in HB'. injection HB' as <- ->. rewrite HA in HA'. injection HA' as <- ->.
  exists eA, sA, cA, stA, eB, sB, cB, stB. by split_and!.
Qed.

End duplex.

(** ** One lane of a client *)

Section tunnel.
Context `{ObfsCrypto, NoiseIK, AEADs}.

(** Acquiring a connection and running the lane on it; the identity and the lane's two
    results, if the lane came up. *)
Definition client_lane {σ} (cl : ClientConfig) (pio : PacketIO) (reads : tunReads) (tun : Tun) (w : World σ)
    : option (laneIdentity * ((txEnd * option frameAEAD * Conn) * (rxEnd * rxState))) :=
  match clientSource (cl_StaticPrivateKey cl) (cl_PeerPublicKey cl) (cl_Cipher cl) (localUSO (cl_Queues cl))
          (z2b (cl_Lanes cl)) (AssignmentRequest_of cl) true w with
  | (Ok id, w') => pair id <$> runLane pio (keys id) reads tun (conn w')
  | _ => None
  end.

Context {Limiter : Type} (NewLimiter : SpecFloat.spec_float → Z → Limiter)
  (AllowN : Limiter → Z → Z → bool * Limiter).

(** A connection of a single-client server: admission, and the lane that takes it. *)
Definition server_lane {σ} (cfg : ServerConfig) (static : option DHKey)
    (authorize : option (list byte → result userError string)) (ip : string) (gcO evO : list string) (now : Z)
    (lim : option (connLimiter (Limiter := Limiter))) (pio : PacketIO) (reads : tunReads) (tun : Tun) (w : World σ)
    : option (laneIdentity * ((txEnd * option frameAEAD * Conn) * (rxEnd * rxState))) :=
  match accept_one NewLimiter AllowN (AllowIP cfg) ip (match static with Some k => k | None => mkDHKey [] [] end) (cfg_Cipher cfg)
          (localUSO (Queues cfg)) ((λ f _ pub, f pub) <$> authorize) gcO evO now lim w with
  | (Ready id, _, w') => pair id <$> runLane pio (keys id) reads tun (conn w')
  | _ => None
  end.

(** A new connection with the entropy of a handshake. *)
Definition fresh_world {σ} (w : World σ) : Prop :=
  tx (conn w) = [] ∧ room (conn w) = None ∧ (hsEntropy <= length (rnd w))%nat.

(** The client and the server were configured for each other: both without keys, or
    with each other's keys and the same suite. *)
Definition configured_for (cl : ClientConfig) (srv : Server) : Prop :=
  let cfg := sv_cfg srv in
  (cl_StaticPrivateKey cl = [] ∧ StaticPrivateKey cfg = []) ∨
  (∃ user, cl_StaticPrivateKey cl ≠ [] ∧ StaticPrivateKey cfg ≠ [] ∧
     PublicFromPrivate (StaticPrivateKey cfg) = Some (cl_PeerPublicKey cl) ∧
     serverAuthorizer (sv_userDB srv) (PeerPublicKey cfg) (x25519_public (cl_StaticPrivateKey cl)) = Ok user ∧
     cl_Cipher cl = cfg_Cipher cfg ∧ cl_Cipher cl ∈ [CipherAESGCM; CipherChaCha; CipherAES256GCM]).

Definition tunnel_maxRead (cl : ClientConfig) : Z :=
  if cl_keyed cl then maxPkt - Z.of_nat aeadOverhead else maxPkt.

(** The two ends run on streams that each other sends: client to server [s1], server to
    client [s2]; both receivers end with their streams, and the devices took everything. *)
Definition tunnel_up {σ τ} (client : World σ → option (laneIdentity * ((txEnd * option frameAEAD * Conn) * (rxEnd * rxState))))
    (server : World τ → option (laneIdentity * ((txEnd * option frameAEAD * Conn) * (rxEnd * rxState))))
    (wc : World σ) (ws : World τ) (gotC gotS : list (list byte)) : Prop :=
  ∃ s1 s2 idC eC sC cC stC idS eS sS cS stS,
    client (feed s2 wc) = Some (idC, ((eC, sC, cC), (RxEOF, stC))) ∧ tx cC = s1 ∧
    server (feed s1 ws) = Some (idS, ((eS, sS, cS), (RxEOF, stS))) ∧ tx cS = s2 ∧
    matching (keys idC) (keys idS) ∧
    taken (r_tun stS) = gotS ∧ taken (r_tun stC) = gotC.

Lemma clientSource_keyed {σ} priv pub cipher uso lanes req k (w : World σ) :
  pub ≠ [] → noiseStatic priv = Some k →
  clientSource priv pub cipher uso lanes req true w =
  with_err (λ f : hsFail, EHandshake f.2) (initiateHandshake k pub cipher uso lanes req) w.
Proof. intros Hp Hk. unfold clientSource. cbn [negb]. destruct pub; [done|]. cbn [length Nat.eqb]. by rewrite Hk. Qed.

Lemma noiseStatic_public priv pub : PublicFromPrivate priv = Some pub → noiseStatic priv = Some (mkDHKey priv pub).
Proof. unfold noiseStatic. by intros ->. Qed.

(** The gates of the accept loop let the connection through. *)
Definition gates_open (cfg : ServerConfig) (ip : string) (gcO evO : list string) (now : Z)
    (lim : option (connLimiter (Limiter := Limiter))) : Prop :=
  (AllowIP cfg = EmptyString ∨ ip = AllowIP cfg) ∧ (allowIP NewLimiter AllowN gcO evO now ip lim).1 = true.

Lemma accept_one_open {σ} cfg ip static cipher uso authorize gcO evO now lim (w : World σ) :
  gates_open cfg ip gcO evO now lim →
  ∃ l', accept_one NewLimiter AllowN (AllowIP cfg) ip static cipher uso authorize gcO evO now lim w =
    match authorize with
    | None => (Ready zeroIdentity, l', w)
    | Some auth =>
        match acceptHandshake static cipher uso auth None w with
        | (Ok ident, w') => (Ready ident, l', w')
        | (Err (_, e), w') => (HandshakeFailed e, l', w')
        | (Panic, w') => (AcceptPanic, l', w')
        end
    end.
Proof.
  intros [Ha Hl]. unfold accept_one. destruct (allowIP _ _ _ _ _ _ lim) as [ok l'] eqn:E. cbn in Hl. subst ok.
  exists l'. destruct (_ && _) eqn:Hx; [|done]. exfalso.
  rewrite andb_true_iff, !negb_true_iff, !bool_decide_eq_false in Hx. naive_solver.
Qed.

(** A handshake and the two lanes after it, on the streams the two sides send: the
    handshake's message of each side followed by its frames. *)
Lemma handshake_duplex {σ τ} privC privS kc ks cipher usoC usoS lanes req (authorize : authFn) (assignFn : option assignHook)
    (wc : World σ) (ws : World τ) user asg a' pioC pioS readsC readsS tC tS :
  noiseStatic privC = Some kc → noiseStatic privS = Some ks → fresh_world wc → fresh_world ws →
  authorize (appst ws) (dh_Public kc) = Ok user →
  match assignFn with
  | None => (Ok zeroAsg, appst ws)
  | Some f => f user (deriveClientID (dh_Public kc)) (slot_req req) (appst ws)
  end = (Ok asg, a') →
  cipher ∈ [CipherAESGCM; CipherChaCha; CipherAES256GCM] →
  reads_ok (maxPkt - Z.of_nat aeadOverhead) readsC → reads_ok (maxPkt - Z.of_nat aeadOverhead) readsS →
  no_fatal tC → no_fatal tS →
  ∃ m1 m2 wA wB idC idS rC rS eA sA cA stA eB sB cB stB,
    initiateHandshake kc (dh_Public ks) cipher usoC lanes req (feed (m2 ++ wB) wc) =
      (Ok idC, mkWorld (mkConn wB m1 None) rC (appst wc)) ∧
    acceptHandshake ks cipher usoS authorize assignFn (feed (m1 ++ wA) ws) =
      (Ok idS, mkWorld (mkConn wA m2 None) rS a') ∧
    agreed kc cipher (usoC && usoS) lanes user asg idC idS ∧
    lane_maxRead (keys idS) = maxPkt - Z.of_nat aeadOverhead ∧
    runLane pioC (keys idC) readsC tC (mkConn wB m1 None) = Some ((eA, sA, cA), (RxEOF, stA)) ∧ tx cA = m1 ++ wA ∧
    runLane pioS (keys idS) readsS tS (mkConn wA m2 None) = Some ((eB, sB, cB), (RxEOF, stB)) ∧ tx cB = m2 ++ wB ∧
    taken (r_tun stB) = received tS (sent (lane_minRead pioC) readsC) ∧
    taken (r_tun stA) = received tC (sent (lane_minRead pioS) readsS).
Proof.
  intros Hkc Hks (Txc & Rc & Ec) (Txs & Rs & Es) Hauth Hasg Hsuite HrC HrS HtC HtS.
  destruct (handshake_agrees _ _ kc ks cipher usoC usoS lanes req authorize assignFn wc ws user asg a'
    Hkc Hks Rc Rs Ec Es Hauth Hasg) as (m1 & m2 & idC & idS & HC & HS & Hag).
  destruct (Hag) as [Hm [Henc _] _ _ _ _ _ _].
  assert (is_Some (lane_ciphers (keys idC))) as Hsome.
  { destruct (hs_keys_usable kc (dh_Public ks) cipher usoC lanes req (λ _ _, Ok EmptyString) None (feed (m2 ++ []) wc)) as [Hu _].
    destruct (HC []) as [r E]. rewrite E in Hu. by apply Hu. }
  assert (lane_maxRead (keys idC) = maxPkt - Z.of_nat aeadOverhead) as Hmax by (unfold lane_maxRead; by rewrite Henc).
  destruct (lane_duplex (keys idC) (keys idS) pioC pioS readsC readsS tC tS Hm Hsome) as (wA & wB & Hd);
    rewrite ?Hmax; [done..|].
  destruct (Hd m1 m2) as (eA & sA & cA & stA & eB & sB & cB & stB & HA & TA & HB & TB & KB & KA).
  destruct (HC wB) as [rC HCw]. destruct (HS wA) as [rS HSw]. rewrite Txc in HCw. rewrite Txs in HSw.
  exists m1, m2, wA, wB, idC, idS, rC, rS, eA, sA, cA, stA, eB, sB, cB, stB. split_and!; try done.
  rewrite <-Hmax. unfold lane_maxRead. by rewrite (proj1 Hm).
Qed.

(** The keyed case: the handshake's keys run the two lanes. *)
Lemma tunnel_keyed {σ τ} cl cfg ip gcO evO now lim pioC pioS readsC readsS tC tS
    (wc : World σ) (ws : World τ) kc ks (auth : list byte → result userError string) user :
  noiseStatic (cl_StaticPrivateKey cl) = Some kc → noiseStatic (StaticPrivateKey cfg) = Some ks →
  cl_PeerPublicKey cl = dh_Public ks → cl_PeerPublicKey cl ≠ [] → auth (dh_Public kc) = Ok user →
  cl_Cipher cl = cfg_Cipher cfg → cl_Cipher cl ∈ [CipherAESGCM; CipherChaCha; CipherAES256GCM] →
  gates_open cfg ip gcO evO now lim → fresh_world wc → fresh_world ws →
  reads_ok (maxPkt - Z.of_nat aeadOverhead) readsC → reads_ok (maxPkt - Z.of_nat aeadOverhead) readsS →
  no_fatal tC → no_fatal tS →
  tunnel_up (client_lane cl pioC readsC tC)
    (server_lane cfg (Some ks) (Some auth) ip gcO evO now lim pioS readsS tS) wc ws
    (received tC (sent (lane_minRead pioS) readsS)) (received tS (sent (lane_minRead pioC) readsC)).
Proof.
  intros Hkc Hks Hpub Hne Hauth Hciph Hsuite Hg Hwc Hws HrC HrS HtC HtS.
  destruct (handshake_duplex (cl_StaticPrivateKey cl) (StaticPrivateKey cfg) kc ks (cl_Cipher cl) (localUSO (cl_Queues cl)) (localUSO (Queues cfg)) (z2b (cl_Lanes cl))
    (AssignmentRequest_of cl) (λ _ pub, auth pub) None wc ws user zeroAsg (appst ws) pioC pioS readsC readsS tC tS)
    as (m1 & m2 & wA & wB & idC & idS & rC & rS & eA & sA & cA & stA & eB & sB & cB & stB & HC & HS & Hag & _ & HA & TA & HB & TB & KB & KA);
    [done..|].
  exists (m1 ++ wA), (m2 ++ wB), idC, eA, sA, cA, stA, idS, eB, sB, cB, stB. split_and!; try done.
  - unfold client_lane. rewrite (clientSource_keyed _ _ _ _ _ _ kc) by done. unfold with_err. rewrite Hpub, HC. cbn [conn].
    by rewrite HA.
  - unfold server_lane. cbn [fmap option_fmap option_map].
    destruct (accept_one_open cfg ip ks (cfg_Cipher cfg) (localUSO (Queues cfg)) (Some (λ _ pub, auth pub)) gcO evO now lim
      (feed (m1 ++ wA) ws) Hg) as [l' ->]. rewrite <-Hciph, HS. cbn [conn]. by rewrite HB.
  - by destruct Hag.
Qed.

(** The case without keys: the lanes start at once, in the clear. *)
Lemma tunnel_open {σ τ} cl cfg ip gcO evO now lim pioC pioS readsC readsS tC tS (wc : World σ) (ws : World τ) :
  cl_PeerPublicKey cl = [] → gates_open cfg ip gcO evO now lim → fresh_world wc → fresh_world ws →
  reads_ok maxPkt readsC → reads_ok maxPkt readsS → no_fatal tC → no_fatal tS →
  tunnel_up (client_lane cl pioC readsC tC)
    (server_lane cfg None None ip gcO evO now lim pioS readsS tS) wc ws
    (received tC (sent (lane_minRead pioS) readsS)) (received tS (sent (lane_minRead pioC) readsC)).
Proof.
  intros Hpub Hg (Txc & Rc & _) (Txs & Rs & _) HrC HrS HtC HtS.
  destruct (lane_duplex zeroKeys zeroKeys pioC pioS readsC readsS tC tS) as (wA & wB & Hd); [by split_and!|done..|].
  destruct (Hd [] []) as (eA & sA & cA & stA & eB & sB & cB & stB & HA & TA & HB & TB & KB & KA). cbn [app] in *.
  eexists wA, wB, _, eA, sA, cA, stA, zeroIdentity, eB, sB, cB, stB. split.
  { unfold client_lane, clientSource. rewrite Hpub. cbn [negb length Nat.eqb mret M_ret keys feed conn].
    rewrite Txc, Rc, HA. reflexivity. }
  split_and!; try done.
  - unfold server_lane. cbn [fmap option_fmap option_map].
    destruct (accept_one_open (σ := τ) cfg ip (mkDHKey [] []) (cfg_Cipher cfg) (localUSO (Queues cfg)) None gcO evO now lim
      (feed wA ws) Hg) as [l' Hacc]. unfold authFn in Hacc. rewrite Hacc. cbn [feed conn]. rewrite Txs, Rs. change (keys zeroIdentity) with zeroKeys. by rewrite HB.
Qed.

(** C2: The tunnel of a single-client server, end to end.  A validated client and a
    server started from a validated configuration that are configured for each other,
    over a connection that the server's gates admit and that does not break: there are
    byte streams, each of which one side sends while it receives the other, on which the
    client's connection source and the server's accept loop complete (the handshake where
    there are keys), both lanes come up with matching keys, and each device takes exactly
    the packets the other side read, in order, both ways at once. *)
Theorem tunnel_end_to_end {σ τ} cl cfg srv static authorize ip gcO evO now lim pioC pioS readsC readsS tC tS
    (wc : World σ) (ws : World τ) :
  ClientConfig_Validate cl = None → NewServer cfg = Ok srv → server_setup srv = Ok (SingleMode static authorize) →
  configured_for cl srv → gates_open cfg ip gcO evO now lim → fresh_world wc → fresh_world ws →
  reads_ok (tunnel_maxRead cl) readsC → reads_ok (tunnel_maxRead cl) readsS → no_fatal tC → no_fatal tS →
  tunnel_up (client_lane cl pioC readsC tC)
    (server_lane cfg static authorize ip gcO evO now lim pioS readsS tS) wc ws
    (received tC (sent (lane_minRead pioS) readsS)) (received tS (sent (lane_minRead pioC) readsC)).
Proof.
  intros [_ _ Hk]%ClientConfig_Validate_ok (_ & Hcfg & _)%NewServer_Ok Hsetup Hconf Hg Hwc Hws HrC HrS HtC HtS.
  unfold server_setup in Hsetup. rewrite Hcfg in Hsetup. unfold configured_for in Hconf. rewrite Hcfg in Hconf.
  destruct (_ || _); [by repeat case_match|]. unfold tunnel_maxRead, cl_keyed in *.
  destruct Hconf as [[HC HS]|(user & HCne & HSne & Hpub & Hauth & Hciph & Hsuite)].
  - unfold sv_keyed in Hsetup. rewrite HS in Hsetup. cbn in Hsetup. injection Hsetup as <- <-. rewrite HC in *.
    apply tunnel_open; try done. destruct Hk as [[_ ?]|[[=] _]]. done.
  - destruct Hk as [[? _]|[Hlc Hlp]]; [done|]. unfold sv_keyed in Hsetup.
    rewrite (proj2 (nonempty_length _) HSne), (noiseStatic_public _ _ Hpub) in Hsetup. injection Hsetup as <- <-.
    rewrite (proj2 (nonempty_length _) HCne) in *.
    assert (noiseStatic (cl_StaticPrivateKey cl) = Some (mkDHKey (cl_StaticPrivateKey cl) (x25519_public (cl_StaticPrivateKey cl)))) as Hkc.
    { apply noiseStatic_public. unfold PublicFromPrivate. by rewrite Hlc. }
    eapply tunnel_keyed; [exact Hkc|by apply noiseStatic_public|done| |exact Hauth|done..].
    intros E. by rewrite E in Hlp.
Qed.


End tunnel.

(** ** A session's packets *)

(** Packets read from the shared TUN one after another. *)
Definition dispatch_all (vnet : bool) (pkts : list (list byte)) (m : mcState) : mcState :=
  fold_left (λ m pkt, dispatch vnet true pkt m) pkts m.

(** The packet is for one of the session's addresses. *)
Definition is_for (s : session) (vnet : bool) (pkt : list byte) : bool :=
  match innerDst pkt vnet with
  | Some a => bool_decide (IsValid a = true ∧ (a = s_a4 s ∨ a = s_a6 s))
  | None => false
  end.

(** What a lane's reads of the session's queue return, until they would block; [n] is the
    size of the lane's buffer. *)
Fixpoint session_reads (fuel : nat) (n : Z) (p : nat) (m : mcState) : list tunRead :=
  match fuel with
  | O => []
  | S fuel =>
      match sessionPIO_Read n true p m with
      | (PPkt pkt, m') => RPkt pkt :: session_reads fuel n p m'
      | (r, _) => option_list (pio_event r)
      end
  end.

(** The session [p] is live and every packet for it is routed to it. *)
Record routed (p : nat) (s : session) (m : mcState) : Prop := mkRouted {
  ro_heap : heap m !! p = Some s;
  ro_open : closed s = false;
  ro_index : ∀ a, ipIndex m !! a = Some p ↔ IsValid a = true ∧ (a = s_a4 s ∨ a = s_a6 s)
}.

Lemma innerDst_valid pkt vnet a : innerDst pkt vnet = Some a → IsValid a = true ∧ pkt ≠ [].
Proof. unfold innerDst. intros H. split; [repeat case_match; by simplify_eq|]. intros ->. by destruct vnet. Qed.

(** One packet: it joins the session's queue exactly when it is for the session. *)
Lemma dispatch_routed vnet pkt p s m :
  routed p s m → (length (outbound s) < outboundCap)%nat →
  routed p (if is_for s vnet pkt then push_outbound pkt s else s) (dispatch vnet true pkt m).
Proof.
  intros [Hh Hc Hi] Hlen. unfold is_for, dispatch, dispatch_lookup, dispatch_send. destruct (innerDst pkt vnet) as [a|] eqn:Hd.
  2: { destruct (length pkt =? 0)%nat; by split. }
  apply innerDst_valid in Hd as [Hv Hne]. destruct (Nat.eqb_spec (length pkt) 0) as [E|_].
  { by apply nil_length_inv in E. }
  destruct (ipIndex m !! a) as [q|] eqn:Hq.
  - destruct (decide (q = p)) as [->|Hqp].
    + rewrite Hh, Hc, (proj2 (Nat.ltb_lt _ _) Hlen). cbn [negb orb andb].
      rewrite bool_decide_eq_true_2 by by apply Hi. split; [|done|exact Hi]. cbn. by rewrite list_lookup_alter_eq, Hh.
    + rewrite bool_decide_eq_false_2 by (intros H%Hi; congruence).
      destruct (heap m !! q) as [s'|] eqn:Hs'; [|by split]. destruct (_ && _); [|by split].
      split; [|done|exact Hi]. cbn. by rewrite list_lookup_alter_ne.
  - rewrite bool_decide_eq_false_2 by (intros H%Hi; congruence). by split.
Qed.

(** A sequence of packets: those for the session, in order, as far as the queue has room. *)
Lemma dispatch_all_routed vnet pkts p s m :
  let mine := filter (λ pkt, is_for s vnet pkt = true) pkts in
  routed p s m → (length (outbound s) + length mine <= outboundCap)%nat →
  ∃ s', routed p s' (dispatch_all vnet pkts m) ∧ outbound s' = outbound s ++ mine.
Proof.
  revert s m. induction pkts as [|pkt pkts IH]; intros s m mine Hr Hlen.
  { exists s. by rewrite app_nil_r. }
  cbn [dispatch_all fold_left]. fold (dispatch_all vnet pkts (dispatch vnet true pkt m)).
  unfold mine in *. rewrite filter_cons in Hlen |- *. destruct (is_for s vnet pkt) eqn:E.
  - rewrite decide_True in Hlen |- * by done. cbn [length] in Hlen.
    pose proof (dispatch_routed vnet pkt p s m Hr ltac:(lia)) as Hr'. rewrite E in Hr'.
    assert (∃ s', routed p s' (dispatch_all vnet pkts (dispatch vnet true pkt m)) ∧
              outbound s' = (outbound s ++ [pkt]) ++ filter (λ q, is_for s vnet q = true) pkts) as (s' & Hs' & Ho).
    { apply (IH (push_outbound pkt s) _ Hr'). cbn [outbound push_outbound]. rewrite length_app. cbn [length].
      change (filter (λ q, is_for (push_outbound pkt s) vnet q = true) pkts)
        with (filter (λ q, is_for s vnet q = true) pkts). lia. }
    exists s'. split; [done|]. by rewrite Ho, <-app_assoc.
  - rewrite decide_False in Hlen |- * by done.
    assert (routed p s (dispatch vnet true pkt m)) as Hr'.
    { destruct (decide (length (outbound s) < outboundCap)%nat) as [Hl|Hl].
      - pose proof (dispatch_routed vnet pkt p s m Hr Hl) as H. by rewrite E in H.
      - destruct Hr as [Hh Hc Hi]. unfold is_for, dispatch, dispatch_lookup, dispatch_send in *. destruct (_ =? _)%nat; [by split|].
        destruct (innerDst pkt vnet) as [a|] eqn:Hd; [|by split]. apply innerDst_valid in Hd as [Hv _].
        destruct (ipIndex m !! a) as [q|] eqn:Hq; [|by split]. destruct (decide (q = p)) as [->|Hqp].
        + exfalso. apply bool_decide_eq_false in E. by apply E, Hi.
        + destruct (heap m !! q) as [s'|]; [|by split]. destruct (_ && _); [|by split].
          split; [|done|exact Hi]. cbn. by rewrite list_lookup_alter_ne. }
    apply IH; done.
Qed.

(** The lane reads the whole queue, in order, when every packet fits its buffer. *)
Lemma session_reads_all n p s m fuel :
  routed p s m → Forall (λ pkt, Z.of_nat (length pkt) <= n) (outbound s) → (length (outbound s) < fuel)%nat →
  session_reads fuel n p m = RPkt <$> outbound s.
Proof.
  revert s m. induction fuel as [|fuel IH]; intros s m [Hh Hc Hi] Hf Hlen; [lia|].
  cbn [session_reads]. unfold sessionPIO_Read. rewrite Hh, Hc. destruct (outbound s) as [|pkt rest] eqn:Ho; [done|].
  inversion Hf as [|? ? H1 H2]; subst. cbn [andb negb]. rewrite (proj2 (Z.ltb_ge _ _)) by done. cbn [fmap list_fmap]. f_equal.
  apply (IH (pop_outbound rest s)); [|done|cbn in *; lia].
  split; [|done|exact Hi]. cbn. by rewrite list_lookup_alter_eq, Hh.
Qed.

(** A session just opened, in tables that are in order, is routed. *)
Lemma open_session_routed ident now m p m' : tables_ok m → open_session ident now m = (p, m') →
  ∃ s, routed p s m' ∧ outbound s = [] ∧ s_a4 s = assigned4 ident ∧ s_a6 s = assigned6 ident ∧
    sessions m' !! id_clientID ident = Some p.
Proof.
  intros [_ Hi] [= <- <-]. eexists. split; [split; cbn|].
  - by apply list_lookup_middle.
  - done.
  - intros a. rewrite !index_addr_Some. cbn. split.
    + intros [(Hv & -> & _)|[_ [(Hv & -> & _)|[_ Ha]]]]; [auto..|]. exfalso.
      destruct (Hi a _ Ha) as (s & Hs & _). apply lookup_lt_Some in Hs. lia.
    + intros [Hv Ha]. destruct (decide (a = assigned6 ident)) as [->|Hne]; [by left|]. right.
      split; [done|]. left. by destruct Ha as [-> | ->].
  - cbn. split_and!; try done. apply lookup_insert_eq.
Qed.

Lemma lane_up_routed nq now p s m : routed p s m →
  ∃ s' qi m', lane_up nq now p m = (Some qi, m') ∧ routed p s' m' ∧
    outbound s' = outbound s ∧ s_a4 s' = s_a4 s ∧ s_a6 s' = s_a6 s ∧ sessions m' = sessions m.
Proof.
  intros [Hh Hc Hi]. eexists _, _, _. split; [unfold lane_up; by rewrite Hh|].
  split; [split; [cbn; by rewrite list_lookup_alter_eq, Hh|exact Hc|exact Hi]|done].
Qed.

(** A slot is free for the user. *)
Definition slot_free (db : option UserDB) (user : string) : Prop :=
  match db with Some d => Empty d = true ∨ (AcquireSlot db user).1 = None | None => True end.

Lemma acquireSession_opens ident now m :
  tables_ok m → sessions m !! id_clientID ident = None → slot_free (userDB m) (userName ident) →
  ∃ p m' s, acquireSession ident now m = (Ok (p, true), m') ∧ routed p s m' ∧ outbound s = [] ∧
    s_a4 s = assigned4 ident ∧ s_a6 s = assigned6 ident ∧ sessions m' !! id_clientID ident = Some p.
Proof.
  intros Ht Hn Hf. assert (∀ db, tables_ok (set_db m db)) as Hdb by (intros db; destruct Ht; by split).
  unfold acquireSession, acquire_locked. rewrite Hn. unfold slot_free in Hf. destruct (userDB m) as [d|].
  - destruct (Empty d) eqn:E; cbn [negb].
    + destruct (open_session ident now m) as [p m'] eqn:Ho.
      destruct (open_session_routed _ _ _ _ _ Ht Ho) as (s & Hs). by exists p, m', s.
    + destruct Hf as [[=]|Hf]. destruct (AcquireSlot (Some d) (userName ident)) as [e db']. cbn in Hf. subst e.
      destruct (open_session ident now (set_db m db')) as [p m'] eqn:Ho.
      destruct (open_session_routed _ _ _ _ _ (Hdb db') Ho) as (s & Hs). by exists p, m', s.
  - destruct (open_session ident now m) as [p m'] eqn:Ho.
    destruct (open_session_routed _ _ _ _ _ Ht Ho) as (s & Hs). by exists p, m', s.
Qed.

(** The lane of a session sends every packet queued for it: they are all long enough. *)
Lemma sent_session vnet s pkts :
  Forall (λ pkt, is_for s vnet pkt = true) pkts →
  sent (lane_minRead (mkPIO vnet None false)) (ReadsOne (RPkt <$> pkts)) = pkts.
Proof.
  induction 1 as [|pkt pkts Hp _ IH]; [done|]. cbn [sent fmap list_fmap sent_one] in *. rewrite IH. unfold keep.
  assert (lane_minRead (mkPIO vnet None false) <= Z.of_nat (length pkt)) as Hlen.
  { unfold is_for, innerDst in Hp. unfold lane_minRead. cbn [VnetHdr]. destruct vnet; cbn [andb] in Hp.
    - destruct (Z.ltb_spec (Z.of_nat (length pkt)) virtioNetHdrLen); [done|].
      destruct (drop (Z.to_nat virtioNetHdrLen) pkt) as [|b l] eqn:E; [done|].
      apply (f_equal length) in E. rewrite length_drop in E. cbn in E. unfold virtioNetHdrLen in *. lia.
    - destruct pkt; [done|]. cbn [length]. lia. }
  by rewrite (proj2 (Z.ltb_ge _ _)).
Qed.

(** What a new session's lane reads and sends of the packets on the shared TUN. *)
Lemma session_drains vnet pkts p s m got n :
  routed p s m → outbound s = [] → filter (λ pkt, is_for s vnet pkt = true) pkts = got →
  (length got <= outboundCap)%nat → Forall (λ pkt, Z.of_nat (length pkt) <= n) got →
  session_reads (S outboundCap) n p (dispatch_all vnet pkts m) = RPkt <$> got ∧
  sent (lane_minRead (mkPIO vnet None false)) (ReadsOne (RPkt <$> got)) = got.
Proof.
  intros Hr Ho Hgot Hlen Hsize. destruct (dispatch_all_routed vnet pkts p s m Hr) as (s' & Hr' & Ho'); [by rewrite Ho, Hgot|].
  rewrite Ho, Hgot in Ho'. cbn [app] in Ho'. split.
  - rewrite <-Ho'. apply (session_reads_all _ _ s'); rewrite ?Ho'; [done|done|lia].
  - apply (sent_session vnet s). rewrite <-Hgot. apply Forall_forall. by intros x [? _]%list_elem_of_filter.
Qed.

Section multi.
Context `{ObfsCrypto, NoiseIK, AEADs}.

Definition asg_has (a : AssignmentResponse) : bool :=
  (negb (bool_decide (V4Prefix a = x00)) && IsValid (V4Addr a)) || (negb (bool_decide (V6Prefix a = x00)) && IsValid (V6Addr a)).

(** A connection of an authorized client that gets an address and a slot: [handleConn]
    opens its session and starts its lane, on what follows the handshake. *)
Lemma handleConn_opens cfg ks nq now (ws : World mcState) more msg2 r idS m1 :
  acceptHandshake ks (cfg_Cipher cfg) false (λ _ pub, serverAuthorizer (userDB (appst ws)) (PeerPublicKey cfg) pub)
    (Some (assignFn cfg)) ws = (Ok idS, mkWorld (mkConn more msg2 None) r m1) →
  hasAssignment idS = true → tables_ok m1 → sessions m1 !! id_clientID idS = None → slot_free (userDB m1) (userName idS) →
  ∃ p qi m2 s, handleConn cfg ks nq now ws = (Ok (ConnLane p true (Some qi) idS), mkWorld (mkConn more msg2 None) r m2) ∧
    routed p s m2 ∧ outbound s = [] ∧ s_a4 s = assigned4 idS ∧ s_a6 s = assigned6 idS ∧ sessions m2 !! id_clientID idS = Some p.
Proof.
  intros Hacc Hh Ht Hn Hf. unfold handleConn. rewrite Hacc, Hh. cbn [negb appst].
  destruct (acquireSession_opens idS now m1 Ht Hn Hf) as (p & m' & s & -> & Hr & Ho & H4 & H6 & Hsess).
  destruct (lane_up_routed nq now p s m' Hr) as (s' & qi & m2 & -> & Hr' & Ho' & H4' & H6' & Hs').
  exists p, qi, m2, s'. split; [reflexivity|]. split; [exact Hr'|]. rewrite Ho', H4', H6', Hs'. by split_and!.
Qed.

(** C1: The tunnel of a multi-client server, end to end.  In a state its goroutines can
    reach, a client that is authorized, has no session yet, and is given an address and a
    session slot connects: on the streams the two sides send each other, the client's
    source and [handleConn] complete, a session is opened with the addresses the client
    was told, and every packet the client reads reaches the shared TUN.  Then of all the
    packets that arrive on the shared TUN, the client's own TUN takes exactly those for
    its addresses, in order (at most 256 waiting, none larger than a lane's buffer). *)
Theorem multi_tunnel_end_to_end {σ} cl srv ks p4 p6 q r ts kc user asg m1 nq now pioC readsC tC tS vnet pkts
    (wc : World σ) (ws : World mcState) :
  let cfg := sv_cfg srv in
  ClientConfig_Validate cl = None → server_setup srv = Ok (MultiMode ks p4 p6) →
  rtc (mc_step cfg q r) (mc_init (sv_userDB srv) p4 p6, []) (appst ws, ts) →
  noiseStatic (cl_StaticPrivateKey cl) = Some kc → cl_PeerPublicKey cl = dh_Public ks →
  cl_Cipher cl = cfg_Cipher cfg → cl_Cipher cl ∈ [CipherAESGCM; CipherChaCha; CipherAES256GCM] →
  serverAuthorizer (userDB (appst ws)) (PeerPublicKey cfg) (dh_Public kc) = Ok user →
  assignFn cfg user (deriveClientID (dh_Public kc)) (slot_req (AssignmentRequest_of cl)) (appst ws) = (Ok asg, m1) →
  asg_has asg = true → sessions (appst ws) !! deriveClientID (dh_Public kc) = None → slot_free (userDB (appst ws)) user →
  fresh_world wc → fresh_world ws → reads_ok (maxPkt - Z.of_nat aeadOverhead) readsC → no_fatal tC → no_fatal tS →
  let mine := λ pkt, match innerDst pkt vnet with
                     | Some a => bool_decide (IsValid a = true ∧ (a = V4Addr asg ∨ a = V6Addr asg)) | None => false end in
  let got := filter (λ pkt, mine pkt = true) pkts in
  (length got <= outboundCap)%nat → Forall (λ pkt, Z.of_nat (length pkt) <= maxPkt - Z.of_nat aeadOverhead) got →
  ∃ s1 s2 idC eC sC cC stC idS p qi rnd' cS0 m2 eS sS cS stS,
    client_lane cl pioC readsC tC (feed s2 wc) = Some (idC, ((eC, sC, cC), (RxEOF, stC))) ∧ tx cC = s1 ∧
    handleConn cfg ks nq now (feed s1 ws) = (Ok (ConnLane p true (Some qi) idS), mkWorld cS0 rnd' m2) ∧
    sessions m2 !! id_clientID idC = Some p ∧
    assigned4 idC = slot_addr (V4Addr asg) ∧ assigned6 idC = slot_addr (V6Addr asg) ∧
    runLane (mkPIO vnet None false) (keys idS)
      (ReadsOne (session_reads (S outboundCap) (lane_maxRead (keys idS)) p (dispatch_all vnet pkts m2))) tS cS0
      = Some ((eS, sS, cS), (RxEOF, stS)) ∧ tx cS = s2 ∧
    taken (r_tun stS) = received tS (sent (lane_minRead pioC) readsC) ∧
    taken (r_tun stC) = received tC got.
Proof.
  intros cfg [_ _ Hk]%ClientConfig_Validate_ok Hsetup Hreach Hkc Hpub Hciph Hsuite Hauth Hasg Hhas Hnew Hslot
    Hwc Hws HrC HtC HtS mine got Hlen Hsize.
  assert (∃ priv, noiseStatic priv = Some ks) as [privS Hks].
  { unfold server_setup in Hsetup. fold cfg in Hsetup. repeat case_match; simplify_eq; eauto. }
  assert (cl_PeerPublicKey cl ≠ []) as Hne.
  { apply noiseStatic_Some in Hkc as (E & _ & Hl). rewrite E in Hl. destruct Hk as [[E' _]|[_ Hlp]]; [by rewrite E' in Hl|].
    intros E'. by rewrite E' in Hlp. }
  destruct (handshake_duplex (cl_StaticPrivateKey cl) privS kc ks (cl_Cipher cl) (localUSO (cl_Queues cl)) false (z2b (cl_Lanes cl)) (AssignmentRequest_of cl)
    (λ _ pub, serverAuthorizer (userDB (appst ws)) (PeerPublicKey cfg) pub) (Some (assignFn cfg)) wc ws user asg m1
    pioC (mkPIO vnet None false) readsC (ReadsOne (RPkt <$> got)) tC tS)
    as (msg1 & msg2 & wA & wB & idC & idS & rC & rS & eA & sA & cA & stA & eB & sB & cB & stB & HC & HS & Hag & Hmax & HA & TA & HB & TB & KB & KA);
    [done..|cbn; by rewrite Forall_fmap|done|done|].
  destruct Hag as [_ _ _ (_ & HidS & HidC) [Hu _] [A4 _] [A6 _] (G4 & P4 & G6 & P6)].
  destruct (assignFn_tables _ _ _ _ _ _ _ Hasg) as (E1 & E2 & E3 & E4).
  destruct (mc_run_weak _ _ _ _ _ _ _ Hreach) as ([T1 T2] & _ & _). cbn [fst] in T1, T2.
  destruct (handleConn_opens cfg ks nq now (feed (msg1 ++ wA) ws) wA msg2 rS idS m1) as (p & qi & m2 & s & Hconn & Hrt & Ho & S4 & S6 & Hsess).
  { cbn [feed appst]. rewrite <-Hciph. exact HS. }
  { unfold hasAssignment. rewrite G4, P4, G6, P6. exact Hhas. }
  { split; rewrite ?E1, ?E2, ?E3; done. }
  { by rewrite E1, HidS. }
  { by rewrite E4, Hu. }
  destruct (session_drains vnet pkts p s m2 got (lane_maxRead (keys idS)) Hrt Ho) as (Hreads & Hsent).
  { apply list_filter_iff. intros x. unfold is_for, mine. by rewrite S4, S6, G4, G6. }
  { done. }
  { by rewrite Hmax. }
  exists (msg1 ++ wA), (msg2 ++ wB), idC, eA, sA, cA, stA, idS, p, qi, rS, (mkConn wA msg2 None), m2, eB, sB, cB, stB.
  rewrite Hreads, A4, A6, G4, G6, HidC. rewrite Hsent in KA. split_and!; try done.
  unfold client_lane. rewrite (clientSource_keyed _ _ _ _ _ _ kc) by done. unfold with_err. rewrite Hpub, HC. cbn [conn].
  by rewrite HA.
Qed.

End multi.

(** ** Demonstrations *)

#[local] Existing Instance demo_obfs.
#[local] Existing Instance toy_noise.
#[local] Existing Instance toy_aeads.

Definition demo_client : ClientConfig :=
  mkClientCfg "198.51.100.7:443" 1 [mkPIO false None false] demo_privC demo_privS CipherAESGCM AddrZero AddrZero.

(** A server of one lane that knows the client's key. *)
Definition demo_single : ServerConfig :=
  mkServerCfg "0.0.0.0:443" 1 [mkPIO false None false] demo_privS demo_privC [] CipherAESGCM EmptyString EmptyString
    demo_cfg false PrefixZero PrefixZero AddrZero AddrZero EmptyString false 0 zeroNFT zeroTPROXY.

Definition demo_single_server : Server := mkServer demo_single None None.

Lemma demo_fresh (σ : Type) (a : σ) : fresh_world (demo_peer σ a).
Proof. split_and!; [done..|]. apply Nat.leb_le. reflexivity. Qed.

Definition demo_lane_tun : Tun := mkTun [] [].

Lemma demo_no_fatal : no_fatal demo_lane_tun.
Proof. apply not_elem_of_nil. Qed.

(** The client sends two packets while the server sends one. *)
Example tunnel_end_to_end_witness :
  ∃ auth, server_setup demo_single_server = Ok (SingleMode (Some (mkDHKey demo_privS demo_privS)) (Some auth)) ∧
  tunnel_up (client_lane demo_client (mkPIO false None false) (ReadsOne [RPkt [x45; x01]; RPkt [x45; x02]]) demo_lane_tun)
    (server_lane demoNew demoAllowN demo_single (Some (mkDHKey demo_privS demo_privS)) (Some auth) demo_ip [] [] 1000
       (Some (newConnLimiter demo_cfg)) (mkPIO false None false) (ReadsOne [RPkt [x60]]) demo_lane_tun)
    (demo_peer unit tt) (demo_peer unit tt) [[x60]] [[x45; x01]; [x45; x02]].
Proof.
  eexists. split; [reflexivity|].
  refine (tunnel_end_to_end demoNew demoAllowN demo_client demo_single demo_single_server _ _ demo_ip [] [] 1000
    (Some (newConnLimiter demo_cfg)) (mkPIO false None false) (mkPIO false None false)
    (ReadsOne [RPkt [x45; x01]; RPkt [x45; x02]]) (ReadsOne [RPkt [x60]]) demo_lane_tun demo_lane_tun
    (demo_peer unit tt) (demo_peer unit tt) _ _ _ _ _ (demo_fresh _ _) (demo_fresh _ _) _ _ demo_no_fatal demo_no_fatal).
  - reflexivity.
  - reflexivity.
  - reflexivity.
  - right. exists EmptyString. split; [discriminate|]. split; [discriminate|]. split; [reflexivity|].
    split; [vm_compute; reflexivity|]. split; [reflexivity|]. apply list_elem_of_here.
  - split; [left; reflexivity|]. vm_compute. reflexivity.
  - by repeat constructor.
  - by repeat constructor.
Defined.

Definition demo_m1 : mcState :=
  (assignFn demo_multi "alice" (deriveClientID demo_privC) (mkReq AddrZero AddrZero) (mc_init (Some demo_db) (Some demo_pool) None)).2.

Lemma demo_m1_assign :
  assignFn demo_multi "alice" (deriveClientID demo_privC) (mkReq AddrZero AddrZero) (mc_init (Some demo_db) (Some demo_pool) None)
  = (Ok demo_asg1, demo_m1).
Proof. apply injective_projections; [vm_compute; reflexivity|reflexivity]. Qed.

(** Alice is given 10.66.0.5: of two packets on the shared TUN she receives the one for it. *)
Example multi_tunnel_end_to_end_witness :
  ∃ s2 idC txC stC, client_lane demo_client (mkPIO false None false) (ReadsOne []) demo_lane_tun (feed s2 (demo_peer unit tt))
      = Some (idC, (txC, (RxEOF, stC))) ∧
    assigned4 idC = addr_10_66_0 x05 ∧ taken (r_tun stC) = [demo_pkt].
Proof.
  destruct (multi_tunnel_end_to_end demo_client demo_server (mkDHKey demo_privS demo_privS) (Some demo_pool) None false false []
    (mkDHKey demo_privC demo_privC) "alice" demo_asg1 demo_m1 4 0 (mkPIO false None false) (ReadsOne []) demo_lane_tun demo_lane_tun
    false [[x45] ++ zeros 15 ++ [x0a; x42; x00; x06]; demo_pkt]
    (demo_peer unit tt) (demo_peer mcState (mc_init (Some demo_db) (Some demo_pool) None)))
    as (s1 & s2 & idC & eC & sC & cC & stC & idS & p & qi & rnd' & cS0 & m2 & eS & sS & cS & stS & H1 & _ & _ & _ & H4 & _ & _ & _ & _ & Ht).
  - reflexivity.
  - exact demo_setup_Ok.
  - apply rtc_refl.
  - reflexivity.
  - reflexivity.
  - reflexivity.
  - apply list_elem_of_here.
  - vm_compute. reflexivity.
  - exact demo_m1_assign.
  - reflexivity.
  - reflexivity.
  - right. vm_compute. reflexivity.
  - apply demo_fresh.
  - apply demo_fresh.
  - by repeat constructor.
  - exact demo_no_fatal.
  - exact demo_no_fatal.
  - apply Nat.leb_le. vm_compute. reflexivity.
  - vm_compute. constructor; [discriminate|constructor].
  - exists s2, idC, (eC, sC, cC), stC. split; [exact H1|]. split; [exact H4|]. rewrite Ht. vm_compute. reflexivity.
Defined.
