(* ===== verification/MultiRun.v ===== *)
(** * multiclient_linux.go: the collector in time, and the life of [multiClientLoop]

    [gc] wakes every 15 seconds and collects the sessions that have had no lane for more
    than 90; here its ticks, the clock and the other goroutines' steps ([MultiClient]) are
    one step relation, with the times the code reads from the clock.  [multiClientLoop]
    opens the shared device ([Tun]), configures it and accepts connections
    ([MultiAccept]); whatever it returns, its deferred functions run. *)

From stdpp Require Import gmultiset.
From S2P Require Import Prelude Netip Users IPPool RateLimit Config Metrics MultiAccept GoIO Obfs LaneCrypto Lane Tun Handshake MultiClient Supervisor Server.

(** ** The collector *)

Definition gcIdle : Z := 90 * Second.
Definition gcTick : Z := 15 * Second.

(** A range over the session table visits each entry once. *)
Definition visits (order : list clientID) (t : gmap clientID nat) : Prop :=
  NoDup order ∧ ∀ id, is_Some (t !! id) ↔ id ∈ order.

(** The clock, the time of the last tick (or the start), whether [gc] still runs, and
    the shared state with its pending tasks. *)
Record gcState : Type := mkGC {
  g_now : Z;
  g_last : Z;
  g_running : bool;
  g_st : mcState * list task
}.

(** What the collector looks at. *)
Definition times (h : list session) : list (Z * Z) := (λ s, (active s, lastSeen s)) <$> h.

(** [collect] and [tearDownAll] as [gc] calls them. *)
Definition gc_tick (now : Z) (order : list clientID) (st : mcState * list task) : mcState * list task :=
  let '(vs, m') := collect_loop gcIdle now order st.1 in (m', (TearDown <$> vs) ++ st.2).

Definition gc_done (order : list clientID) (st : mcState * list task) : mcState * list task :=
  let '(vs, m') := clear_tables order st.1 in (m', (TearDown <$> vs) ++ st.2).

(** Time passes, but not beyond a tick that is due; [gc] takes a tick or the end of the
    context; a session is found or opened, a lane starts or ends, at the current time; any
    other step leaves the table and the times alone. *)
Inductive timed_step (cfg : ServerConfig) (quiet reload : bool) : gcState → gcState → Prop :=
| t_pass now now' last run st :
    now <= now' → (run = true → now' <= last + gcTick) →
    timed_step cfg quiet reload (mkGC now last run st) (mkGC now' last run st)
| t_tick now last order st :
    now = last + gcTick → visits order (sessions st.1) →
    timed_step cfg quiet reload (mkGC now last true st) (mkGC now now true (gc_tick now order st))
| t_done now last order st :
    visits order (sessions st.1) →
    timed_step cfg quiet reload (mkGC now last true st) (mkGC now last false (gc_done order st))
| t_acquire now last run ident res m m' ts :
    (quiet = true → sessions m !! id_clientID ident = None → ident_fresh ident m) →
    acquire_locked ident now m = (Ok res, m') →
    timed_step cfg quiet reload (mkGC now last run (m, ts)) (mkGC now last run (m', ts))
| t_lane_up now last run nq p q m m' ts :
    lane_up nq now p m = (q, m') →
    timed_step cfg quiet reload (mkGC now last run (m, ts)) (mkGC now last run (m', ts))
| t_lane_down now last run p m ts :
    timed_step cfg quiet reload (mkGC now last run (m, ts)) (mkGC now last run (lane_down now p m, ts))
| t_other now last run st st' :
    mc_step cfg quiet reload st st' →
    sessions st'.1 = sessions st.1 → times (heap st'.1) = times (heap st.1) →
    timed_step cfg quiet reload (mkGC now last run st) (mkGC now last run st').

Definition gc_init (t0 : Z) (db : option UserDB) (p4 p6 : option ipPool) : gcState :=
  mkGC t0 t0 true (mc_init db p4 p6, []).

(** A timed run is a run of the goroutines. *)
Lemma timed_step_mc cfg q r g g' : timed_step cfg q r g g' → rtc (mc_step cfg q r) (g_st g) (g_st g').
Proof.
  intros [| now last order [m ts] _ _|now last order [m ts] [Hnd Hv]|? ? ? ? ? ? ? ? Hq Hl|? ? ? ? ? ? ? ? ? Hl| |? ? ? ? ? Hs _ _];
    cbn [g_st]; [done|..].
  - unfold gc_tick. cbn [fst snd]. destruct (collect_loop gcIdle now order m) as [vs m'] eqn:E.
    by eapply rtc_once, step_collect.
  - eapply rtc_once, step_clear; [|done|done]. intros id Hid. by apply Hv.
  - by eapply rtc_once, step_acquire_ok.
  - by eapply rtc_once, step_lane_up.
  - eapply rtc_once, step_lane_down.
  - by apply rtc_once.
Qed.

Lemma timed_run_mc cfg q r g g' : rtc (timed_step cfg q r) g g' → rtc (mc_step cfg q r) (g_st g) (g_st g').
Proof. induction 1 as [|g1 g2 g3 H _ IH]; [done|]. etrans; [by eapply timed_step_mc|done]. Qed.

(** *** What a tick removes *)

Definition stale (idle now : Z) (h : list session) (p : nat) : Prop :=
  ∃ s, h !! p = Some s ∧ active s = 0 ∧ idle < now - lastSeen s.

Lemma Sub_idle idle now t : 0 <= idle < maxDuration → idle < Sub now t ↔ idle < now - t.
Proof. unfold Sub, minDuration, maxDuration. lia. Qed.

(** The victims of a range over [order], and the table it leaves. *)
Definition collected (idle now : Z) (order : list clientID) (m : mcState) (vs : list nat) (m' : mcState) : Prop :=
  heap m' = heap m ∧
  (∀ id p, sessions m' !! id = Some p ↔ sessions m !! id = Some p ∧ ¬ (id ∈ order ∧ stale idle now (heap m) p)) ∧
  (∀ p, p ∈ vs ↔ ∃ id, id ∈ order ∧ sessions m !! id = Some p ∧ stale idle now (heap m) p).

Lemma collected_skip idle now id order m vs m' :
  (∀ p, sessions m !! id = Some p → ¬ stale idle now (heap m) p) →
  collected idle now order m vs m' → collected idle now (id :: order) m vs m'.
Proof.
  intros Hn (Eh & Es & Ev). split_and!; [done| |].
  - intros id' q. rewrite Es, elem_of_cons. split; intros [Hq Hq']; (split; [done|]); [|tauto].
    intros [[->|?] ?]; [by eapply Hn|tauto].
  - intros q. rewrite Ev. setoid_rewrite elem_of_cons. split; intros (id' & Hin & Hq & Hq'); exists id'; [tauto|].
    destruct Hin as [->|?]; [by destruct (Hn q)|tauto].
Qed.

Lemma collected_drop idle now order m p s vs m' :
  sessions m !! s_id s = Some p → stale idle now (heap m) p →
  collected idle now order (drop_session p s m) vs m' → collected idle now (s_id s :: order) m (p :: vs) m'.
Proof.
  intros Hp Hst (Eh & Es & Ev). cbn in Eh, Es, Ev. split_and!; [done| |].
  - intros id q. rewrite Es, lookup_delete_Some, elem_of_cons. split.
    + intros [[Hne Hq] Hn]. split; [done|]. intros [[->|?] ?]; [done|tauto].
    + intros [Hq Hn]. split; [|tauto]. split; [|done]. intros <-. apply Hn. split; [by left|]. congruence.
  - intros q. rewrite elem_of_cons, Ev. setoid_rewrite lookup_delete_Some. setoid_rewrite elem_of_cons.
    split; [intros [->|(id & ? & [_ ?] & ?)]; [exists (s_id s); tauto|exists id; tauto]|].
    intros (id & [->|Hin] & Hq & Hq'); [left; congruence|].
    destruct (decide (s_id s = id)) as [<-|Hne]; [left; congruence|right; exists id; tauto].
Qed.

Lemma collect_loop_exact idle now order m vs m' :
  0 <= idle < maxDuration → tables_ok m → collect_loop idle now order m = (vs, m') →
  collected idle now order m vs m'.
Proof.
  intros Hi. revert m vs. induction order as [|id order IH]; intros m vs Ht; cbn [collect_loop].
  { intros [= <- <-]. split_and!; [done| |]; intros *; rewrite ?elem_of_nil; [tauto|].
    split; [done|]. by intros (? & []%not_elem_of_nil & _). }
  destruct (sessions m !! id) as [p|] eqn:Hp; [|intros E; apply collected_skip; [congruence|by apply IH]].
  destruct (tb_session _ Ht _ _ Hp) as (s & Hh & <- & _). rewrite Hh.
  destruct (_ && _) eqn:Hc.
  - rewrite andb_true_iff, Z.eqb_eq, Z.ltb_lt, Sub_idle in Hc by done. destruct Hc.
    destruct (collect_loop _ _ _ _) as [vs1 m1] eqn:E. intros [= <- <-]. eapply collected_drop; [done|by exists s|].
    apply IH; [|exact E]. by eapply drop_session_tables.
  - intros E. apply collected_skip; [|by apply IH]. rewrite Hp. intros ? [= <-] (s' & Hs' & Ha & Hb).
    rewrite Hh in Hs'. injection Hs' as <-. rewrite <-Sub_idle in Hb by done.
    rewrite andb_false_iff, Z.eqb_neq, Z.ltb_ge in Hc. destruct Hc; [done|lia].
Qed.

(** *** No session outlives its idle time by more than a tick *)

(** While [gc] runs, a session without lanes was not yet due at the last tick. *)
Definition gc_ok (g : gcState) : Prop :=
  mc_weak (g_st g) ∧
  (g_running g = true → g_last g <= g_now g <= g_last g + gcTick ∧
    ∀ id p s, sessions (g_st g).1 !! id = Some p → heap (g_st g).1 !! p = Some s → active s = 0 →
      g_last g <= lastSeen s + gcIdle).

Lemma gcIdle_range : 0 <= gcIdle < maxDuration.
Proof. unfold gcIdle, Second, maxDuration. lia. Qed.

Lemma times_lookup h h' p s' : times h' = times h → h' !! p = Some s' →
  ∃ s : session, h !! p = Some s ∧ active s' = active s ∧ lastSeen s' = lastSeen s.
Proof.
  intros E Hs'. assert (times h' !! p = Some (active s', lastSeen s')) as Ht by (unfold times; by rewrite list_lookup_fmap, Hs').
  rewrite E in Ht. unfold times in Ht. apply list_lookup_fmap_Some in Ht as (s & Heq & Hs). injection Heq as -> ->. by exists s.
Qed.

(** A session whose lane starts or ends was seen now; the others are as before. *)
Lemma alter_idle (f : session → session) (now last : Z) (h : list session) p q s' :
  (∀ s, lastSeen (f s) = now) → last <= now →
  (∀ s, h !! q = Some s → active s = 0 → last <= lastSeen s + gcIdle) →
  alter f p h !! q = Some s' → active s' = 0 → last <= lastSeen s' + gcIdle.
Proof.
  intros Hf Hle Hold. destruct (decide (q = p)) as [->|Hne].
  - rewrite list_lookup_alter_eq. destruct (h !! p) as [s|]; [|done]. intros [= <-] _. rewrite Hf.
    pose proof gcIdle_range. lia.
  - rewrite list_lookup_alter_ne by done. apply Hold.
Qed.

Lemma open_idle (now last : Z) ident m p m' id q s :
  last <= now →
  (∀ id q s, sessions m !! id = Some q → heap m !! q = Some s → active s = 0 → last <= lastSeen s + gcIdle) →
  tables_ok m → open_session ident now m = (p, m') →
  sessions m' !! id = Some q → heap m' !! q = Some s → active s = 0 → last <= lastSeen s + gcIdle.
Proof.
  intros Hle Hold Ht [= <- <-]. cbn. intros [[<- <-]|[Hne Hq]]%lookup_insert_Some.
  - rewrite list_lookup_middle by done. intros [= <-] _. cbn. pose proof gcIdle_range. lia.
  - destruct (tb_session _ Ht _ _ Hq) as (s0 & Hs0 & _). rewrite lookup_app_l by (by eapply lookup_lt_Some).
    by eapply Hold.
Qed.

Lemma mc_rtc_weak cfg q r st st' : rtc (mc_step cfg q r) st st' → mc_weak st → mc_weak st'.
Proof. induction 1 as [|st1 st2 st3 H _ IH]; [done|]. intros Hw. by apply IH, (mc_step_weak _ _ _ _ _ H). Qed.

Lemma timed_step_ok cfg q r g g' : timed_step cfg q r g g' → gc_ok g → gc_ok g'.
Proof.
  intros Hstep [Hw Hg]. split; [by eapply mc_rtc_weak; [apply (timed_step_mc _ _ _ _ _ Hstep)|]|]. intros Hrun.
  destruct Hstep as [now now' last run st Hle Hlim|now last order [m ts] -> Hv| |now last run ident res m m' ts _ Hl|
    now last run nq p qi m m' ts Hl|now last run p m ts|now last run [m ts] [m' ts'] _ Es Et]; cbn in *.
  - destruct (Hg Hrun) as [? ?]. split; [specialize (Hlim Hrun); lia|done].
  - split; [unfold gcTick, Second; lia|]. unfold gc_tick. cbn [fst snd].
    destruct (collect_loop gcIdle _ order m) as [vs m'] eqn:E. cbn [fst].
    destruct (collect_loop_exact _ _ _ _ _ _ gcIdle_range (proj1 Hw) E) as (Eh & Es & _). rewrite Eh.
    intros id p s [Hp Hn]%Es Hs Ha. destruct (Z.le_gt_cases (last + gcTick) (lastSeen s + gcIdle)) as [|Hlt]; [done|].
    destruct Hn. split; [by apply Hv|]. exists s. split_and!; [done|done|lia].
  - done.
  - destruct (Hg Hrun) as [Hb Hold]. split; [done|].
    apply acquire_locked_inv in Hl as [(p & _ & _ & ->)|[(_ & e & [=] & _)|(Hn & p & db & _ & Ho & _)]]; [done|].
    intros id p' s. eapply open_idle; [apply Hb| | |exact Ho]; [exact Hold|]. destruct Hw as [[? ?] _]; by split.
  - destruct (Hg Hrun) as [Hb Hold]. split; [done|]. injection Hl as _ <-. cbn. intros id p' s Hp.
    eapply alter_idle; [|apply Hb|intros s0; by apply (Hold id)]. done.
  - destruct (Hg Hrun) as [Hb Hold]. split; [done|]. intros id p' s Hp. eapply alter_idle; [|apply Hb|intros s0; by apply (Hold id)]. done.
  - destruct (Hg Hrun) as [Hb Hold]. split; [done|]. intros id p s. rewrite Es. intros Hp Hs Ha.
    destruct (times_lookup _ _ _ _ Et Hs) as (s0 & Hs0 & Ea & El). rewrite El. apply (Hold id p s0 Hp Hs0). congruence.
Qed.

Lemma timed_run_ok cfg q r t0 db p4 p6 g : rtc (timed_step cfg q r) (gc_init t0 db p4 p6) g → gc_ok g.
Proof.
  intros H. assert (gc_ok (gc_init t0 db p4 p6)) as H0.
  { split; [apply mc_init_weak|]. intros _. cbn. split; [unfold gcTick, Second; lia|]. intros id p s E. by rewrite lookup_empty in E. }
  revert H0. induction H as [|g1 g2 g3 H _ IH]; [done|]. intros H0. by apply IH, (timed_step_ok _ _ _ _ _ H).
Qed.

(** C13: The collector in time.  Whatever the goroutines do, while [gc] runs and its ticks
    are served when due, no session in the table has been without a lane for more than 105
    seconds (90 idle and one tick); a tick removes exactly the sessions that have had no
    lane for more than 90 seconds, none with a lane, leaves them to be torn down, and
    leaves no address leading to a removed session; the end of the context empties the
    table and leaves every session to be torn down. *)
Theorem gc_timely cfg q r t0 db p4 p6 g order :
  rtc (timed_step cfg q r) (gc_init t0 db p4 p6) g → g_running g = true →
  let '(m, ts) := g_st g in
  visits order (sessions m) →
  (∀ id p s, sessions m !! id = Some p → heap m !! p = Some s → active s = 0 →
     g_now g - lastSeen s <= 105 * Second) ∧
  (let '(m', ts') := gc_tick (g_now g) order (m, ts) in
   (∀ id p, sessions m' !! id = Some p ↔
      sessions m !! id = Some p ∧ ¬ ∃ s, heap m !! p = Some s ∧ active s = 0 ∧ 90 * Second < g_now g - lastSeen s) ∧
   (∀ id p, sessions m !! id = Some p → sessions m' !! id = Some p ∨ TearDown p ∈ ts') ∧
   (∀ a p, ipIndex m' !! a = Some p → ∃ id, sessions m' !! id = Some p)) ∧
  (let '(m', ts') := gc_done order (m, ts) in
   sessions m' = ∅ ∧ ipIndex m' = ∅ ∧ ∀ id p, sessions m !! id = Some p → TearDown p ∈ ts').
Proof.
  intros Hrun Hr. destruct (timed_run_ok _ _ _ _ _ _ _ _ Hrun) as [Hw Hg]. destruct (Hg Hr) as [Hb Hold].
  destruct (g_st g) as [m ts] eqn:Eg. cbn [fst] in *. intros [_ Hv]. split_and!.
  - intros id p s Hp Hs Ha. specialize (Hold id p s Hp Hs Ha). unfold gcIdle, gcTick, Second in *. lia.
  - unfold gc_tick. cbn [fst snd]. destruct (collect_loop gcIdle (g_now g) order m) as [vs m'] eqn:E.
    destruct (collect_loop_exact _ _ _ _ _ _ gcIdle_range (proj1 Hw) E) as (Eh & Es & Ev).
    destruct (weak_collect _ _ _ _ _ _ ts Hw E) as ([_ Hi] & _ & _). split_and!.
    + intros id p. rewrite Es. split; intros [Hp Hn]; (split; [done|]).
      * intros Hst. apply Hn. split; [by apply Hv|done].
      * by intros [_ Hst].
    + intros id p Hp. destruct (decide (sessions m' !! id = Some p)) as [|Hn]; [by left|]. right.
      apply elem_of_app. left. apply list_elem_of_fmap. exists p. split; [done|]. apply Ev. exists id.
      split; [by apply Hv|]. split; [done|]. destruct (tb_session _ (proj1 Hw) _ _ Hp) as (s & Hs & _).
      destruct (decide (active s = 0 ∧ gcIdle < g_now g - lastSeen s)) as [[]|Hf]; [by exists s|].
      destruct Hn. apply Es. split; [done|]. intros [_ (s' & Hs' & ?)]. rewrite Hs in Hs'. injection Hs' as <-. by apply Hf.
    + intros a p Ha. destruct (Hi a p Ha) as (s & _ & Hs & _). eauto.
  - cbn. split_and!; [done..|]. intros id p Hp. apply elem_of_app. left. apply list_elem_of_fmap. exists p. split; [done|].
    apply list_elem_of_omap. exists id. split; [by apply Hv|done].
Qed.

(** ** The loop's life *)

(** What the loop sees: a connection, an error of [Accept] (with the jitter drawn and
    whether the sleep ran to its end), an error once the context is done, and between
    them the progress of the connections' goroutines. *)
Inductive loopEvent : Type :=
| EvAccept (remote : string) (gcO evO : list string) (now : Z)
| EvAcceptErr (jitter : Z) (woke : bool)
| EvAcceptDone
| EvProgress (i : nat) (p : progress).

Inductive loopEnd : Type :=
| OpenFailed (e : tunError)
| ConfigureFailed
| CtxEnded
| StillServing.

(** Commands and closed descriptors, in order. *)
Inductive devAction : Type := ARun (cmd : list string) | AClose (fd : Z).

Section loop.
Context {Limiter : Type} (NewLimiter : SpecFloat.spec_float → Z → Limiter)
  (AllowN : Limiter → Z → Z → bool * Limiter).
Context {W : Type} (sys_open : W → sysres Z * W) (sys_ioctl : Z → ioctlReq → W → sysres (list byte) * W).

(** The accept loop: whether it returned, the sleeps, and the state it leaves. *)
Fixpoint accept_loop (allow : string) (evs : list loopEvent) (ls : loopState (Limiter := Limiter)) : bool * list Z * loopState :=
  match evs with
  | [] => (false, [], ls)
  | EvAcceptDone :: _ => (true, [], ls)
  | EvAcceptErr r woke :: evs' =>
      let d := sleepJitter (500 * Millisecond) r in
      if woke then let '(ret, ws, ls') := accept_loop allow evs' ls in (ret, d :: ws, ls') else (true, [d], ls)
  | EvAccept remote gcO evO now :: evs' => accept_loop allow evs' (accept_conn NewLimiter AllowN allow remote gcO evO now ls)
  | EvProgress i p :: evs' =>
      accept_loop allow evs' (match conn_step i p ls with Some ls' => ls' | None => ls end)
  end.

(** [closeAll(queues)], after the device was deleted: the deferred calls, last first. *)
Definition closeAll (qs : list kernelTUN) : list devAction := (λ k, AClose (fd k)) <$> qs.

Definition loop_defers (ifname : string) (qs : list kernelTUN) : list devAction :=
  ARun ["ip"; "link"; "del"; ifname]%string :: closeAll qs.

(** [multiClientLoop]; [ran] is whether a command succeeds. *)
Definition multiClientLoop (cfg : ServerConfig) (numCPU : Z) (ran : list string → bool) (evs : list loopEvent)
    (s : kstate (W := W)) : loopEnd * list devAction * kstate * option (list kernelTUN * loopState) :=
  match OpenKernelTUN sys_open sys_ioctl (sharedTunName cfg) (sharedQueueCount cfg numCPU) (sv_VnetHdr cfg) s with
  | (Ok (queues, ifname), s') =>
      let '(ok, cmds) := configureSharedInterface ran ifname cfg in
      if negb ok then (ConfigureFailed, (ARun <$> cmds) ++ loop_defers ifname queues, close_all queues s', None)
      else
        let '(ret, _, ls) := accept_loop (AllowIP cfg) evs (loop_init (RateLimit cfg)) in
        if ret then (CtxEnded, (ARun <$> cmds) ++ loop_defers ifname queues, close_all queues s', Some (queues, ls))
        else (StillServing, ARun <$> cmds, s', Some (queues, ls))
  | (Err e, s') => (OpenFailed e, [], s', None)
  | (Panic, s') => (CtxEnded, [], s', None)
  end.

(** The events name what they can: a peer with an address, and ranges over the
    limiter's table. *)
Fixpoint events_ok (allow : string) (evs : list loopEvent) (ls : loopState (Limiter := Limiter)) : Prop :=
  match evs with
  | EvAccept remote gcO evO now :: evs' =>
      remoteIP remote ≠ EmptyString ∧ enumerates gcO (limiters (ls_limiter ls)) ∧
      enumerates evO (limiters (after_gc gcO now (ls_limiter ls))) ∧
      events_ok allow evs' (accept_conn NewLimiter AllowN allow remote gcO evO now ls)
  | EvAcceptErr _ true :: evs' => events_ok allow evs' ls
  | EvProgress i p :: evs' => events_ok allow evs' (match conn_step i p ls with Some ls' => ls' | None => ls end)
  | _ => True
  end.

Lemma accept_loop_steps allow evs ls : events_ok allow evs ls →
  rtc (loop_step NewLimiter AllowN) ls (accept_loop allow evs ls).2.
Proof.
  revert ls. induction evs as [|[remote gcO evO now|r []| |i p] evs IH]; intros ls; cbn [accept_loop events_ok]; try done.
  - intros (H1 & H2 & H3 & H4). eapply rtc_l; [by apply step_conn|by apply IH].
  - intros Hok. specialize (IH ls Hok). by destruct (accept_loop allow evs ls) as [[] ?].
  - intros Hok. destruct (conn_step i p ls) as [ls'|] eqn:E; [|by apply IH].
    eapply rtc_l; [by eapply step_progress|by apply IH].
Qed.

(** *** Queue numbers *)

Definition lanes_ok (m : mcState) : Prop := Forall (λ s, 0 <= nextLane s) (heap m).

Lemma lanes_ok_upd f p m : (∀ s, 0 <= nextLane s → 0 <= nextLane (f s)) → lanes_ok m → lanes_ok (upd_session f p m).
Proof. intros Hf Hm. unfold lanes_ok. cbn. apply Forall_alter; [done|]. auto. Qed.

Lemma mc_step_lanes cfg q r st st' : mc_step cfg q r st st' → tables_ok st.1 → lanes_ok st.1 → lanes_ok st'.1.
Proof.
  intros Hstep Hw Hm. destruct Hstep as [? ? ? ? ? ? ? H|ident now res m m' ts _ H|? ? ? ? ? ts H| | ? ? ? ? ? ? ? H|
    | ? ? ? ? ? ? ? H|? ? ? ? ? _ _ H|t m ts1 ts2 _|prefer pkt p m ts _| ? ? ? ? ? ? ? H|db m ts _]; cbn [fst] in *.
  - apply assignFn_tables in H as (_ & _ & E & _). unfold lanes_ok. by rewrite E.
  - apply acquire_locked_inv in H as [(p & _ & _ & ->)|[(_ & e & [=] & _)|(_ & p & db & _ & [= _ <-] & _)]]; [done|].
    unfold lanes_ok. cbn. apply Forall_app. split; [done|]. by apply Forall_singleton.
  - apply acquire_locked_inv in H as [(p & _ & [=] & _)|[(_ & e' & _ & ->)|(_ & p & db & [=] & _)]]. done.
  - unfold releaseOrphan. by case_bool_decide.
  - injection H as _ <-. apply lanes_ok_upd; [|done]. cbn. lia.
  - by apply lanes_ok_upd.
  - by apply (collect_loop_ind (λ _ m, lanes_ok m)) in H as [H _].
  - by injection H as _ <-.
  - destruct t as [p|id|prefer pkt p]; cbn; [|done|].
    + destruct (tearDown_inv p m) as [->|(s & db & _ & _ & -> & _)]; [done|by apply (lanes_ok_upd mark_closed p m)].
    + destruct (send_cases prefer pkt p m) as [[-> _]|(s & _ & _ & ->)]; [done|by apply lanes_ok_upd].
  - done.
  - destruct (read_cases _ _ _ _ _ _ H) as [->|(? & ? & ? & _ & _ & ->)]; [done|by apply lanes_ok_upd].
  - done.
Qed.

Lemma mc_run_lanes cfg q r db p4 p6 st : rtc (mc_step cfg q r) (mc_init db p4 p6, []) st → lanes_ok st.1.
Proof.
  intros H. assert (mc_weak (mc_init db p4 p6, []) ∧ lanes_ok (mc_init db p4 p6, [] : list task).1) as H0
    by (split; [apply mc_init_weak|constructor]).
  revert H0. induction H as [|st1 st2 st3 H _ IH]; [by intros [_ ?]|]. intros [Hw Hl]. apply IH.
  split; [by eapply mc_step_weak|]. eapply mc_step_lanes; [done|apply Hw|done].
Qed.

(** C16: The life of the multi-client loop.  While it serves, the shared device has as
    many queues as configured (one per CPU by default), the interface commands have all
    succeeded, the accept loop's state is one its steps reach, and a lane that starts in
    any state the goroutines reach is given a queue that exists.  Whenever the loop
    returns, from a failed open, a failed command or the end of the context, no
    descriptor is left open; once the device was opened the deferred calls come last:
    the interface is deleted, then every queue closed. *)
Theorem multiClientLoop_lifecycle cfg numCPU ran evs s :
  1 <= numCPU → events_ok (AllowIP cfg) evs (loop_init (RateLimit cfg)) →
  let '(res, acts, s', up) := multiClientLoop cfg numCPU ran evs s in
  (res ≠ StillServing → live s'.2 = live s.2) ∧
  match res with
  | OpenFailed e => acts = [] ∧ e ≠ EQueueCount
  | ConfigureFailed =>
      ∃ ifname qs cmds, configureSharedInterface ran ifname cfg = (false, cmds) ∧
        acts = (ARun <$> cmds) ++ loop_defers ifname qs
  | CtxEnded | StillServing =>
      ∃ ifname qs cmds ls, up = Some (qs, ls) ∧ configureSharedInterface ran ifname cfg = (true, cmds) ∧
        Z.of_nat (length qs) = sharedQueueCount cfg numCPU ∧ rtc (loop_step NewLimiter AllowN) (loop_init (RateLimit cfg)) ls ∧
        acts = (ARun <$> cmds) ++ (match res with CtxEnded => loop_defers ifname qs | _ => [] end) ∧
        (res = StillServing → live s'.2 = live s.2 ⊎ fds qs) ∧
        (∀ q r db p4 p6 m ts p now m' i, rtc (mc_step cfg q r) (mc_init db p4 p6, []) (m, ts) →
           lane_up (Z.of_nat (length qs)) now p m = (Some i, m') → is_Some (qs !! Z.to_nat i) ∧ 0 <= i)
  end.
Proof.
  intros Hcpu Hok. unfold multiClientLoop.
  assert (1 <= sharedQueueCount cfg numCPU) as Hq by (unfold sharedQueueCount; case_match; lia).
  pose proof (OpenKernelTUN_spec sys_open sys_ioctl (sharedTunName cfg) (sharedQueueCount cfg numCPU) (sv_VnetHdr cfg) s) as Ho.
  destruct (OpenKernelTUN _ _ _ _ _ s) as [[[qs ifname]|e|] s1]; [| |done].
  2:{ destruct Ho as (Hl & He & _). split; [done|]. split; [done|]. intros ->. destruct He as [_ He]. specialize (He eq_refl). lia. }
  destruct Ho as (Hlen & Hlive & _). pose proof (close_all_live sys_ioctl qs s1 _ Hlive) as Hclosed.
  destruct (configureSharedInterface ran ifname cfg) as [[] cmds] eqn:Hc; cbn [negb]; [|by split; [|by exists ifname, qs, cmds]].
  assert (∀ q r db p4 p6 m ts p now m' i, rtc (mc_step cfg q r) (mc_init db p4 p6, []) (m, ts) →
    lane_up (Z.of_nat (length qs)) now p m = (Some i, m') → is_Some (qs !! Z.to_nat i) ∧ 0 <= i) as Hidx.
  { intros q r db p4 p6 m ts p now m' i Hrun%mc_run_lanes [= Hi _]. destruct (heap m !! p) as [x|] eqn:Hx; [|done].
    injection Hi as <-. pose proof (Z.mod_pos_bound (nextLane x) (Z.of_nat (length qs))).
    split; [apply lookup_lt_is_Some; lia|lia]. }
  pose proof (accept_loop_steps (AllowIP cfg) evs (loop_init (RateLimit cfg)) Hok) as Hsteps.
  destruct (accept_loop _ evs _) as [[[] ws] ls]; cbn [snd] in Hsteps.
  - split; [done|]. exists ifname, qs, cmds, ls. by split_and!.
  - split; [done|]. exists ifname, qs, cmds, ls. rewrite app_nil_r. by split_and!.
Qed.

End loop.

(** ** Demonstrations *)

(** Alice's session of [MultiClient], opened at time 0 and never used. *)
Definition demo_gc (now last : Z) : gcState := mkGC now last true (mc2, []).

Lemma demo_visits : visits [cid 1] (sessions mc2).
Proof.
  split; [apply NoDup_singleton|]. intros id. rewrite list_elem_of_singleton.
  assert (sessions mc2 = <[cid 1 := 0%nat]> ∅) as ->.
  { vm_cast_no_check (eq_refl (<[cid 1 := 0%nat]> (∅ : gmap clientID nat))). }
  split; [|intros ->; rewrite lookup_insert_eq; eauto]. intros [p Hp]. apply lookup_insert_Some in Hp as [[-> _]|[_ Hp]]; [done|].
  by rewrite lookup_empty in Hp.
Qed.

Lemma demo_gc_start : rtc (timed_step demo_mccfg false false) (gc_init 0 (Some demo_db) (Some demo_pool) None) (demo_gc 0 0).
Proof.
  eapply rtc_l; [eapply t_other; [eapply step_assign, mc1_assign|reflexivity|reflexivity]|].
  apply rtc_once. eapply t_acquire; [done|exact mc2_acquire].
Qed.

(** A tick at which nothing is due. *)
Lemma demo_gc_tick last : (gcIdle <? Sub (last + gcTick) 0) = false →
  rtc (timed_step demo_mccfg false false) (demo_gc last last) (demo_gc (last + gcTick) (last + gcTick)).
Proof.
  intros Hn. assert (gc_tick (last + gcTick) [cid 1] (mc2, []) = (mc2, [])) as E.
  { assert (sessions mc2 !! cid 1 = Some 0%nat) as E1 by (vm_compute; reflexivity).
    assert (heap mc2 !! 0%nat = Some demo_session) as E2 by (vm_compute; reflexivity).
    unfold gc_tick. cbn [fst snd collect_loop]. rewrite E1, E2. change (lastSeen demo_session) with 0. by rewrite Hn, andb_false_r. }
  assert (last <= last + gcTick) as Hle by (clear; unfold gcTick, Second; lia).
  eapply rtc_l; [exact (t_pass _ _ _ last (last + gcTick) last true (mc2, []) Hle (λ _, Z.le_refl _))|].
  apply rtc_once. pose proof (t_tick demo_mccfg false false (last + gcTick) last [cid 1] (mc2, []) eq_refl demo_visits) as H.
  by rewrite E in H.
Qed.

Lemma demo_gc_idle : rtc (timed_step demo_mccfg false false) (gc_init 0 (Some demo_db) (Some demo_pool) None)
  (demo_gc (105 * Second) (90 * Second)).
Proof.
  etrans; [exact demo_gc_start|]. do 6 (etrans; [apply demo_gc_tick; vm_compute; reflexivity|]).
 
  apply rtc_once. apply (t_pass _ _ _ (90 * Second) (105 * Second) (90 * Second) true (mc2, []));
    [by apply Z.leb_le|intros _; by apply Z.leb_le].
Qed.

(** After 105 seconds the session is still in the table; the tick then due removes it. *)
Example gc_timely_witness :
  105 * Second - 0 <= 105 * Second ∧ sessions (gc_tick (105 * Second) [cid 1] (mc2, [])).1 !! cid 1 ≠ Some 0%nat.
Proof.
  destruct (gc_timely demo_mccfg false false 0 (Some demo_db) (Some demo_pool) None (demo_gc (105 * Second) (90 * Second))
    [cid 1] demo_gc_idle eq_refl demo_visits) as (Hmax & Htick & _). split.
  - apply (Hmax (cid 1) 0%nat demo_session); vm_compute; reflexivity.
  - change (g_now (demo_gc (105 * Second) (90 * Second))) with (105 * Second) in Htick.
    destruct (gc_tick (105 * Second) [cid 1] (mc2, [])) as [m' ts'] eqn:E. cbn [fst].
    destruct Htick as (Hs & _). intros Hin. apply Hs in Hin as [_ Hn]. apply Hn. exists demo_session.
    split; [vm_compute; reflexivity|]. split; [reflexivity|]. unfold Second. vm_compute. reflexivity.
Defined.

(** A kernel that opens descriptor 7 whenever asked. *)
Definition demo_kopen (w : unit) : sysres Z * unit := (Done 7, w).
Definition demo_kioctl (_ : Z) (_ : ioctlReq) (w : unit) : sysres (list byte) * unit := (Done (bytes_of "phose0"), w).

Definition demo_events : list loopEvent := [EvAccept "10.0.0.1:4000" [] [] 1000; EvAcceptErr 0 true; EvAcceptDone].

(** One connection is admitted before the server is stopped. *)
Example multiClientLoop_lifecycle_witness :
  live (multiClientLoop demoNew demoAllowN demo_kopen demo_kioctl demo_mccfg 2 (λ _, true) demo_events (tt, [])).1.2.2 = live [].
Proof.
  pose proof (multiClientLoop_lifecycle demoNew demoAllowN demo_kopen demo_kioctl demo_mccfg 2 (λ _, true) demo_events (tt, [])) as H.
  assert ((multiClientLoop demoNew demoAllowN demo_kopen demo_kioctl demo_mccfg 2 (λ _, true) demo_events (tt, [])).1.1.1 = CtxEnded) as E
    by (vm_compute; reflexivity).
  destruct (multiClientLoop _ _ _ _ _ _ _ _ _) as [[[res acts] s'] up]. cbn [fst snd] in E |- *. subst res.
  apply H; [lia| |discriminate]. split; [by vm_compute|]. split; [apply enumerates_empty|]. split; [apply enumerates_empty|exact I].
Defined.
