(* ===== verification/ServerRun.v ===== *)
(** * server.go, tproxy_listen_linux.go: what [Run] brings up and takes down

    [Server.Run] as a whole: the nftables rules, the transparent proxy's sockets and
    the listening socket are brought up in this order, the mode is set up, the server
    serves beside the metrics server, and the deferred functions run in reverse on every
    return.  Opening a socket and serving are arguments, and so are the connections the
    proxy has when [Run] returns; the commands are those of [Nft]. *)

From S2P Require Import Prelude Netip Users Keys NetipText AddrText IPPool RateLimit Config YamlConfig Nft Tproxy Relay GoIO Obfs LaneCrypto Lane Handshake Supervisor Server.

Inductive sockState : Type := SNone | SOpen | SClosed.

Definition close_sock (s : sockState) : sockState := match s with SNone => SNone | _ => SClosed end.

(** The proxy's listener: its two sockets and the [closed] channel, the connections its
    [handleTCP] goroutines relay, and its UDP flows. *)
Record tpListener : Type := mkTL {
  tl_cfg : TPROXYConfig;
  tcpLn : sockState;
  udpPC : sockState;
  tl_closed : bool;
  tl_relays : list relay;
  tl_flows : udpState
}.

Definition newListener (c : TPROXYConfig) : tpListener := mkTL (NewTPROXYListener c) SNone SNone false [] udp_init.

Inductive tpError : Type := ETcpListen | EUdpListen.

(** [tcp] and [udp]: whether the sockets can be opened (and armed). *)
Definition tp_Start (tcp udp : bool) (t : tpListener) : option tpError * tpListener :=
  if negb (tp_Enabled (tl_cfg t)) then (None, t)
  else if negb tcp then (Some ETcpListen, t)
  else if negb udp then (Some EUdpListen, mkTL (tl_cfg t) SClosed (udpPC t) (tl_closed t) (tl_relays t) (tl_flows t))
  else (None, mkTL (tl_cfg t) SOpen SOpen (tl_closed t) (tl_relays t) (tl_flows t)).

(** Every reply pump sees the [closed] channel, leaves and shuts its flow down. *)
Definition stop_pumps (u : udpState) : udpState :=
  fold_left (λ u p, flow_shutdown p (pump_exit p u)) (seq 0 (length (flowHeap u))) u.

(** The wait is for the two accept loops and the reply pumps.  The goroutines of
    [handleTCP] are not in the wait group, and nothing closes their connections. *)
Definition tp_Stop (t : tpListener) : tpListener :=
  if negb (tp_Enabled (tl_cfg t)) then t
  else mkTL (tl_cfg t) (close_sock (tcpLn t)) (close_sock (udpPC t)) true (tl_relays t) (stop_pumps (tl_flows t)).

Inductive runError : Type :=
| ENFTInstaller (e : nftNewError)
| ENFTReconcile (e : nftError)
| ETproxyStart (e : tpError)
| EListen
| ESetup (e : serverError)
| EServed.                                      (* the serving loop returned *)

Section run.
Context (quote : string → string).
Context {W : Type} (exec : cmd → W → option (string * string) * W).
Context `{NoiseIK}.

(** What a run meets: the outcomes of the system calls of the startup, and what the proxy
    relays, over TCP and UDP, when the run ends. *)
Record bringUp : Type := mkUp {
  nft_found : bool; tcp_ok : bool; udp_ok : bool; listen_ok : bool;
  px_relays : list relay; px_flows : udpState
}.

(** What is up: the commands run so far, the installer to remove, the proxy, the
    listening socket, and the metrics server with its address and whether it was given a
    source of byte counters. *)
Record runState : Type := mkRun {
  r_os : W * list cmd;
  r_nft : option NFTConfig;
  r_tproxy : option tpListener;
  r_ln : sockState;
  r_metrics : option (string * bool)
}.

(** A listener with what its accept loops have come to. *)
Definition tp_serving (up : bringUp) (t : tpListener) : tpListener :=
  mkTL (tl_cfg t) (tcpLn t) (udpPC t) (tl_closed t) (px_relays up) (px_flows up).

(** The deferred functions, last first.  None of them stops the metrics server, which
    runs until the context is done. *)
Definition run_defers (up : bringUp) (s : runState) : runState :=
  mkRun (match r_nft s with Some n => (Remove exec n (r_os s)).2 | None => r_os s end)
    (r_nft s) ((λ t, tp_Stop (tp_serving up t)) <$> r_tproxy s) (close_sock (r_ln s)) (r_metrics s).

Definition up_nft (cfg : ServerConfig) (up : bringUp) (s : runState) : option runError * runState :=
  if nft_Enabled (NFT cfg) then
    match NewNFTInstaller (nft_found up) (NFT cfg) with
    | Ok n =>
        match Reconcile quote exec n (r_os s) with
        | (Some e, os) => (Some (ENFTReconcile e), mkRun os (r_nft s) (r_tproxy s) (r_ln s) (r_metrics s))
        | (None, os) => (None, mkRun os (Some n) (r_tproxy s) (r_ln s) (r_metrics s))
        end
    | Err e => (Some (ENFTInstaller e), s)
    | Panic => (None, s)
    end
  else (None, s).

(** A listener whose start fails is not kept. *)
Definition up_tproxy (cfg : ServerConfig) (up : bringUp) (s : runState) : option runError * runState :=
  if tp_Enabled (TPROXY cfg) then
    match tp_Start (tcp_ok up) (udp_ok up) (newListener (TPROXY cfg)) with
    | (Some e, _) => (Some (ETproxyStart e), s)
    | (None, t) => (None, mkRun (r_os s) (r_nft s) (Some t) (r_ln s) (r_metrics s))
    end
  else (None, s).

Definition up_listen (up : bringUp) (s : runState) : option runError * runState :=
  if listen_ok up then (None, mkRun (r_os s) (r_nft s) (r_tproxy s) SOpen (r_metrics s)) else (Some EListen, s).

(** The metrics server, where an address is configured. *)
Definition metrics_of (cfg : ServerConfig) (installed : bool) : option (string * bool) :=
  if bool_decide (MetricsAddr cfg = EmptyString) then None else Some (MetricsAddr cfg, installed && nft_Accounting (NFT cfg)).

Definition up_metrics (cfg : ServerConfig) (s : runState) : runState :=
  mkRun (r_os s) (r_nft s) (r_tproxy s) (r_ln s) (metrics_of cfg (bool_decide (is_Some (r_nft s)))).

(** [Run]; [served] sees what is up while the server serves. *)
Definition Run (srv : Server) (up : bringUp) (os : W * list cmd)
    : runError * option (serverMode * runState) * runState :=
  let s := mkRun os None None SNone None in
  match up_nft (sv_cfg srv) up s with
  | (Some e, s) => (e, None, run_defers up s)
  | (None, s) =>
      match up_tproxy (sv_cfg srv) up s with
      | (Some e, s) => (e, None, run_defers up s)
      | (None, s) =>
          match up_listen up s with
          | (Some e, s) => (e, None, run_defers up s)
          | (None, s) =>
              let s := up_metrics (sv_cfg srv) s in
              match server_setup srv with
              | Ok mode => (EServed, Some (mode, s), run_defers up s)
              | Err e => (ESetup e, None, run_defers up s)
              | Panic => (EServed, None, run_defers up s)
              end
          end
      end
  end.

(** ** What is up, and that it comes down *)

(** An error before the metrics server was started. *)
Definition early (e : runError) : bool := match e with ESetup _ | EServed => false | _ => true end.

Definition down (t : tpListener) : Prop := tcpLn t ≠ SOpen ∧ udpPC t ≠ SOpen.

Lemma stop_pumps_closed l u :
  let u' := fold_left (λ u p, flow_shutdown p (pump_exit p u)) l u in
  length (flowHeap u') = length (flowHeap u) ∧
  ∀ p f, flowHeap u' !! p = Some f → p ∈ l ∨ (∃ f0, flowHeap u !! p = Some f0 ∧ f_closed f0 = true) → f_closed f = true.
Proof.
  revert u. induction l as [|q l IH]; intros u; cbn [fold_left].
  - split; [done|]. intros p f Hf [[]%not_elem_of_nil|(f0 & Hf0 & Hc)]. congruence.
  - assert (flowHeap (pump_exit q u) = flowHeap u) as Eh
      by (unfold pump_exit; destruct (flowHeap u !! q); [|done]; by case_bool_decide).
    destruct (IH (flow_shutdown q (pump_exit q u))) as [El Hc]. cbn [flow_shutdown upd_flow flowHeap] in El, Hc.
    rewrite Eh, length_alter in El. rewrite Eh in Hc. split; [done|]. intros p f Hf Hp. apply (Hc p f Hf).
    destruct (lookup_lt_is_Some_2 (flowHeap u) p) as [f1 Hf1]; [rewrite <-El; by eapply lookup_lt_Some|].
    destruct (decide (p = q)) as [->|Hne].
    + right. rewrite list_lookup_alter_eq, Hf1. by eexists.
    + rewrite list_lookup_alter_ne by done. rewrite elem_of_cons in Hp. destruct Hp as [[?|?]|Hp]; [done|by left|by right].
Qed.

(** A failed start leaves no socket open; a successful one has both open. *)
Lemma tp_Start_spec c tcp udp :
  let t := mkTL c SNone SNone false [] udp_init in
  tp_Enabled c = true →
  match tp_Start tcp udp t with
  | (Some _, t') => down t'
  | (None, t') => t' = mkTL c SOpen SOpen false [] udp_init
  end.
Proof. intros t He. unfold tp_Start, t. cbn. rewrite He. by destruct tcp, udp. Qed.

(** While it serves: the rules are installed, the proxy and the socket are open. *)
Definition all_up (cfg : ServerConfig) (up : bringUp) (os : W * list cmd) (s : runState) : Prop :=
  r_ln s = SOpen ∧
  (if nft_Enabled (NFT cfg) then
     ∃ n, NewNFTInstaller (nft_found up) (NFT cfg) = Ok n ∧ r_nft s = Some n ∧ Reconcile quote exec n os = (None, r_os s)
   else r_nft s = None ∧ r_os s = os) ∧
  (if tp_Enabled (TPROXY cfg) then r_tproxy s = Some (mkTL (NewTPROXYListener (TPROXY cfg)) SOpen SOpen false [] udp_init)
   else r_tproxy s = None) ∧
  r_metrics s = metrics_of cfg (nft_Enabled (NFT cfg)).

(** After it returned: no listening socket is open, the proxy's UDP flows are shut down and
    its TCP connections as they were, and where the rules were installed the last
    commands are those that remove them. *)
Definition all_down (up : bringUp) (s : runState) : Prop :=
  r_ln s ≠ SOpen ∧
  (∀ t, r_tproxy s = Some t →
     down t ∧ Forall (λ f, f_closed f = true) (flowHeap (tl_flows t)) ∧ tl_relays t = px_relays up) ∧
  (∀ n, r_nft s = Some n → ∃ before, (r_os s).2 = before ++ when (nft_TPROXY n) (routing "del" n) ++ [CNft (removeScript n)]).

Definition nft_on (s : runState) : Prop := ∀ n, r_nft s = Some n → nft_Enabled n = true.

(** A listener that is not enabled has opened nothing. *)
Definition tp_wf (s : runState) : Prop := ∀ t, r_tproxy s = Some t → tp_Enabled (tl_cfg t) = true.

Lemma run_defers_down up s : nft_on s → tp_wf s → all_down up (run_defers up s).
Proof.
  intros Hn Ht. unfold run_defers, all_down. cbn. split_and!.
  - by destruct (r_ln s).
  - intros t (t0 & Ht0 & ->)%fmap_Some. unfold tp_Stop. cbn [tp_serving tl_cfg]. rewrite (Ht t0 Ht0). cbn [negb].
    split; [|split; [|done]].
    { unfold down. cbn. by destruct (tcpLn t0), (udpPC t0). }
    apply Forall_lookup. intros p f Hf. cbn [tl_flows] in Hf.
    destruct (stop_pumps_closed (seq 0 (length (flowHeap (px_flows up)))) (px_flows up)) as [El Hc].
    apply (Hc p f Hf). left. apply elem_of_seq. split; [lia|]. rewrite Nat.add_0_l, <-El. by eapply lookup_lt_Some.
  - intros n Hs. rewrite Hs. exists (r_os s).2. by apply Remove_trace, Hn.
Qed.

Lemma NewNFTInstaller_enabled found c n : NewNFTInstaller found c = Ok n → nft_Enabled n = nft_Enabled c.
Proof.
  unfold NewNFTInstaller. destruct (nft_Enabled c) eqn:E; cbn [negb]; [|by intros [= <-]].
  destruct found; [|done]. by intros [= <-].
Qed.

Lemma up_nft_spec cfg up os :
  let '(e, s) := up_nft cfg up (mkRun os None None SNone None) in
  nft_on s ∧ r_metrics s = None ∧ r_tproxy s = None ∧ r_ln s = SNone ∧
  match e with
  | None => if nft_Enabled (NFT cfg) then
              ∃ n, NewNFTInstaller (nft_found up) (NFT cfg) = Ok n ∧ r_nft s = Some n ∧ Reconcile quote exec n os = (None, r_os s)
            else r_nft s = None ∧ r_os s = os
  | Some e => r_nft s = None ∧ nft_Enabled (NFT cfg) = true ∧ early e = true
  end.
Proof.
  unfold up_nft. destruct (nft_Enabled (NFT cfg)) eqn:E; [|by split_and!].
  destruct (NewNFTInstaller (nft_found up) (NFT cfg)) as [n|e|] eqn:Hn; cycle 1.
  { by split_and!. }
  { exfalso. unfold NewNFTInstaller in Hn. rewrite E in Hn. cbn in Hn. by destruct (nft_found up). }
  cbn [r_os r_nft r_tproxy r_ln r_metrics]. destruct (Reconcile quote exec n os) as [[e|] os'] eqn:Hr; split_and!; try done.
  - intros n' [= <-]. by rewrite (NewNFTInstaller_enabled _ _ _ Hn).
  - by exists n.
Qed.

Lemma up_tproxy_spec cfg up s :
  nft_on s → r_tproxy s = None →
  let '(e, s') := up_tproxy cfg up s in
  nft_on s' ∧ tp_wf s' ∧ r_metrics s' = r_metrics s ∧ r_nft s' = r_nft s ∧ r_os s' = r_os s ∧ r_ln s' = r_ln s ∧
  (e = None → if tp_Enabled (TPROXY cfg) then r_tproxy s' = Some (mkTL (NewTPROXYListener (TPROXY cfg)) SOpen SOpen false [] udp_init)
              else r_tproxy s' = None) ∧
  (∀ er, e = Some er → early er = true).
Proof.
  intros Hn Ht. unfold up_tproxy. assert (tp_wf s) as Hw by (intros t; by rewrite Ht).
  destruct (tp_Enabled (TPROXY cfg)) eqn:E; [|by split_and!].
  assert (tp_Enabled (NewTPROXYListener (TPROXY cfg)) = true) as E' by (unfold NewTPROXYListener; rewrite E; done).
  pose proof (tp_Start_spec (NewTPROXYListener (TPROXY cfg)) (tcp_ok up) (udp_ok up) E') as Hs.
  destruct (tp_Start _ _ _) as [[e|] t]; [split_and!; try done; by intros ? [= <-]|]. subst t.
  split_and!; try done. intros t [= <-]. exact E'.
Qed.

(** C24: What [Run] brings up and takes down.  It serves only with the rules installed,
    the proxy's two sockets and the listening socket open, the mode set up, and the metrics
    server running where one is configured, with the byte counters of the rules; however it
    returns, from any failure on the way or from serving, none of these three listening
    sockets is left open, every UDP flow of the proxy is shut down, and when the rules had
    been installed the last commands are those removing the routing rules and the table.
    Not everything goes: the TCP connections the proxy is relaying are left exactly as
    they are, neither closed nor waited for, and the metrics server goes on listening until
    the caller's context is done, also after a set-up error.  (The tunnel's own connections
    belong to the serving loops; [ServerPool] says which of them stay open.) *)
Theorem Run_releases srv up os :
  let '(e, served, s) := Run srv up os in
  all_down up s ∧ (e ≠ EServed → served = None) ∧
  (∀ mode s1, served = Some (mode, s1) →
     server_setup srv = Ok mode ∧ all_up (sv_cfg srv) up os s1 ∧ s = run_defers up s1) ∧
  r_metrics s = (if early e then None else metrics_of (sv_cfg srv) (nft_Enabled (NFT (sv_cfg srv)))) ∧
  (∀ err t, tp_Start (tcp_ok up) (udp_ok up) (newListener (TPROXY (sv_cfg srv))) = (Some err, t) → down t).
Proof.
  assert (∀ err t, tp_Start (tcp_ok up) (udp_ok up) (newListener (TPROXY (sv_cfg srv)))
     = (Some err, t) → down t) as Hstart.
  { intros err t. unfold tp_Start. cbn. destruct (tp_Enabled _), (tcp_ok up), (udp_ok up); by intros [= <- <-]. }
  unfold Run. pose proof (up_nft_spec (sv_cfg srv) up os) as H1.
  destruct (up_nft _ up _) as [[e|] s1]; destruct H1 as (Hn & Hm & Ht & Hl & H1).
  { destruct H1 as (_ & _ & ->). split_and!; try done. apply run_defers_down; [done|intros t; by rewrite Ht]. }
  pose proof (up_tproxy_spec (sv_cfg srv) up s1 Hn Ht) as H2.
  destruct (up_tproxy _ up s1) as [e2 s2]. destruct H2 as (Hn2 & Hw2 & Em & En & Eo & El & H2 & He).
  destruct e2 as [e|].
  { rewrite (He e eq_refl). split_and!; try done; [by apply run_defers_down|]. cbn. congruence. }
  specialize (H2 eq_refl). unfold up_listen.
  destruct (listen_ok up); [|split_and!; try done; [by apply run_defers_down|cbn; congruence]].
  set (s3 := up_metrics _ _). assert (all_down up (run_defers up s3)) as Hd by by apply run_defers_down.
  assert (r_metrics s3 = metrics_of (sv_cfg srv) (nft_Enabled (NFT (sv_cfg srv)))) as Hmet.
  { cbn. f_equal. rewrite En. destruct (nft_Enabled (NFT (sv_cfg srv))).
    - destruct H1 as (n & _ & -> & _). by apply bool_decide_eq_true_2.
    - destruct H1 as [-> _]. by apply bool_decide_eq_false_2; intros [? [=]]. }
  destruct (server_setup srv) as [mode|e|]; split_and!; try done.
  intros m s' [= <- <-]. split; [done|]. split; [|done]. split_and!; [done| |done|done]. cbn. by rewrite En, Eo.
Qed.

End run.

(** A run that serves with the rules installed. *)
Definition sample_tproxy_server : ServerConfig :=
  mkServerCfg "0.0.0.0:443" 1 [mkPIO false None false] [] [] [] CipherAESGCM EmptyString EmptyString
    demo_cfg false PrefixZero PrefixZero AddrZero AddrZero EmptyString false 0
    (mkNFT true EmptyString EmptyString EmptyString true true EmptyString true 0 0 0 true false AddrZero AddrZero false
       PrefixZero PrefixZero)
    (mkTPROXY true EmptyString 0 0 true PrefixZero PrefixZero AddrZero AddrZero).

#[local] Existing Instance demo_obfs.
#[local] Existing Instance toy_noise.

(** A relay and a flow of the proxy when the run ends. *)
Definition sample_relay : relay := relay_init (Relay.demo_conn [x01]) (Relay.demo_conn []).
Definition sample_flows : udpState :=
  mkUDP [mkFlow (mkAP (Addr4 [# x0a; x42; x00; x05]) 8080) (mkAP (Addr4 [# x08; x08; x08; x08]) 53) 7 x00 false] ∅ None [] [].

Example Run_sample :
  let '(_, served, s) := Run id (λ _ w, (None, w)) (mkServer sample_tproxy_server None None)
                           (mkUp true true true true [sample_relay] sample_flows) (tt, []) in
  (∃ m s1, served = Some (m, s1) ∧ r_ln s1 = SOpen) ∧ r_ln s = SClosed ∧ length (r_os s).2 = 9%nat ∧
  (λ t, (tl_relays t, f_closed <$> flowHeap (tl_flows t))) <$> r_tproxy s = Some ([sample_relay], [true]).
Proof. vm_compute. split; [eexists _, _; split; reflexivity|done]. Qed.
