(* ===== verification/Cli.v ===== *)
(** * cmd/packethose/main.go: from the command line to the configurations

    The assembly of both configurations from flags, key files and the YAML file, the
    reload on SIGHUP, and what the client does with an assignment.  Reading a file,
    decoding YAML and opening the device are arguments; [log.Fatal] is an error. *)

From Stdlib Require Import Strings.Byte.
From S2P Require Import Prelude Netip Users Keys NetipText GoText RateLimit Config YamlConfig IPPool GoIO Obfs LaneCrypto Lane Handshake Supervisor Server Congestion.

Record commonFlags : Type := mkCommon {
  cf_tun : string;
  cf_lanes : Z;
  cf_key : string;
  cf_peerKey : string;
  cf_mptcp : bool;
  cf_vnetHdr : bool;
  cf_encrypt : string;
  cf_brutalMbps : Z
}.

(** The defaults of [bindCommon]. *)
Definition bindCommon : commonFlags := mkCommon "ph0" 4 EmptyString EmptyString false true "aes-gcm" 0.

Record serverFlags : Type := mkServerFlags {
  sf_common : commonFlags;
  sf_listen : string;
  sf_allow : string;
  sf_subnet : string;
  sf_serverIP : string;
  sf_subnet6 : string;
  sf_serverIP6 : string;
  sf_tunPrefix : string;
  sf_configPath : string;
  sf_metricsAddr : string
}.

Record clientFlags : Type := mkClientFlags {
  lf_common : commonFlags;
  lf_peer : string;
  lf_reqIP : string;
  lf_reqIP6 : string;
  lf_autoIP : bool
}.

Inductive cliError : Type :=
| EKeyFile (path : string)
| EKey (e : keyError)
| ECipher (e : string)
| ESubnetFlag | EServerIPFlag | ESubnet6Flag | EServerIP6Flag
| ELoadConfig (path : string)
| EApply (e : yamlError)
| EOpenTUN
| ENewServer (e : serverError)
| EPeerFlag | ERequestIP | ERequestIP6.

(** The empty document. *)
Definition emptyFile : FileConfig :=
  mkFileCfg EmptyString 0 false EmptyString None None EmptyString EmptyString EmptyString EmptyString
    (mkBrutal false 0) (mkPoolCfg EmptyString EmptyString EmptyString EmptyString) []
    (mkRateFile false (SpecFloat.S754_zero false) 0 0 0)
    (mkForward false false false false 0 0 0 EmptyString EmptyString)
    (mkNFTFile None EmptyString EmptyString) (mkTPROXYFile None EmptyString 0 EmptyString 0 None).

Section cli.

(** [os.ReadFile]; the YAML decoder; opening the device. *)
Context (readFile : string → option (list byte)).
Context (decodeYAML : list byte → option FileConfig).
Context (openTUN : string → Z → bool → option (list PacketIO)).

Definition LoadFile (path : string) : result cliError FileConfig :=
  if bool_decide (path = EmptyString) then Ok emptyFile
  else match readFile path with
       | None => Err (ELoadConfig path)
       | Some b => match decodeYAML b with None => Err (ELoadConfig path) | Some fc => Ok fc end
       end.

(** ** Keys *)

Definition readKeyArg (s : string) : result cliError string :=
  match s with
  | String c path =>
      if bool_decide (Ascii.byte_of_ascii c = "@"%byte) then
        match readFile path with
        | None => Err (EKeyFile path)
        | Some b => Ok (string_of (TrimSpace b))
        end
      else Ok s
  | EmptyString => Ok s
  end.

Definition parseKey (s : string) : result cliError (list byte) :=
  if bool_decide (s = EmptyString) then Ok []
  else
    let? text := readKeyArg s in
    match ParseKey text with
    | Ok b => Ok b
    | Err e => Err (EKey e)
    | Panic => Panic
    end.

(** ** Tuners *)

Definition brutalTuner (mbps : Z) : option tuner :=
  if mbps <=? 0 then None else Some (TBrutal (wrap 64 (wrap 64 mbps * 1000000) / 8) 0).

Definition server_tunes (f : serverFlags) (fc : FileConfig) : list tuner :=
  (if WantBBR fc then [TBBR] else []) ++
  match brutalTuner (cf_brutalMbps (sf_common f)) with
  | Some t => [t]
  | None =>
      if br_Enabled (Brutal fc) && (0 <? RateMbps (Brutal fc))
      then match brutalTuner (RateMbps (Brutal fc)) with Some t => [t] | None => [] end
      else []
  end.

Definition client_tunes (f : clientFlags) : list tuner :=
  TBBR :: match brutalTuner (cf_brutalMbps (lf_common f)) with Some t => [t] | None => [] end.

(** ** The server *)

(** One of the two subnet flags with its server address. *)
Definition subnet_flag (fam : Addr → bool) (e1 e2 : cliError) (subnet ip : string) : result cliError (Prefix * Addr) :=
  if bool_decide (subnet = EmptyString) then Ok (PrefixZero, AddrZero)
  else match ParsePrefix subnet with
       | None => Err e1
       | Some p => match ParseAddr ip with
                   | None => Err e2
                   | Some a => if negb (fam a) then Err e2 else Ok (p, a)
                   end
       end.

Definition lift_cipher (r : result string Cipher) : result cliError Cipher :=
  match r with Ok c => Ok c | Err e => Err (ECipher e) | Panic => Panic end.

Definition zero_rate : RateLimitConfig := mkRateCfg (SpecFloat.S754_zero false) 0 0 0 false.

(** The configuration of the flags alone. *)
Definition flags_config (f : serverFlags) : result cliError ServerConfig :=
  let cf := sf_common f in
  let? cipher := lift_cipher (ParseCipher (cf_encrypt cf)) in
  let? key := parseKey (cf_key cf) in
  let? peer := parseKey (cf_peerKey cf) in
  let? s4 := subnet_flag Is4 ESubnetFlag EServerIPFlag (sf_subnet f) (sf_serverIP f) in
  let? s6 := subnet_flag Is6 ESubnet6Flag EServerIP6Flag (sf_subnet6 f) (sf_serverIP6 f) in
  Ok (mkServerCfg (sf_listen f) 0 [] key peer [] cipher (sf_allow f) (sf_metricsAddr f) zero_rate (cf_mptcp cf)
        s4.1 s6.1 s4.2 s6.2 (sf_tunPrefix f) false 0 zeroNFT zeroTPROXY).

(** The defaults and, in single-client mode, the opened device. *)
Definition finish_config (f : serverFlags) (c : ServerConfig) : result cliError ServerConfig :=
  let cf := sf_common f in
  let listen := if bool_decide (Listen c = EmptyString) then "0.0.0.0:4500"%string else Listen c in
  let tun := if bool_decide (TUNName c = EmptyString) then "phose0"%string else TUNName c in
  let build lanes queues vnet :=
    mkServerCfg listen lanes queues (StaticPrivateKey c) (PeerPublicKey c) (cfg_Users c) (cfg_Cipher c) (AllowIP c)
      (MetricsAddr c) (RateLimit c) (sv_MPTCP c) (Subnet c) (Subnet6 c) (ServerIP c) (ServerIP6 c) tun vnet
      (SharedTUNQueues c) (NFT c) (TPROXY c) in
  let multiClient := negb (bool_decide (sf_subnet f = EmptyString)) || negb (bool_decide (sf_subnet6 f = EmptyString))
                     || (pfx_IsValid (Subnet c) || pfx_IsValid (Subnet6 c)) in
  if negb multiClient then
    match openTUN (cf_tun cf) (cf_lanes cf) (cf_vnetHdr cf) with
    | None => Err EOpenTUN
    | Some queues => Ok (build (cf_lanes cf) queues (sv_VnetHdr c))
    end
  else Ok (build (Lanes c) (Queues c) (if negb (sv_VnetHdr c) then cf_vnetHdr cf else sv_VnetHdr c)).

Definition lift_apply (r : result yamlError ServerConfig) : result cliError ServerConfig :=
  match r with Ok c => Ok c | Err e => Err (EApply e) | Panic => Panic end.

(** [runServer], up to [NewServer]. *)
Definition server_config (f : serverFlags) : result cliError (ServerConfig * list tuner) :=
  let? cfg := flags_config f in
  let? fc := LoadFile (sf_configPath f) in
  let? cfg := lift_apply (ApplyServer fc cfg) in
  let? cfg := finish_config f cfg in
  Ok (cfg, server_tunes f fc).

Definition start_server (f : serverFlags) : result cliError (Server * list tuner) :=
  let? r := server_config f in
  match NewServer r.1 with
  | Ok s => Ok (s, r.2)
  | Err e => Err (ENewServer e)
  | Panic => Panic
  end.

(** SIGHUP: any failure is logged and leaves the server as it is. *)
Definition reload (configPath : string) (s : Server) : Server :=
  match LoadFile configPath with
  | Ok fc => match ToUsers fc with
             | Ok users => (ReloadUsers users s).2
             | _ => s
             end
  | _ => s
  end.

(** ** The client *)

Definition request_ip (fam : Addr → bool) (e : cliError) (s : string) : result cliError Addr :=
  if bool_decide (s = EmptyString) then Ok AddrZero
  else match ParseAddr s with
       | None => Err e
       | Some a => if negb (fam a) then Err e else Ok a
       end.

(** [runClient], up to [NewClient]. *)
Definition client_config (f : clientFlags) : result cliError (ClientConfig * list tuner) :=
  let cf := lf_common f in
  if bool_decide (lf_peer f = EmptyString) then Err EPeerFlag
  else
    let? cipher := lift_cipher (ParseCipher (cf_encrypt cf)) in
    match openTUN (cf_tun cf) (cf_lanes cf) (cf_vnetHdr cf) with
    | None => Err EOpenTUN
    | Some queues =>
        let? req4 := request_ip Is4 ERequestIP (lf_reqIP f) in
        let? req6 := request_ip Is6 ERequestIP6 (lf_reqIP6 f) in
        let? key := parseKey (cf_key cf) in
        let? peer := parseKey (cf_peerKey cf) in
        Ok (mkClientCfg (lf_peer f) (cf_lanes cf) queues key peer cipher req4 req6, client_tunes f)
    end.

(** The commands of the [--auto-ip] callback, each of which is run whatever the
    others return. *)
Definition OnAssigned (ifname : string) (a : Assignment) : list (list string) :=
  [["ip"; "link"; "set"; ifname; "up"]%string]
  ++ (if HasV4 a then
        [["ip"%string; "addr"%string; "replace"%string; Addr_String (a_V4Addr a) +:+ "/" +:+ dec (b2z (a_V4Prefix a)); "dev"%string; ifname]]
      else [])
  ++ (if HasV6 a then
        [["ip"%string; "-6"%string; "addr"%string; "replace"%string; Addr_String (a_V6Addr a) +:+ "/" +:+ dec (b2z (a_V6Prefix a)); "dev"%string; ifname]]
      else []).

(** ** What the command line establishes *)

Lemma parseKey_ok s k : parseKey s = Ok k → key_ok k.
Proof.
  unfold parseKey. case_bool_decide; [intros [= <-]; by left|]. intros (t & _ & H2)%rbind_Ok.
  pose proof (ParseKey_spec t) as Ht. destruct (ParseKey t) as [b| |]; [|done..]. injection H2 as <-.
  destruct (bool_decide (t = EmptyString)); [by left|by right].
Qed.

Lemma subnet_flag_Ok fam e1 e2 sn ip p a :
  subnet_flag fam e1 e2 sn ip = Ok (p, a) →
  prefix_wf p ∧ (IsValid a = true → fam a = true) ∧ (sn ≠ EmptyString → pfx_IsValid p = true ∧ fam a = true).
Proof.
  unfold subnet_flag. case_bool_decide as Hs; [intros [= <- <-]; by split_and!|].
  destruct (ParsePrefix sn) as [q|] eqn:Hq; [|done]. destruct (ParseAddr ip) as [b|]; [|done].
  destruct (fam b) eqn:Hf; [|done]. intros [= <- <-]. apply ParsePrefix_valid in Hq as Hv. naive_solver.
Qed.

Lemma flags_config_Ok f c :
  flags_config f = Ok c →
  parsed c ∧ (sf_subnet f ≠ EmptyString → pfx_IsValid (Subnet c) = true) ∧
  (sf_subnet6 f ≠ EmptyString → pfx_IsValid (Subnet6 c) = true) ∧
  ParseCipher (cf_encrypt (sf_common f)) = Ok (cfg_Cipher c).
Proof.
  unfold flags_config. intros (ciph & Hc & (key & Hk & (peer & Hp & ([p4 a4] & H4 & ([p6 a6] & H6 & H)%rbind_Ok)%rbind_Ok)%rbind_Ok)%rbind_Ok)%rbind_Ok.
  injection H as <-. cbn [fst snd Subnet Subnet6 cfg_Cipher] in *.
  destruct (subnet_flag_Ok _ _ _ _ _ _ _ H4) as (W4 & F4 & V4), (subnet_flag_Ok _ _ _ _ _ _ _ H6) as (W6 & F6 & V6).
  split; [split; cbn; eauto using parseKey_ok|]. split_and!; [naive_solver..|].
  unfold lift_cipher in Hc. by destruct (ParseCipher _); simplify_eq.
Qed.

(** A valid subnet of the flags stays one, whatever the file says. *)
Lemma overlay_subnet fc c c' : overlay fc c c' →
  (pfx_IsValid (Subnet c) = true → pfx_IsValid (Subnet c') = true) ∧
  (pfx_IsValid (Subnet6 c) = true → pfx_IsValid (Subnet6 c') = true).
Proof.
  intros Hov. destruct (pick_prefix_Ok _ _ _ _ (ov_subnet _ _ _ Hov)) as (A & B & _).
  destruct (pick_prefix_Ok _ _ _ _ (ov_subnet6 _ _ _ Hov)) as (A6 & B6 & _). split; intros Hv.
  - destruct (decide (V4Subnet (Pool fc) = EmptyString)) as [E|E]; [by rewrite (B E)|by eapply ParsePrefix_valid, A].
  - destruct (decide (V6Subnet (Pool fc) = EmptyString)) as [E|E]; [by rewrite (B6 E)|by eapply ParsePrefix_valid, A6].
Qed.

(** The mode chosen is the one validation and startup see. *)
Lemma finish_config_Ok f c c' :
  (sf_subnet f ≠ EmptyString → pfx_IsValid (Subnet c) = true) →
  (sf_subnet6 f ≠ EmptyString → pfx_IsValid (Subnet6 c) = true) →
  finish_config f c = Ok c' → parsed c →
  parsed c' ∧ Listen c' ≠ EmptyString ∧ TUNName c' ≠ EmptyString ∧ cfg_Cipher c' = cfg_Cipher c ∧
  StaticPrivateKey c' = StaticPrivateKey c ∧ cfg_Users c' = cfg_Users c ∧
  (multi_client c' = false →
     openTUN (cf_tun (sf_common f)) (cf_lanes (sf_common f)) (cf_vnetHdr (sf_common f)) = Some (Queues c') ∧
     Lanes c' = cf_lanes (sf_common f)).
Proof.
  intros Hs4 Hs6 H [Hk Hp H4 H6 Hi Hi6]. unfold finish_config in H.
  assert (negb (bool_decide (sf_subnet f = EmptyString)) || negb (bool_decide (sf_subnet6 f = EmptyString))
          || (pfx_IsValid (Subnet c) || pfx_IsValid (Subnet6 c)) = multi_client c) as Hm.
  { fold (multi_client c). destruct (multi_client c) eqn:E; [by rewrite orb_true_r|]. unfold multi_client in E.
    apply orb_false_iff in E as [E4 E6]. rewrite orb_false_r. repeat case_bool_decide; cbn; naive_solver. }
  rewrite Hm in H. clear Hm. destruct (multi_client c) eqn:Em; cbn [negb] in H.
  - injection H as <-. split; [by split|]. split_and!; cbn; try done; [by case_bool_decide..|].
    unfold multi_client in *. cbn. by rewrite Em.
  - destruct (openTUN _ _ _) as [qs|] eqn:Ho; [|done]. injection H as <-.
    split; [by split|]. split_and!; cbn; try done; by case_bool_decide.
Qed.

(** The parts of a successful [server_config]. *)
Lemma server_config_parts f cfg tunes :
  server_config f = Ok (cfg, tunes) →
  ∃ c0 fc c1, flags_config f = Ok c0 ∧ LoadFile (sf_configPath f) = Ok fc ∧ overlay fc c0 c1 ∧
    finish_config f c1 = Ok cfg ∧ tunes = server_tunes f fc.
Proof.
  unfold server_config. intros (c0 & H0 & (fc & Hf & (c1 & H1 & (c2 & H2 & H)%rbind_Ok)%rbind_Ok)%rbind_Ok)%rbind_Ok.
  injection H as <- <-. unfold lift_apply in H1. destruct (ApplyServer fc c0) as [c1'| |] eqn:Ha; [|done..].
  injection H1 as <-. exists c0, fc, c1'. split_and!; try done. by apply ApplyServer_overlay.
Qed.

(** Device opening returns one queue per lane. *)
Definition opens_lanes : Prop := ∀ name lanes vnet qs,
  openTUN name lanes vnet = Some qs → 1 <= lanes ∧ Z.of_nat (length qs) = lanes.

(** C25: The configuration the command line starts a server with.  Keys, subnets and
    addresses are well formed, listen address and device name are set, and the mode is
    multi-client exactly when validation sees a subnet; so validation accepts every
    single-client configuration, and refuses a multi-client one only for a missing key,
    a missing peer or user, or a server address outside its subnet.  A cipher flag
    other than none, such as the default, decides the cipher whatever the file says. *)
Theorem server_config_wf f cfg tunes :
  opens_lanes → server_config f = Ok (cfg, tunes) →
  parsed cfg ∧ Listen cfg ≠ EmptyString ∧ TUNName cfg ≠ EmptyString ∧
  (multi_client cfg = false → ServerConfig_Validate cfg = None) ∧
  (multi_client cfg = true → ServerConfig_Validate cfg = None ↔
     StaticPrivateKey cfg ≠ [] ∧ has_auth cfg ∧
     (pfx_IsValid (Subnet cfg) = true → Contains (Subnet cfg) (ServerIP cfg) = true) ∧
     (pfx_IsValid (Subnet6 cfg) = true → Contains (Subnet6 cfg) (ServerIP6 cfg) = true)) ∧
  (∀ c, ParseCipher (cf_encrypt (sf_common f)) = Ok c → c ≠ CipherNone → cfg_Cipher cfg = c).
Proof.
  intros Hopen (c0 & fc & c1 & H0 & Hf & Hov & H1 & ->)%server_config_parts.
  destruct (flags_config_Ok _ _ H0) as (Hp0 & Hs4 & Hs6 & Hc0). destruct (overlay_subnet _ _ _ Hov) as [Ho4 Ho6].
  pose proof (ApplyServer_parsed _ _ _ Hp0 Hov) as Hp1.
  destruct (finish_config_Ok f c1 cfg ltac:(auto) ltac:(auto) H1 Hp1) as (Hp & HL & HT & Hc & _ & _ & Hsingle).
  pose proof (parsed_server_ok cfg Hp) as Hok. unfold complete in Hok. rewrite <-ServerConfig_Validate_ok in Hok.
  split_and!; [done..| | |].
  - intros Hm. rewrite Hm in Hok. apply Hok. split; [done|]. destruct (Hsingle Hm) as [Hq ->]. by eapply Hopen.
  - intros Hm. rewrite Hm in Hok. rewrite Hok. naive_solver.
  - intros c Hcc Hne. rewrite Hc. pose proof (ov_cipher _ _ _ Hov) as Hov'. rewrite Hcc in Hc0. injection Hc0 as Hc0. rewrite <-Hc0 in Hov'.
    rewrite bool_decide_eq_false_2 in Hov' by done. by injection Hov'.
Qed.

(** A key flag that names a blank file is no key. *)
Lemma parseKey_blank path b : readFile path = Some b → is_blank_text b →
  parseKey ("@" +:+ path) = Ok [].
Proof.
  intros Hr Hb. unfold parseKey. rewrite bool_decide_eq_false_2 by done. unfold readKeyArg.
  change ("@" +:+ path) with (String (Ascii.ascii_of_byte "@"%byte) path). cbv iota beta.
  rewrite bool_decide_eq_true_2 by done. rewrite Hr. cbn [rbind]. by rewrite TrimSpace_blank.
Qed.


(** A reload changes nothing but the current user database, and that only to the
    database of a file that decodes completely. *)
Lemma reload_correct path s :
  sv_cfg (reload path s) = sv_cfg s ∧ sv_users (reload path s) = sv_users s ∧
  (sv_userDB (reload path s) = sv_userDB s ∨
   ∃ fc us db, LoadFile path = Ok fc ∧ Forall2 decoded (fc_Users fc) us ∧ NewUserDB us = Ok db ∧
     sv_userDB (reload path s) = Some db).
Proof.
  unfold reload. destruct (LoadFile path) as [fc| |] eqn:Hf; [|by auto..].
  pose proof (to_users_spec 0 (fc_Users fc)) as Hu. unfold ToUsers.
  destruct (to_users 0 (fc_Users fc)) as [us| |]; [|by auto..]. unfold ReloadUsers.
  destruct (NewUserDB us) as [db| |] eqn:Hdb; cbn [snd]; [|by auto..]. split_and!; [done..|]. right. by exists fc, us, db.
Qed.

(** The client's configuration validates exactly when it has both keys or neither. *)
Lemma client_config_wf f c tunes : opens_lanes → client_config f = Ok (c, tunes) →
  ClientConfig_Validate c = None ↔ (cl_StaticPrivateKey c = [] ↔ cl_PeerPublicKey c = []).
Proof.
  intros Hopen. unfold client_config. case_bool_decide as Hp; [done|].
  intros (ciph & _ & H)%rbind_Ok. destruct (openTUN _ _ _) as [qs|] eqn:Ho; [|done].
  apply rbind_Ok in H as (r4 & _ & (r6 & _ & (k & Hk & (p & Hpk & H)%rbind_Ok)%rbind_Ok)%rbind_Ok).
  injection H as <- <-. apply parseKey_ok in Hk, Hpk. rewrite ClientConfig_Validate_ok. cbn. split.
  - intros [_ _ Hkeys]. cbn in Hkeys. destruct Hkeys as [[-> ->]|[H1 H2]]; [done|]. by destruct k, p.
  - intros Hiff. split; cbn; [done|by eapply Hopen|]. destruct Hk as [->|Hk], Hpk as [->|Hpk]; auto.
    + left. split; [done|]. by apply Hiff.
    + left. split; [|done]. by apply Hiff.
Qed.

End cli.

(** ** Witnesses *)

Definition sample_openTUN (name : string) (lanes : Z) (vnet : bool) : option (list PacketIO) :=
  if lanes <? 1 then None else Some (replicate (Z.to_nat lanes) (mkPIO vnet (Some false) true)).

Lemma sample_opens_lanes : opens_lanes sample_openTUN.
Proof.
  intros name lanes vnet qs. unfold sample_openTUN. destruct (Z.ltb_spec lanes 1); [done|]. intros [= <-].
  rewrite length_replicate. lia.
Qed.

(** A key file with only a newline in it, and no configuration file. *)
Definition sample_readFile (path : string) : option (list byte) :=
  if bool_decide (path = "key"%string) then Some [x0a] else None.

Definition sample_flags : serverFlags :=
  mkServerFlags (mkCommon "ph0" 4 "@key" EmptyString false true "aes-gcm" 0)
    EmptyString EmptyString EmptyString EmptyString EmptyString EmptyString EmptyString EmptyString EmptyString.

Definition sample_server_cfg : ServerConfig :=
  match server_config sample_readFile (λ _, None) sample_openTUN sample_flags with
  | Ok r => r.1 | _ => YamlConfig.demo_cli end.

Definition sample_server : Server := mkServer sample_server_cfg None None.

Example server_config_wf_witness :
  Listen sample_server_cfg = "0.0.0.0:4500"%string ∧ ServerConfig_Validate sample_server_cfg = None
  ∧ cfg_Cipher sample_server_cfg = CipherAESGCM.
Proof.
  destruct (server_config_wf sample_readFile (λ _, None) sample_openTUN sample_flags sample_server_cfg [TBBR]
    sample_opens_lanes ltac:(vm_compute; reflexivity)) as (_ & _ & _ & Hv & _ & Hc).
  split; [vm_compute; reflexivity|]. split; [apply Hv; vm_compute; reflexivity|].
  apply Hc; [vm_compute; reflexivity|discriminate].
Defined.

#[local] Existing Instance demo_obfs.
#[local] Existing Instance toy_noise.

