(* ===== verification/SockTune.v ===== *)
(** * lane.go, tproxy_listen_linux.go: the options of the outer and the relayed sockets

    What [tuneSocket] and the [TuneSocket] hook of the command line do to the socket of a
    lane, and what [tuneTCP] and the dialer's control function do to the sockets the proxy
    relays.  The kernel's answers to the options are arguments. *)

From Stdlib Require Import Strings.Byte.
From S2P Require Import Prelude Netip Users Keys GoText RateLimit Config YamlConfig Tproxy Congestion Relay TproxyUdp Cli.

Definition o_SO_KEEPALIVE : optId := mkOpt 1 9.
Definition o_TCP_NODELAY : optId := mkOpt 6 1.
Definition o_TCP_KEEPIDLE : optId := mkOpt 6 4.
Definition o_TCP_KEEPINTVL : optId := mkOpt 6 5.
Definition o_TCP_KEEPCNT : optId := mkOpt 6 6.

Definition sockBufSz : Z := Z.shiftl 32 20.

(** A connection: its congestion control and its integer options. *)
Record netConn : Type := mkNC { nc_sock : sock; nc_opts : optMap }.

Section tune.

(** The kernel's answers, the readable list of congestion controls, and whether
    [SyscallConn] and [RawConn.Control] work. *)
Context (answerInt : optId → option Z) (answerCC : sockOpt → option Z) (allowed : option (list byte)) (raw ctl : bool).

Definition with_opts (l : list (optId * Z)) (c : netConn) : netConn := mkNC (nc_sock c) (set_all answerInt l (nc_opts c)).

(** [SetNoDelay], [SetKeepAlive], and [SetKeepAlivePeriod], which sets the interval and
    then, unless that failed, the idle time. *)
Definition keep_alive (secs : Z) (c : netConn) : netConn :=
  let c := with_opts [(o_TCP_NODELAY, 1); (o_SO_KEEPALIVE, 1)] c in
  match answerInt o_TCP_KEEPINTVL with
  | Some _ => c
  | None => with_opts [(o_TCP_KEEPINTVL, secs); (o_TCP_KEEPIDLE, secs)] c
  end.

Definition conn_BBR (c : netConn) : netConn := mkNC (applyBBR answerCC allowed (nc_sock c)).2 (nc_opts c).

Definition tuneSocket (c : netConn) : netConn :=
  if negb (is_tcp (nc_sock c)) then c
  else
    let c := keep_alive 15 c in
    if negb raw then c
    else
      let c := if ctl then with_opts [(o_SO_SNDBUF, sockBufSz); (o_SO_RCVBUF, sockBufSz); (o_TCP_KEEPIDLE, 15);
                                      (o_TCP_KEEPINTVL, 5); (o_TCP_KEEPCNT, 3)] c else c in
      conn_BBR c.

(** The head of [runLane]: the built-in tuning, then the configured hook. *)
Definition lane_tune (tunes : list tuner) (c : netConn) : netConn :=
  let c := tuneSocket c in
  match composeTuners answerCC allowed tunes with
  | None => c
  | Some extraTune => mkNC (extraTune (nc_sock c)) (nc_opts c)
  end.

Definition tuneTCP (c : netConn) : netConn :=
  if negb (is_tcp (nc_sock c)) then c else conn_BBR (keep_alive 30 c).

(** The control function of [tunedTCPDialer], on the socket before it connects. *)
Definition dialer_control (c : netConn) : netConn :=
  if negb ctl then c
  else
    let c := if bbrAvailable allowed then mkNC (setsockopt answerCC (TCP_CONGESTION "bbr") (nc_sock c)).2 (nc_opts c) else c in
    with_opts [(o_TCP_FASTOPEN_CONNECT, 1)] c.

End tune.

(** ** The congestion control of a lane *)

Definition all_taken {O} (answer : O → option Z) : Prop := ∀ o, answer o = None.

Section lemmas.

Context (answerCC : sockOpt → option Z) (allowed : option (list byte)) (Htaken : all_taken answerCC).

Lemma tcp_BBR s : is_tcp s = true →
  (applyBBR answerCC allowed s).2 = if bbrAvailable allowed then mkSock true "bbr" (brutal s) else s.
Proof.
  intros Ht. unfold applyBBR, setsockopt. destruct (bbrAvailable allowed); [|done]. rewrite Ht, Htaken. done.
Qed.

Lemma tcp_brutal rate gain s : is_tcp s = true →
  (SetBrutalRate answerCC rate gain s).2 =
  mkSock true "brutal" (Some (brutal_params rate (if gain =? 0 then DefaultBrutalCwndGain else gain))).
Proof. intros Ht. unfold SetBrutalRate, setsockopt. rewrite Ht. cbn [negb]. by rewrite !Htaken. Qed.

Lemma composed_tuners tunes s :
  match composeTuners answerCC allowed tunes with None => s | Some f => f s end = foldl (λ s t, run_tuner answerCC allowed t s) s tunes.
Proof. by destruct tunes as [|t [|t' tunes]]. Qed.

End lemmas.

Lemma set_all_app answer l1 l2 s : set_all answer (l1 ++ l2) s = set_all answer l2 (set_all answer l1 s).
Proof. unfold set_all. apply foldl_app. Qed.

(** A taken option that is not set again keeps its value. *)
Lemma set_all_lookup answer l s o :
  all_taken answer → set_all answer l s !! o = default (s !! o) (Some <$> last (omap (λ '(o', v), if decide (o' = o) then Some v else None) l)).
Proof.
  intros Ha. induction l as [|[o' v] l IH] using rev_ind; [done|]. rewrite set_all_app, omap_app. cbn [set_all foldl].
  unfold SetsockoptInt. rewrite Ha. cbn [snd omap list_omap]. destruct (decide (o' = o)) as [->|Hne].
  - by rewrite lookup_insert_eq, last_snoc.
  - by rewrite lookup_insert_ne, app_nil_r by done.
Qed.

(** The hook of the server and of the client: tcp-brutal, where a rate is configured. *)
Definition server_rate (f : serverFlags) (fc : FileConfig) : option Z :=
  if 0 <? cf_brutalMbps (sf_common f) then Some (cf_brutalMbps (sf_common f))
  else if br_Enabled (Brutal fc) && (0 <? RateMbps (Brutal fc)) then Some (RateMbps (Brutal fc)) else None.

(** Bytes per second of a rate in Mbit/s, as 64-bit words. *)
Definition rate_bytes (mbps : Z) : Z := wrap 64 (wrap 64 mbps * 1000000) / 8.

Lemma brutalTuner_rate mbps : brutalTuner mbps = if 0 <? mbps then Some (TBrutal (rate_bytes mbps) 0) else None.
Proof. unfold brutalTuner, rate_bytes. by destruct (Z.leb_spec mbps 0), (Z.ltb_spec 0 mbps); try lia. Qed.

Lemma server_tunes_rate f fc :
  server_tunes f fc = (if WantBBR fc then [TBBR] else []) ++
    match server_rate f fc with Some mbps => [TBrutal (rate_bytes mbps) 0] | None => [] end.
Proof.
  unfold server_tunes, server_rate. f_equal. rewrite !brutalTuner_rate. destruct (0 <? cf_brutalMbps _); [done|].
  destruct (br_Enabled (Brutal fc)); [|done]. by destruct (0 <? RateMbps (Brutal fc)).
Qed.

(** The options of a lane's socket that the kernel takes. *)
Lemma tuneSocket_opts answerInt answerCC allowed c : all_taken answerInt → is_tcp (nc_sock c) = true →
  let o := nc_opts (tuneSocket answerInt answerCC allowed true true c) in
  o !! o_TCP_NODELAY = Some 1 ∧ o !! o_SO_KEEPALIVE = Some 1 ∧ o !! o_TCP_KEEPIDLE = Some 15 ∧ o !! o_TCP_KEEPINTVL = Some 5 ∧
  o !! o_TCP_KEEPCNT = Some 3 ∧ o !! o_SO_SNDBUF = Some sockBufSz ∧ o !! o_SO_RCVBUF = Some sockBufSz.
Proof.
  intros Ha Ht o. unfold o, tuneSocket, keep_alive, conn_BBR, with_opts. rewrite Ht, (Ha o_TCP_KEEPINTVL). cbn [negb nc_opts].
  split_and!; rewrite !set_all_lookup by done; reflexivity.
Qed.

Lemma tuneSocket_cc answerInt answerCC allowed c : all_taken answerCC → is_tcp (nc_sock c) = true →
  nc_sock (tuneSocket answerInt answerCC allowed true true c) =
    if bbrAvailable allowed then mkSock true "bbr" (brutal (nc_sock c)) else nc_sock c.
Proof.
  intros Ha Ht. unfold tuneSocket, keep_alive, conn_BBR, with_opts. rewrite Ht. cbn [negb].
  destruct (answerInt o_TCP_KEEPINTVL); cbn [nc_sock]; by apply tcp_BBR.
Qed.

Lemma rate_bytes_exact mbps : 0 < mbps < 2 ^ 64 / 1000000 → rate_bytes mbps = mbps * 125000.
Proof.
  intros Hm. change (2 ^ 64 / 1000000) with 18446744073709 in Hm. unfold rate_bytes.
  rewrite !wrap_small by (change (2 ^ 64) with 18446744073709551616; rewrite ?wrap_small; change (2 ^ 64) with 18446744073709551616; lia). replace (mbps * 1000000) with (mbps * 125000 * 8) by lia. apply Z.div_mul. lia.
Qed.

Lemma server_rate_pos f fc mbps : server_rate f fc = Some mbps → 0 < mbps.
Proof.
  unfold server_rate. destruct (Z.ltb_spec 0 (cf_brutalMbps (sf_common f))); [by intros [= <-]|].
  destruct (br_Enabled (Brutal fc)); [|done]. destruct (Z.ltb_spec 0 (RateMbps (Brutal fc))); [by intros [= <-]|done].
Qed.

(** The tuned socket after the hook: asking for BBR again changes nothing. *)
Lemma lane_tune_sock answerInt answerCC allowed f fc c : all_taken answerCC → is_tcp (nc_sock c) = true →
  nc_sock (lane_tune answerInt answerCC allowed true true (server_tunes f fc) c) =
  let s := nc_sock (tuneSocket answerInt answerCC allowed true true c) in
  match server_rate f fc with Some mbps => (SetBrutalRate answerCC (rate_bytes mbps) 0 s).2 | None => s end.
Proof.
  intros Hc Ht. pose proof (tuneSocket_cc answerInt answerCC allowed c Hc Ht) as Hs. unfold lane_tune. cbv zeta.
  set (c1 := tuneSocket _ _ _ _ _ c) in *.
  transitivity (foldl (λ s t, run_tuner answerCC allowed t s) (nc_sock c1) (server_tunes f fc)).
  { rewrite <-composed_tuners. by destruct (composeTuners answerCC allowed (server_tunes f fc)). }
  rewrite server_tunes_rate, foldl_app.
  assert (foldl (λ s t, run_tuner answerCC allowed t s) (nc_sock c1) (if WantBBR fc then [TBBR] else []) = nc_sock c1) as ->.
  { destruct (WantBBR fc); [|done]. cbn [foldl run_tuner]. rewrite Hs, tcp_BBR by (done || by destruct (bbrAvailable allowed)).
    by destruct (bbrAvailable allowed). }
  by destruct (server_rate f fc).
Qed.

(** C28: The socket of a lane, where the kernel takes its options.  It has no delay,
    keepalive after 15 seconds with 3 probes 5 seconds apart, and 32 MiB buffers.  A
    configured rate, the command line's before the file's, puts it on tcp-brutal with that
    rate in bytes per second.  Otherwise it runs BBR whenever the host offers it, also with
    [bbr: false] in the configuration file: the lane's own tuning applies BBR without
    asking for the setting. *)
Theorem lane_congestion answerInt answerCC allowed f fc c :
  all_taken answerInt → all_taken answerCC → is_tcp (nc_sock c) = true →
  let c' := lane_tune answerInt answerCC allowed true true (server_tunes f fc) c in
  (nc_opts c' !! o_TCP_NODELAY = Some 1 ∧ nc_opts c' !! o_SO_KEEPALIVE = Some 1 ∧
   nc_opts c' !! o_TCP_KEEPIDLE = Some 15 ∧ nc_opts c' !! o_TCP_KEEPINTVL = Some 5 ∧ nc_opts c' !! o_TCP_KEEPCNT = Some 3 ∧
   nc_opts c' !! o_SO_SNDBUF = Some sockBufSz ∧ nc_opts c' !! o_SO_RCVBUF = Some sockBufSz) ∧
  match server_rate f fc with
  | Some mbps =>
      cc (nc_sock c') = "brutal"%string ∧ brutal (nc_sock c') = Some (brutal_params (rate_bytes mbps) DefaultBrutalCwndGain) ∧
      (mbps < 2 ^ 64 / 1000000 → rate_bytes mbps = mbps * 125000)
  | None => cc (nc_sock c') = if bbrAvailable allowed then "bbr"%string else cc (nc_sock c)
  end.
Proof.
  intros Hi Hc Ht c'. split.
  { pose proof (tuneSocket_opts answerInt answerCC allowed c Hi Ht) as Ho. unfold c', lane_tune.
    by destruct (composeTuners answerCC allowed (server_tunes f fc)). }
  unfold c'. rewrite lane_tune_sock, tuneSocket_cc by done. cbv zeta.
  destruct (server_rate f fc) as [mbps|] eqn:Hr; [|by destruct (bbrAvailable allowed)].
  rewrite tcp_brutal by (done || by destruct (bbrAvailable allowed)). split_and!; [done..|].
  intros Hm. apply rate_bytes_exact. split; [by eapply server_rate_pos|done].
Qed.

(** A file that turns BBR off, on a host that offers it. *)
Definition no_bbr_file : FileConfig :=
  mkFileCfg EmptyString 0 false EmptyString (Some false) None EmptyString EmptyString EmptyString EmptyString
    (Brutal emptyFile) (Pool emptyFile) [] (fc_RateLimit emptyFile) (Forward emptyFile) (fc_NFT emptyFile) (fc_TPROXY emptyFile).

Lemma lane_congestion_witness :
  WantBBR no_bbr_file = false ∧
  cc (nc_sock (lane_tune (λ _, None) (λ _, None) (Some (bytes_of "reno cubic bbr")) true true
    (server_tunes sample_flags no_bbr_file) (mkNC (mkSock true "cubic" None) ∅))) = "bbr"%string.
Proof.
  split; [reflexivity|].
  exact (proj2 (lane_congestion (λ _, None) (λ _, None) (Some (bytes_of "reno cubic bbr")) sample_flags no_bbr_file
    (mkNC (mkSock true "cubic" None) ∅) ltac:(done) ltac:(done) eq_refl)).
Defined.

(** ** The sockets of the proxy *)

(** Neither the accepted nor the dialed socket gets a buffer size: the kernel's
    auto-tuning stays in charge.  Both run BBR where the host offers it, the dialed one from
    its first segment. *)
Lemma relayed_sockets answerInt answerCC allowed c : all_taken answerInt → all_taken answerCC → is_tcp (nc_sock c) = true →
  let accepted := tuneTCP answerInt answerCC allowed c in
  let dialing := dialer_control answerInt answerCC allowed true c in
  let dialed := tuneTCP answerInt answerCC allowed dialing in
  (∀ o, o = o_SO_SNDBUF ∨ o = o_SO_RCVBUF → nc_opts accepted !! o = nc_opts c !! o ∧ nc_opts dialed !! o = nc_opts c !! o) ∧
  (∀ c', c' = accepted ∨ c' = dialed → nc_opts c' !! o_SO_KEEPALIVE = Some 1 ∧ nc_opts c' !! o_TCP_KEEPIDLE = Some 30) ∧
  nc_opts dialed !! o_TCP_FASTOPEN_CONNECT = Some 1 ∧
  (bbrAvailable allowed = true → Forall (λ c', cc (nc_sock c') = "bbr"%string) [accepted; dialing; dialed]).
Proof.
  intros Hi Hc Ht accepted dialing dialed.
  assert (∀ c', is_tcp (nc_sock c') = true → nc_opts (tuneTCP answerInt answerCC allowed c') =
    set_all answerInt [(o_TCP_NODELAY, 1); (o_SO_KEEPALIVE, 1); (o_TCP_KEEPINTVL, 30); (o_TCP_KEEPIDLE, 30)] (nc_opts c')) as Ho.
  { intros c' Ht'. unfold tuneTCP, keep_alive. rewrite Ht', (Hi o_TCP_KEEPINTVL). done. }
  assert (∀ c', is_tcp (nc_sock c') = true → bbrAvailable allowed = true → cc (nc_sock (tuneTCP answerInt answerCC allowed c')) = "bbr"%string) as Hb.
  { intros c' Ht' Ha. unfold tuneTCP, keep_alive, conn_BBR. rewrite Ht', (Hi o_TCP_KEEPINTVL). cbn [negb nc_sock with_opts].
    by rewrite tcp_BBR, Ha by done. }
  assert (is_tcp (nc_sock dialing) = true) as Htd.
  { unfold dialing, dialer_control, setsockopt. cbn [negb]. rewrite Hc. by destruct (bbrAvailable allowed). }
  assert (nc_opts dialing = set_all answerInt [(o_TCP_FASTOPEN_CONNECT, 1)] (nc_opts c)) as Hd.
  { unfold dialing, dialer_control. cbn [negb]. by destruct (bbrAvailable allowed). }
  unfold dialed, accepted. split_and!.
  - intros o [-> | ->]; rewrite !Ho, Hd, !set_all_lookup by done; done.
  - intros c' [-> | ->]; rewrite Ho, !set_all_lookup by done; done.
  - rewrite Ho, Hd, !set_all_lookup by done. done.
  - intros Ha. repeat constructor; [by apply Hb| |by apply Hb]. unfold dialing, dialer_control, setsockopt. by rewrite Ha, Hc.
Qed.
