(* ===== verification/CliMain.v ===== *)
(** * cmd/packethose/main.go: the command line as a whole

    The flag sets of the two long-running commands over package flag ([GoFlag]), the key
    commands, and [main]: from the argument list to the exit, to the printed key, or to a
    server or client that runs.  What a command does once its configuration stands is in
    [Cli], [ServerRun] and [Supervisor]; the system is an argument as there. *)

From Stdlib Require Import Strings.Byte.
From S2P Require Import Prelude Netip Users Keys NetipText AddrText GoText GoFlag RateLimit Config YamlConfig Nft GoIO Obfs LaneCrypto Lane IPPool Handshake MultiClient Supervisor Server Tunnel ServerRun Congestion Cli.

(** ** The flag sets *)

Definition commonFlagDefs {C} (on : (commonFlags → commonFlags) → C → C) : list (flagDef C) := [
  StringVar "tun" (λ v, on (λ c, mkCommon v (cf_lanes c) (cf_key c) (cf_peerKey c) (cf_mptcp c) (cf_vnetHdr c) (cf_encrypt c) (cf_brutalMbps c)));
  IntVar "lanes" (λ v, on (λ c, mkCommon (cf_tun c) v (cf_key c) (cf_peerKey c) (cf_mptcp c) (cf_vnetHdr c) (cf_encrypt c) (cf_brutalMbps c)));
  StringVar "key" (λ v, on (λ c, mkCommon (cf_tun c) (cf_lanes c) v (cf_peerKey c) (cf_mptcp c) (cf_vnetHdr c) (cf_encrypt c) (cf_brutalMbps c)));
  StringVar "peer-key" (λ v, on (λ c, mkCommon (cf_tun c) (cf_lanes c) (cf_key c) v (cf_mptcp c) (cf_vnetHdr c) (cf_encrypt c) (cf_brutalMbps c)));
  BoolVar "mptcp" (λ v, on (λ c, mkCommon (cf_tun c) (cf_lanes c) (cf_key c) (cf_peerKey c) v (cf_vnetHdr c) (cf_encrypt c) (cf_brutalMbps c)));
  BoolVar "vnet_hdr" (λ v, on (λ c, mkCommon (cf_tun c) (cf_lanes c) (cf_key c) (cf_peerKey c) (cf_mptcp c) v (cf_encrypt c) (cf_brutalMbps c)));
  StringVar "encrypt" (λ v, on (λ c, mkCommon (cf_tun c) (cf_lanes c) (cf_key c) (cf_peerKey c) (cf_mptcp c) (cf_vnetHdr c) v (cf_brutalMbps c)));
  IntVar "brutal_mbps" (λ v, on (λ c, mkCommon (cf_tun c) (cf_lanes c) (cf_key c) (cf_peerKey c) (cf_mptcp c) (cf_vnetHdr c) (cf_encrypt c) v)) ].

Definition on_server (f : commonFlags → commonFlags) (s : serverFlags) : serverFlags :=
  mkServerFlags (f (sf_common s)) (sf_listen s) (sf_allow s) (sf_subnet s) (sf_serverIP s) (sf_subnet6 s) (sf_serverIP6 s)
    (sf_tunPrefix s) (sf_configPath s) (sf_metricsAddr s).

Definition serverFlagSet : list (flagDef serverFlags) := commonFlagDefs on_server ++ [
  StringVar "listen" (λ v s, mkServerFlags (sf_common s) v (sf_allow s) (sf_subnet s) (sf_serverIP s) (sf_subnet6 s) (sf_serverIP6 s) (sf_tunPrefix s) (sf_configPath s) (sf_metricsAddr s));
  StringVar "allow" (λ v s, mkServerFlags (sf_common s) (sf_listen s) v (sf_subnet s) (sf_serverIP s) (sf_subnet6 s) (sf_serverIP6 s) (sf_tunPrefix s) (sf_configPath s) (sf_metricsAddr s));
  StringVar "metrics" (λ v s, mkServerFlags (sf_common s) (sf_listen s) (sf_allow s) (sf_subnet s) (sf_serverIP s) (sf_subnet6 s) (sf_serverIP6 s) (sf_tunPrefix s) (sf_configPath s) v);
  StringVar "subnet" (λ v s, mkServerFlags (sf_common s) (sf_listen s) (sf_allow s) v (sf_serverIP s) (sf_subnet6 s) (sf_serverIP6 s) (sf_tunPrefix s) (sf_configPath s) (sf_metricsAddr s));
  StringVar "server-ip" (λ v s, mkServerFlags (sf_common s) (sf_listen s) (sf_allow s) (sf_subnet s) v (sf_subnet6 s) (sf_serverIP6 s) (sf_tunPrefix s) (sf_configPath s) (sf_metricsAddr s));
  StringVar "subnet6" (λ v s, mkServerFlags (sf_common s) (sf_listen s) (sf_allow s) (sf_subnet s) (sf_serverIP s) v (sf_serverIP6 s) (sf_tunPrefix s) (sf_configPath s) (sf_metricsAddr s));
  StringVar "server-ip6" (λ v s, mkServerFlags (sf_common s) (sf_listen s) (sf_allow s) (sf_subnet s) (sf_serverIP s) (sf_subnet6 s) v (sf_tunPrefix s) (sf_configPath s) (sf_metricsAddr s));
  StringVar "tun-name" (λ v s, mkServerFlags (sf_common s) (sf_listen s) (sf_allow s) (sf_subnet s) (sf_serverIP s) (sf_subnet6 s) (sf_serverIP6 s) v (sf_configPath s) (sf_metricsAddr s));
  StringVar "config" (λ v s, mkServerFlags (sf_common s) (sf_listen s) (sf_allow s) (sf_subnet s) (sf_serverIP s) (sf_subnet6 s) (sf_serverIP6 s) (sf_tunPrefix s) v (sf_metricsAddr s)) ].

Definition server_defaults : serverFlags :=
  mkServerFlags bindCommon EmptyString EmptyString EmptyString EmptyString EmptyString EmptyString EmptyString EmptyString EmptyString.

Definition on_client (f : commonFlags → commonFlags) (s : clientFlags) : clientFlags :=
  mkClientFlags (f (lf_common s)) (lf_peer s) (lf_reqIP s) (lf_reqIP6 s) (lf_autoIP s).

Definition clientFlagSet : list (flagDef clientFlags) := commonFlagDefs on_client ++ [
  StringVar "peer" (λ v s, mkClientFlags (lf_common s) v (lf_reqIP s) (lf_reqIP6 s) (lf_autoIP s));
  StringVar "request-ip" (λ v s, mkClientFlags (lf_common s) (lf_peer s) v (lf_reqIP6 s) (lf_autoIP s));
  StringVar "request-ip6" (λ v s, mkClientFlags (lf_common s) (lf_peer s) (lf_reqIP s) v (lf_autoIP s));
  BoolVar "auto-ip" (λ v s, mkClientFlags (lf_common s) (lf_peer s) (lf_reqIP s) (lf_reqIP6 s) v) ].

Definition client_defaults : clientFlags := mkClientFlags bindCommon EmptyString EmptyString EmptyString false.

(** ** The commands *)

Inductive fatalError : Type :=
| FConfig (e : cliError)
| FRun (e : runError)
| FClient (e : clientError)
| FKey (e : keyError)
| FPublic | FStdin | FEntropy.

(** [Exit] is a call of [os.Exit], of [main] or of package flag; [Fatal] is [log.Fatal],
    with status 1; [Panicked] a panic of the code. *)
Inductive outcome : Type :=
| Exit (code : Z)
| Fatal (e : fatalError)
| Printed (line : string)
| ServerExits (srv : Server) (tunes : list tuner) (mode : serverMode)
| ClientExits (cl : Client) (tunes : list tuner) (autoIP : bool) (lanes : list (list supAction * bool))
| Panicked.

Section main.
Context `{ObfsCrypto, NoiseIK}.
Context (readFile : string → option (list byte)) (decodeYAML : list byte → option FileConfig).
Context (openTUN : string → Z → bool → option (list PacketIO)).
Context (quote : string → string) {W : Type} (exec : cmd → W → option (string * string) * W).

(** [key]: the 32 bytes [ecdh.X25519().GenerateKey] drew. *)
Definition GenerateKeypair (key : option (list byte)) : option (list byte * list byte) :=
  (λ k, (k, x25519_public k)) <$> key.

Definition Println (s : string) : outcome := Printed (s +:+ string_of [x0a]).

Definition runGenKey (key : option (list byte)) : outcome :=
  match GenerateKeypair key with
  | None => Fatal FEntropy
  | Some (priv, _) => Println (FormatKey priv)
  end.

Definition runPubKey (stdin : option (list byte)) : outcome :=
  match stdin with
  | None => Fatal FStdin
  | Some b =>
      match ParseKey (string_of (TrimSpace b)) with
      | Err e => Fatal (FKey e)
      | Panic => Panicked
      | Ok priv =>
          match PublicFromPrivate priv with
          | None => Fatal FPublic
          | Some pub => Println (FormatKey pub)
          end
      end
  end.

(** [flag.ExitOnError] *)
Definition flag_exit (e : flagError) : outcome := match e with EHelp => Exit 0 | _ => Exit 2 end.

(** [runServer]; [up] and [os] are the system as [ServerRun.Run] meets it.  The
    arguments after the flags are not looked at. *)
Definition runServer (up : bringUp) (os : W * list cmd) (args : list string) : outcome :=
  match Parse serverFlagSet args server_defaults with
  | Err e => flag_exit e
  | Panic => Panicked
  | Ok (f, _) =>
      match start_server readFile decodeYAML openTUN f with
      | Err e => Fatal (FConfig e)
      | Panic => Panicked
      | Ok (srv, tunes) =>
          match Run quote exec srv up os with
          | (EServed, Some (mode, _), _) => ServerExits srv tunes mode
          | (EServed, None, _) => Panicked
          | (e, _, _) => Fatal (FRun e)
          end
      end
  end.

(** [runClient]; [evs] are the outcomes the lanes meet. *)
Definition runClient (evs : nat → list supEvent) (args : list string) : outcome :=
  match Parse clientFlagSet args client_defaults with
  | Err e => flag_exit e
  | Panic => Panicked
  | Ok (f, _) =>
      match client_config readFile openTUN f with
      | Err e => Fatal (FConfig e)
      | Panic => Panicked
      | Ok (cfg, tunes) =>
          match NewClient cfg with
          | Err e => Fatal (FClient e)
          | Panic => Panicked
          | Ok cl =>
              match client_lanes (cli_cfg cl) evs with
              | None => Panicked
              | Some lanes => ClientExits cl tunes (lf_autoIP f) lanes
              end
          end
      end
  end.

(** What the process is given besides its arguments. *)
Record environment : Type := mkEnv {
  e_key : option (list byte);
  e_stdin : option (list byte);
  e_up : bringUp;
  e_os : W * list cmd;
  e_evs : nat → list supEvent
}.

(** [main], on [os.Args]. *)
Definition main (env : environment) (argv : list string) : outcome :=
  match argv with
  | _ :: mode :: args =>
      if bool_decide (mode = "client"%string) then runClient (e_evs env) args
      else if bool_decide (mode = "server"%string) then runServer (e_up env) (e_os env) args
      else if bool_decide (mode = "genkey"%string) then runGenKey (e_key env)
      else if bool_decide (mode = "pubkey"%string) then runPubKey (e_stdin env)
      else Exit 2
  | _ => Exit 2
  end.

(** ** Flags are read back *)

Definition set_named {C} (fs : list (flagDef C)) (nv : string * string) (c : C) : option C :=
  d ← lookup_flag fs nv.1; flag_set d nv.2 c.

Fixpoint set_all {C} (fs : list (flagDef C)) (nvs : list (string * string)) (c : C) : option C :=
  match nvs with [] => Some c | nv :: nvs' => set_named fs nv c ≫= set_all fs nvs' end.

Definition named_bool {C} (fs : list (flagDef C)) (n : string) : bool :=
  match lookup_flag fs n with Some d => is_bool d | None => false end.

(** Each flag with its value, in the form [st] chooses for it: two dashes or one, an
    equals sign (always for a boolean) or a second argument. *)
Definition render {C} (fs : list (flagDef C)) (st : string → bool * bool) (nvs : list (string * string)) : list string :=
  nvs ≫= λ nv, render_flag (st nv.1).1 ((st nv.1).2 || named_bool fs nv.1) nv.1 nv.2.

Lemma Parse_rendered {C} (fs : list (flagDef C)) st nvs rest c c' :
  Forall (λ nv, name_ok nv.1) nvs → set_all fs nvs c = Some c' →
  Parse fs (render fs st nvs ++ rest) c = Parse fs rest c'.
Proof.
  intros Hn. revert c. induction Hn as [|[n v] nvs Hn _ IH]; intros c; cbn [set_all]; [by intros [= ->]|].
  intros (c1 & (d & Hd & Hs)%bind_Some & Hrest)%bind_Some. cbn [fst snd] in *.
  unfold render. cbn [mbind list_bind]. rewrite <-(assoc_L (++)). erewrite Parse_flag; [by apply IH|done|done|done|].
  unfold named_bool. cbn [fst]. rewrite Hd. destruct (is_bool d); [right; apply orb_true_r|by left].
Qed.

Definition bool_text (b : bool) : string := if b then "true" else "false".

Definition common_texts (c : commonFlags) : list (string * string) :=
  [("tun", cf_tun c); ("lanes", dec (cf_lanes c)); ("key", cf_key c); ("peer-key", cf_peerKey c); ("mptcp", bool_text (cf_mptcp c));
   ("vnet_hdr", bool_text (cf_vnetHdr c)); ("encrypt", cf_encrypt c); ("brutal_mbps", dec (cf_brutalMbps c))]%string.

Definition server_texts (f : serverFlags) : list (string * string) :=
  common_texts (sf_common f) ++
  [("listen", sf_listen f); ("allow", sf_allow f); ("metrics", sf_metricsAddr f); ("subnet", sf_subnet f); ("server-ip", sf_serverIP f);
   ("subnet6", sf_subnet6 f); ("server-ip6", sf_serverIP6 f); ("tun-name", sf_tunPrefix f); ("config", sf_configPath f)]%string.

Definition client_texts (f : clientFlags) : list (string * string) :=
  common_texts (lf_common f) ++
  [("peer", lf_peer f); ("request-ip", lf_reqIP f); ("request-ip6", lf_reqIP6 f); ("auto-ip", bool_text (lf_autoIP f))]%string.

Definition ints_ok (c : commonFlags) : Prop :=
  - 2 ^ 63 <= cf_lanes c < 2 ^ 63 ∧ - 2 ^ 63 <= cf_brutalMbps c < 2 ^ 63.

Definition name_okb (n : string) : bool :=
  match bytes_of n with
  | c :: l => negb (bool_decide (c = "-"%byte)) && negb (bool_decide (c = "="%byte)) && negb (bool_decide ("="%byte ∈ l))
  | [] => false
  end.

Lemma name_okb_ok n : name_okb n = true → name_ok n.
Proof.
  unfold name_okb, name_ok. destruct (bytes_of n) as [|c l]; [done|]. intros H'. bool_to_prop. by exists c, l.
Qed.

Lemma names_ok (nvs : list (string * string)) : forallb name_okb nvs.*1 = true → Forall (λ nv, name_ok nv.1) nvs.
Proof.
  induction nvs as [|[n v] nvs IH]; [done|]. cbn. intros [H1 H2]%andb_true_iff. constructor; [by apply name_okb_ok|by apply IH].
Qed.

Lemma ParseBool_text b : ParseBool (bool_text b) = Some b.
Proof. by destruct b. Qed.

Definition distinct {C} (fs : list (flagDef C)) : Prop := NoDup (flag_name <$> fs).

Lemma lookup_flag_in {C} (fs : list (flagDef C)) d : distinct fs → d ∈ fs → lookup_flag fs (flag_name d) = Some d.
Proof.
  unfold distinct, lookup_flag. intros Hnd Hd. induction fs as [|d' fs IH]; [by apply elem_of_nil in Hd|].
  cbn [fmap list_fmap] in Hnd. apply NoDup_cons in Hnd as [Hn Hnd]. cbn [list_find].
  apply elem_of_cons in Hd as [->|Hd]; [by rewrite decide_True|]. rewrite decide_False.
  - specialize (IH Hnd Hd). destruct (list_find _ fs) as [[i x]|]; [|done]. exact IH.
  - intros E. apply Hn. rewrite E. by apply list_elem_of_fmap_2.
Qed.

Lemma set_string {C} (fs : list (flagDef C)) n v c set :
  distinct fs → StringVar n set ∈ fs → set_named fs (n, v) c = Some (set v c).
Proof. intros Hd Hin. unfold set_named. cbn [fst snd]. by assert (lookup_flag fs n = Some (StringVar n set)) as -> by by apply (lookup_flag_in fs (StringVar n set)). Qed.

Lemma set_int {C} (fs : list (flagDef C)) n z c set :
  distinct fs → IntVar n set ∈ fs → - 2 ^ 63 <= z < 2 ^ 63 → set_named fs (n, dec z) c = Some (set z c).
Proof.
  intros Hd Hin Hz. unfold set_named. cbn [fst snd]. assert (lookup_flag fs n = Some (IntVar n set)) as -> by by apply (lookup_flag_in fs (IntVar n set)).
  cbn [mbind option_bind flag_set]. by rewrite ParseInt0_dec.
Qed.

Lemma set_bool {C} (fs : list (flagDef C)) n b c set :
  distinct fs → BoolVar n set ∈ fs → set_named fs (n, bool_text b) c = Some (set b c).
Proof.
  intros Hd Hin. unfold set_named. cbn [fst snd]. assert (lookup_flag fs n = Some (BoolVar n set)) as -> by by apply (lookup_flag_in fs (BoolVar n set)).
  cbn [mbind option_bind flag_set]. by rewrite ParseBool_text.
Qed.

Lemma serverFlagSet_distinct : distinct serverFlagSet.
Proof. apply (bool_decide_unpack _). vm_compute. exact I. Qed.

Lemma clientFlagSet_distinct : distinct clientFlagSet.
Proof. apply (bool_decide_unpack _). vm_compute. exact I. Qed.

Lemma set_step {C} (fs : list (flagDef C)) nv nvs c c1 c' :
  set_named fs nv c = Some c1 → set_all fs nvs c1 = c' → set_all fs (nv :: nvs) c = c'.
Proof. intros H1 H2. cbn [set_all]. by rewrite H1. Qed.

Ltac find_flag := repeat (apply list_elem_of_here || apply list_elem_of_further).

(** Keeps the flags set so far a record of values. *)
Ltac simpl_flags :=
  cbn [on_server on_client sf_common sf_listen sf_allow sf_subnet sf_serverIP sf_subnet6 sf_serverIP6 sf_tunPrefix sf_configPath
       sf_metricsAddr lf_common lf_peer lf_reqIP lf_reqIP6 lf_autoIP cf_tun cf_lanes cf_key cf_peerKey cf_mptcp cf_vnetHdr
       cf_encrypt cf_brutalMbps server_defaults client_defaults bindCommon app].

(** Sets the flags one by one; [nd] is that their names are distinct. *)
Ltac set_flags nd :=
  simpl_flags;
  repeat (match goal with
          | |- set_all _ ((_, dec _) :: _) _ = _ => eapply set_step; [eapply set_int; [exact nd|find_flag|assumption]|]
          | |- set_all _ ((_, bool_text _) :: _) _ = _ => eapply set_step; [eapply set_bool; [exact nd|find_flag]|]
          | |- set_all _ (_ :: _) _ = _ => eapply set_step; [eapply set_string; [exact nd|find_flag]|]
          end; simpl_flags).

(** Setting every flag of a set gives the flags meant, whatever the defaults. *)
Lemma set_all_server f : ints_ok (sf_common f) → set_all serverFlagSet (server_texts f) server_defaults = Some f.
Proof.
  destruct f as [[tun lanes key peer mptcp vnet enc mbps] l a s4 i4 s6 i6 t c m]. intros [H1 H2].
  unfold server_texts, common_texts. cbn [cf_lanes cf_brutalMbps sf_common app] in *. set_flags serverFlagSet_distinct. reflexivity.
Qed.

Lemma set_all_client f : ints_ok (lf_common f) → set_all clientFlagSet (client_texts f) client_defaults = Some f.
Proof.
  destruct f as [[tun lanes key peer mptcp vnet enc mbps] p r4 r6 auto]. intros [H1 H2].
  unfold client_texts, common_texts. cbn [cf_lanes cf_brutalMbps lf_common app] in *. set_flags clientFlagSet_distinct. reflexivity.
Qed.

(** Arguments at which the flags end. *)
Definition ends_flags (rest : list string) : Prop :=
  match rest with [] => True | x :: _ => arg_form (bytes_of x) = NotFlag end.

Lemma Parse_ends {C} (fs : list (flagDef C)) rest c : ends_flags rest → Parse fs rest c = Ok (c, rest).
Proof. destruct rest; [done|]. apply Parse_stops. Qed.

(** C15: The command line is read back.  Whatever the values of the flags (any strings, any
    64-bit integers), and in whatever of its forms each is given, the server's and the
    client's flag set parse the arguments that spell the values to exactly those values,
    up to the first argument that is not a flag; that one and all that follow it are left
    over. *)
Theorem flags_roundtrip st sf lf rest :
  ints_ok (sf_common sf) → ints_ok (lf_common lf) → ends_flags rest →
  Parse serverFlagSet (render serverFlagSet st (server_texts sf) ++ rest) server_defaults = Ok (sf, rest) ∧
  Parse clientFlagSet (render clientFlagSet st (client_texts lf) ++ rest) client_defaults = Ok (lf, rest).
Proof.
  intros Hs Hl Hr. split.
  - erewrite Parse_rendered; [by apply Parse_ends|apply names_ok; reflexivity|by apply set_all_server].
  - erewrite Parse_rendered; [by apply Parse_ends|apply names_ok; reflexivity|by apply set_all_client].
Qed.

(** ** Keys from the command line *)

Definition line (s : string) : string := s +:+ string_of [x0a].

Lemma FormatKey_line k : k ≠ [] → TrimSpace (bytes_of (line (FormatKey k))) = bytes_of (FormatKey k).
Proof.
  intros Hk. unfold line, FormatKey. rewrite bytes_of_app, !bytes_of_string_of. destruct (b64_encode_text k) as [Ht Hne].
  apply TrimSpace_line; [exact Ht| |apply Forall_singleton; set_solver]. destruct (Hne Hk) as (c & r & -> & _). done.
Qed.

Lemma parseKey_Format k : length k = pubKeyLen → parseKey readFile (FormatKey k) = Ok k.
Proof.
  intros Hl. assert (k ≠ []) as Hk by (intros ->; done). destruct (b64_encode_text k) as [_ Hne].
  destruct (Hne Hk) as (c & r & E & Hat). assert (FormatKey k = String (Ascii.ascii_of_byte c) (string_of r)) as Ef
    by (unfold FormatKey; rewrite E; done).
  unfold parseKey. rewrite bool_decide_eq_false_2 by (rewrite Ef; done).
  assert (readKeyArg readFile (FormatKey k) = Ok (FormatKey k)) as ->.
  { rewrite Ef. cbn [readKeyArg]. by rewrite Ascii.byte_of_ascii_of_byte, bool_decide_eq_false_2. }
  cbn [rbind]. by rewrite ParseKey_Format.
Qed.

(** A key file as [genkey] writes it. *)
Lemma parseKey_file k path : length k = pubKeyLen → readFile path = Some (bytes_of (line (FormatKey k))) →
  parseKey readFile ("@" +:+ path) = Ok k.
Proof.
  intros Hl Hf. unfold parseKey. rewrite bool_decide_eq_false_2 by done. unfold readKeyArg.
  change ("@" +:+ path) with (String (Ascii.ascii_of_byte "@"%byte) path). cbv iota beta.
  rewrite bool_decide_eq_true_2 by done. rewrite Hf. cbn [rbind].
  rewrite FormatKey_line by (intros ->; done). rewrite string_of_bytes_of. by rewrite ParseKey_Format.
Qed.

(** The flags with only keys given. *)
Definition keyed_flags (key peer : string) : commonFlags := mkCommon "ph0" 4 key peer false true "aes-gcm" 0.

Definition keyed_server (key peer : string) : serverFlags :=
  mkServerFlags (keyed_flags key peer) EmptyString EmptyString EmptyString EmptyString EmptyString EmptyString EmptyString EmptyString EmptyString.

Lemma apply_empty c : cfg_Cipher c ≠ CipherNone → NFT c = zeroNFT → TPROXY c = zeroTPROXY →
  ∃ c', ApplyServer emptyFile c = Ok c' ∧ Listen c' = Listen c ∧ StaticPrivateKey c' = StaticPrivateKey c ∧
    PeerPublicKey c' = PeerPublicKey c ∧ cfg_Cipher c' = cfg_Cipher c ∧ cfg_Users c' = cfg_Users c ∧
    Subnet c' = Subnet c ∧ Subnet6 c' = Subnet6 c ∧ nft_Enabled (NFT c') = false ∧ tp_Enabled (TPROXY c') = false.
Proof.
  intros Hc Hn Ht. unfold ApplyServer, pick_key, pick_prefix, pick_addr. rewrite (bool_decide_eq_false_2 (cfg_Cipher c = CipherNone)) by done.
  cbn [emptyFile ServerKey PeerPubKey Pool V4Subnet V6Subnet pc_ServerIP4 pc_ServerIP6].
  rewrite !bool_decide_eq_true_2 by done. cbn [negb]. rewrite !andb_false_r. cbn [rbind].
  eexists. split; [reflexivity|]. cbn. rewrite ?Hn, ?Ht. unfold pick_string. rewrite ?andb_false_r. by split_and!.
Qed.

Lemma finish_single f c qs :
  sf_subnet f = EmptyString → sf_subnet6 f = EmptyString → multi_client c = false →
  openTUN (cf_tun (sf_common f)) (cf_lanes (sf_common f)) (cf_vnetHdr (sf_common f)) = Some qs →
  ∃ c', finish_config openTUN f c = Ok c' ∧ Listen c' ≠ EmptyString ∧ Lanes c' = cf_lanes (sf_common f) ∧ Queues c' = qs ∧
    StaticPrivateKey c' = StaticPrivateKey c ∧ PeerPublicKey c' = PeerPublicKey c ∧ cfg_Cipher c' = cfg_Cipher c ∧
    cfg_Users c' = cfg_Users c ∧ multi_client c' = false ∧ NFT c' = NFT c ∧ TPROXY c' = TPROXY c.
Proof.
  intros H4 H6 Hm Ho. unfold finish_config. fold (multi_client c). rewrite H4, H6, Hm.
  rewrite bool_decide_eq_true_2 by done. cbn [negb orb]. rewrite Ho. eexists. split; [reflexivity|].
  split_and!; try done. cbn. by case_bool_decide.
Qed.

(** A server of the default flags and these keys starts, in single-client mode, with
    neither forwarding rules nor proxy. *)
Lemma start_keyed kt pt key peer qs :
  parseKey readFile kt = Ok key → parseKey readFile pt = Ok peer →
  openTUN "ph0" 4 true = Some qs → length qs = 4%nat → key_ok key →
  ∃ srv tunes, start_server readFile decodeYAML openTUN (keyed_server kt pt) = Ok (srv, tunes) ∧
    NewServer (sv_cfg srv) = Ok srv ∧ StaticPrivateKey (sv_cfg srv) = key ∧ PeerPublicKey (sv_cfg srv) = peer ∧
    cfg_Cipher (sv_cfg srv) = CipherAESGCM ∧ multi_client (sv_cfg srv) = false ∧ sv_userDB srv = None ∧
    nft_Enabled (NFT (sv_cfg srv)) = false ∧ tp_Enabled (TPROXY (sv_cfg srv)) = false.
Proof.
  intros Hk Hp Ho Hq Hok. unfold start_server, server_config.
  assert (∃ c0, flags_config readFile (keyed_server kt pt) = Ok c0 ∧ StaticPrivateKey c0 = key ∧ PeerPublicKey c0 = peer ∧
    cfg_Cipher c0 = CipherAESGCM ∧ cfg_Users c0 = [] ∧ multi_client c0 = false ∧ NFT c0 = zeroNFT ∧ TPROXY c0 = zeroTPROXY)
    as (c0 & -> & Ek & Ep & Ec & Eu & Em & En & Et).
  { unfold flags_config. cbn [keyed_server sf_common keyed_flags cf_encrypt cf_key cf_peerKey]. rewrite Hk, Hp.
    eexists. split; [reflexivity|]. by split_and!. }
  cbn [rbind]. change (LoadFile readFile decodeYAML (sf_configPath (keyed_server kt pt))) with (@Ok cliError _ emptyFile). cbn [rbind].
  destruct (apply_empty c0) as (c1 & -> & _ & Ek1 & Ep1 & Ec1 & Eu1 & E4 & E6 & En1 & Et1); [by rewrite Ec|done|done|].
  cbn [lift_apply rbind].
  destruct (finish_single (keyed_server kt pt) c1 qs) as (c2 & -> & HL & Hl & Hqs & Ek2 & Ep2 & Ec2 & Eu2 & Em2 & En2 & Et2);
    [done|done|unfold multi_client; by rewrite E4, E6|done|]. cbn [rbind fst snd].
  assert (ServerConfig_Validate c2 = None) as Hv.
  { apply ServerConfig_Validate_ok. split; [done|by rewrite Ek2, Ek1, Ek|by rewrite Em2|]. intros _. rewrite Hl, Hqs, Hq. done. }
  assert (NewServer c2 = Ok (mkServer c2 None None)) as Hn by (unfold NewServer; by rewrite Hv, Eu2, Eu1, Eu).
  rewrite Hn. eexists _, _. split; [reflexivity|]. cbn [sv_cfg sv_userDB]. split_and!; congruence.
Qed.

Lemma parse_keyed_server kt pt : Parse serverFlagSet ["--key"; kt; "--peer-key"; pt]%string server_defaults = Ok (keyed_server kt pt, []).
Proof.
  change ["--key"; kt; "--peer-key"; pt]%string with (render serverFlagSet (λ _, (true, false)) [("key", kt); ("peer-key", pt)]%string ++ []).
  rewrite (Parse_rendered _ _ _ _ _ (keyed_server kt pt)); [done|by apply names_ok|].
  set_flags serverFlagSet_distinct. reflexivity.
Qed.

(** The client's flags with a peer and keys. *)
Definition keyed_client (peer kt pt : string) : clientFlags := mkClientFlags (keyed_flags kt pt) peer EmptyString EmptyString false.

Lemma parse_keyed_client peer kt pt :
  Parse clientFlagSet ["--peer"; peer; "--key"; kt; "--peer-key"; pt]%string client_defaults = Ok (keyed_client peer kt pt, []).
Proof.
  change ["--peer"; peer; "--key"; kt; "--peer-key"; pt]%string
    with (render clientFlagSet (λ _, (true, false)) [("peer", peer); ("key", kt); ("peer-key", pt)]%string ++ []).
  rewrite (Parse_rendered _ _ _ _ _ (keyed_client peer kt pt)); [done|by apply names_ok|].
  set_flags clientFlagSet_distinct. reflexivity.
Qed.

Lemma client_keyed peer kt pt key pub qs :
  peer ≠ EmptyString → parseKey readFile kt = Ok key → parseKey readFile pt = Ok pub → openTUN "ph0" 4 true = Some qs →
  ∃ tunes, client_config readFile openTUN (keyed_client peer kt pt) =
    Ok (mkClientCfg peer 4 qs key pub CipherAESGCM AddrZero AddrZero, tunes).
Proof.
  intros Hpeer Hk Hp Ho. unfold client_config. cbn [keyed_client keyed_flags lf_peer lf_common cf_encrypt cf_tun cf_lanes cf_vnetHdr cf_key cf_peerKey].
  rewrite bool_decide_eq_false_2 by done. change (lift_cipher (ParseCipher "aes-gcm")) with (@Ok cliError _ CipherAESGCM). cbn [rbind].
  rewrite Ho. change (lf_reqIP (keyed_client peer kt pt)) with EmptyString. change (lf_reqIP6 (keyed_client peer kt pt)) with EmptyString.
  change (request_ip Is4 ERequestIP "") with (@Ok cliError _ AddrZero). change (request_ip Is6 ERequestIP6 "") with (@Ok cliError _ AddrZero).
  cbn [rbind]. rewrite Hk, Hp. cbn [rbind]. eauto.
Qed.

(** With neither rules nor proxy to bring up, [Run] only needs its listening socket. *)
Lemma Run_plain srv up os mode : listen_ok up = true → nft_Enabled (NFT (sv_cfg srv)) = false → tp_Enabled (TPROXY (sv_cfg srv)) = false →
  server_setup srv = Ok mode → ∃ s s', Run quote exec srv up os = (EServed, Some (mode, s), s').
Proof.
  intros Hl Hn Ht Hs. unfold Run, up_nft. rewrite Hn. unfold up_tproxy. rewrite Ht. unfold up_listen. rewrite Hl, Hs. eauto.
Qed.

(** C14: Keys from the command line to the tunnel.  Of two 32-byte keys drawn by [genkey],
    [pubkey] reads the printed text and prints the public key; started with the server's
    key and the client's public key as printed, [server] runs in keyed single-client mode
    with exactly these keys; started with the client's key and the server's public key,
    [client] runs its four lanes; and the two are configured for each other, so that the
    tunnel theorem applies to them. *)
Theorem genkey_setup env prog peer privS privC qs :
  length privS = pubKeyLen → length privC = pubKeyLen → peer ≠ EmptyString →
  openTUN "ph0" 4 true = Some qs → length qs = 4%nat → listen_ok (e_up env) = true →
  let pubS := x25519_public privS in
  let pubC := x25519_public privC in
  main (mkEnv (Some privS) (e_stdin env) (e_up env) (e_os env) (e_evs env)) [prog; "genkey"%string] = Printed (line (FormatKey privS)) ∧
  main (mkEnv (e_key env) (Some (bytes_of (line (FormatKey privS)))) (e_up env) (e_os env) (e_evs env)) [prog; "pubkey"%string]
    = Printed (line (FormatKey pubS)) ∧
  ∃ srv tunesS cl tunesC lanes,
    main env [prog; "server"; "--key"; FormatKey privS; "--peer-key"; FormatKey pubC]%string
      = ServerExits srv tunesS (SingleMode (Some (mkDHKey privS pubS)) (Some (serverAuthorizer None pubC))) ∧
    main env [prog; "client"; "--peer"; peer; "--key"; FormatKey privC; "--peer-key"; FormatKey pubS]%string
      = ClientExits cl tunesC false lanes ∧ length lanes = 4%nat ∧
    NewServer (sv_cfg srv) = Ok srv ∧ ClientConfig_Validate (cli_cfg cl) = None ∧ configured_for (cli_cfg cl) srv.
Proof.
  intros HlS HlC Hpeer Ho Hq Hlis pubS pubC.
  assert (length pubS = pubKeyLen ∧ length pubC = pubKeyLen) as [LpS LpC] by (split; by apply x25519_public_length).
  assert (privS ≠ [] ∧ privC ≠ []) as [NS NC] by (split; intros ->; done).
  assert (PublicFromPrivate privS = Some pubS) as HpS by (unfold PublicFromPrivate; by rewrite HlS).
  split; [done|]. split.
  { cbn [main bool_decide]. change (runPubKey (Some (bytes_of (line (FormatKey privS)))) = Printed (line (FormatKey pubS))).
    unfold runPubKey. by rewrite FormatKey_line, string_of_bytes_of, ParseKey_Format, HpS. }
  destruct (start_keyed (FormatKey privS) (FormatKey pubC) privS pubC qs) as (srv & tunesS & Hs & Hn & Ek & Ep & Ec & Em & Edb & Enft & Etp);
    [by apply parseKey_Format|by apply parseKey_Format|done|done|by right|].
  destruct (client_keyed peer (FormatKey privC) (FormatKey pubS) privC pubS qs) as (tunesC & Hc);
    [done|by apply parseKey_Format|by apply parseKey_Format|done|]. set (cfg := mkClientCfg _ _ _ _ _ _ _ _) in Hc.
  assert (ClientConfig_Validate cfg = None) as Hv by (apply ClientConfig_Validate_ok; split; cbn; [done|by rewrite Hq|by right]).
  destruct (NewClient_Ok cfg Hv) as (cl & Hcl & Ecl & _).
  destruct (client_lanes_lookup cfg (e_evs env)) as (lanes & Hlanes & Hll & _); [cbn; by rewrite Hq|].
  exists srv, tunesS, cl, tunesC, lanes. rewrite Ecl. split_and!; try done; [| |by rewrite Hll|].
  - cbn [main bool_decide]. change (runServer (e_up env) (e_os env) ["--key"; FormatKey privS; "--peer-key"; FormatKey pubC]%string =
      ServerExits srv tunesS (SingleMode (Some (mkDHKey privS pubS)) (Some (serverAuthorizer None pubC)))).
    unfold runServer. rewrite parse_keyed_server, Hs.
    destruct (Run_plain srv (e_up env) (e_os env) (SingleMode (Some (mkDHKey privS pubS)) (Some (serverAuthorizer None pubC))))
      as (s1 & s2 & ->); [done..| |done].
    unfold server_setup. fold (multi_client (sv_cfg srv)). rewrite Em. unfold sv_keyed. rewrite Ek, (proj2 (nonempty_length _)) by done.
    rewrite (noiseStatic_public _ _ HpS). by rewrite Edb, Ep.
  - cbn [main bool_decide]. change (runClient (e_evs env) ["--peer"; peer; "--key"; FormatKey privC; "--peer-key"; FormatKey pubS]%string =
      ClientExits cl tunesC false lanes).
    unfold runClient. rewrite parse_keyed_client, Hc, Hcl, Ecl, Hlanes. done.
  - right. exists EmptyString. rewrite Ek, Ep, Ec, Edb. split_and!; try done; [|apply list_elem_of_here].
    unfold serverAuthorizer. fold pubC. rewrite (proj2 (nonempty_length pubC)) by (intros E; by rewrite E in LpC).
    by rewrite bool_decide_eq_true_2.
Qed.

(** A server started without flags, if it starts at all, has no keys. *)
Lemma defaults_open srv tunes : start_server readFile decodeYAML openTUN server_defaults = Ok (srv, tunes) →
  server_setup srv = Ok (SingleMode None None).
Proof.
  unfold start_server. intros ([cfg tn] & Hcfg & Hs)%rbind_Ok. cbn [fst snd] in Hs.
  destruct (NewServer cfg) as [s'| |] eqn:Hn; [|done..]. injection Hs as <- <-. apply NewServer_Ok in Hn as (_ & Hcs & _).
  unfold server_config in Hcfg. apply rbind_Ok in Hcfg as (c0 & Hc0 & Hcfg). injection Hc0 as <-.
  apply rbind_Ok in Hcfg as (fc & Hf & Hcfg). injection Hf as <-.
  apply rbind_Ok in Hcfg as (c1 & Ha & Hcfg). apply rbind_Ok in Hcfg as (c2 & Hfin & Hcfg). injection Hcfg as <- <-.
  match type of Ha with lift_apply (ApplyServer _ ?c) = _ => destruct (apply_empty c) as (c1' & E & _ & Ek & _ & _ & _ & E4 & E6 & _); [done..|] end.
  rewrite E in Ha. injection Ha as <-. cbn in Ek, E4, E6.
  destruct (openTUN "ph0" 4 true) as [qs|] eqn:Ho.
  - destruct (finish_single server_defaults c1' qs) as (c2' & E2 & _ & _ & _ & Ek2 & _ & _ & _ & Em2 & _);
      [done|done|unfold multi_client; by rewrite E4, E6|exact Ho|]. rewrite E2 in Hfin. injection Hfin as <-.
    unfold server_setup. rewrite Hcs. fold (multi_client c2'). rewrite Em2. unfold sv_keyed. by rewrite Ek2, Ek.
  - unfold finish_config in Hfin. fold (multi_client c1') in Hfin. unfold multi_client in Hfin. rewrite E4, E6 in Hfin.
    cbn in Hfin. by rewrite Ho in Hfin.
Qed.

(** The mode [Run] serves in is the one the set-up chose. *)
Lemma Run_mode srv up os e mode s s' : Run quote exec srv up os = (e, Some (mode, s), s') → server_setup srv = Ok mode.
Proof. unfold Run. intros Hr. repeat case_match; by simplify_eq. Qed.

(** C36: A value given to a boolean flag as a separate argument.  Package flag takes it for
    the first argument that is not a flag, and [runServer] does not look at what is left
    over: [server --vnet_hdr false ...] runs exactly as [server] does, with the header mode
    on and every flag after it dropped, the keys included, so that the server it starts
    admits any client. *)
Theorem bool_value_drops_flags env prog rest :
  let out := main env (prog :: "server" :: "--vnet_hdr" :: "false" :: rest)%string in
  out = main env [prog; "server"%string] ∧
  (∀ srv tunes mode, out = ServerExits srv tunes mode → mode = SingleMode None None).
Proof.
  assert (∀ args, main env (prog :: "server" :: args)%string = runServer (e_up env) (e_os env) args) as Hm by done.
  assert (Parse serverFlagSet ("--vnet_hdr" :: "false" :: rest)%string server_defaults = Ok (server_defaults, "false"%string :: rest)) as Hp
    by reflexivity.
  intros out. unfold out. rewrite !Hm. unfold runServer. rewrite Hp. change (Parse serverFlagSet [] server_defaults) with (@Ok flagError _ (server_defaults, @nil string)).
  split; [done|]. intros srv tunes mode. destruct (start_server _ _ _ server_defaults) as [[s tn]|e|] eqn:Hs; [|done..].
  apply defaults_open in Hs. pose proof (Run_mode s (e_up env) (e_os env)) as Hmode.
  destruct (Run quote exec s (e_up env) (e_os env)) as [[e [[mode' ?]|]] ?]; [|by destruct e].
  specialize (Hmode e mode' _ _ eq_refl). rewrite Hs in Hmode. injection Hmode as <-. destruct e; try done. by intros [= _ _ <-].
Qed.

End main.

(** ** Demonstrations *)

Definition demo_sflags : serverFlags :=
  mkServerFlags (mkCommon "ph1" 8 "@/etc/ph.key" "a=b" true false "chacha20" (-1)) "[::]:443" EmptyString "10.66.0.0/24" "10.66.0.1"
    EmptyString EmptyString "phose1" "-" "--".

(** Values that look like flags or contain an equals sign come back as they are. *)
Example flags_roundtrip_witness :
  Parse clientFlagSet (render clientFlagSet (λ n, (bool_decide (n = "key"%string), bool_decide (n = "tun"%string))) (client_texts client_defaults) ++ ["rest"%string; "--lanes"%string])
    client_defaults = Ok (client_defaults, ["rest"; "--lanes"]%string) ∧
  (Parse serverFlagSet (render serverFlagSet (λ n, (bool_decide (n = "key"%string), bool_decide (n = "tun"%string))) (server_texts demo_sflags) ++ ["rest"%string; "--lanes"%string])
    server_defaults = Ok (demo_sflags, ["rest"; "--lanes"]%string)).
Proof.
  destruct (flags_roundtrip (λ n, (bool_decide (n = "key"%string), bool_decide (n = "tun"%string))) demo_sflags client_defaults ["rest"; "--lanes"]%string)
    as [Hs Hc]; [split; cbn; lia|split; cbn; lia|reflexivity|]. exact (conj Hc Hs).
Defined.

#[local] Existing Instance demo_obfs.
#[local] Existing Instance toy_noise.

Definition demo_env : environment (W := unit) :=
  mkEnv (Some demo_privS) None (mkUp false false false true [] Tproxy.udp_init) (tt, []) (λ _, [CtxDone]).

Definition demo_exec (_ : cmd) (w : unit) : option (string * string) * unit := (None, w).

Example genkey_setup_witness :
  ∃ srv tunes mode, main (λ _, None) (λ _, None) sample_openTUN (λ s, s) demo_exec demo_env
    ["packethose"; "server"; "--key"; FormatKey demo_privS; "--peer-key"; FormatKey demo_privC]%string = ServerExits srv tunes mode.
Proof.
  destruct (genkey_setup (λ _, None) (λ _, None) sample_openTUN (λ s, s) demo_exec demo_env "packethose" "192.0.2.1:443" demo_privS demo_privC
    (replicate 4 (mkPIO true (Some false) true))) as (_ & _ & srv & tunesS & cl & tunesC & lanes & Hs & _);
    [reflexivity|reflexivity|discriminate|reflexivity|reflexivity|reflexivity|].
  exists srv, tunesS. eexists. exact Hs.
Defined.

(** The key is given, and the server runs without one. *)
Example bool_value_drops_flags_witness :
  ∃ srv tunes, main (λ _, None) (λ _, None) sample_openTUN (λ s, s) demo_exec demo_env
    ["packethose"; "server"; "--vnet_hdr"; "false"; "--key"; FormatKey demo_privS]%string = ServerExits srv tunes (SingleMode None None).
Proof.
  destruct (bool_value_drops_flags (λ _, None) (λ _, None) sample_openTUN (λ s, s) demo_exec demo_env "packethose"
    ["--key"; FormatKey demo_privS]%string) as [_ Hmode].
  destruct (main _ _ _ _ _ demo_env ["packethose"; "server"; "--vnet_hdr"; "false"; "--key"; FormatKey demo_privS]%string)
    as [c|e|l|srv tunes mode|cl tunes a lanes|] eqn:E.
  4: exists srv, tunes; by rewrite (Hmode srv tunes mode eq_refl).
  all: vm_compute in E; discriminate E.
Defined.
